(** * celmech: Poincare variables, the Poincare Hamiltonian and the
      symplectic evolution operators

    A shallow embedding of [celmech/poincare.py] and
    [celmech/symplectic_evolution_operators.py].

    Conventions of the embedding.
    - Python and numpy floats are read as real numbers ([R]): every
      statement below is about exact arithmetic.  [np.sqrt] is [sqrt],
      which is only used in statements where its argument is non-negative
      (numpy returns NaN otherwise).
    - A division of the source is the division of real numbers; where a
      statement depends on a quotient, its hypotheses keep the divisor away
      from zero.  [div_mu_or_raise] is the one place where the source
      catches the exception of a zero divisor.
    - Raised exceptions are explicit: a function that may raise returns a
      [result].
    - sympy expressions are a small term language [expr]; two expressions
      are compared through their value [eval] under a valuation of the
      symbols, since sympy itself normalises terms.
    - numpy, scipy and the modules of celmech that the two files import
      ([np.linalg.eigh], [scipy.linalg.expm], [disturbing_function],
      [hamiltonian]) are taken as parameters. *)

From Stdlib Require Import Reals Lra Lia Psatz List String ZArith Bool Arith.
Import ListNotations.

Local Open Scope string_scope.
Local Open Scope list_scope.
Local Open Scope R_scope.

(** ** Exceptions *)

Inductive exn : Type :=
| AttributeError (msg : string)
| NameError (name : string)
| IndexError
| KeyError
| ValueError
| TypeError
| LinAlgError
| AssertionError.

Inductive result (A : Type) : Type :=
| Ok (a : A)
| Raise (e : exn).

Arguments Ok {A} a.
Arguments Raise {A} e.

Definition bind {A B : Type} (m : result A) (f : A -> result B) : result B :=
  match m with
  | Ok a => f a
  | Raise e => Raise e
  end.

Notation "x <- m ;; k" := (bind m (fun x => k))
  (at level 61, m at next level, right associativity).
Notation "' p <- m ;; k" := (bind m (fun p => k))
  (at level 61, p pattern, m at next level, right associativity).

(** A list comprehension whose body may raise: the first exception wins. *)
Fixpoint mapM {A B : Type} (f : A -> result B) (xs : list A) : result (list B) :=
  match xs with
  | [] => Ok []
  | x :: xs' => y <- f x ;; ys <- mapM f xs' ;; Ok (y :: ys)
  end.

(** ** Numbers

    [get_re_im_components] is called on sympy expressions by
    [add_monomial_term] and works on plain numbers as well: the arithmetic it
    uses is the interface [PyNum]. *)

Class PyNum (A : Type) : Type := {
  of_Z : Z -> A;
  add : A -> A -> A;
  mul : A -> A -> A;
  npow : A -> nat -> A
}.

#[export] Instance PyNum_R : PyNum R := {
  of_Z := IZR;
  add := Rplus;
  mul := Rmult;
  npow := pow
}.

(** sympy's [binomial(n, l)] on non-negative integers. *)
Fixpoint binomial (n l : nat) : nat :=
  match l with
  | O => 1%nat
  | S l' =>
      match n with
      | O => 0%nat
      | S n' => (binomial n' l' + binomial n' l)%nat
      end
  end.

(** ** [get_re_im_components] *)

Definition re_im_step {A : Type} `{PyNum A} (x y : A) (absk : nat) (sgnk : Z)
    (acc : A * A) (l : nat) : A * A :=
  let '(re, im) := acc in
  let b := of_Z (Z.of_nat (binomial absk l)) in
  if Nat.eqb (l mod 2) 0
  then (add re (mul (mul (mul b (npow (mul (of_Z sgnk) y) l)) (npow x (absk - l)))
                    (of_Z ((-1) ^ Z.of_nat (l / 2)))), im)
  else (re, add im (mul (mul (mul b (npow (mul (of_Z sgnk) y) l)) (npow x (absk - l)))
                        (of_Z ((-1) ^ Z.of_nat ((l - 1) / 2))))).

Definition get_re_im_components {A : Type} `{PyNum A} (x y : A) (k : Z) : A * A :=
  if (k =? 0)%Z then (of_Z 1, of_Z 0)
  else
    let absk := Z.abs_nat k in
    let sgnk := Z.sgn k in
    fold_left (re_im_step x y absk sgnk) (seq 0 (absk + 1)) (of_Z 0, of_Z 0).

(** ** Complex numbers *)

Record C : Type := mkC { Re : R; Im : R }.

Definition Cadd (z w : C) : C := mkC (Re z + Re w) (Im z + Im w).
Definition Cmul (z w : C) : C :=
  mkC (Re z * Re w - Im z * Im w) (Re z * Im w + Im z * Re w).
Definition RtoC (x : R) : C := mkC x 0.
Definition Copp (z : C) : C := mkC (- Re z) (- Im z).
Definition Csub (z w : C) : C := Cadd z (Copp w).

Fixpoint Cpow (z : C) (n : nat) : C :=
  match n with
  | O => RtoC 1
  | S n' => Cmul z (Cpow z n')
  end.

(** Sum of [f 0 .. f n]. *)
Fixpoint Csum (f : nat -> C) (n : nat) : C :=
  match n with
  | O => f O
  | S n' => Cadd (Csum f n') (f (S n'))
  end.

(** One term of the binomial expansion of [(a + b) ^ n]. *)
Definition binom_term (a b : C) (n l : nat) : C :=
  Cmul (Cmul (RtoC (INR (binomial n l))) (Cpow b l)) (Cpow a (n - l)).


(** ** Python lists *)

(** [xs[i]]: a negative index counts from the end, an index out of range
    raises [IndexError]. *)
Definition py_index {A : Type} (xs : list A) (i : Z) : result A :=
  let n := Z.of_nat (List.length xs) in
  let j := if (i <? 0)%Z then (i + n)%Z else i in
  if ((j <? 0) || (n <=? j))%Z then Raise IndexError
  else match nth_error xs (Z.to_nat j) with
       | Some x => Ok x
       | None => Raise IndexError
       end.

Definition is_not_None {A : Type} (o : option A) : bool :=
  match o with Some _ => true | None => false end.

(** [num_passed]: the number of entries that are not [None]. *)
Definition num_passed {A : Type} (iterable : list (option A)) : nat :=
  fold_left (fun ctr i => if is_not_None i then S ctr else ctr) iterable 0%nat.

(** The value of a keyword argument known to be passed. *)
Definition passed (o : option R) : result R :=
  match o with Some v => Ok v | None => Raise TypeError end.

(** ** [PoincareParticle] *)

(** The keyword arguments of [PoincareParticle.__init__]. *)
Module PoincareParticleArgs.
Record t : Type := mk {
    coordinates : string;
    G : R;
    m : option R; Mstar : option R; mu : option R; M : option R;
    sLambda : option R; l : option R; sGamma : option R; gamma : option R;
    sQ : option R; q : option R;
    Lambda : option R; Gamma : option R; Q : option R;
    a : option R; e : option R; inc : option R;
    pomega : option R; Omega : option R;
    skappa : option R; seta : option R; ssigma : option R; srho : option R;
    kappa : option R; eta : option R; sigma : option R; rho : option R
  }.

(** [PoincareParticle(coordinates=.., G=.., mu=.., M=.., sLambda=.., l=..,
    skappa=.., seta=.., ssigma=.., srho=..)] *)
Definition of_stored (coordinates : string) (G mu M sLambda l skappa seta ssigma srho : R) : t :=
    mk coordinates G None None (Some mu) (Some M)
       (Some sLambda) (Some l) None None None None None None None
       None None None None None
       (Some skappa) (Some seta) (Some ssigma) (Some srho)
       None None None None.

(** [PoincareParticle(coordinates=.., G=.., m=.., Mstar=.., l=.., eta=..,
    rho=.., Lambda=.., kappa=.., sigma=..)], the call of
    [PoincareParticles.__getitem__]. *)
Definition of_massive (coordinates : string) (G : R) (m Mstar : option R)
      (l eta rho Lambda kappa sigma : R) : t :=
    mk coordinates G m Mstar None None
       None (Some l) None None None None (Some Lambda) None None
       None None None None None
       None None None None
       (Some kappa) (Some eta) (Some sigma) (Some rho).

(** [PoincareParticle(m=.., Mstar=.., a=.., l=.., e=.., pomega=.., inc=..,
    Omega=.., coordinates=.., G=..)], the call of [Poincare.from_Simulation]. *)
Definition of_orbit (coordinates : string) (G m Mstar a l e pomega inc Omega : R) : t :=
    mk coordinates G (Some m) (Some Mstar) None None
       None (Some l) None None None None None None None
       (Some a) (Some e) (Some inc) (Some pomega) (Some Omega)
       None None None None
       None None None None.

(** [PoincareParticle(mu=.., M=.., a=.., e=..)] with the defaults
    [coordinates='canonical heliocentric'] and [G=1.]. *)
Definition of_a_e (mu M a e : R) : t :=
    mk "canonical heliocentric" 1 None None (Some mu) (Some M)
       None None None None None None None None None
       (Some a) (Some e) None None None
       None None None None
       None None None None.
End PoincareParticleArgs.

Module PoincareParticle.
Module Args := PoincareParticleArgs.

(** The attributes a particle stores. *)
Record t : Type := mk {
    G : R;
    coordinates : string;
    mu : R;
    M : R;
    sLambda : R;
    l : R;
    skappa : R;
    seta : R;
    ssigma : R;
    srho : R
  }.

Definition msg_coordinates : string :=
    "coordinates must either be 'canonical heliocentric' (default) or 'democratic heiocentric".
Definition msg_masses : string :=
    "Have to either pass physical masses (m, Mstar) or 'canonical masses' (mu and M). Can't mix or pass both.".
Definition msg_test_particle : string :=
    "Need to pass specific actions (sLambda, sGamma, and sQ) or a, e, and inc for test particles".

(** The first block of [__init__]: the canonical masses [mu] and [M]. *)
Definition init_masses (kw : Args.t) : result (R * R) :=
    match Args.m kw, Args.Mstar kw with
    | Some m, Some Mstar =>
        if is_not_None (Args.mu kw) || is_not_None (Args.M kw)
        then Raise (AttributeError msg_masses)
        else if String.eqb (Args.coordinates kw) "democratic heliocentric"
        then Ok (m, Mstar)
        else if String.eqb (Args.coordinates kw) "canonical heliocentric"
        then Ok (m * Mstar / (Mstar + m), Mstar + m)
        else Raise (AttributeError msg_coordinates)
    | None, None =>
        match Args.mu kw, Args.M kw with
        | Some mu, Some M => Ok (mu, M)
        | _, _ => Raise (AttributeError msg_masses)
        end
    | _, _ => Raise (AttributeError msg_masses)
    end.

(** [try: value/self.mu  except: raise AttributeError(...)]: the division of
    Python floats raises on a zero divisor, and the handler turns this into
    an [AttributeError]. *)
Definition div_mu_or_raise (value mu : R) : result R :=
    if Req_dec_T mu 0 then Raise (AttributeError msg_test_particle)
    else Ok (value / mu).

(** At most one of the alternatives of an orbital element may be passed. *)
Definition at_most_one (alternatives : list (option R)) (msg : string) : result unit :=
    if Nat.ltb 1 (num_passed alternatives) then Raise (AttributeError msg) else Ok tt.

(** The last block of [__init__]: the stored variables are computed from
    one alternative per orbital element. *)
Definition init_elements (kw : Args.t) (mu M : R) : result t :=
    let num := num_passed [Args.sLambda kw; Args.Lambda kw; Args.a kw] in
    if Nat.eqb num 0 then
      Raise (AttributeError
        "Must pass exactly 1 of Lambda, sLambda (specific Lambda, i.e., per unit mass), and a.")
    else if Nat.ltb 1 num then
      Raise (AttributeError
        "Can't pass more than 1 of Lambda, sLambda (specific Gamma, i.e. per unit mass), and a (semimajor axis)")
    else
    _ <- at_most_one [Args.sGamma kw; Args.Gamma kw; Args.e kw]
           "Can't pass more than 1 of Gamma, sGamma (specific Gamma, i.e. per unit mass), and e (eccentricity)" ;;
    let sGamma :=
      if Nat.eqb (num_passed [Args.sGamma kw; Args.Gamma kw; Args.e kw]) 0
      then Some 0 else Args.sGamma kw in
    _ <- at_most_one [Args.sQ kw; Args.Q kw; Args.inc kw]
           "Can't pass more than 1 of Q, sQ (specific Q, i.e. per unit mass), and inc (inclination)" ;;
    let sQ :=
      if Nat.eqb (num_passed [Args.sQ kw; Args.Q kw; Args.inc kw]) 0
      then Some 0 else Args.sQ kw in
    _ <- at_most_one [Args.gamma kw; Args.pomega kw]
           "Can't pass more than 1 of gamma (-pomega) and pomega (longitude of pericenter)" ;;
    let gamma :=
      if Nat.eqb (num_passed [Args.gamma kw; Args.pomega kw]) 0
      then Some 0 else Args.gamma kw in
    _ <- at_most_one [Args.q kw; Args.Omega kw]
           "Can't pass more than 1 of q (-Omega) and Omega (longitude of ascending node)" ;;
    let q :=
      if Nat.eqb (num_passed [Args.q kw; Args.Omega kw]) 0
      then Some 0 else Args.q kw in
    let l := match Args.l kw with Some v => v | None => 0 end in
    let gamma := match Args.pomega kw with Some pomega => Some (- pomega) | None => gamma end in
    let q := match Args.Omega kw with Some Omega => Some (- Omega) | None => q end in
    self_sLambda <-
      match Args.sLambda kw, Args.Lambda kw, Args.a kw with
      | Some sLambda, _, _ => Ok sLambda
      | None, Some Lambda, _ => div_mu_or_raise Lambda mu
      | None, None, Some a => Ok (sqrt (Args.G kw * M * a))
      | None, None, None => Raise TypeError
      end ;;
    sGamma <-
      match Args.Gamma kw, Args.e kw with
      | Some Gamma, _ => div_mu_or_raise Gamma mu
      | None, Some e => Ok (self_sLambda * (1 - sqrt (1 - e ^ 2)))
      | None, None => passed sGamma
      end ;;
    sQ <-
      match Args.Q kw, Args.inc kw with
      | Some Q, _ => div_mu_or_raise Q mu
      | None, Some inc => Ok ((self_sLambda - sGamma) * (1 - cos inc))
      | None, None => passed sQ
      end ;;
    gamma <- passed gamma ;;
    q <- passed q ;;
    Ok (mk (Args.G kw) (Args.coordinates kw) mu M self_sLambda l
           (sqrt (2 * sGamma) * cos gamma) (sqrt (2 * sGamma) * sin gamma)
           (sqrt (2 * sQ) * cos q) (sqrt (2 * sQ) * sin q)).

(** [PoincareParticle.__init__] *)
Definition init (kw : Args.t) : result t :=
    '(mu, M) <- init_masses kw ;;
    if Nat.eqb (num_passed [Args.sLambda kw; Args.l kw; Args.skappa kw;
                            Args.seta kw; Args.ssigma kw; Args.srho kw]) 6
    then
      sLambda <- passed (Args.sLambda kw) ;; l <- passed (Args.l kw) ;;
      skappa <- passed (Args.skappa kw) ;; seta <- passed (Args.seta kw) ;;
      ssigma <- passed (Args.ssigma kw) ;; srho <- passed (Args.srho kw) ;;
      Ok (mk (Args.G kw) (Args.coordinates kw) mu M sLambda l skappa seta ssigma srho)
    else if Nat.eqb (num_passed [Args.Lambda kw; Args.l kw; Args.kappa kw;
                                 Args.eta kw; Args.sigma kw; Args.rho kw]) 6
    then
      Lambda <- passed (Args.Lambda kw) ;; l <- passed (Args.l kw) ;;
      kappa <- passed (Args.kappa kw) ;; eta <- passed (Args.eta kw) ;;
      sigma <- passed (Args.sigma kw) ;; rho <- passed (Args.rho kw) ;;
      Ok (mk (Args.G kw) (Args.coordinates kw) mu M (Lambda / mu) l
             (kappa / sqrt mu) (eta / sqrt mu) (sigma / sqrt mu) (rho / sqrt mu))
    else init_elements kw mu M.

Definition _mu_M_to_m_Mstar (mu M : R) : R * R :=
    let d := sqrt (M ^ 2 - 4 * mu * M) in
    let Mstar := (M + d) / 2 in
    let m := mu * M / Mstar in
    (m, Mstar).

(** The properties [m] and [Mstar] return [None] when [coordinates] is
    neither of the two conventions. *)
Definition m (self : t) : option R :=
    if String.eqb (coordinates self) "democratic heliocentric" then Some (mu self)
    else if String.eqb (coordinates self) "canonical heliocentric"
    then Some (fst (_mu_M_to_m_Mstar (mu self) (M self)))
    else None.

Definition Mstar (self : t) : option R :=
    if String.eqb (coordinates self) "democratic heliocentric" then Some (M self)
    else if String.eqb (coordinates self) "canonical heliocentric"
    then Some (snd (_mu_M_to_m_Mstar (mu self) (M self)))
    else None.

(** Derived quantities. *)
Definition kappa (self : t) : R := sqrt (mu self) * skappa self.
Definition eta (self : t) : R := sqrt (mu self) * seta self.
Definition sigma (self : t) : R := sqrt (mu self) * ssigma self.
Definition rho (self : t) : R := sqrt (mu self) * srho self.
Definition Lambda (self : t) : R := mu self * sLambda self.
Definition Gamma (self : t) : R := mu self * (skappa self ^ 2 + seta self ^ 2) / 2.
Definition Q (self : t) : R := mu self * (ssigma self ^ 2 + srho self ^ 2) / 2.
Definition sGamma (self : t) : R := (skappa self ^ 2 + seta self ^ 2) / 2.
Definition sQ (self : t) : R := (ssigma self ^ 2 + srho self ^ 2) / 2.
Definition a (self : t) : R := sLambda self ^ 2 / G self / M self.
Definition n (self : t) : R := G self ^ 2 * M self ^ 2 / sLambda self ^ 3.
Definition x (self : t) : C :=
    mkC (kappa self / sqrt 2) (- eta self / sqrt 2).
Definition y (self : t) : C :=
    mkC (sigma self / sqrt 2) (- rho self / sqrt 2).

(** The argument of the square root in the property [e]. *)
Definition e_radicand (self : t) : R :=
    let GbyL := sGamma self / sLambda self in
    1 - (1 - GbyL) * (1 - GbyL).

Definition msg_e : string := "sGamma:{0}, sLambda:{1}, GbyL:{2}, val:{3}".

Definition e (self : t) : result R :=
    let GbyL := sGamma self / sLambda self in
    if Rlt_dec (1 - (1 - GbyL) * (1 - GbyL)) 0
    then Raise (AttributeError msg_e)
    else Ok (sqrt (1 - (1 - GbyL) * (1 - GbyL))).

Definition msg_inc : string := "sGamma:{0}, sLambda:{1}, sQ:{2}, cosi:{3}".

(** The property [inc]: [np.arccos] of [cosi = 1 - sQ / (sLambda - sGamma)],
    refused when [np.abs(cosi) > 1]. *)
Definition inc (self : t) : result R :=
    let QbyLminusG := sQ self / (sLambda self - sGamma self) in
    let cosi := 1 - QbyLminusG in
    if Rlt_dec 1 (Rabs cosi)
    then Raise (AttributeError msg_inc)
    else Ok (acos cosi).

(** Plain attribute assignment and the property setters. *)
Definition set_l (value : R) (self : t) : t :=
    mk (G self) (coordinates self) (mu self) (M self) (sLambda self) value
       (skappa self) (seta self) (ssigma self) (srho self).
Definition set_sLambda (value : R) (self : t) : t :=
    mk (G self) (coordinates self) (mu self) (M self) value (l self)
       (skappa self) (seta self) (ssigma self) (srho self).
Definition set_skappa (value : R) (self : t) : t :=
    mk (G self) (coordinates self) (mu self) (M self) (sLambda self) (l self)
       value (seta self) (ssigma self) (srho self).
Definition set_seta (value : R) (self : t) : t :=
    mk (G self) (coordinates self) (mu self) (M self) (sLambda self) (l self)
       (skappa self) value (ssigma self) (srho self).
Definition set_ssigma (value : R) (self : t) : t :=
    mk (G self) (coordinates self) (mu self) (M self) (sLambda self) (l self)
       (skappa self) (seta self) value (srho self).
Definition set_srho (value : R) (self : t) : t :=
    mk (G self) (coordinates self) (mu self) (M self) (sLambda self) (l self)
       (skappa self) (seta self) (ssigma self) value.

Definition set_kappa (value : R) (self : t) : t :=
    set_skappa (value / sqrt (mu self)) self.
Definition set_eta (value : R) (self : t) : t :=
    set_seta (value / sqrt (mu self)) self.
Definition set_sigma (value : R) (self : t) : t :=
    set_ssigma (value / sqrt (mu self)) self.
Definition set_rho (value : R) (self : t) : t :=
    set_srho (value / sqrt (mu self)) self.
Definition set_Lambda (value : R) (self : t) : t :=
    set_sLambda (value / mu self) self.
End PoincareParticle.

(** ** sympy symbols and expressions *)

(** The symbols the two files create, by family and index: ["G"], ["m1"],
    ["mu1"], ["M1"], ["Lambda1"], ["lambda1"], ["kappa1"], ["eta1"],
    ["sigma1"], ["rho1"], the reference values [_get_Lambda0_symbol(i)] and
    [_get_a0_symbol(i)], the ratios ["\alpha_{i\,j}"], and any other named
    symbol. *)
Inductive symbol : Type :=
| sym_G
| sym_m (i : Z)
| sym_mu (i : Z)
| sym_M (i : Z)
| sym_Lambda (i : Z)
| sym_lambda (i : Z)
| sym_kappa (i : Z)
| sym_eta (i : Z)
| sym_sigma (i : Z)
| sym_rho (i : Z)
| sym_Lambda0 (i : Z)
| sym_a0 (i : Z)
| sym_alpha (i j : Z)
| sym_other (name : string).

Definition symbol_eq_dec (s1 s2 : symbol) : {s1 = s2} + {s1 <> s2}.
Proof. decide equality; try apply Z.eq_dec; apply string_dec. Defined.

Definition _get_a0_symbol (i : Z) : symbol := sym_a0 i.
Definition _get_Lambda0_symbol (i : Z) : symbol := sym_Lambda0 i.

Inductive expr : Type :=
| Int (z : Z)
| Sym (s : symbol)
| Add (a b : expr)
| Sub (a b : expr)
| Mul (a b : expr)
| Div (a b : expr)
| Neg (a : expr)
| Pow (a : expr) (n : Z)
| Sqrt (a : expr)
| Cos (a : expr)
| Sin (a : expr).

Declare Scope expr_scope.
Delimit Scope expr_scope with expr.
Bind Scope expr_scope with expr.
Notation "a + b" := (Add a b) : expr_scope.
Notation "a - b" := (Sub a b) : expr_scope.
Notation "a * b" := (Mul a b) : expr_scope.
Notation "a / b" := (Div a b) : expr_scope.
Notation "- a" := (Neg a) : expr_scope.
Notation "a ** n" := (Pow a n) (at level 30, right associativity) : expr_scope.

(** The value of an expression once every symbol has a value. *)
Fixpoint eval (env : symbol -> R) (ex : expr) : R :=
  match ex with
  | Int z => IZR z
  | Sym s => env s
  | Add a b => eval env a + eval env b
  | Sub a b => eval env a - eval env b
  | Mul a b => eval env a * eval env b
  | Div a b => eval env a / eval env b
  | Neg a => - eval env a
  | Pow a n => powerRZ (eval env a) n
  | Sqrt a => sqrt (eval env a)
  | Cos a => cos (eval env a)
  | Sin a => sin (eval env a)
  end.

#[export] Instance PyNum_expr : PyNum expr := {
  of_Z := Int;
  add := Add;
  mul := Mul;
  npow := fun a n => Pow a (Z.of_nat n)
}.

(** ** Python dicts keyed by symbols *)

Definition dict : Type := list (symbol * R).

Fixpoint dict_set (d : dict) (k : symbol) (v : R) : dict :=
  match d with
  | [] => [(k, v)]
  | (k', v') :: d' =>
      if symbol_eq_dec k k' then (k, v) :: d' else (k', v') :: dict_set d' k v
  end.

Fixpoint dict_get (d : dict) (k : symbol) : result R :=
  match d with
  | [] => Raise KeyError
  | (k', v') :: d' => if symbol_eq_dec k k' then Ok v' else dict_get d' k
  end.

(** The two conventions [PoincareParticle.__init__] accepts together with
    physical masses. *)
Definition valid_coordinates (coordinates : string) : Prop :=
  coordinates = "democratic heliocentric" \/ coordinates = "canonical heliocentric".

(** ** [Poincare] and [PoincareParticles] *)

Module Poincare.

(** The attributes of a [Poincare] object.  [qpvars], [values] and [time]
    (the attribute [t]) are kept by the base class [PhaseSpaceState]. *)
Record t : Type := mk {
    G : R;
    masses : list (option R);
    coordinates : string;
    qpvars : list symbol;
    values : list R;
    time : R
  }.

(** Modelled from the spec: [PhaseSpaceState.Ndof], of the module
    [hamiltonian]: the flat vector holds the [Ndof] coordinates first and
    the [Ndof] momenta after them. *)
Definition Ndof (self : t) : nat := (List.length (values self) / 2)%nat.

(** [N]: the number of bodies, the star included. *)
Definition N (self : t) : nat := (Ndof self / 3 + 1)%nat.

(** Every entry of [masses] is a positive number: none of the divisions by
    a mass in [PoincareParticle.__init__] has a zero divisor. *)
Definition positive_masses (self : t) : Prop :=
    Forall (fun m => exists v, m = Some v /\ 0 < v) (masses self).

(** One turn of the loop of [__init__] over [enumerate(poincareparticles)];
    the accumulator is [(initial_p_values, initial_q_values, qvars, pvars)]. *)
Definition init_step (acc : list R * list R * list symbol * list symbol)
      (ip : nat * PoincareParticle.t) : list R * list R * list symbol * list symbol :=
    let '(initial_p_values, initial_q_values, qvars, pvars) := acc in
    let '(i, particle) := ip in
    let i1 := Z.of_nat (i + 1) in
    let q := [sym_lambda i1; sym_eta i1; sym_rho i1] in
    let p := [sym_Lambda i1; sym_kappa i1; sym_sigma i1] in
    let pvals := [PoincareParticle.Lambda particle; PoincareParticle.kappa particle;
                  PoincareParticle.sigma particle] in
    let qvals := [PoincareParticle.l particle; PoincareParticle.eta particle;
                  PoincareParticle.rho particle] in
    (initial_p_values ++ pvals, initial_q_values ++ qvals, qvars ++ q, pvars ++ p).

(** The values one particle contributes to the two halves of the flat
    vector. *)
Definition qvals_of (particle : PoincareParticle.t) : list R :=
    [PoincareParticle.l particle; PoincareParticle.eta particle;
     PoincareParticle.rho particle].
Definition pvals_of (particle : PoincareParticle.t) : list R :=
    [PoincareParticle.Lambda particle; PoincareParticle.kappa particle;
     PoincareParticle.sigma particle].

(** The ordering the specification describes for the flat vector: one
    block per variable. *)
Definition spec_blockwise_values (ps : list PoincareParticle.t) : list R :=
    map PoincareParticle.l ps ++ map PoincareParticle.eta ps
    ++ map PoincareParticle.rho ps ++ map PoincareParticle.Lambda ps
    ++ map PoincareParticle.kappa ps ++ map PoincareParticle.sigma ps.

Definition enumerate {A : Type} (xs : list A) : list (nat * A) :=
    combine (seq 0 (List.length xs)) xs.

(** [Poincare.__init__] *)
Definition init (G : R) (poincareparticles : list PoincareParticle.t)
      (coordinates : string) (t : R) : result Poincare.t :=
    p0 <- py_index poincareparticles 0 ;;
    let masses := PoincareParticle.Mstar p0 :: map PoincareParticle.m poincareparticles in
    let '(initial_p_values, initial_q_values, qvars, pvars) :=
      fold_left init_step (enumerate poincareparticles) ([], [], [], []) in
    let qpvars := qvars ++ pvars in
    let initial_values := initial_q_values ++ initial_p_values in
    Ok (mk G masses coordinates qpvars initial_values t).

Module PoincareParticles.

(** [__getitem__] with an integer key. *)
Definition getitem (p : Poincare.t) (i : Z) : result PoincareParticle.t :=
      if (i =? 0)%Z then Raise (AttributeError "No Poincare elements for the central star")
      else
        let i := if (i <? 0)%Z then (i + Z.of_nat (N p))%Z else i in
        if ((i <? 0) || (Z.of_nat (N p) <=? i))%Z
        then Raise (AttributeError "Index {0} used to access particles out of range.")
        else
          let val := values p in
          let j := (i - 1)%Z in
          l <- py_index val (j * 3)%Z ;;
          eta <- py_index val (j * 3 + 1)%Z ;;
          rho <- py_index val (j * 3 + 2)%Z ;;
          Lambda <- py_index val (Z.of_nat (Ndof p) + j * 3)%Z ;;
          kappa <- py_index val (Z.of_nat (Ndof p) + j * 3 + 1)%Z ;;
          sigma <- py_index val (Z.of_nat (Ndof p) + j * 3 + 2)%Z ;;
          m <- py_index (masses p) i ;;
          Mstar <- py_index (masses p) 0 ;;
          PoincareParticle.init
            (PoincareParticleArgs.of_massive (coordinates p) (G p) m Mstar
               l eta rho Lambda kappa sigma).

(** [__getitem__] with the slices [1:] and [1:N]:
    [[self[i] for i in range(1, N)]]; every access builds new
    [PoincareParticle] objects from the values of the state. *)
Definition getslice_from_1 (p : Poincare.t) : result (list PoincareParticle.t) :=
      mapM (getitem p) (map Z.of_nat (seq 1 (N p - 1))).

End PoincareParticles.

(** [copy]: the keyword arguments of the call are evaluated in order;
    [self.particles[1:self.N]] may raise, then the name [t] is looked up,
    which is bound neither in the method nor in the module. *)
Definition copy (self : t) : result Poincare.t :=
    let G := G self in
    let coordinates := coordinates self in
    poincareparticles <- PoincareParticles.getslice_from_1 self ;;
    Raise (NameError "t").

End Poincare.

(** ** Further exceptions, integers and ranges

    Exceptions of Python's arithmetic and of name lookup, next to those of
    [exn]: a function that can raise one of them returns an [outcome]. *)
Inductive py_error : Type :=
| Builtin (e : exn)
| ZeroDivisionError
| UnboundLocalError (name : string).

Inductive outcome (A : Type) : Type :=
| Done (a : A)
| Fail (e : py_error).
Arguments Done {A} a.
Arguments Fail {A} e.

Definition obind {A B : Type} (m : outcome A) (f : A -> outcome B) : outcome B :=
  match m with
  | Done a => f a
  | Fail e => Fail e
  end.

Notation "x <~ m ;; k" := (obind m (fun x => k))
  (at level 61, m at next level, right associativity).
Notation "' p <~ m ;; k" := (obind m (fun p => k))
  (at level 61, p pattern, m at next level, right associativity).

Definition lift {A : Type} (r : result A) : outcome A :=
  match r with
  | Ok a => Done a
  | Raise e => Fail (Builtin e)
  end.

Fixpoint ofoldM {A B : Type} (f : A -> B -> outcome A) (xs : list B) (acc : A) : outcome A :=
  match xs with
  | [] => Done acc
  | x :: xs' => acc' <~ f acc x ;; ofoldM f xs' acc'
  end.

(** [a % b] and [a // b] on Python integers. *)
Definition py_mod (a b : Z) : outcome Z :=
  if (b =? 0)%Z then Fail ZeroDivisionError else Done (a mod b)%Z.
Definition py_floordiv (a b : Z) : outcome Z :=
  if (b =? 0)%Z then Fail ZeroDivisionError else Done (a / b)%Z.

(** [range(lo, hi)] *)
Definition py_range (lo hi : Z) : list Z :=
  map (fun i => (lo + Z.of_nat i)%Z) (seq 0 (Z.to_nat (hi - lo))).

(** The line feed. *)
Definition nl : string :=
  String (Ascii.Ascii false true false true false false false false) "".

(** ** [PoincareHamiltonian] *)

(** A loop whose body may raise. *)
Fixpoint foldM {A B : Type} (f : A -> B -> result A) (xs : list B) (acc : A) : result A :=
  match xs with
  | [] => Ok acc
  | x :: xs' => acc' <- f acc x ;; foldM f xs' acc'
  end.

Fixpoint list_Z_eqb (u v : list Z) : bool :=
  match u, v with
  | [], [] => true
  | a :: u', b :: v' => Z.eqb a b && list_Z_eqb u' v'
  | _, _ => false
  end.

Module PoincareHamiltonian.

(** The entries of [resonance_indices]:
    [(indexIn, indexOut, (kvec, nuvec))]. *)
Definition key : Type := (Z * Z * (list Z * list Z))%type.

(** [==] on two such tuples. *)
Definition key_eqb (a b : key) : bool :=
    let '(aIn, aOut, (ak, anu)) := a in
    let '(bIn, bOut, (bk, bnu)) := b in
    Z.eqb aIn bIn && Z.eqb aOut bOut && list_Z_eqb ak bk && list_Z_eqb anu bnu.

(** The attributes of a [PoincareHamiltonian]; [updates] counts the calls
    of [self._update()], a method of the base class [Hamiltonian]. *)
Record t : Type := mk {
    H : expr;
    Hparams : dict;
    state : Poincare.t;
    resonance_indices : list key;
    updates : nat
  }.

Definition msg_duplicate : string :=
    "Monomial term alread included Hamiltonian; no new term added.".

(** The warnings of [add_eccentricity_MMR_terms] and of
    [add_all_MMR_and_secular_terms]. *)
Definition msg_unsupported_pq : string :=
  nl ++ "            MMRs with p<q or q<0 are not supported. "
  ++ nl ++ "            If you really want to include these terms, "
  ++ nl ++ "            they may be added individually with the "
  ++ nl ++ "            'add_monomial_term' method."
  ++ nl ++ "            ".
Definition msg_unsupported_jk : string :=
  nl ++ "            MMRs with j<k or k<0 are not supported. "
  ++ nl ++ "            If you really want to include these terms, "
  ++ nl ++ "            they may be added individually with the "
  ++ nl ++ "            'add_monomial_term' method."
  ++ nl ++ "            ".
Definition msg_low_order : string := "Maxmium order is lower than order of the resonance!".
Definition msg_common_divisor : string :=
  "p and q share a common divisor. Some important terms may be omitted!".

(** [self._update()], a method of the base class [Hamiltonian]: one more
    update. *)
Definition _update (self : t) : t :=
    mk (H self) (Hparams self) (state self) (resonance_indices self) (S (updates self)).

(** The terms recorded so far in the Hamiltonian of an accumulator of the
    loops below. *)
Definition indices_of (acc : t * list string) : list key := resonance_indices (fst acc).

(** [add_Hkep_term]: [H += -G**2*M**2*mu**3 / (2 * Lambda**2)] *)
Definition add_Hkep_term (H : expr) (index : Z) : expr :=
    let G := Sym sym_G in
    let M := Sym (sym_M index) in
    let mu := Sym (sym_mu index) in
    let Lambda := Sym (sym_Lambda index) in
    (H + (- G ** 2 * M ** 2 * mu ** 3) / (Int 2 * Lambda ** 2))%expr.

(** The inner loop of [__init__]: the ratios [alpha_{i,j}] for [j > i]. *)
Definition init_alpha (pvars : Poincare.t) (i : nat) (Hparams : dict) (j : nat)
      : result dict :=
    pi <- Poincare.PoincareParticles.getitem pvars (Z.of_nat i) ;;
    pj <- Poincare.PoincareParticles.getitem pvars (Z.of_nat j) ;;
    let alpha_val := PoincareParticle.a pi / PoincareParticle.a pj in
    Ok (dict_set Hparams (sym_alpha (Z.of_nat i) (Z.of_nat j)) alpha_val).

(** One turn of the loop of [__init__] over [range(1, pvars.N)]. *)
Definition init_body (pvars : Poincare.t) (acc : dict * expr) (i : nat)
      : result (dict * expr) :=
    let '(Hparams, H) := acc in
    let iz := Z.of_nat i in
    p <- Poincare.PoincareParticles.getitem pvars iz ;;
    let Hparams := dict_set Hparams (sym_mu iz) (PoincareParticle.mu p) in
    m <- passed (PoincareParticle.m p) ;;
    let Hparams := dict_set Hparams (sym_m iz) m in
    let Hparams := dict_set Hparams (sym_M iz) (PoincareParticle.M p) in
    let Hparams := dict_set Hparams (_get_Lambda0_symbol iz) (PoincareParticle.Lambda p) in
    let Hparams := dict_set Hparams (_get_a0_symbol iz) (PoincareParticle.a p) in
    Hparams <- foldM (init_alpha pvars i)
                 (seq (i + 1) (Poincare.N pvars - (i + 1))) Hparams ;;
    Ok (Hparams, add_Hkep_term H iz).

(** [PoincareHamiltonian.__init__] *)
Definition init (pvars : Poincare.t) : result t :=
    let Hparams := [(sym_G, Poincare.G pvars)] in
    let H := Int 0 in
    '(Hparams, H) <- foldM (init_body pvars) (seq 1 (Poincare.N pvars - 1)) (Hparams, H) ;;
    Ok (mk H Hparams pvars [] 0).

(** The Keplerian term of the body [index], with the values of the
    symbols. *)
Definition Hkep_value (env : symbol -> R) (index : Z) : R :=
    - (env sym_G ^ 2 * env (sym_M index) ^ 2 * env (sym_mu index) ^ 3)
    / (2 * env (sym_Lambda index) ^ 2).

(** The same term as the specification writes it, over the first power
    of [Lambda]. *)
Definition spec_Hkep_value (env : symbol -> R) (index : Z) : R :=
    - (env sym_G ^ 2 * env (sym_M index) ^ 2 * env (sym_mu index) ^ 3)
    / (2 * env (sym_Lambda index)).

Section DisturbingFunction.
(** The functions of the module [disturbing_function] that
    [add_monomial_term] calls. *)
Variable DFdict : Type.
Variable DFCoeff_C : list Z -> list Z -> DFdict.
Variable _p1_p2_from_k_nu : list Z -> list Z -> Z * Z.
Variable eval_DFCoeff_delta_expansion :
      DFdict -> Z -> Z -> Z -> R -> list ((Z * Z) * R).
Variable get_DFCoeff_symbol : list Z -> list Z -> Z * Z -> Z -> Z -> symbol.

(** The loop over the items of [C_delta_expansion_dict]. *)
Definition add_coefficient (kvec nuvec : list Z) (indexIn indexOut : Z)
        (deltaIn deltaOut : expr) (acc : dict * expr) (item : (Z * Z) * R) : dict * expr :=
      let '(Hparams, Ctot) := acc in
      let '(key, C_val) := item in
      let '(l1, l2) := key in
      let Csym := get_DFCoeff_symbol kvec nuvec key indexIn indexOut in
      (dict_set Hparams Csym C_val,
       (Ctot + Sym Csym * deltaIn ** l1 * deltaOut ** l2)%expr).

Definition add_monomial_term (self : t) (kvec nuvec : list Z) (indexIn indexOut : Z)
        (lmax : Z) (update : bool) : result (t * list string) :=
      if existsb (key_eqb (indexIn, indexOut, (kvec, nuvec))) (resonance_indices self)
      then Ok (self, [msg_duplicate])
      else
        let G := Sym sym_G in
        let mIn := Sym (sym_m indexIn) in
        let LambdaIn := Sym (sym_Lambda indexIn) in
        let lambdaIn := Sym (sym_lambda indexIn) in
        let kappaIn := Sym (sym_kappa indexIn) in
        let etaIn := Sym (sym_eta indexIn) in
        let sigmaIn := Sym (sym_sigma indexIn) in
        let rhoIn := Sym (sym_rho indexIn) in
        let mOut := Sym (sym_m indexOut) in
        let LambdaOut := Sym (sym_Lambda indexOut) in
        let lambdaOut := Sym (sym_lambda indexOut) in
        let kappaOut := Sym (sym_kappa indexOut) in
        let etaOut := Sym (sym_eta indexOut) in
        let sigmaOut := Sym (sym_sigma indexOut) in
        let rhoOut := Sym (sym_rho indexOut) in
        let Lambda0In := Sym (_get_Lambda0_symbol indexIn) in
        let Lambda0Out := Sym (_get_Lambda0_symbol indexOut) in
        let alpha_sym := sym_alpha indexIn indexOut in
        alpha_val <- dict_get (Hparams self) alpha_sym ;;
        let aOut0 := Sym (_get_a0_symbol indexOut) in
        let deltaIn := ((LambdaIn - Lambda0In) / Lambda0In)%expr in
        let deltaOut := ((LambdaOut - Lambda0Out) / Lambda0Out)%expr in
        match kvec, nuvec with
        | [k1; k2; k3; k4; k5; k6], [nu1; nu2; nu3; nu4] =>
            let C_dict := DFCoeff_C kvec nuvec in
            let '(p1, p2) := _p1_p2_from_k_nu kvec nuvec in
            let C_delta_expansion_dict :=
              eval_DFCoeff_delta_expansion C_dict p1 p2 lmax alpha_val in
            let '(Hparams1, Ctot) :=
              fold_left (add_coefficient kvec nuvec indexIn indexOut deltaIn deltaOut)
                        C_delta_expansion_dict (Hparams self, Int 0) in
            let rtLIn := Sqrt Lambda0In in
            let rtLOut := Sqrt Lambda0Out in
            let '(xin, yin) :=
              get_re_im_components (kappaIn / rtLIn)%expr (- etaIn / rtLIn)%expr k3 in
            let '(xout, yout) :=
              get_re_im_components (kappaOut / rtLOut)%expr (- etaOut / rtLOut)%expr k4 in
            let '(uin, vin) :=
              get_re_im_components (sigmaIn / rtLIn / Int 2)%expr
                                   (- rhoIn / rtLIn / Int 2)%expr k5 in
            let '(uout, vout) :=
              get_re_im_components (sigmaOut / rtLOut / Int 2)%expr
                                   (- rhoOut / rtLOut / Int 2)%expr k6 in
            let re := (uin * uout * xin * xout - vin * vout * xin * xout
                       - uout * vin * xout * yin - uin * vout * xout * yin
                       - uout * vin * xin * yout - uin * vout * xin * yout
                       - uin * uout * yin * yout + vin * vout * yin * yout)%expr in
            let im := (uout * vin * xin * xout + uin * vout * xin * xout
                       + uin * uout * xout * yin - vin * vout * xout * yin
                       + uin * uout * xin * yout - vin * vout * xin * yout
                       - uout * vin * yin * yout - uin * vout * yin * yout)%expr in
            let GammaIn := ((kappaIn * kappaIn + etaIn * etaIn) / Int 2)%expr in
            let GammaOut := ((kappaOut * kappaOut + etaOut * etaOut) / Int 2)%expr in
            let QIn := ((sigmaIn * sigmaIn + rhoIn * rhoIn) / Int 2)%expr in
            let QOut := ((sigmaOut * sigmaOut + rhoOut * rhoOut) / Int 2)%expr in
            let eIn_sq_term := ((Int 2 * GammaIn / Lambda0In) ** nu3)%expr in
            let eOut_sq_term := ((Int 2 * GammaOut / Lambda0Out) ** nu4)%expr in
            let incIn_sq_term := ((QIn / Lambda0In / Int 2) ** nu1)%expr in
            let incOut_sq_term := ((QOut / Lambda0Out / Int 2) ** nu2)%expr in
            let prefactor1 := (- G * mIn * mOut / aOut0)%expr in
            let prefactor2 :=
              (eIn_sq_term * eOut_sq_term * incIn_sq_term * incOut_sq_term)%expr in
            let angle := (Int k1 * lambdaOut + Int k2 * lambdaIn)%expr in
            let trig_term := (re * Cos angle - im * Sin angle)%expr in
            let resonance_indices1 :=
              resonance_indices self ++ [(indexIn, indexOut, (kvec, nuvec))] in
            let H1 := (H self + prefactor1 * Ctot * prefactor2 * trig_term)%expr in
            Ok (mk H1 Hparams1 (state self) resonance_indices1
                   (if update then S (updates self) else updates self), [])
        | _, _ => Raise ValueError
        end.

(** One call [self.add_monomial_term(jvec, zvec, indexIn, indexOut,
    lmax=lmax, update=False)] of a loop; the warnings are collected. *)
Definition add_term (jvec zvec : list Z) (indexIn indexOut lmax : Z)
    (acc : t * list string)
    : result (t * list string) :=
  let '(self, ws) := acc in
  '(self', w) <- add_monomial_term self jvec zvec indexIn indexOut lmax false ;;
  Ok (self', ws ++ w).

(** [add_cos_term_to_max_order] *)
Definition add_cos_term_to_max_order (self : t) (jvec : list Z)
    (max_order indexIn indexOut lmax : Z) (update : bool)
    : result (t * list string) :=
  match jvec with
  | [_; _; j3; j4; j5; j6] =>
      let order := (max_order - Z.abs j3 - Z.abs j4 - Z.abs j5 - Z.abs j6)%Z in
      let orderBy2 := (order / 2)%Z in
      let N := (orderBy2 + 1)%Z in
      acc <- foldM (fun acc z1 =>
               foldM (fun acc z2 =>
                 foldM (fun acc z3 =>
                   foldM (fun acc z4 =>
                            add_term jvec [z1; z2; z3; z4] indexIn indexOut lmax acc)
                         (py_range 0 (N - z1 - z2 - z3)) acc)
                       (py_range 0 (N - z1 - z2)) acc)
                     (py_range 0 (N - z1)) acc)
               (py_range 0 N) (self, []) ;;
      let '(self, ws) := acc in
      Ok (if update then _update self else self, ws)
  | _ => Raise ValueError
  end.

(** The three tests at the head of the two methods, after the [assert]. *)
Definition mmr_warnings (msg_unsupported : string) (p q max_order : Z)
    : outcome (list string) :=
  let ws := if (p <? q)%Z || (q <? 0)%Z then [msg_unsupported] else [] in
  let ws := ws ++ (if (max_order <? q)%Z then [msg_low_order] else []) in
  r <~ py_mod (Z.abs p) q ;;
  Done (ws ++ (if (r =? 0)%Z && negb (q =? 1)%Z then [msg_common_divisor] else [])).

(** One call [self.add_cos_term_to_max_order(kvec, max_order, indexIn,
    indexOut, lmax=lmax, update=False)] of a loop. *)
Definition add_cos_term (kvec : list Z) (max_order indexIn indexOut lmax : Z)
    (acc : t * list string)
    : outcome (t * list string) :=
  let '(self, ws) := acc in
  '(self', w) <~ lift (add_cos_term_to_max_order self kvec max_order indexIn indexOut
                         lmax false) ;;
  Done (self', ws ++ w).

(** [add_eccentricity_MMR_terms] *)
Definition add_eccentricity_MMR_terms (self : t)
    (p q max_order indexIn indexOut lmax : Z) (update : bool)
    : outcome (t * list string) :=
  if (max_order <? 0)%Z then Fail (Builtin AssertionError)
  else
    ws <~ mmr_warnings msg_unsupported_jk p q max_order ;;
    d <~ py_floordiv max_order q ;;
    acc <~ ofoldM (fun acc n =>
              let k1 := (n * p)%Z in
              let k2 := (n * (q - p))%Z in
              ofoldM (fun acc l =>
                        let k3 := (- l)%Z in
                        let k4 := (l - n * q)%Z in
                        let kvec := [k1; k2; k3; k4; 0; 0]%Z in
                        add_cos_term kvec max_order indexIn indexOut lmax acc)
                     (py_range 0 (n * q + 1)) acc)
             (py_range 1 (d + 1)) (self, ws) ;;
    let '(self, ws) := acc in
    Done (if update then _update self else self, ws).

(** [add_all_MMR_and_secular_terms]; [kvec] is a numpy array of integers,
    [kvec *= -1] changes the sign of its six entries. *)
Definition add_all_MMR_and_secular_terms (self : t)
    (p q max_order indexIn indexOut lmax : Z)
    : outcome (t * list string) :=
  if (max_order <? 0)%Z then Fail (Builtin AssertionError)
  else
    ws <~ mmr_warnings msg_unsupported_pq p q max_order ;;
    let max_order_by_2 := (max_order / 2)%Z in
    acc <~ ofoldM (fun acc h =>
      let k_lo := if (h =? 0)%Z then 0%Z else (-2 * max_order_by_2)%Z in
      ofoldM (fun acc k =>
        let s_hi := (max_order - Z.abs (h + k) - Z.abs (h - k))%Z in
        let s_lo := if (h =? 0)%Z && (k =? 0)%Z then 0%Z else (- s_hi)%Z in
        ofoldM (fun acc s =>
          let s1_hi := (max_order - Z.abs (h + k) - Z.abs (h - k) - Z.abs s)%Z in
          let s1_lo := if (h =? 0)%Z && (k =? 0)%Z && (s =? 0)%Z then 0%Z else (- s1_hi)%Z in
          ofoldM (fun acc s1 =>
            let k3 := (- s)%Z in
            let k5 := (- h - k)%Z in
            let k6 := (k - h)%Z in
            let k4 := (- s1)%Z in
            let tot := (k3 + k4 + k5 + k6)%Z in
            r <~ py_mod (- p * tot) q ;;
            if (r =? 0)%Z then
              k1 <~ py_floordiv (- p * tot) q ;;
              k2 <~ py_floordiv ((p - q) * tot) q ;;
              let kvec := [k1; k2; k3; k4; k5; k6] in
              let kvec := if (k1 <? 0)%Z then map (fun v => (v * -1)%Z) kvec else kvec in
              add_cos_term kvec max_order indexIn indexOut lmax acc
            else Done acc)
          (py_range s1_lo (s1_hi + 1)) acc)
        (py_range s_lo (s_hi + 1)) acc)
      (py_range k_lo (2 * max_order_by_2 + 1)) acc)
    (py_range 0 (max_order_by_2 + 1)) (self, ws) ;;
    let '(self, ws) := acc in
    Done (_update self, ws).
End DisturbingFunction.

End PoincareHamiltonian.

(** ** numpy arrays *)

(** One row of [np.reshape(state_vec, (-1, 6))]; the fields are the
    columns [0] to [5]. *)
Record row : Type := mk_row { r0 : R; r1 : R; r2 : R; r3 : R; r4 : R; r5 : R }.

Definition row_to_list (r : row) : list R := [r0 r; r1 r; r2 r; r3 r; r4 r; r5 r].

(** [np.reshape(state_vec, (-1, 6))]: consecutive groups of six entries;
    a length that is not a multiple of six raises [ValueError]. *)
Fixpoint reshape_6 (state_vec : list R) : result (list row) :=
  match state_vec with
  | [] => Ok []
  | v0 :: v1 :: v2 :: v3 :: v4 :: v5 :: rest =>
      rows <- reshape_6 rest ;; Ok (mk_row v0 v1 v2 v3 v4 v5 :: rows)
  | _ => Raise ValueError
  end.

(** [vecs.reshape(-1)] *)
Definition flatten_rows (vecs : list row) : list R := flat_map row_to_list vecs.

Definition row_get (k : nat) (r : row) : R :=
  match k with
  | 0%nat => r0 r | 1%nat => r1 r | 2%nat => r2 r
  | 3%nat => r3 r | 4%nat => r4 r | _ => r5 r
  end.

Definition row_set (k : nat) (v : R) (r : row) : row :=
  match k with
  | 0%nat => mk_row v (r1 r) (r2 r) (r3 r) (r4 r) (r5 r)
  | 1%nat => mk_row (r0 r) v (r2 r) (r3 r) (r4 r) (r5 r)
  | 2%nat => mk_row (r0 r) (r1 r) v (r3 r) (r4 r) (r5 r)
  | 3%nat => mk_row (r0 r) (r1 r) (r2 r) v (r4 r) (r5 r)
  | 4%nat => mk_row (r0 r) (r1 r) (r2 r) (r3 r) v (r5 r)
  | _ => mk_row (r0 r) (r1 r) (r2 r) (r3 r) (r4 r) v
  end.

(** [vecs[:, k]] *)
Definition col (k : nat) (vecs : list row) : list R := map (row_get k) vecs.

Fixpoint map2 {A B D : Type} (f : A -> B -> D) (xs : list A) (ys : list B) : list D :=
  match xs, ys with
  | x :: xs', y :: ys' => f x y :: map2 f xs' ys'
  | _, _ => []
  end.

(** An elementwise operation on two one-dimensional arrays, with numpy's
    broadcasting of an array of length one. *)
Definition np_elementwise {A : Type} (f : A -> A -> A) (xs ys : list A) : result (list A) :=
  if Nat.eqb (List.length xs) (List.length ys) then Ok (map2 f xs ys)
  else match xs, ys with
       | [x], _ => Ok (map (f x) ys)
       | _, [y] => Ok (map (fun x => f x y) xs)
       | _, _ => Raise ValueError
       end.

(** [vecs[:, k] = vals]: [vals] has one entry per row, or a single entry
    that is broadcast. *)
Definition set_col (k : nat) (vals : list R) (vecs : list row) : result (list row) :=
  if Nat.eqb (List.length vals) (List.length vecs)
  then Ok (map2 (fun v r => row_set k v r) vals vecs)
  else match vals with
       | [v] => Ok (map (row_set k v) vecs)
       | _ => Raise ValueError
       end.

(** [vecs[:, k] += vals] *)
Definition iadd_col (k : nat) (vals : list R) (vecs : list row) : result (list row) :=
  if Nat.eqb (List.length vals) (List.length vecs)
  then Ok (map2 (fun v r => row_set k (row_get k r + v) r) vals vecs)
  else match vals with
       | [v] => Ok (map (fun r => row_set k (row_get k r + v) r) vecs)
       | _ => Raise ValueError
       end.

(** ** [EvolutionOperator._state_vector_to_individual_vectors] *)

Definition _state_vector_to_individual_vectors (state_vec : list R) : result (list row) :=
  reshape_6 state_vec.

Definition _rt2 : R := sqrt 2.
Definition _rt2_inv : R := 1 / _rt2.

(** The six slots of one body in the layout [(kappa, eta, Lambda, l, sigma,
    rho)]. *)
Definition row_of_particle (p : PoincareParticle.t) : row :=
  mk_row (PoincareParticle.kappa p) (PoincareParticle.eta p) (PoincareParticle.Lambda p)
         (PoincareParticle.l p) (PoincareParticle.sigma p) (PoincareParticle.rho p).

(** ** [KeplerianEvolutionOperator] *)

Module KeplerianEvolutionOperator.

Record t : Type := mk {
    _dt : R;
    state : Poincare.t;
    G : R;
    m : list R;
    M : list R;
    GGMMmmm : list R
  }.

(** [self.particles] is the view [initial_state.particles] of the state. *)
Definition particles (self : t) : Poincare.t := state self.

Definition dt (self : t) : R := _dt self.
Definition set_dt (val : R) (self : t) : t :=
    mk val (state self) (G self) (m self) (M self) (GGMMmmm self).

Definition init (initial_state : Poincare.t) (dt : R) : result t :=
    let G := Poincare.G initial_state in
    ps <- Poincare.PoincareParticles.getslice_from_1 initial_state ;;
    m <- mapM (fun p => passed (PoincareParticle.m p)) ps ;;
    ps' <- Poincare.PoincareParticles.getslice_from_1 initial_state ;;
    let M := map PoincareParticle.M ps' in
    GGMMmmm <- np_elementwise Rmult (map (fun M => (G * M) ^ 2) M) (map (fun m => m ^ 3) m) ;;
    Ok (mk dt initial_state G m M GGMMmmm).

(** [self.GGMMmmm/L/L/L] *)
Definition lambda_dot_of (self : t) (L : list R) : result (list R) :=
    q1 <- np_elementwise Rdiv (GGMMmmm self) L ;;
    q2 <- np_elementwise Rdiv q1 L ;;
    np_elementwise Rdiv q2 L.

Definition get_lambda_dot (self : t) : result (list R) :=
    ps <- Poincare.PoincareParticles.getslice_from_1 (particles self) ;;
    let L := map PoincareParticle.Lambda ps in
    lambda_dot_of self L.

(** The loop [for p, dl in zip(ps[1:], dlambda): p.l += dl] on the
    particle objects it is given. *)
Definition advance_particles (ps : list PoincareParticle.t) (dlambda : list R)
      : list PoincareParticle.t :=
    map2 (fun p dl => PoincareParticle.set_l (PoincareParticle.l p + dl) p) ps dlambda.

(** [apply]: the particles of the loop are the objects the slice [ps[1:]]
    has just built from the values of the state; [apply] returns them next
    to the operator, whose state no statement of the method assigns. *)
Definition apply (self : t) : result (t * list PoincareParticle.t) :=
    lambda_dot <- get_lambda_dot self ;;
    let dlambda := map (Rmult (dt self)) lambda_dot in
    ps <- Poincare.PoincareParticles.getslice_from_1 (particles self) ;;
    Ok (self, advance_particles ps dlambda).

Definition apply_to_state_vector (self : t) (state_vector : list R) : result (list R) :=
    vecs <- _state_vector_to_individual_vectors state_vector ;;
    let L := col 2 vecs in
    lambda_dot <- lambda_dot_of self L ;;
    let dlambda := map (Rmult (dt self)) lambda_dot in
    vecs <- iadd_col 3 dlambda vecs ;;
    Ok (flatten_rows vecs).

(** What the specification says one step does to the row of one body. *)
Definition spec_advance_row (dt GGMMmmm : R) (r : row) : row :=
    mk_row (r0 r) (r1 r) (r2 r) (r3 r + dt * (GGMMmmm / (r2 r) ^ 3)) (r4 r) (r5 r).

End KeplerianEvolutionOperator.

(** ** Complex vectors and matrices *)

Definition cvec : Type := list C.
Definition cmatrix : Type := list (list C).

Definition Cscale (r : R) (z : C) : C := mkC (Re z * r) (Im z * r).

Definition Cdot (u v : cvec) : C := fold_right Cadd (RtoC 0) (map2 Cmul u v).

(** [M @ x] for a two-dimensional [M] and a one-dimensional [x]. *)
Definition matvec (M : cmatrix) (x : cvec) : result cvec :=
  if forallb (fun Mrow => Nat.eqb (List.length Mrow) (List.length x)) M
  then Ok (map (fun Mrow => Cdot Mrow x) M)
  else Raise ValueError.

(** [c * M] for a scalar [c]. *)
Definition mscale (c : C) (M : cmatrix) : cmatrix := map (map (Cmul c)) M.

(** The column [j] of a matrix. *)
Definition column (j : nat) (M : cmatrix) : cvec := map (fun Mrow => nth j Mrow (RtoC 0)) M.

(** The product of a matrix with [n] columns by a matrix [B] with [n] rows
    and [k] columns. *)
Definition matmul (k : nat) (A B : cmatrix) : cmatrix :=
  map (fun Arow => map (fun j => Cdot Arow (column j B)) (seq 0 k)) A.

(** [M] has [n] rows and [k] columns. *)
Definition has_shape (n k : nat) (M : cmatrix) : Prop :=
  List.length M = n /\ Forall (fun Mrow => List.length Mrow = k) M.

(** [np.eye(n)] as a complex matrix: the matrix [expm] gives for the zero
    matrix, that is the operator matrix of a timestep [dt = 0]. *)
Fixpoint np_eye (n : nat) : cmatrix :=
  match n with
  | O => []
  | S n' => (RtoC 1 :: repeat (RtoC 0) n') :: map (cons (RtoC 0)) (np_eye n')
  end.

(** The exponential of a complex number. *)
Definition Cexp (z : C) : C := mkC (exp (Re z) * cos (Im z)) (exp (Re z) * sin (Im z)).

(** The exponential of a diagonal matrix: the exponentials of the diagonal
    entries. *)
Definition expm_diagonal (M : cmatrix) : cmatrix :=
  map (fun '(i, Mrow) =>
         map (fun '(j, z) => if Nat.eqb i j then Cexp z else RtoC 0)
             (combine (seq 0 (List.length Mrow)) Mrow))
      (combine (seq 0 (List.length M)) M).

(** ** [LinearSecularEvolutionOperator] *)

Module LinearSecularEvolutionOperator.

Record t : Type := mk {
    _dt : R;
    state : Poincare.t;
    ecc_matrix : cmatrix;
    inc_matrix : cmatrix;
    ecc_operator_matrix : cmatrix;
    inc_operator_matrix : cmatrix
  }.

Definition particles (self : t) : Poincare.t := state self.
Definition dt (self : t) : R := _dt self.

(** [-1j * dt] *)
Definition minus_1j_times (dt : R) : C := Cmul (mkC 0 (-1)) (RtoC dt).

Section Imported.
(** [scipy.linalg.expm], and the two matrices of
    [LaplaceLagrangeSystem.from_Poincare(state)], a class that
    [poincare.py] does not define. *)
Variable expm : cmatrix -> cmatrix.
Variable Neccentricity_matrix : Poincare.t -> cmatrix.
Variable Ninclination_matrix : Poincare.t -> cmatrix.

Definition init (initial_state : Poincare.t) (dt : R) : t :=
      let ecc_matrix := Neccentricity_matrix initial_state in
      let inc_matrix := Ninclination_matrix initial_state in
      mk dt initial_state ecc_matrix inc_matrix
         (expm (mscale (minus_1j_times dt) ecc_matrix))
         (expm (mscale (minus_1j_times dt) inc_matrix)).

(** The setter of [dt] recomputes the two exponentials. *)
Definition set_dt (val : R) (self : t) : t :=
      mk val (state self) (ecc_matrix self) (inc_matrix self)
         (expm (mscale (minus_1j_times val) (ecc_matrix self)))
         (expm (mscale (minus_1j_times val) (inc_matrix self))).
End Imported.

(** [(kappa - 1j * eta) * _rt2_inv], elementwise. *)
Definition complex_pairs (kappa eta : list R) : result cvec :=
    z <- np_elementwise Csub (map RtoC kappa)
           (map (fun e => Cmul (mkC 0 1) (RtoC e)) eta) ;;
    Ok (map (Cscale _rt2_inv) z).

Definition _get_x_vector (self : t) : result cvec :=
    ps <- Poincare.PoincareParticles.getslice_from_1 (particles self) ;;
    let eta := map PoincareParticle.eta ps in
    ps' <- Poincare.PoincareParticles.getslice_from_1 (particles self) ;;
    let kappa := map PoincareParticle.kappa ps' in
    complex_pairs kappa eta.

Definition _get_y_vector (self : t) : result cvec :=
    ps <- Poincare.PoincareParticles.getslice_from_1 (particles self) ;;
    let rho := map PoincareParticle.rho ps in
    ps' <- Poincare.PoincareParticles.getslice_from_1 (particles self) ;;
    let sigma := map PoincareParticle.sigma ps' in
    complex_pairs sigma rho.

(** The loops of [_set_x_vector] and [_set_y_vector] on the particle
    objects they are given. *)
Definition set_x_of (ps : list PoincareParticle.t) (x : cvec) : list PoincareParticle.t :=
    map2 (fun p xi =>
            PoincareParticle.set_eta (_rt2 * Re (Cmul (mkC 0 1) xi))
              (PoincareParticle.set_kappa (_rt2 * Re xi) p)) ps x.

Definition set_y_of (ps : list PoincareParticle.t) (y : cvec) : list PoincareParticle.t :=
    map2 (fun p yi =>
            PoincareParticle.set_rho (_rt2 * Re (Cmul (mkC 0 1) yi))
              (PoincareParticle.set_sigma (_rt2 * Re yi) p)) ps y.

(** [apply]: [_set_x_vector] and [_set_y_vector] each loop over a new
    slice [self.particles[1:]]; [apply] returns the two lists of objects
    they have updated next to the operator. *)
Definition apply (self : t)
      : result (t * (list PoincareParticle.t * list PoincareParticle.t)) :=
    x <- _get_x_vector self ;;
    y <- _get_y_vector self ;;
    xnew <- matvec (ecc_operator_matrix self) x ;;
    ynew <- matvec (inc_operator_matrix self) y ;;
    psx <- Poincare.PoincareParticles.getslice_from_1 (particles self) ;;
    psy <- Poincare.PoincareParticles.getslice_from_1 (particles self) ;;
    Ok (self, (set_x_of psx xnew, set_y_of psy ynew)).

Definition apply_to_state_vector (self : t) (state_vector : list R) : result (list R) :=
    vecs <- _state_vector_to_individual_vectors state_vector ;;
    x <- complex_pairs (col 0 vecs) (col 1 vecs) ;;
    y <- complex_pairs (col 4 vecs) (col 5 vecs) ;;
    xnew <- matvec (ecc_operator_matrix self) x ;;
    ynew <- matvec (inc_operator_matrix self) y ;;
    vecs <- set_col 0 (map (fun z => _rt2 * Re z) xnew) vecs ;;
    vecs <- set_col 1 (map (fun z => -1 * _rt2 * Im z) xnew) vecs ;;
    vecs <- set_col 4 (map (fun z => _rt2 * Re z) ynew) vecs ;;
    vecs <- set_col 5 (map (fun z => -1 * _rt2 * Im z) ynew) vecs ;;
    Ok (flatten_rows vecs).

(** The vectors [x] and [y] that [apply_to_state_vector] reads in the
    rows, and the rows it writes back. *)
Definition x_of_rows (vecs : list row) : cvec :=
    map (fun r => Cscale _rt2_inv (Csub (RtoC (r0 r)) (Cmul (mkC 0 1) (RtoC (r1 r))))) vecs.
Definition y_of_rows (vecs : list row) : cvec :=
    map (fun r => Cscale _rt2_inv (Csub (RtoC (r4 r)) (Cmul (mkC 0 1) (RtoC (r5 r))))) vecs.
Definition rows_with (vecs : list row) (xnew ynew : cvec) : list row :=
    map2 (fun r xy =>
            mk_row (_rt2 * Re (fst xy)) (-1 * _rt2 * Im (fst xy)) (r2 r) (r3 r)
                   (_rt2 * Re (snd xy)) (-1 * _rt2 * Im (snd xy)))
         vecs (combine xnew ynew).
End LinearSecularEvolutionOperator.

(** ** Arrays of two entries and matrices of two rows and columns *)

Definition vec2 : Type := (R * R)%type.
Definition mat2 : Type := (vec2 * vec2)%type.

Definition dot2 (u v : vec2) : R := fst u * fst v + snd u * snd v.
Definition sum2 (u : vec2) : R := fst u + snd u.
Definition vadd2 (u v : vec2) : vec2 := (fst u + fst v, snd u + snd v).
Definition vsub2 (u v : vec2) : vec2 := (fst u - fst v, snd u - snd v).
Definition vmul2 (u v : vec2) : vec2 := (fst u * fst v, snd u * snd v).
Definition vscale2 (c : R) (u : vec2) : vec2 := (c * fst u, c * snd u).
Definition vscale2_r (u : vec2) (c : R) : vec2 := (fst u * c, snd u * c).
Definition vmap2 (f : R -> R) (u : vec2) : vec2 := (f (fst u), f (snd u)).
Definition matvec2 (A : mat2) (v : vec2) : vec2 := (dot2 (fst A) v, dot2 (snd A) v).
Definition transpose2 (A : mat2) : mat2 :=
  ((fst (fst A), fst (snd A)), (snd (fst A), snd (snd A))).
Definition matmul2 (A B : mat2) : mat2 :=
  let Bt := transpose2 B in
  ((dot2 (fst A) (fst Bt), dot2 (fst A) (snd Bt)),
   (dot2 (snd A) (fst Bt), dot2 (snd A) (snd Bt))).
Definition mscale2 (c : R) (A : mat2) : mat2 := (vscale2 c (fst A), vscale2 c (snd A)).
Definition diag2 (u : vec2) : mat2 := ((fst u, 0), (0, snd u)).

(** [np.linalg.inv] of a matrix of two rows and columns, in exact
    arithmetic: a singular matrix raises [LinAlgError]. *)
Definition det2 (A : mat2) : R :=
  fst (fst A) * snd (snd A) - snd (fst A) * fst (snd A).

Definition inverse2 (A : mat2) : mat2 :=
  ((snd (snd A) / det2 A, - snd (fst A) / det2 A),
   (- fst (snd A) / det2 A, fst (fst A) / det2 A)).

Definition np_linalg_inv2 (A : mat2) : result mat2 :=
  if Req_dec_T (det2 A) 0 then Raise LinAlgError else Ok (inverse2 A).

(** [vecs[(i, j), k]] *)
Definition rows_get2 (vecs : list row) (indices : Z * Z) (k : nat) : result vec2 :=
  ri <- py_index vecs (fst indices) ;;
  rj <- py_index vecs (snd indices) ;;
  Ok (row_get k ri, row_get k rj).

Fixpoint list_update {A : Type} (n : nat) (f : A -> A) (xs : list A) : list A :=
  match xs, n with
  | [], _ => []
  | x :: xs', O => f x :: xs'
  | x :: xs', S n' => x :: list_update n' f xs'
  end.

(** [xs[i] = f(xs[i])] *)
Definition py_update {A : Type} (xs : list A) (i : Z) (f : A -> A) : result (list A) :=
  let n := Z.of_nat (List.length xs) in
  let j := if (i <? 0)%Z then (i + n)%Z else i in
  if ((j <? 0) || (n <=? j))%Z then Raise IndexError
  else Ok (list_update (Z.to_nat j) f xs).

(** [vecs[(i, j), k] = vals]: the entry of [i] is assigned first. *)
Definition rows_set2 (vecs : list row) (indices : Z * Z) (k : nat) (vals : vec2)
    : result (list row) :=
  vecs <- py_update vecs (fst indices) (row_set k (fst vals)) ;;
  py_update vecs (snd indices) (row_set k (snd vals)).

(** ** [LinearInclinationResonancOperator] *)

Module LinearInclinationResonancOperator.

Record t : Type := mk {
    _dt : R;
    state : Poincare.t;
    A : mat2;
    Ainv : mat2;
    T : mat2;
    Ttr : mat2;
    D : mat2;
    eigs : vec2;
    cosh_lmbda_dt : vec2;
    sinh_lmbda_dt : vec2;
    indexIn : Z;
    indexOut : Z;
    particleIn : PoincareParticle.t;
    particleOut : PoincareParticle.t;
    res_vec : vec2;
    Lambdas_vec : vec2;
    Lambdas_Mtrx : mat2
  }.

Definition dt (self : t) : R := _dt self.
Definition indices (self : t) : Z * Z := ((indexIn self - 1)%Z, (indexOut self - 1)%Z).

Section Imported.
(** [np.linalg.eigh]: the eigenvalues and the matrix of eigenvectors. *)
Variable eigh : mat2 -> vec2 * mat2.

Definition init (initial_state : Poincare.t) (indexIn indexOut : Z)
        (res_vec : vec2) (A : mat2) (dt : R) : result t :=
      Ainv <- np_linalg_inv2 A ;;
      let '(vals, T) := eigh A in
      particleIn <- Poincare.PoincareParticles.getitem initial_state indexIn ;;
      particleOut <- Poincare.PoincareParticles.getitem initial_state indexOut ;;
      let Lambdas_vec := (-1 * snd res_vec, fst res_vec) in
      Lambdas_Mtrx <- np_linalg_inv2 (Lambdas_vec, (1, 1)) ;;
      Ok (mk dt initial_state A Ainv T (transpose2 T) (diag2 vals) vals
             (vmap2 (fun lmbda => cosh (dt * lmbda)) vals)
             (vmap2 (fun lmbda => sinh (dt * lmbda)) vals)
             indexIn indexOut particleIn particleOut
             res_vec Lambdas_vec Lambdas_Mtrx).
End Imported.

Definition set_dt (val : R) (self : t) : t :=
    mk val (state self) (A self) (Ainv self) (T self) (Ttr self) (D self) (eigs self)
       (vmap2 (fun lmbda => cosh (val * lmbda)) (eigs self))
       (vmap2 (fun lmbda => sinh (val * lmbda)) (eigs self))
       (indexIn self) (indexOut self) (particleIn self) (particleOut self)
       (res_vec self) (Lambdas_vec self) (Lambdas_Mtrx self).

(** Assignment to the attributes [particleIn] and [particleOut]. *)
Definition with_particles (pIn pOut : PoincareParticle.t) (self : t) : t :=
    mk (_dt self) (state self) (A self) (Ainv self) (T self) (Ttr self) (D self) (eigs self)
       (cosh_lmbda_dt self) (sinh_lmbda_dt self)
       (indexIn self) (indexOut self) pIn pOut
       (res_vec self) (Lambdas_vec self) (Lambdas_Mtrx self).

Definition _get_rho_vec (self : t) : vec2 :=
    (PoincareParticle.rho (particleIn self), PoincareParticle.rho (particleOut self)).
Definition _get_sigma_vec (self : t) : vec2 :=
    (PoincareParticle.sigma (particleIn self), PoincareParticle.sigma (particleOut self)).
Definition _get_theta (self : t) : R :=
    let lvec := (PoincareParticle.l (particleIn self), PoincareParticle.l (particleOut self)) in
    dot2 (res_vec self) lvec.
Definition _get_Lambdas (self : t) : vec2 :=
    (PoincareParticle.Lambda (particleIn self), PoincareParticle.Lambda (particleOut self)).
Definition _get_Qs (self : t) : vec2 :=
    (PoincareParticle.Q (particleIn self), PoincareParticle.Q (particleOut self)).

Definition _set_rho_vec (rho_vec : vec2) (self : t) : t :=
    let '(rhoIn, rhoOut) := rho_vec in
    with_particles (PoincareParticle.set_rho rhoIn (particleIn self))
                   (PoincareParticle.set_rho rhoOut (particleOut self)) self.
Definition _set_sigma_vec (sigma_vec : vec2) (self : t) : t :=
    let '(sigmaIn, sigmaOut) := sigma_vec in
    with_particles (PoincareParticle.set_sigma sigmaIn (particleIn self))
                   (PoincareParticle.set_sigma sigmaOut (particleOut self)) self.

Definition _get_RS_vecs (self : t) (s c : R) : vec2 * vec2 :=
    let rho := _get_rho_vec self in
    let sigma := _get_sigma_vec self in
    let Rv := matvec2 (Ttr self) rho in
    let Sv := matvec2 (Ttr self) sigma in
    (Rv, Sv).

Definition _RS_to_rhosigma (self : t) (Rv Sv : vec2) : vec2 * vec2 :=
    let r := matvec2 (T self) Rv in
    let s := matvec2 (T self) Sv in
    (r, s).

Definition _RSmap (self : t) (Rvec Svec : vec2) (s c : R) : vec2 * vec2 :=
    let s2 := 2 * s * c in
    let c2 := c * c - s * s in
    let S1vec := vadd2 (vmul2 (cosh_lmbda_dt self) Svec)
                       (vmul2 (sinh_lmbda_dt self)
                              (vadd2 (vscale2 s2 Svec) (vscale2 c2 Rvec))) in
    let R1vec := vadd2 (vmul2 (cosh_lmbda_dt self) Rvec)
                       (vmul2 (sinh_lmbda_dt self)
                              (vsub2 (vscale2 c2 Svec) (vscale2 s2 Rvec))) in
    (R1vec, S1vec).

Definition _advance_inclination_variables (self : t) : t :=
    let theta := _get_theta self in
    let '(s, c) := (sin theta, cos theta) in
    let '(Rv, Sv) := _get_RS_vecs self s c in
    let '(R1, S1) := _RSmap self Rv Sv s c in
    let '(rho1, sigma1) := _RS_to_rhosigma self R1 S1 in
    let self := _set_rho_vec rho1 self in
    _set_sigma_vec sigma1 self.

Definition _set_Lambdas (Lambdas : vec2) (self : t) : t :=
    with_particles (PoincareParticle.set_Lambda (fst Lambdas) (particleIn self))
                   (PoincareParticle.set_Lambda (snd Lambdas) (particleOut self)) self.

Definition apply (self : t) : t :=
    let Lambdas := _get_Lambdas self in
    let Qs0 := _get_Qs self in
    let C1 := dot2 (Lambdas_vec self) Lambdas in
    let C2 := sum2 Lambdas - sum2 Qs0 in
    let self := _advance_inclination_variables self in
    let Qs1 := _get_Qs self in
    let Lambdas1 := matvec2 (Lambdas_Mtrx self) (C1, C2 + sum2 Qs1) in
    _set_Lambdas Lambdas1 self.

Definition apply_to_state_vector (self : t) (state_vector : list R) : result (list R) :=
    vecs <- _state_vector_to_individual_vectors state_vector ;;
    Lambdas <- rows_get2 vecs (indices self) 2 ;;
    lambdas <- rows_get2 vecs (indices self) 3 ;;
    sigma <- rows_get2 vecs (indices self) 4 ;;
    rho <- rows_get2 vecs (indices self) 5 ;;
    let Qs0 := vscale2 0.5 (vadd2 (vmap2 (fun v => v ^ 2) rho) (vmap2 (fun v => v ^ 2) sigma)) in
    let C1 := dot2 (Lambdas_vec self) Lambdas in
    let C2 := sum2 Lambdas - sum2 Qs0 in
    let theta := dot2 (res_vec self) lambdas in
    let '(s, c) := (sin theta, cos theta) in
    let Rv := matvec2 (Ttr self) rho in
    let Sv := matvec2 (Ttr self) sigma in
    let '(R1, S1) := _RSmap self Rv Sv s c in
    let '(rho1, sigma1) := _RS_to_rhosigma self R1 S1 in
    vecs <- rows_set2 vecs (indices self) 4 sigma1 ;;
    vecs <- rows_set2 vecs (indices self) 5 rho1 ;;
    let Qs1 := vscale2 0.5 (vadd2 (vmap2 (fun v => v ^ 2) rho1) (vmap2 (fun v => v ^ 2) sigma1)) in
    let Lambdas1 := matvec2 (Lambdas_Mtrx self) (C1, C2 + sum2 Qs1) in
    vecs <- rows_set2 vecs (indices self) 2 Lambdas1 ;;
    Ok (flatten_rows vecs).

(** The two quantities [apply] computes before the step, and the first
    one as the specification words it, with [res_vec] itself. *)
Definition C1_of (self : t) : R := dot2 (Lambdas_vec self) (_get_Lambdas self).
Definition C2_of (self : t) : R := sum2 (_get_Lambdas self) - sum2 (_get_Qs self).
Definition spec_resVec_dot_Lambdas (self : t) : R :=
    dot2 (res_vec self) (_get_Lambdas self).

(** What [__init__] establishes about the bookkeeping of the two
    [Lambda]s, and no method changes. *)
Definition constructed (self : t) : Prop :=
    Lambdas_vec self = (-1 * snd (res_vec self), fst (res_vec self))
    /\ np_linalg_inv2 (Lambdas_vec self, (1, 1)) = Ok (Lambdas_Mtrx self).

End LinearInclinationResonancOperator.

(** ** [LinearEccentricityResonancOperator] *)

Module LinearEccentricityResonancOperator.

Record t : Type := mk {
    _dt : R;
    state : Poincare.t;
    A : mat2;
    Ainv : mat2;
    b : vec2;
    Ainv_dot_b : vec2;
    T : mat2;
    Ttr : mat2;
    D : mat2;
    eigs : vec2;
    cosh_lmbda_dt : vec2;
    sinh_lmbda_dt : vec2;
    indexIn : Z;
    indexOut : Z;
    particleIn : PoincareParticle.t;
    particleOut : PoincareParticle.t;
    res_vec : vec2;
    Lambdas_vec : vec2;
    Lambdas_Mtrx : mat2
  }.

Definition dt (self : t) : R := _dt self.
Definition indices (self : t) : Z * Z := ((indexIn self - 1)%Z, (indexOut self - 1)%Z).

Section Imported.
(** [np.linalg.eigh]: the eigenvalues and the matrix of eigenvectors. *)
Variable eigh : mat2 -> vec2 * mat2.

Definition init (initial_state : Poincare.t) (indexIn indexOut : Z)
        (res_vec : vec2) (A : mat2) (b : vec2) (dt : R) : result t :=
      Ainv <- np_linalg_inv2 A ;;
      let Ainv_dot_b := matvec2 Ainv b in
      let '(vals, T) := eigh A in
      particleIn <- Poincare.PoincareParticles.getitem initial_state indexIn ;;
      particleOut <- Poincare.PoincareParticles.getitem initial_state indexOut ;;
      let Lambdas_vec := (-1 * snd res_vec, fst res_vec) in
      Lambdas_Mtrx <- np_linalg_inv2 (Lambdas_vec, (1, 1)) ;;
      Ok (mk dt initial_state A Ainv b Ainv_dot_b T (transpose2 T) (diag2 vals) vals
             (vmap2 (fun lmbda => cosh (dt * lmbda)) vals)
             (vmap2 (fun lmbda => sinh (dt * lmbda)) vals)
             indexIn indexOut particleIn particleOut
             res_vec Lambdas_vec Lambdas_Mtrx).
End Imported.

Definition set_dt (val : R) (self : t) : t :=
    mk val (state self) (A self) (Ainv self) (b self) (Ainv_dot_b self)
       (T self) (Ttr self) (D self) (eigs self)
       (vmap2 (fun lmbda => cosh (val * lmbda)) (eigs self))
       (vmap2 (fun lmbda => sinh (val * lmbda)) (eigs self))
       (indexIn self) (indexOut self) (particleIn self) (particleOut self)
       (res_vec self) (Lambdas_vec self) (Lambdas_Mtrx self).

(** Assignment to the attributes [particleIn] and [particleOut]. *)
Definition with_particles (pIn pOut : PoincareParticle.t) (self : t) : t :=
    mk (_dt self) (state self) (A self) (Ainv self) (b self) (Ainv_dot_b self)
       (T self) (Ttr self) (D self) (eigs self)
       (cosh_lmbda_dt self) (sinh_lmbda_dt self)
       (indexIn self) (indexOut self) pIn pOut
       (res_vec self) (Lambdas_vec self) (Lambdas_Mtrx self).

Definition _get_eta_vec (self : t) : vec2 :=
    (PoincareParticle.eta (particleIn self), PoincareParticle.eta (particleOut self)).
Definition _get_kappa_vec (self : t) : vec2 :=
    (PoincareParticle.kappa (particleIn self), PoincareParticle.kappa (particleOut self)).
Definition _get_theta (self : t) : R :=
    let lvec := (PoincareParticle.l (particleIn self), PoincareParticle.l (particleOut self)) in
    dot2 (res_vec self) lvec.
Definition _get_Lambdas (self : t) : vec2 :=
    (PoincareParticle.Lambda (particleIn self), PoincareParticle.Lambda (particleOut self)).
Definition _get_Gammas (self : t) : vec2 :=
    (PoincareParticle.Gamma (particleIn self), PoincareParticle.Gamma (particleOut self)).

Definition _set_eta_vec (eta_vec : vec2) (self : t) : t :=
    let '(etaIn, etaOut) := eta_vec in
    with_particles (PoincareParticle.set_eta etaIn (particleIn self))
                   (PoincareParticle.set_eta etaOut (particleOut self)) self.
Definition _set_kappa_vec (kappa_vec : vec2) (self : t) : t :=
    let '(kappaIn, kappaOut) := kappa_vec in
    with_particles (PoincareParticle.set_kappa kappaIn (particleIn self))
                   (PoincareParticle.set_kappa kappaOut (particleOut self)) self.

(** The two formulas shared by [_get_HK_vecs] and by
    [apply_to_state_vector]. *)
Definition HK_of (self : t) (eta kappa : vec2) (s c : R) : vec2 * vec2 :=
    let H := matvec2 (Ttr self)
               (vsub2 eta (vscale2_r (vscale2 (0.5 * _rt2) (Ainv_dot_b self)) s)) in
    let K := matvec2 (Ttr self)
               (vadd2 kappa (vscale2_r (vscale2 (0.5 * _rt2) (Ainv_dot_b self)) c)) in
    (H, K).

Definition _get_HK_vecs (self : t) (s c : R) : vec2 * vec2 :=
    let eta := _get_eta_vec self in
    let kappa := _get_kappa_vec self in
    HK_of self eta kappa s c.

Definition _HK_to_etakappa (self : t) (H K : vec2) (s c : R) : vec2 * vec2 :=
    let h := vadd2 (matvec2 (T self) H)
                   (vscale2_r (vscale2 (0.5 * _rt2) (Ainv_dot_b self)) s) in
    let k := vsub2 (matvec2 (T self) K)
                   (vscale2_r (vscale2 (0.5 * _rt2) (Ainv_dot_b self)) c) in
    (h, k).

Definition _HKmap (self : t) (Hvec Kvec : vec2) (s c : R) : vec2 * vec2 :=
    let s2 := 2 * s * c in
    let c2 := c * c - s * s in
    let K1vec := vadd2 (vmul2 (cosh_lmbda_dt self) Kvec)
                       (vmul2 (sinh_lmbda_dt self)
                              (vadd2 (vscale2 s2 Kvec) (vscale2 c2 Hvec))) in
    let H1vec := vadd2 (vmul2 (cosh_lmbda_dt self) Hvec)
                       (vmul2 (sinh_lmbda_dt self)
                              (vsub2 (vscale2 c2 Kvec) (vscale2 s2 Hvec))) in
    (H1vec, K1vec).

Definition _advance_eccentricity_variables (self : t) : t :=
    let theta := _get_theta self in
    let '(s, c) := (sin theta, cos theta) in
    let '(H, K) := _get_HK_vecs self s c in
    let '(H1, K1) := _HKmap self H K s c in
    let '(eta1, kappa1) := _HK_to_etakappa self H1 K1 s c in
    let self := _set_eta_vec eta1 self in
    _set_kappa_vec kappa1 self.

Definition _set_Lambdas (Lambdas : vec2) (self : t) : t :=
    with_particles (PoincareParticle.set_Lambda (fst Lambdas) (particleIn self))
                   (PoincareParticle.set_Lambda (snd Lambdas) (particleOut self)) self.

Definition apply (self : t) : t :=
    let Lambdas := _get_Lambdas self in
    let Gammas0 := _get_Gammas self in
    let C1 := dot2 (Lambdas_vec self) Lambdas in
    let C2 := sum2 Lambdas - sum2 Gammas0 in
    let self := _advance_eccentricity_variables self in
    let Gammas1 := _get_Gammas self in
    let Lambdas1 := matvec2 (Lambdas_Mtrx self) (C1, C2 + sum2 Gammas1) in
    _set_Lambdas Lambdas1 self.

Definition apply_to_state_vector (self : t) (state_vector : list R) : result (list R) :=
    vecs <- _state_vector_to_individual_vectors state_vector ;;
    Lambdas <- rows_get2 vecs (indices self) 2 ;;
    lambdas <- rows_get2 vecs (indices self) 3 ;;
    let theta := dot2 (res_vec self) lambdas in
    kappa <- rows_get2 vecs (indices self) 0 ;;
    eta <- rows_get2 vecs (indices self) 1 ;;
    let Gammas0 := vscale2 0.5 (vadd2 (vmap2 (fun v => v ^ 2) kappa) (vmap2 (fun v => v ^ 2) eta)) in
    let C1 := dot2 (Lambdas_vec self) Lambdas in
    let C2 := sum2 Lambdas - sum2 Gammas0 in
    let '(s, c) := (sin theta, cos theta) in
    let '(H, K) := HK_of self eta kappa s c in
    let '(H1, K1) := _HKmap self H K s c in
    let '(eta1, kappa1) := _HK_to_etakappa self H1 K1 s c in
    vecs <- rows_set2 vecs (indices self) 0 kappa1 ;;
    vecs <- rows_set2 vecs (indices self) 1 eta1 ;;
    let Gammas1 := vscale2 0.5 (vadd2 (vmap2 (fun v => v ^ 2) kappa1) (vmap2 (fun v => v ^ 2) eta1)) in
    let Lambdas1 := matvec2 (Lambdas_Mtrx self) (C1, C2 + sum2 Gammas1) in
    vecs <- rows_set2 vecs (indices self) 2 Lambdas1 ;;
    Ok (flatten_rows vecs).

(** The two quantities [apply] computes before the step, and the first
    one as the specification words it, with [res_vec] itself. *)
Definition C1_of (self : t) : R := dot2 (Lambdas_vec self) (_get_Lambdas self).
Definition C2_of (self : t) : R := sum2 (_get_Lambdas self) - sum2 (_get_Gammas self).
Definition spec_resVec_dot_Lambdas (self : t) : R :=
    dot2 (res_vec self) (_get_Lambdas self).

(** What [__init__] establishes about the bookkeeping of the two
    [Lambda]s, and no method changes. *)
Definition constructed (self : t) : Prop :=
    Lambdas_vec self = (-1 * snd (res_vec self), fst (res_vec self))
    /\ np_linalg_inv2 (Lambdas_vec self, (1, 1)) = Ok (Lambdas_Mtrx self).

End LinearEccentricityResonancOperator.

(** ** [get_res_chain_reference_Lambdas_and_semimajor_axes] *)

(** [u @ v] for two one-dimensional arrays. *)
Definition np_dot (u v : list R) : result R :=
  if Nat.eqb (List.length u) (List.length v)
  then Ok (fold_right Rplus 0 (map2 Rmult u v))
  else Raise ValueError.

Section ReferenceLambdas.
(** [alpha_inv[i-1] * ((1 + s) / s)**(2/3)] in Python's arithmetic, for
    the entry [alpha_inv[i-1]] and the number [s = slist[i-2]]: the division
    of two Python numbers raises [ZeroDivisionError] when [s] is zero, and
    the power of a negative number is a complex number. *)
Variable alpha_inv_next : R -> R -> outcome R.

(** One turn of the loop over [range(2, len(coeffs))]; the accumulator is
    [(coeffs, alpha_inv, tot)], [m] and [M] are the arrays of the masses. *)

Definition res_chain_step (slist : list R) (m : list (option R)) (M : list R)
    (acc : list R * list R * R) (i : nat) : outcome (list R * list R * R) :=
  let '(coeffs, alpha_inv, tot) := acc in
  let iz := Z.of_nat i in
  c_prev <~ lift (py_index coeffs (iz - 1)) ;;
  s <~ lift (py_index slist (iz - 2)) ;;
  coeffs <~ lift (py_update coeffs iz (fun _ => c_prev * s / (1 + s))) ;;
  a_prev <~ lift (py_index alpha_inv (iz - 1)) ;;
  a_new <~ alpha_inv_next a_prev s ;;
  alpha_inv <~ lift (py_update alpha_inv iz (fun _ => a_new)) ;;
  c_i <~ lift (py_index coeffs iz) ;;
  m_i <~ lift (py_index m iz) ;;
  m_i <~ lift (passed m_i) ;;
  M_i <~ lift (py_index M iz) ;;
  a_i <~ lift (py_index alpha_inv iz) ;;
  Done (coeffs, alpha_inv, tot + c_i * m_i * sqrt (M_i * a_i)).

(** [for p in ps] iterates [PoincareParticles.__iter__], which yields
    the particles of [self[1:N]]: the arrays [m] and [M] have [N - 1]
    entries, [coeffs] and [alpha_inv] have [N]. *)
Definition get_res_chain_reference_Lambdas_and_semimajor_axes
    (pvars : Poincare.t) (slist : list R) : outcome (list R * list R) :=
  let N := Poincare.N pvars in
  let coeffs := repeat 0 N in
  let alpha_inv := repeat 0 N in
  alpha_inv <~ lift (py_update alpha_inv 1 (fun _ => 1)) ;;
  s0 <~ lift (py_index slist 0) ;;
  coeffs <~ lift (py_update coeffs 1 (fun _ => 1 + s0)) ;;
  ps <~ lift (Poincare.PoincareParticles.getslice_from_1 pvars) ;;
  let m := map PoincareParticle.m ps in
  ps' <~ lift (Poincare.PoincareParticles.getslice_from_1 pvars) ;;
  let M := map PoincareParticle.M ps' in
  c1 <~ lift (py_index coeffs 1) ;;
  m1 <~ lift (py_index m 1) ;;
  m1 <~ lift (passed m1) ;;
  M1 <~ lift (py_index M 1) ;;
  let tot := c1 * m1 * sqrt M1 in
  '(coeffs, alpha_inv, tot) <~
    ofoldM (res_chain_step slist m M) (seq 2 (N - 2)) (coeffs, alpha_inv, tot) ;;
  ps1 <~ lift (Poincare.PoincareParticles.getslice_from_1 pvars) ;;
  let Lvals := 0 :: map PoincareParticle.Lambda ps1 in
  C <~ lift (np_dot coeffs Lvals) ;;
  let a10 := (C / tot) ^ 2 in
  let a0 := map (Rmult a10) alpha_inv in
  Ma0 <~ lift (np_elementwise Rmult M a0) ;;
  mvals <~ lift (mapM passed m) ;;
  L0 <~ lift (np_elementwise Rmult mvals (map sqrt Ma0)) ;;
  Done (a0, L0).
End ReferenceLambdas.

(** ** The first- and second-order resonance operators *)

Section ResonanceMatrices.
(** [eval_DFCoeff_dict] of [DFCoeff_C] on the unpacked lists [js] and
    [zs], at [alpha0]: functions of the module [disturbing_function]. *)
Variable DFCoeff : list Z -> list Z -> R -> R.

Definition get_second_order_eccentricity_resonance_matrix
      (j : Z) (G mIn mOut MIn MOut Lambda0In Lambda0Out : R) : mat2 :=
    let zs := [0; 0; 0; 0]%Z in
    let aIn0 := (Lambda0In / mIn) ^ 2 / MIn in
    let aOut0 := (Lambda0Out / mOut) ^ 2 / MOut in
    let alpha0 := aIn0 / aOut0 in
    let A00 := DFCoeff [j; 2 - j; -2; 0; 0; 0]%Z zs alpha0 in
    let A11 := DFCoeff [j; 2 - j; 0; -2; 0; 0]%Z zs alpha0 in
    let A10 := DFCoeff [j; 2 - j; -1; -1; 0; 0]%Z zs alpha0 / 2 in
    let A01 := A10 in
    let A := ((A00, A01), (A10, A11)) in
    let scaleMtrx := diag2 (sqrt (2 / Lambda0In), sqrt (2 / Lambda0Out)) in
    let A := matmul2 (matmul2 scaleMtrx A) scaleMtrx in
    let prefactor := - G ^ 2 * MOut ^ 2 * mOut ^ 3 * (mIn / MIn) / (Lambda0Out ^ 2) in
    mscale2 prefactor A.

Definition get_first_order_eccentricity_resonance_matrix_and_vector
      (j : Z) (G mIn mOut MIn MOut Lambda0In Lambda0Out : R) : mat2 * vec2 :=
    let zs := [0; 0; 0; 0]%Z in
    let aIn0 := (Lambda0In / mIn) ^ 2 / MIn in
    let aOut0 := (Lambda0Out / mOut) ^ 2 / MOut in
    let alpha0 := aIn0 / aOut0 in
    let A := get_second_order_eccentricity_resonance_matrix (2 * j)
               G mIn mOut MIn MOut Lambda0In Lambda0Out in
    let b0 := DFCoeff [j; 1 - j; -1; 0; 0; 0]%Z zs alpha0 in
    let b1 := DFCoeff [j; 1 - j; 0; -1; 0; 0]%Z zs alpha0 in
    let scaleMtrx := diag2 (sqrt (2 / Lambda0In), sqrt (2 / Lambda0Out)) in
    let b := matvec2 scaleMtrx (b0, b1) in
    let prefactor := - G ^ 2 * MOut ^ 2 * mOut ^ 3 * (mIn / MIn) / (Lambda0Out ^ 2) in
    (A, vscale2 prefactor b).

Definition get_second_order_inclination_resonance_matrix
      (j : Z) (G mIn mOut MIn MOut Lambda0In Lambda0Out : R) : mat2 :=
    let zs := [0; 0; 0; 0]%Z in
    let aIn0 := (Lambda0In / mIn) ^ 2 / MIn in
    let aOut0 := (Lambda0Out / mOut) ^ 2 / MOut in
    let alpha0 := aIn0 / aOut0 in
    let A00 := DFCoeff [j; 2 - j; 0; 0; -2; 0]%Z zs alpha0 in
    let A11 := DFCoeff [j; 2 - j; 0; 0; 0; -2]%Z zs alpha0 in
    let A10 := DFCoeff [j; 2 - j; 0; 0; -1; -1]%Z zs alpha0 / 2 in
    let A01 := A10 in
    let A := ((A00, A01), (A10, A11)) in
    let scaleMtrx := diag2 (sqrt (0.5 / Lambda0In), sqrt (0.5 / Lambda0Out)) in
    let A := matmul2 (matmul2 scaleMtrx A) scaleMtrx in
    let prefactor := - G ^ 2 * MOut ^ 2 * mOut ^ 3 * (mIn / MIn) / (Lambda0Out ^ 2) in
    mscale2 prefactor A.

(** [np.linalg.eigh], and the reference values
    [get_res_chain_reference_Lambdas_and_semimajor_axes(_pvars, slist)[1]]
    the constructors compute when no [Lambda0] is passed; the latter only
    enter the matrix [A] and the vector [b]. *)
Variable eigh : mat2 -> vec2 * mat2.
Variable reference_Lambdas : Poincare.t -> list R -> result (list R).

(** The block shared by the three constructors: the two particles, their
    masses, and the reference values of [Lambda]. *)
Definition resonance_setup (initial_state : Poincare.t) (slist : list R)
      (indexIn indexOut : Z) (Lambda0 : option (list R))
      : result (R * R * R * R * R * R) :=
    pIn <- Poincare.PoincareParticles.getitem initial_state indexIn ;;
    pOut <- Poincare.PoincareParticles.getitem initial_state indexOut ;;
    mIn <- passed (PoincareParticle.m pIn) ;;
    let MIn := PoincareParticle.M pIn in
    mOut <- passed (PoincareParticle.m pOut) ;;
    let MOut := PoincareParticle.M pOut in
    '(Lambda0In, Lambda0Out) <-
      match Lambda0 with
      | None =>
          _pvars <- Poincare.init (Poincare.G initial_state) [pIn; pOut]
                      "canonical heliocentric" 0 ;;
          Lambda0 <- reference_Lambdas _pvars slist ;;
          match Lambda0 with
          | [_; Lambda0In; Lambda0Out] => Ok (Lambda0In, Lambda0Out)
          | _ => Raise ValueError
          end
      | Some Lambda0 =>
          Lambda0In <- py_index Lambda0 indexIn ;;
          Lambda0Out <- py_index Lambda0 indexOut ;;
          Ok (Lambda0In, Lambda0Out)
      end ;;
    Ok (mIn, MIn, mOut, MOut, Lambda0In, Lambda0Out).

(** [FirstOrderEccentricityResonanceOperator.__init__] *)
Definition FirstOrderEccentricityResonanceOperator_init
      (initial_state : Poincare.t) (dt : R) (j : Z) (indexIn indexOut : Z)
      (Lambda0 : option (list R)) : result LinearEccentricityResonancOperator.t :=
    let res_vec := (IZR (1 - j), IZR j) in
    '(mIn, MIn, mOut, MOut, Lambda0In, Lambda0Out) <-
      resonance_setup initial_state [IZR (j - 1)] indexIn indexOut Lambda0 ;;
    let '(Amtrx, bvec) :=
      get_first_order_eccentricity_resonance_matrix_and_vector j
        (Poincare.G initial_state) mIn mOut MIn MOut Lambda0In Lambda0Out in
    LinearEccentricityResonancOperator.init eigh initial_state indexIn indexOut
      res_vec Amtrx bvec dt.

(** [SecondOrderEccentricityResonanceOperator.__init__] *)
Definition SecondOrderEccentricityResonanceOperator_init
      (initial_state : Poincare.t) (dt : R) (j : Z) (indexIn indexOut : Z)
      (Lambda0 : option (list R)) : result LinearEccentricityResonancOperator.t :=
    let res_vec := (IZR (2 - j) / 2, IZR j / 2) in
    '(mIn, MIn, mOut, MOut, Lambda0In, Lambda0Out) <-
      resonance_setup initial_state [IZR (j - 2) / 2] indexIn indexOut Lambda0 ;;
    let Amtrx :=
      get_second_order_eccentricity_resonance_matrix j
        (Poincare.G initial_state) mIn mOut MIn MOut Lambda0In Lambda0Out in
    let bvec := (0, 0) in
    LinearEccentricityResonancOperator.init eigh initial_state indexIn indexOut
      res_vec Amtrx bvec dt.

(** [SecondOrderInclinationResonanceOperator.__init__] *)
Definition SecondOrderInclinationResonanceOperator_init
      (initial_state : Poincare.t) (dt : R) (j : Z) (indexIn indexOut : Z)
      (Lambda0 : option (list R)) : result LinearInclinationResonancOperator.t :=
    let res_vec := (IZR (2 - j) / 2, IZR j / 2) in
    '(mIn, MIn, mOut, MOut, Lambda0In, Lambda0Out) <-
      resonance_setup initial_state [IZR (j - 2) / 2] indexIn indexOut Lambda0 ;;
    let Amtrx :=
      get_second_order_inclination_resonance_matrix j
        (Poincare.G initial_state) mIn mOut MIn MOut Lambda0In Lambda0Out in
    LinearInclinationResonancOperator.init eigh initial_state indexIn indexOut
      res_vec Amtrx dt.
End ResonanceMatrices.

(** ** Concrete inputs *)

(** [PoincareParticle(coordinates='democratic heliocentric', G=1, mu=1, M=1,
    sLambda=1, l=0, skappa=0, seta=0, ssigma=0, srho=0)]: a unit mass on a
    circular orbit around a unit mass. *)
Definition circular_particle : PoincareParticle.t :=
  PoincareParticle.mk 1 "democratic heliocentric" 1 1 1 0 0 0 0 0.

(** The state of two such planets: the flat vector
    [[l1, eta1, rho1, l2, eta2, rho2, Lambda1, kappa1, sigma1, Lambda2,
    kappa2, sigma2]]. *)
Definition two_circular_planets : Poincare.t :=
  Poincare.mk 1 [Some 1; Some 1; Some 1] "democratic heliocentric"
    [sym_lambda 1; sym_eta 1; sym_rho 1; sym_lambda 2; sym_eta 2; sym_rho 2;
     sym_Lambda 1; sym_kappa 1; sym_sigma 1; sym_Lambda 2; sym_kappa 2; sym_sigma 2]
    [0; 0; 0; 0; 0; 0; 1; 0; 0; 1; 0; 0]
    0.

(** A linear secular operator on that state whose two matrices are
    diagonal, [diag(1, 2)] and [diag(0, 1)], with [expm_diagonal] for
    [scipy.linalg.expm]. *)
Definition diagonal_secular_operator : LinearSecularEvolutionOperator.t :=
  LinearSecularEvolutionOperator.init expm_diagonal
    (fun _ => [[RtoC 1; RtoC 0]; [RtoC 0; RtoC 2]])
    (fun _ => [[RtoC 0; RtoC 0]; [RtoC 0; RtoC 1]])
    two_circular_planets 0.

(** A state vector of two bodies, six slots each. *)
Definition two_rows : list row := [mk_row 1 0 1 0 1 0; mk_row 0 1 2 0 0 1].

(** The same state with [kappa1 = 1]. *)
Definition two_planets_kappa1 : Poincare.t :=
  Poincare.mk 1 [Some 1; Some 1; Some 1] "democratic heliocentric"
    [sym_lambda 1; sym_eta 1; sym_rho 1; sym_lambda 2; sym_eta 2; sym_rho 2;
     sym_Lambda 1; sym_kappa 1; sym_sigma 1; sym_Lambda 2; sym_kappa 2; sym_sigma 2]
    [0; 0; 0; 0; 0; 0; 1; 1; 0; 1; 0; 0]
    0.

(** A linear secular operator on that state with the timestep [pi]; its
    matrices are [diag(1, 2)] and [diag(0, 1)]. *)
Definition kappa1_secular_operator : LinearSecularEvolutionOperator.t :=
  LinearSecularEvolutionOperator.init expm_diagonal
    (fun _ => [[RtoC 1; RtoC 0]; [RtoC 0; RtoC 2]])
    (fun _ => [[RtoC 0; RtoC 0]; [RtoC 0; RtoC 1]])
    two_planets_kappa1 PI.

(** The same state with [sigma1 = 1]. *)
Definition two_planets_sigma1 : Poincare.t :=
  Poincare.mk 1 [Some 1; Some 1; Some 1] "democratic heliocentric"
    [sym_lambda 1; sym_eta 1; sym_rho 1; sym_lambda 2; sym_eta 2; sym_rho 2;
     sym_Lambda 1; sym_kappa 1; sym_sigma 1; sym_Lambda 2; sym_kappa 2; sym_sigma 2]
    [0; 0; 0; 0; 0; 0; 1; 0; 1; 1; 0; 0]
    0.

(** [np.linalg.eigh] on a diagonal matrix whose diagonal increases: the
    diagonal, and the identity for the eigenvectors. *)
Definition eigh_diagonal (A : mat2) : vec2 * mat2 :=
  ((fst (fst A), snd (snd A)), ((1, 0), (0, 1))).

(** The particles [particles[1]] and [particles[2]] of [two_planets_kappa1],
    and [particles[1]] of [two_planets_sigma1]. *)
Definition kappa1_particle : PoincareParticle.t :=
  PoincareParticle.mk 1 "democratic heliocentric" 1 1 (1 / 1) 0
    (1 / sqrt 1) (0 / sqrt 1) (0 / sqrt 1) (0 / sqrt 1).
Definition rest_particle : PoincareParticle.t :=
  PoincareParticle.mk 1 "democratic heliocentric" 1 1 (1 / 1) 0
    (0 / sqrt 1) (0 / sqrt 1) (0 / sqrt 1) (0 / sqrt 1).
Definition sigma1_particle : PoincareParticle.t :=
  PoincareParticle.mk 1 "democratic heliocentric" 1 1 (1 / 1) 0
    (0 / sqrt 1) (0 / sqrt 1) (1 / sqrt 1) (0 / sqrt 1).

(** [LinearEccentricityResonancOperator(two_planets_kappa1, 1, 2,
    res_vec=[-1, 2], A=diag(1, 2), b=[0, 0], dt=1)] *)
Definition kappa1_ecc_operator : LinearEccentricityResonancOperator.t :=
  let A := ((1, 0), (0, 2)) in
  LinearEccentricityResonancOperator.mk 1 two_planets_kappa1
    A (inverse2 A) (0, 0) (matvec2 (inverse2 A) (0, 0))
    ((1, 0), (0, 1)) (transpose2 ((1, 0), (0, 1))) (diag2 (1, 2)) (1, 2)
    (vmap2 (fun lmbda => cosh (1 * lmbda)) (1, 2))
    (vmap2 (fun lmbda => sinh (1 * lmbda)) (1, 2))
    1 2 kappa1_particle rest_particle
    (-1, 2) (-1 * 2, -1) (inverse2 ((-1 * 2, -1), (1, 1))).

(** [LinearInclinationResonancOperator(two_planets_sigma1, 1, 2,
    res_vec=[-1, 2], A=diag(1, 2), dt=1)] *)
Definition sigma1_inc_operator : LinearInclinationResonancOperator.t :=
  let A := ((1, 0), (0, 2)) in
  LinearInclinationResonancOperator.mk 1 two_planets_sigma1
    A (inverse2 A)
    ((1, 0), (0, 1)) (transpose2 ((1, 0), (0, 1))) (diag2 (1, 2)) (1, 2)
    (vmap2 (fun lmbda => cosh (1 * lmbda)) (1, 2))
    (vmap2 (fun lmbda => sinh (1 * lmbda)) (1, 2))
    1 2 sigma1_particle rest_particle
    (-1, 2) (-1 * 2, -1) (inverse2 ((-1 * 2, -1), (1, 1))).

(** Two planets of unit mass: [l = 1] and [seta = 2] for the first one,
    [l = 3] for the second one. *)
Definition first_planet : PoincareParticle.t :=
  PoincareParticle.mk 1 "democratic heliocentric" 1 1 1 1 0 2 0 0.
Definition second_planet : PoincareParticle.t :=
  PoincareParticle.mk 1 "democratic heliocentric" 1 1 1 3 0 0 0 0.

(** A valuation of the symbols: [2] for every [Lambda], [1] for the
    others. *)
Definition env_Lambda_2 (s : symbol) : R :=
  match s with
  | sym_Lambda _ => 2
  | _ => 1
  end.

(** A Hamiltonian of the two planets before any term of the disturbing
    function is added, and stand-ins for the functions of the module
    [disturbing_function]: one coefficient, of value [alpha], named [C]. *)
Definition bare_hamiltonian : PoincareHamiltonian.t :=
  PoincareHamiltonian.mk (Int 0) [(sym_G, 1); (sym_alpha 1 2, 0.5)]
    two_circular_planets [] 0.

Definition one_coefficient (_ : unit) (_ _ _ : Z) (alpha : R) : list ((Z * Z) * R) :=
  [((0%Z, 0%Z), alpha)].

Definition add_monomial_term_example (self : PoincareHamiltonian.t)
    (kvec nuvec : list Z) (indexIn indexOut : Z) (lmax : Z) (update : bool)
    : result (PoincareHamiltonian.t * list string) :=
  PoincareHamiltonian.add_monomial_term unit (fun _ _ => tt) (fun _ _ => (0%Z, 0%Z))
    one_coefficient (fun _ _ _ _ _ => sym_other "C")
    self kvec nuvec indexIn indexOut lmax update.

(** ** The rows of a resonance step *)

(** The rows of the two bodies after
    [LinearEccentricityResonancOperator.apply_to_state_vector], from their
    rows [ri] and [rj] before it. *)
Definition ecc_step_rows (self : LinearEccentricityResonancOperator.t) (ri rj : row)
    : row * row :=
  let Lambdas := (r2 ri, r2 rj) in
  let lambdas := (r3 ri, r3 rj) in
  let theta := dot2 (LinearEccentricityResonancOperator.res_vec self) lambdas in
  let kappa := (r0 ri, r0 rj) in
  let eta := (r1 ri, r1 rj) in
  let Gammas0 :=
    vscale2 0.5 (vadd2 (vmap2 (fun v => v ^ 2) kappa) (vmap2 (fun v => v ^ 2) eta)) in
  let C1 := dot2 (LinearEccentricityResonancOperator.Lambdas_vec self) Lambdas in
  let C2 := sum2 Lambdas - sum2 Gammas0 in
  let s := sin theta in
  let c := cos theta in
  let HK := LinearEccentricityResonancOperator.HK_of self eta kappa s c in
  let HK1 := LinearEccentricityResonancOperator._HKmap self (fst HK) (snd HK) s c in
  let ek1 :=
    LinearEccentricityResonancOperator._HK_to_etakappa self (fst HK1) (snd HK1) s c in
  let eta1 := fst ek1 in
  let kappa1 := snd ek1 in
  let Gammas1 :=
    vscale2 0.5 (vadd2 (vmap2 (fun v => v ^ 2) kappa1) (vmap2 (fun v => v ^ 2) eta1)) in
  let Lambdas1 :=
    matvec2 (LinearEccentricityResonancOperator.Lambdas_Mtrx self) (C1, C2 + sum2 Gammas1) in
  (mk_row (fst kappa1) (fst eta1) (fst Lambdas1) (r3 ri) (r4 ri) (r5 ri),
   mk_row (snd kappa1) (snd eta1) (snd Lambdas1) (r3 rj) (r4 rj) (r5 rj)).

(** * Theorems *)

(** ** Arithmetic of the complex numbers *)

Lemma C_ring_theory :
  ring_theory (RtoC 0) (RtoC 1) Cadd Cmul Csub Copp (@eq C).
Proof.
  constructor; intros; try reflexivity;
    repeat match goal with z : C |- _ => destruct z end;
    unfold Cadd, Cmul, Csub, Copp, RtoC; simpl; f_equal; ring.
Qed.

Add Ring C_ring : C_ring_theory.

Lemma RtoC_add (x y : R) : RtoC (x + y) = Cadd (RtoC x) (RtoC y).
Proof. unfold RtoC, Cadd; simpl; f_equal; ring. Qed.

Lemma Cpow_real (x : R) (n : nat) : Cpow (RtoC x) n = RtoC (x ^ n).
Proof.
  induction n as [|n IH]; simpl; [reflexivity|].
  rewrite IH. unfold Cmul, RtoC; simpl; f_equal; ring.
Qed.

(** ** Finite sums *)

Lemma Csum_ext_le (f g : nat -> C) (n : nat) :
  (forall l, (l <= n)%nat -> f l = g l) -> Csum f n = Csum g n.
Proof.
  induction n as [|n IH]; intros Hfg; simpl.
  - apply Hfg; lia.
  - rewrite IH by (intros; apply Hfg; lia).
    rewrite (Hfg (S n)) by lia. reflexivity.
Qed.

Lemma Csum_shift (f : nat -> C) (n : nat) :
  Csum f (S n) = Cadd (f O) (Csum (fun l => f (S l)) n).
Proof.
  induction n as [|n IH].
  - reflexivity.
  - change (Csum f (S (S n))) with (Cadd (Csum f (S n)) (f (S (S n)))).
    rewrite IH. simpl. ring.
Qed.

Lemma Csum_mul_l (c : C) (f : nat -> C) (n : nat) :
  Cmul c (Csum f n) = Csum (fun l => Cmul c (f l)) n.
Proof.
  induction n as [|n IH]; simpl; [reflexivity|].
  rewrite <- IH. ring.
Qed.

Lemma Csum_add (f g : nat -> C) (n : nat) :
  Csum (fun l => Cadd (f l) (g l)) n = Cadd (Csum f n) (Csum g n).
Proof.
  induction n as [|n IH]; simpl; [reflexivity|].
  rewrite IH. ring.
Qed.

(** ** The binomial theorem on complex pairs *)

Lemma binomial_gt (n l : nat) : (n < l)%nat -> binomial n l = 0%nat.
Proof.
  revert l; induction n as [|n IH]; intros [|l] Hl; try lia; simpl.
  - reflexivity.
  - rewrite !IH by lia. reflexivity.
Qed.

Lemma binomial_n_0 (n : nat) : binomial n 0 = 1%nat.
Proof. destruct n; reflexivity. Qed.

Lemma Cpow_add_binomial (a b : C) (n : nat) :
  Cpow (Cadd a b) n = Csum (binom_term a b n) n.
Proof.
  induction n as [|n IH].
  - simpl. unfold binom_term; simpl. ring.
  - change (Cpow (Cadd a b) (S n)) with (Cmul (Cadd a b) (Cpow (Cadd a b) n)).
    rewrite IH.
    replace (Cmul (Cadd a b) (Csum (binom_term a b n) n))
      with (Cadd (Cmul a (Csum (binom_term a b n) n))
                 (Cmul b (Csum (binom_term a b n) n))) by ring.
    rewrite Csum_shift.
    (* the sum of the terms shifted by [a] *)
    assert (Ha : Cmul a (Csum (binom_term a b n) n)
                 = Cadd (Cpow a (S n))
                     (Csum (fun l => Cmul (Cmul (RtoC (INR (binomial n (S l))))
                                            (Cpow b (S l))) (Cpow a (n - l))) n)).
    { set (u := fun l => Cmul (Cmul (RtoC (INR (binomial n l))) (Cpow b l))
                           (Cpow a (S n - l))).
      transitivity (Csum u n).
      - rewrite Csum_mul_l. apply Csum_ext_le; intros l Hl.
        unfold u, binom_term. replace (S n - l)%nat with (S (n - l)) by lia.
        simpl. ring.
      - assert (Hu : Csum u (S n) = Csum u n).
        { simpl. unfold u at 2. rewrite binomial_gt by lia. simpl.
          ring. }
        rewrite <- Hu, Csum_shift. f_equal.
        unfold u. rewrite binomial_n_0. simpl. ring. }
    rewrite Ha, Csum_mul_l.
    match goal with
    | |- Cadd (Cadd ?p ?s1) ?s2 = _ =>
        replace (Cadd (Cadd p s1) s2) with (Cadd p (Cadd s1 s2)) by ring
    end.
    rewrite <- Csum_add.
    f_equal.
    + unfold binom_term. rewrite binomial_n_0. simpl. ring.
    + apply Csum_ext_le; intros l Hl. unfold binom_term.
      simpl binomial. simpl Nat.sub.
      rewrite plus_INR, RtoC_add. simpl. ring.
Qed.

(** ** [get_re_im_components] computes a complex power *)

Ltac divmod2 l :=
  pose proof (Nat.div_mod_eq l 2); pose proof (Nat.mod_upper_bound l 2).

Lemma IZR_pow_m1_succ (m : nat) :
  IZR ((-1) ^ Z.of_nat (S m)) = - IZR ((-1) ^ Z.of_nat m).
Proof.
  rewrite Nat2Z.inj_succ, Z.pow_succ_r by lia.
  rewrite mult_IZR. lra.
Qed.

(** Powers of a purely imaginary number [i*Y]: the case analysis on
    [l % 2] with the signs [(-1)**(l//2)] and [(-1)**((l-1)//2)]. *)
Lemma Cpow_imag (Y : R) (l : nat) :
  Cpow (mkC 0 Y) l =
  if Nat.eqb (l mod 2) 0
  then mkC (Y ^ l * IZR ((-1) ^ Z.of_nat (l / 2))) 0
  else mkC 0 (Y ^ l * IZR ((-1) ^ Z.of_nat ((l - 1) / 2))).
Proof.
  enough (Hboth :
    (Cpow (mkC 0 Y) l =
       if Nat.eqb (l mod 2) 0
       then mkC (Y ^ l * IZR ((-1) ^ Z.of_nat (l / 2))) 0
       else mkC 0 (Y ^ l * IZR ((-1) ^ Z.of_nat ((l - 1) / 2)))) /\
    (Cpow (mkC 0 Y) (S l) =
       if Nat.eqb (S l mod 2) 0
       then mkC (Y ^ S l * IZR ((-1) ^ Z.of_nat (S l / 2))) 0
       else mkC 0 (Y ^ S l * IZR ((-1) ^ Z.of_nat ((S l - 1) / 2)))))
    by apply Hboth.
  induction l as [|l [IH0 IH1]].
  - split; simpl; unfold Cmul, RtoC; simpl; f_equal; ring.
  - split; [exact IH1|].
    change (Cpow (mkC 0 Y) (S (S l)))
      with (Cmul (mkC 0 Y) (Cmul (mkC 0 Y) (Cpow (mkC 0 Y) l))).
    rewrite IH0.
    assert (Hmod : (S (S l) mod 2 = l mod 2)%nat)
      by (divmod2 l; divmod2 (S (S l)); lia).
    rewrite Hmod.
    destruct (Nat.eqb (l mod 2) 0) eqn:Hpar.
    + assert (Hdiv : (S (S l) / 2 = S (l / 2))%nat)
        by (divmod2 l; divmod2 (S (S l)); lia).
      rewrite Hdiv, IZR_pow_m1_succ.
      unfold Cmul; simpl; f_equal; ring.
    + apply Nat.eqb_neq in Hpar.
      assert (Hdiv : ((S (S l) - 1) / 2 = S ((l - 1) / 2))%nat)
        by (divmod2 l; divmod2 (S (S l) - 1)%nat; divmod2 (l - 1)%nat; lia).
      rewrite Hdiv, IZR_pow_m1_succ.
      unfold Cmul; simpl; f_equal; ring.
Qed.

(** One turn of the loop adds one term of the binomial expansion. *)
Lemma re_im_step_binom_term (x y : R) (absk : nat) (sgnk : Z) (re im : R) (l : nat) :
  let acc' := re_im_step x y absk sgnk (re, im) l in
  mkC (fst acc') (snd acc') =
  Cadd (mkC re im) (binom_term (RtoC x) (mkC 0 (IZR sgnk * y)) absk l).
Proof.
  unfold re_im_step, binom_term. cbv zeta.
  rewrite Cpow_imag, Cpow_real. simpl of_Z. simpl add. simpl mul. simpl npow.
  rewrite <- INR_IZR_INZ.
  destruct (Nat.eqb (l mod 2) 0); unfold Cadd, Cmul, RtoC; simpl; f_equal; ring.
Qed.

Lemma re_im_fold_Csum (x y : R) (absk : nat) (sgnk : Z) (m : nat) (re im : R) :
  let acc' := fold_left (re_im_step x y absk sgnk) (seq 0 (S m)) (re, im) in
  mkC (fst acc') (snd acc') =
  Cadd (mkC re im) (Csum (binom_term (RtoC x) (mkC 0 (IZR sgnk * y)) absk) m).
Proof.
  induction m as [|m IH]; cbv zeta.
  - cbn [seq fold_left Csum]. apply re_im_step_binom_term.
  - rewrite seq_S, fold_left_app. cbn [fold_left].
    cbv zeta in IH.
    destruct (fold_left (re_im_step x y absk sgnk) (seq 0 (S m)) (re, im))
      as [re1 im1] eqn:Hfold.
    rewrite Nat.add_0_l.
    rewrite (re_im_step_binom_term x y absk sgnk re1 im1 (S m)).
    cbn [fst snd] in IH. rewrite IH. cbn [Csum]. ring.
Qed.

(** C6. For all real [x], [y] and every integer [k], the pair [(re, im)]
    returned by [get_re_im_components x y k] is the real and the imaginary
    part of [(x + sgn(k) * i * y) ^ |k|]; for [k = 0] the pair is [(1, 0)]. *)
Theorem get_re_im_components_power (x y : R) (k : Z) :
  mkC (fst (get_re_im_components x y k)) (snd (get_re_im_components x y k))
  = Cpow (mkC x (IZR (Z.sgn k) * y)) (Z.abs_nat k)
  /\ get_re_im_components x y 0 = (1, 0).
Proof.
  split; [|reflexivity].
  unfold get_re_im_components.
  destruct (Z.eqb_spec k 0) as [->|Hk].
  - reflexivity.
  - cbv zeta. rewrite Nat.add_1_r.
    change (@of_Z R PyNum_R 0) with 0.
    rewrite (re_im_fold_Csum x y (Z.abs_nat k) (Z.sgn k) (Z.abs_nat k) 0 0).
    rewrite <- Cpow_add_binomial.
    replace (Cadd (RtoC x) (mkC 0 (IZR (Z.sgn k) * y)))
      with (mkC x (IZR (Z.sgn k) * y))
      by (unfold Cadd, RtoC; simpl; f_equal; ring).
    change (mkC 0 0) with (RtoC 0). ring.
Qed.

(** ** [PoincareParticle]: the derived variables *)

Lemma sqrt_pow2 (v : R) : 0 <= v -> sqrt v ^ 2 = v.
Proof. intros Hv. simpl. rewrite Rmult_1_r. apply sqrt_sqrt, Hv. Qed.

Lemma kappa2_eta2_Gamma (p : PoincareParticle.t) :
  0 <= PoincareParticle.mu p ->
  PoincareParticle.kappa p ^ 2 + PoincareParticle.eta p ^ 2
  = 2 * PoincareParticle.Gamma p.
Proof.
  intros Hmu. unfold PoincareParticle.kappa, PoincareParticle.eta, PoincareParticle.Gamma.
  rewrite !Rpow_mult_distr, sqrt_pow2 by exact Hmu. field.
Qed.

Lemma sigma2_rho2_Q (p : PoincareParticle.t) :
  0 <= PoincareParticle.mu p ->
  PoincareParticle.sigma p ^ 2 + PoincareParticle.rho p ^ 2
  = 2 * PoincareParticle.Q p.
Proof.
  intros Hmu. unfold PoincareParticle.sigma, PoincareParticle.rho, PoincareParticle.Q.
  rewrite !Rpow_mult_distr, sqrt_pow2 by exact Hmu. field.
Qed.

(** C8, as stated, fails: for the particle
    [PoincareParticle(mu=2, M=1, sLambda=1, l=0, skappa=1, seta=0, ssigma=0,
    srho=0)] one has [kappa^2 + eta^2 = 2] while [2*mu*Gamma = 4]. *)
Lemma kappa_eta_2muGamma_counterexample :
  exists p,
    PoincareParticle.init
      (PoincareParticleArgs.of_stored "canonical heliocentric" 1 2 1 1 0 1 0 0 0) = Ok p
    /\ PoincareParticle.kappa p ^ 2 + PoincareParticle.eta p ^ 2
       <> 2 * PoincareParticle.mu p * PoincareParticle.Gamma p.
Proof.
  eexists; split; [reflexivity|].
  unfold PoincareParticle.kappa, PoincareParticle.eta, PoincareParticle.Gamma.
  cbn [PoincareParticle.mu PoincareParticle.skappa PoincareParticle.seta].
  rewrite !Rpow_mult_distr, sqrt_pow2 by lra. lra.
Qed.

(** C8 (amended). For every particle with [mu >= 0] the derived variables
    satisfy [kappa^2 + eta^2 = 2*Gamma] and [sigma^2 + rho^2 = 2*Q]: the
    factor [mu] is already part of [Gamma] and [Q]. *)
Theorem kappa_eta_sigma_rho_actions (p : PoincareParticle.t) :
  0 <= PoincareParticle.mu p ->
  PoincareParticle.kappa p ^ 2 + PoincareParticle.eta p ^ 2
    = 2 * PoincareParticle.Gamma p
  /\ PoincareParticle.sigma p ^ 2 + PoincareParticle.rho p ^ 2
    = 2 * PoincareParticle.Q p.
Proof.
  intros Hmu. split; [apply kappa2_eta2_Gamma | apply sigma2_rho2_Q]; exact Hmu.
Qed.

Lemma kappa_eta_sigma_rho_actions_witness :
  let p := PoincareParticle.mk 1 "canonical heliocentric" 2 1 1 0 1 0 0 0 in
  0 <= PoincareParticle.mu p
  /\ PoincareParticle.kappa p ^ 2 + PoincareParticle.eta p ^ 2
       = 2 * PoincareParticle.Gamma p
  /\ PoincareParticle.sigma p ^ 2 + PoincareParticle.rho p ^ 2
       = 2 * PoincareParticle.Q p.
Proof.
  intros p.
  assert (Hmu : 0 <= PoincareParticle.mu p) by (simpl; lra).
  split; [exact Hmu|].
  exact (kappa_eta_sigma_rho_actions p Hmu).
Defined.

(** ** [PoincareParticle]: the eccentricity *)

(** The property [e] raises exactly when the argument of its square root is
    negative. *)
Lemma e_raises_iff (p : PoincareParticle.t) :
  (exists err, PoincareParticle.e p = Raise err) <-> PoincareParticle.e_radicand p < 0.
Proof.
  unfold PoincareParticle.e, PoincareParticle.e_radicand. cbv zeta.
  destruct (Rlt_dec _ 0) as [Hlt|Hge]; split.
  - intros _. exact Hlt.
  - intros _. eexists; reflexivity.
  - intros [err Herr]. discriminate Herr.
  - intros Hlt. contradiction.
Qed.

Lemma e_returns_sqrt (p : PoincareParticle.t) :
  ~ PoincareParticle.e_radicand p < 0 ->
  PoincareParticle.e p = Ok (sqrt (PoincareParticle.e_radicand p)).
Proof.
  unfold PoincareParticle.e, PoincareParticle.e_radicand. cbv zeta.
  intros Hge. destruct (Rlt_dec _ 0) as [Hlt|_]; [contradiction|reflexivity].
Qed.

(** The stored variables [__init__] computes from [e = 1]: the specific
    action [sGamma] equals [sLambda], and [e] reads back as [1]. *)
Lemma e_of_parabolic_state (G mu M sL l gamma ssigma srho : R) (coords : string) :
  0 < sL ->
  let sGamma := sL * (1 - sqrt (1 - 1 ^ 2)) in
  PoincareParticle.e
    (PoincareParticle.mk G coords mu M sL l
       (sqrt (2 * sGamma) * cos gamma) (sqrt (2 * sGamma) * sin gamma) ssigma srho)
  = Ok 1.
Proof.
  intros HsL sGamma.
  assert (HsG : sGamma = sL).
  { unfold sGamma. replace (1 - 1 ^ 2) with 0 by ring. rewrite sqrt_0. ring. }
  rewrite HsG.
  assert (Hrad : PoincareParticle.e_radicand
            (PoincareParticle.mk G coords mu M sL l
               (sqrt (2 * sL) * cos gamma) (sqrt (2 * sL) * sin gamma) ssigma srho) = 1).
  { unfold PoincareParticle.e_radicand, PoincareParticle.sGamma.
    cbn [PoincareParticle.skappa PoincareParticle.seta PoincareParticle.sLambda].
    rewrite !Rpow_mult_distr, sqrt_pow2 by lra.
    replace ((2 * sL * cos gamma ^ 2 + 2 * sL * sin gamma ^ 2) / 2 / sL)
      with (sin gamma ^ 2 + cos gamma ^ 2) by (field; lra).
    replace (sin gamma ^ 2 + cos gamma ^ 2) with 1
      by (simpl; rewrite !Rmult_1_r; symmetry; apply sin2_cos2).
    ring. }
  rewrite e_returns_sqrt; rewrite Hrad; [rewrite sqrt_1; reflexivity | lra].
Qed.

(** C9, as stated, fails: [PoincareParticle(mu=1, M=1, a=1, e=1)] is
    constructed without any error, and reading [e] back returns [1]. *)
Lemma init_e_1_counterexample :
  exists p,
    PoincareParticle.init (PoincareParticleArgs.of_a_e 1 1 1 1) = Ok p
    /\ PoincareParticle.e p = Ok 1.
Proof.
  eexists; split.
  - reflexivity.
  - apply (e_of_parabolic_state 1 1 1 (sqrt (1 * 1 * 1)) 0 0).
    replace (1 * 1 * 1) with 1 by ring. rewrite sqrt_1. lra.
Qed.

(** C9 (amended). [__init__] does not check the eccentricity it is given:
    the call of [Poincare.from_Simulation] with [e = 1] and
    [G * M * a > 0] builds a particle, whose [e] then reads [1].  On a
    particle with [sLambda <> 0] the property [e] raises (an
    [AttributeError]) exactly when the argument [1 - (1 - GbyL)^2] of its
    square root is negative, and otherwise returns the square root of that
    argument. *)
Theorem init_e_1_succeeds_and_e_guard
    (coords : string) (G m Mstar a l pomega inc Omega mu M : R) :
  PoincareParticle.init_masses
    (PoincareParticleArgs.of_orbit coords G m Mstar a l 1 pomega inc Omega) = Ok (mu, M) ->
  0 < G * M * a ->
  (exists p,
     PoincareParticle.init
       (PoincareParticleArgs.of_orbit coords G m Mstar a l 1 pomega inc Omega) = Ok p
     /\ PoincareParticle.e p = Ok 1)
  /\ (forall p : PoincareParticle.t,
        PoincareParticle.sLambda p <> 0 ->
        ((exists err, PoincareParticle.e p = Raise err)
           <-> PoincareParticle.e_radicand p < 0)
        /\ (forall err, PoincareParticle.e p = Raise err
                        -> err = AttributeError PoincareParticle.msg_e)
        /\ (~ PoincareParticle.e_radicand p < 0
            -> PoincareParticle.e p = Ok (sqrt (PoincareParticle.e_radicand p)))).
Proof.
  intros Hmasses Hpos. split.
  - unfold PoincareParticle.init. rewrite Hmasses.
    eexists; split.
    + reflexivity.
    + apply (e_of_parabolic_state G mu M (sqrt (G * M * a)) l (- pomega)).
      apply sqrt_lt_R0, Hpos.
  - intros p _. split; [apply e_raises_iff|split; [|apply e_returns_sqrt]].
    intros err. unfold PoincareParticle.e. cbv zeta.
    destruct (Rlt_dec _ 0); intros Herr; inversion Herr; reflexivity.
Qed.

Lemma init_e_1_succeeds_and_e_guard_witness :
  (exists p,
     PoincareParticle.init
       (PoincareParticleArgs.of_orbit "democratic heliocentric" 1 1 1 1 0 1 0 0 0) = Ok p
     /\ PoincareParticle.e p = Ok 1)
  /\ (forall p : PoincareParticle.t,
        PoincareParticle.sLambda p <> 0 ->
        ((exists err, PoincareParticle.e p = Raise err)
           <-> PoincareParticle.e_radicand p < 0)
        /\ (forall err, PoincareParticle.e p = Raise err
                        -> err = AttributeError PoincareParticle.msg_e)
        /\ (~ PoincareParticle.e_radicand p < 0
            -> PoincareParticle.e p = Ok (sqrt (PoincareParticle.e_radicand p)))).
Proof.
  apply (init_e_1_succeeds_and_e_guard "democratic heliocentric" 1 1 1 1 0 0 0 0 1 1).
  - reflexivity.
  - lra.
Defined.

(** ** [Poincare]: the layout of the flat vector *)

Lemma init_step_fold (ps : list PoincareParticle.t) :
  forall (s : nat) (a b : list R) (c d : list symbol),
    fold_left Poincare.init_step (combine (seq s (List.length ps)) ps) (a, b, c, d)
    = (a ++ flat_map Poincare.pvals_of ps,
       b ++ flat_map Poincare.qvals_of ps,
       c ++ flat_map (fun i => [sym_lambda (Z.of_nat (i + 1)); sym_eta (Z.of_nat (i + 1));
                                sym_rho (Z.of_nat (i + 1))]) (seq s (List.length ps)),
       d ++ flat_map (fun i => [sym_Lambda (Z.of_nat (i + 1)); sym_kappa (Z.of_nat (i + 1));
                                sym_sigma (Z.of_nat (i + 1))]) (seq s (List.length ps))).
Proof.
  induction ps as [|p ps IH]; intros s a b c d.
  - simpl. rewrite !app_nil_r. reflexivity.
  - cbn [List.length seq combine fold_left flat_map].
    unfold Poincare.init_step at 2. cbv zeta.
    rewrite IH.
    change (Poincare.pvals_of p ++ flat_map Poincare.pvals_of ps)
      with ([PoincareParticle.Lambda p; PoincareParticle.kappa p; PoincareParticle.sigma p]
              ++ flat_map Poincare.pvals_of ps).
    change (Poincare.qvals_of p ++ flat_map Poincare.qvals_of ps)
      with ([PoincareParticle.l p; PoincareParticle.eta p; PoincareParticle.rho p]
              ++ flat_map Poincare.qvals_of ps).
    rewrite <- !app_assoc. reflexivity.
Qed.

(** The object [Poincare.__init__] builds from a non-empty list of
    particles. *)
Lemma Poincare_init_closed_form (G : R) (p0 : PoincareParticle.t)
    (ps : list PoincareParticle.t) (coords : string) (t : R) :
  Poincare.init G (p0 :: ps) coords t =
  Ok (Poincare.mk G
        (PoincareParticle.Mstar p0 :: map PoincareParticle.m (p0 :: ps))
        coords
        (flat_map (fun i => [sym_lambda (Z.of_nat (i + 1)); sym_eta (Z.of_nat (i + 1));
                             sym_rho (Z.of_nat (i + 1))]) (seq 0 (S (List.length ps)))
         ++ flat_map (fun i => [sym_Lambda (Z.of_nat (i + 1)); sym_kappa (Z.of_nat (i + 1));
                                sym_sigma (Z.of_nat (i + 1))]) (seq 0 (S (List.length ps))))
        (flat_map Poincare.qvals_of (p0 :: ps) ++ flat_map Poincare.pvals_of (p0 :: ps))
        t).
Proof.
  unfold Poincare.init, Poincare.enumerate.
  cbn [py_index List.length Z.ltb Z.of_nat Z.compare]. cbn [bind].
  replace (py_index (p0 :: ps) 0) with (Ok p0).
  2:{ unfold py_index. cbn [Z.ltb Z.compare]. cbn [List.length].
      destruct (Z.ltb_spec 0 0); [lia|]. cbn [orb].
      destruct (Z.leb_spec (Z.of_nat (S (List.length ps))) 0); [lia|]. reflexivity. }
  cbn [bind].
  change (S (List.length ps)) with (List.length (p0 :: ps)).
  rewrite init_step_fold. reflexivity.
Qed.

Lemma flat_map_length_3 {A B : Type} (f : A -> list B) (xs : list A) :
  (forall x, List.length (f x) = 3%nat) ->
  List.length (flat_map f xs) = (3 * List.length xs)%nat.
Proof.
  intros Hf. induction xs as [|x xs IH]; simpl; [reflexivity|].
  rewrite length_app, Hf, IH. lia.
Qed.

Lemma Poincare_init_N (G : R) (p0 : PoincareParticle.t)
    (ps : list PoincareParticle.t) (coords : string) (t : R) (self : Poincare.t) :
  Poincare.init G (p0 :: ps) coords t = Ok self ->
  Poincare.Ndof self = (3 * List.length (p0 :: ps))%nat
  /\ Poincare.N self = S (List.length (p0 :: ps)).
Proof.
  rewrite Poincare_init_closed_form. intros Heq.
  assert (Hv : Poincare.values self
               = flat_map Poincare.qvals_of (p0 :: ps) ++ flat_map Poincare.pvals_of (p0 :: ps))
    by (injection Heq as <-; reflexivity).
  assert (HNdof : Poincare.Ndof self = (3 * List.length (p0 :: ps))%nat).
  { unfold Poincare.Ndof. rewrite Hv.
    rewrite length_app, !(flat_map_length_3 _ (p0 :: ps)) by reflexivity.
    replace (3 * List.length (p0 :: ps) + 3 * List.length (p0 :: ps))%nat
      with ((3 * List.length (p0 :: ps)) * 2)%nat by lia.
    apply Nat.div_mul. lia. }
  split; [exact HNdof|].
  unfold Poincare.N. rewrite HNdof.
  rewrite Nat.mul_comm, Nat.div_mul by lia. lia.
Qed.

Lemma py_index_nat {A : Type} (xs : list A) (k : nat) (x : A) :
  nth_error xs k = Some x -> py_index xs (Z.of_nat k) = Ok x.
Proof.
  intros Hnth. unfold py_index.
  assert (Hk : (k < List.length xs)%nat) by (apply nth_error_Some; congruence).
  destruct (Z.ltb_spec (Z.of_nat k) 0); [lia|].
  destruct (Z.ltb_spec (Z.of_nat k) 0); [lia|]. cbn [orb].
  destruct (Z.leb_spec (Z.of_nat (List.length xs)) (Z.of_nat k)); [lia|].
  rewrite Nat2Z.id, Hnth. reflexivity.
Qed.

Lemma nth_error_flat_map_3 {A B : Type} (f : A -> list B) (xs : list A)
    (j k : nat) (x : A) :
  (forall x, List.length (f x) = 3%nat) ->
  nth_error xs j = Some x -> (k < 3)%nat ->
  nth_error (flat_map f xs) (3 * j + k) = nth_error (f x) k.
Proof.
  intros Hf. revert j. induction xs as [|x0 xs IH]; intros j Hj Hk.
  - destruct j; discriminate Hj.
  - destruct j as [|j]; cbn [flat_map].
    + injection Hj as ->. rewrite nth_error_app1 by (rewrite Hf; lia).
      reflexivity.
    + cbn [nth_error] in Hj.
      rewrite nth_error_app2 by (rewrite Hf; lia).
      rewrite Hf. replace (3 * S j + k - 3)%nat with (3 * j + k)%nat by lia.
      apply IH; assumption.
Qed.

(** [__getitem__] reads back, for the body [i], the six values [__init__]
    stored for the particle number [i] of the list. *)
Lemma getitem_reads_init_layout (G : R) (p0 : PoincareParticle.t)
    (ps : list PoincareParticle.t) (coords : string) (t : R) (self : Poincare.t)
    (i : nat) (p : PoincareParticle.t) :
  Poincare.init G (p0 :: ps) coords t = Ok self ->
  nth_error (p0 :: ps) i = Some p ->
  Poincare.PoincareParticles.getitem self (Z.of_nat (S i)) =
  PoincareParticle.init
    (PoincareParticleArgs.of_massive coords G (PoincareParticle.m p)
       (PoincareParticle.Mstar p0)
       (PoincareParticle.l p) (PoincareParticle.eta p) (PoincareParticle.rho p)
       (PoincareParticle.Lambda p) (PoincareParticle.kappa p) (PoincareParticle.sigma p)).
Proof.
  intros Hinit Hp.
  destruct (Poincare_init_N _ _ _ _ _ _ Hinit) as [HNdof HN].
  rewrite Poincare_init_closed_form in Hinit.
  assert (Hv : Poincare.values self
               = flat_map Poincare.qvals_of (p0 :: ps) ++ flat_map Poincare.pvals_of (p0 :: ps))
    by (injection Hinit as <-; reflexivity).
  assert (Hm : Poincare.masses self
               = PoincareParticle.Mstar p0 :: map PoincareParticle.m (p0 :: ps))
    by (injection Hinit as <-; reflexivity).
  assert (Hc : Poincare.coordinates self = coords) by (injection Hinit as <-; reflexivity).
  assert (HG : Poincare.G self = G) by (injection Hinit as <-; reflexivity).
  assert (Hi : (i < List.length (p0 :: ps))%nat) by (apply nth_error_Some; congruence).
  unfold Poincare.PoincareParticles.getitem.
  destruct (Z.eqb_spec (Z.of_nat (S i)) 0); [lia|].
  destruct (Z.ltb_spec (Z.of_nat (S i)) 0); [lia|].
  destruct (Z.ltb_spec (Z.of_nat (S i)) 0); [lia|]. cbn [orb].
  destruct (Z.leb_spec (Z.of_nat (Poincare.N self)) (Z.of_nat (S i))); [lia|].
  cbv zeta. rewrite Hv, Hm, Hc, HG, HNdof.
  assert (Hq : forall k, (k < 3)%nat ->
             nth_error (flat_map Poincare.qvals_of (p0 :: ps)
                          ++ flat_map Poincare.pvals_of (p0 :: ps)) (3 * i + k)
             = nth_error (Poincare.qvals_of p) k).
  { intros k Hk. rewrite nth_error_app1.
    - apply nth_error_flat_map_3; [reflexivity|assumption|assumption].
    - rewrite flat_map_length_3 by reflexivity. lia. }
  assert (Hpv : forall k, (k < 3)%nat ->
             nth_error (flat_map Poincare.qvals_of (p0 :: ps)
                          ++ flat_map Poincare.pvals_of (p0 :: ps))
                       (3 * List.length (p0 :: ps) + 3 * i + k)
             = nth_error (Poincare.pvals_of p) k).
  { intros k Hk. rewrite nth_error_app2.
    - rewrite flat_map_length_3 by reflexivity.
      replace (3 * List.length (p0 :: ps) + 3 * i + k - 3 * List.length (p0 :: ps))%nat
        with (3 * i + k)%nat by lia.
      apply nth_error_flat_map_3; [reflexivity|assumption|assumption].
    - rewrite flat_map_length_3 by reflexivity. lia. }
  replace ((Z.of_nat (S i) - 1) * 3)%Z with (Z.of_nat (3 * i + 0)) by lia.
  rewrite (py_index_nat _ _ _ (Hq 0%nat ltac:(lia))). cbn [bind].
  replace (Z.of_nat (3 * i + 0) + 1)%Z with (Z.of_nat (3 * i + 1)) by lia.
  rewrite (py_index_nat _ _ _ (Hq 1%nat ltac:(lia))). cbn [bind].
  replace (Z.of_nat (3 * i + 0) + 2)%Z with (Z.of_nat (3 * i + 2)) by lia.
  rewrite (py_index_nat _ _ _ (Hq 2%nat ltac:(lia))). cbn [bind].
  replace (Z.of_nat (3 * List.length (p0 :: ps)) + Z.of_nat (3 * i + 0))%Z
    with (Z.of_nat (3 * List.length (p0 :: ps) + 3 * i + 0)) by lia.
  rewrite (py_index_nat _ _ _ (Hpv 0%nat ltac:(lia))). cbn [bind].
  replace (Z.of_nat (3 * List.length (p0 :: ps) + 3 * i + 0) + 1)%Z
    with (Z.of_nat (3 * List.length (p0 :: ps) + 3 * i + 1)) by lia.
  rewrite (py_index_nat _ _ _ (Hpv 1%nat ltac:(lia))). cbn [bind].
  replace (Z.of_nat (3 * List.length (p0 :: ps) + 3 * i + 0) + 2)%Z
    with (Z.of_nat (3 * List.length (p0 :: ps) + 3 * i + 2)) by lia.
  rewrite (py_index_nat _ _ _ (Hpv 2%nat ltac:(lia))). cbn [bind].
  rewrite (py_index_nat _ (S i) (PoincareParticle.m p)).
  2:{ cbn [nth_error]. apply map_nth_error, Hp. }
  cbn [bind].
  change 0%Z with (Z.of_nat 0).
  rewrite (py_index_nat _ 0%nat (PoincareParticle.Mstar p0)) by reflexivity.
  reflexivity.
Qed.

(** ** State vectors *)

Lemma reshape_6_flatten_rows (vecs : list row) :
  reshape_6 (flatten_rows vecs) = Ok vecs.
Proof.
  induction vecs as [|[v0 v1 v2 v3 v4 v5] vecs IH]; [reflexivity|].
  unfold flatten_rows in *. cbn [flat_map row_to_list r0 r1 r2 r3 r4 r5 app reshape_6].
  rewrite IH. reflexivity.
Qed.

Lemma flatten_rows_inj (u v : list row) : flatten_rows u = flatten_rows v -> u = v.
Proof.
  intros Huv.
  assert (H : reshape_6 (flatten_rows u) = reshape_6 (flatten_rows v)) by (rewrite Huv; reflexivity).
  rewrite !reshape_6_flatten_rows in H. injection H as ->. reflexivity.
Qed.

Lemma np_elementwise_same_length {A : Type} (f : A -> A -> A) (xs ys : list A) :
  List.length xs = List.length ys -> np_elementwise f xs ys = Ok (map2 f xs ys).
Proof. intros Hlen. unfold np_elementwise. rewrite Hlen, Nat.eqb_refl. reflexivity. Qed.

Lemma map2_length {A B D : Type} (f : A -> B -> D) (xs : list A) (ys : list B) :
  List.length xs = List.length ys -> List.length (map2 f xs ys) = List.length ys.
Proof.
  revert ys; induction xs as [|x xs IH]; intros [|y ys] Hlen; simpl in *; try lia.
  rewrite IH; lia.
Qed.

(** ** [KeplerianEvolutionOperator] *)

Lemma Keplerian_row_step (dt : R) (GG : list R) (vecs : list row) :
  List.length GG = List.length vecs ->
  map2 (fun v r => row_set 3 (row_get 3 r + v) r)
       (map (Rmult dt)
          (map2 Rdiv (map2 Rdiv (map2 Rdiv GG (col 2 vecs)) (col 2 vecs)) (col 2 vecs)))
       vecs
  = map2 (KeplerianEvolutionOperator.spec_advance_row dt) GG vecs.
Proof.
  revert vecs; induction GG as [|g GG IH]; intros [|r vecs] Hlen; simpl in *; try lia;
    [reflexivity|].
  rewrite IH by lia. f_equal.
  unfold KeplerianEvolutionOperator.spec_advance_row. f_equal.
  cbn [pow]. unfold Rdiv. rewrite !Rinv_mult, Rinv_1. ring.
Qed.

(** On a vector of six slots per body, [apply_to_state_vector] adds
    [dt * GGMMmmm / Lambda^3] to the slot [3] of each body, where [Lambda] is
    the slot [2], and keeps the five other slots. *)
Lemma Keplerian_apply_to_state_vector_rows
    (self : KeplerianEvolutionOperator.t) (vecs : list row) :
  List.length (KeplerianEvolutionOperator.GGMMmmm self) = List.length vecs ->
  KeplerianEvolutionOperator.apply_to_state_vector self (flatten_rows vecs)
  = Ok (flatten_rows
          (map2 (KeplerianEvolutionOperator.spec_advance_row
                   (KeplerianEvolutionOperator.dt self))
                (KeplerianEvolutionOperator.GGMMmmm self) vecs)).
Proof.
  intros Hlen.
  unfold KeplerianEvolutionOperator.apply_to_state_vector, _state_vector_to_individual_vectors.
  rewrite reshape_6_flatten_rows. cbn [bind].
  assert (HL : List.length (col 2 vecs) = List.length vecs) by apply length_map.
  unfold KeplerianEvolutionOperator.lambda_dot_of.
  set (GG := KeplerianEvolutionOperator.GGMMmmm self) in *.
  assert (H1 : List.length (map2 Rdiv GG (col 2 vecs)) = List.length vecs)
    by (rewrite map2_length; lia).
  assert (H2 : List.length (map2 Rdiv (map2 Rdiv GG (col 2 vecs)) (col 2 vecs))
               = List.length vecs)
    by (rewrite map2_length; lia).
  assert (H3 : List.length (map2 Rdiv (map2 Rdiv (map2 Rdiv GG (col 2 vecs)) (col 2 vecs))
                              (col 2 vecs))
               = List.length vecs)
    by (rewrite map2_length; lia).
  rewrite np_elementwise_same_length by lia. cbn [bind].
  rewrite np_elementwise_same_length by lia. cbn [bind].
  rewrite np_elementwise_same_length by lia. cbn [bind].
  unfold iadd_col.
  rewrite length_map, H3, Nat.eqb_refl. cbn [bind].
  rewrite Keplerian_row_step by exact Hlen. reflexivity.
Qed.

Lemma Keplerian_rows_back (dt : R) (GG : list R) (vecs : list row) :
  List.length GG = List.length vecs ->
  map2 (KeplerianEvolutionOperator.spec_advance_row (- dt)) GG
       (map2 (KeplerianEvolutionOperator.spec_advance_row dt) GG vecs)
  = vecs.
Proof.
  revert vecs; induction GG as [|g GG IH]; intros [|r vecs] Hlen; simpl in *; try lia;
    [reflexivity|].
  rewrite IH by lia. f_equal.
  destruct r as [v0 v1 v2 v3 v4 v5].
  unfold KeplerianEvolutionOperator.spec_advance_row. simpl. f_equal. ring.
Qed.

(** [apply_to_state_vector] with [dt] and then with [-dt] gives the vector
    back. *)
Lemma Keplerian_apply_to_state_vector_back
    (self : KeplerianEvolutionOperator.t) (vecs : list row) :
  List.length (KeplerianEvolutionOperator.GGMMmmm self) = List.length vecs ->
  (v1 <- KeplerianEvolutionOperator.apply_to_state_vector self (flatten_rows vecs) ;;
   KeplerianEvolutionOperator.apply_to_state_vector
     (KeplerianEvolutionOperator.set_dt (- KeplerianEvolutionOperator.dt self) self) v1)
  = Ok (flatten_rows vecs).
Proof.
  intros Hlen.
  rewrite Keplerian_apply_to_state_vector_rows by exact Hlen. cbn [bind].
  rewrite Keplerian_apply_to_state_vector_rows
    by (cbn [KeplerianEvolutionOperator.set_dt KeplerianEvolutionOperator.GGMMmmm];
        rewrite map2_length; lia).
  cbn [KeplerianEvolutionOperator.set_dt KeplerianEvolutionOperator.GGMMmmm
       KeplerianEvolutionOperator.dt KeplerianEvolutionOperator._dt].
  rewrite Keplerian_rows_back by exact Hlen. reflexivity.
Qed.

Lemma Keplerian_apply_to_state_vector_back_witness :
  exists op,
    KeplerianEvolutionOperator.init two_circular_planets 1 = Ok op
    /\ (v1 <- KeplerianEvolutionOperator.apply_to_state_vector op (flatten_rows two_rows) ;;
        KeplerianEvolutionOperator.apply_to_state_vector
          (KeplerianEvolutionOperator.set_dt (- KeplerianEvolutionOperator.dt op) op) v1)
       = Ok (flatten_rows two_rows).
Proof.
  eexists. split; [reflexivity|].
  apply Keplerian_apply_to_state_vector_back. reflexivity.
Defined.

(** [apply] returns the operator it was called on: the state, and with it
    every mean longitude, is the one before the call. *)
Lemma Keplerian_apply_keeps_state
    (self self' : KeplerianEvolutionOperator.t) (tmp : list PoincareParticle.t) :
  KeplerianEvolutionOperator.apply self = Ok (self', tmp) -> self' = self.
Proof.
  unfold KeplerianEvolutionOperator.apply.
  destruct (KeplerianEvolutionOperator.get_lambda_dot self); cbn [bind]; [|discriminate].
  destruct (Poincare.PoincareParticles.getslice_from_1 _); cbn [bind]; [|discriminate].
  intros Heq; injection Heq as <- _. reflexivity.
Qed.

(** C4, the path [apply]. For the system of one planet [circular_particle]
    and the timestep [dt = 1], [apply] returns normally and the mean
    longitude of the planet in the state is still [0], although
    [dt * G^2 M^2 m^3 / Lambda^3 = 1]: the loop [p.l += dl] has advanced the
    objects built by [ps[1:]] only. *)
Theorem Keplerian_apply_keeps_mean_longitude :
  exists st op tmp p,
    Poincare.init 1 [circular_particle] "democratic heliocentric" 0 = Ok st
    /\ KeplerianEvolutionOperator.init st 1 = Ok op
    /\ KeplerianEvolutionOperator.apply op = Ok (op, tmp)
    /\ Poincare.PoincareParticles.getitem (KeplerianEvolutionOperator.state op) 1 = Ok p
    /\ PoincareParticle.l p = 0
    /\ map PoincareParticle.l tmp = [1]
    /\ KeplerianEvolutionOperator.dt op
       * (Poincare.G st ^ 2 * PoincareParticle.M p ^ 2 * PoincareParticle.mu p ^ 3
          / PoincareParticle.Lambda p ^ 3) = 1.
Proof.
  eexists. eexists. eexists. eexists.
  split; [reflexivity|].
  split; [reflexivity|].
  split; [reflexivity|].
  split; [reflexivity|].
  split; [reflexivity|].
  split.
  - cbn. unfold PoincareParticle.Lambda, circular_particle. cbn. f_equal. field.
  - cbn. unfold PoincareParticle.Lambda, circular_particle. cbn. field.
Qed.

(** ** Complex vectors and matrices *)

Lemma Cdot_cons (a c : C) (u v : cvec) :
  Cdot (a :: u) (c :: v) = Cadd (Cmul a c) (Cdot u v).
Proof. reflexivity. Qed.

Lemma Cdot_zero_l (js : list nat) (x : cvec) :
  Cdot (map (fun _ => RtoC 0) js) x = RtoC 0.
Proof.
  revert x; induction js as [|j js IH]; intros [|c x]; try reflexivity.
  cbn [map]. rewrite Cdot_cons, IH. ring.
Qed.

Lemma Cdot_linear_l (a : C) (f g : nat -> C) (js : list nat) (x : cvec) :
  Cdot (map (fun j => Cadd (Cmul a (f j)) (g j)) js) x
  = Cadd (Cmul a (Cdot (map f js) x)) (Cdot (map g js) x).
Proof.
  revert x; induction js as [|j js IH]; intros [|c x]; cbn [map];
    try (unfold Cdot; simpl; ring).
  rewrite !Cdot_cons, IH. ring.
Qed.

Lemma map_nth_seq_id {A : Type} (d : A) (b : list A) :
  map (fun j => nth j b d) (seq 0 (List.length b)) = b.
Proof.
  induction b as [|a b IH]; [reflexivity|].
  cbn [List.length seq map nth]. f_equal.
  rewrite <- seq_shift, map_map. exact IH.
Qed.

(** The entry of [(A B) x] and of [A (B x)] for one row of [A]. *)
Lemma Cdot_matmul_row (k : nat) (B : cmatrix) :
  Forall (fun Brow => List.length Brow = k) B ->
  forall (Arow : cvec) (x : cvec),
    List.length Arow = List.length B ->
    Cdot (map (fun j => Cdot Arow (column j B)) (seq 0 k)) x
    = Cdot Arow (map (fun Brow => Cdot Brow x) B).
Proof.
  induction 1 as [|b B Hb HB IH]; intros Arow x Hlen.
  - destruct Arow; [|discriminate Hlen].
    cbn [column map]. apply Cdot_zero_l.
  - destruct Arow as [|a Arow]; [discriminate Hlen|].
    cbn [column map]. cbn [List.length] in Hlen.
    rewrite Cdot_cons.
    rewrite <- (IH Arow x) by lia.
    replace (Cdot b x) with (Cdot (map (fun j => nth j b (RtoC 0)) (seq 0 k)) x)
      by (rewrite <- Hb, map_nth_seq_id; reflexivity).
    rewrite <- (Cdot_linear_l a (fun j => nth j b (RtoC 0))
                  (fun j => Cdot Arow (column j B))).
    reflexivity.
Qed.

Lemma matvec_shape (n k : nat) (M : cmatrix) (x : cvec) :
  has_shape n k M -> List.length x = k ->
  matvec M x = Ok (map (fun Mrow => Cdot Mrow x) M).
Proof.
  intros [_ Hrows] Hx. unfold matvec.
  replace (forallb _ M) with true; [reflexivity|].
  symmetry. apply forallb_forall. intros Mrow Hin.
  rewrite Forall_forall in Hrows. rewrite (Hrows _ Hin), Hx. apply Nat.eqb_refl.
Qed.

Lemma matmul_shape (n k : nat) (A B : cmatrix) :
  List.length A = n -> has_shape n k (matmul k A B).
Proof.
  intros HA. split.
  - unfold matmul. rewrite length_map. exact HA.
  - unfold matmul. apply Forall_forall. intros Mrow Hin.
    apply in_map_iff in Hin. destruct Hin as [Arow [<- _]].
    rewrite length_map, length_seq. reflexivity.
Qed.

(** [(A @ B) @ x = A @ (B @ x)] *)
Lemma matvec_matmul (n : nat) (A B : cmatrix) (x : cvec) :
  has_shape n n A -> has_shape n n B -> List.length x = n ->
  matvec (matmul n A B) x = (Bx <- matvec B x ;; matvec A Bx).
Proof.
  intros HA HB Hx.
  rewrite (matvec_shape n n (matmul n A B) x) by (try apply matmul_shape; try apply HA; assumption).
  rewrite (matvec_shape n n B x) by assumption. cbn [bind].
  rewrite (matvec_shape n n A) by (try assumption; rewrite length_map; apply HB).
  f_equal. unfold matmul. rewrite map_map.
  apply map_ext_in. intros Arow Hin.
  apply Cdot_matmul_row.
  - apply HB.
  - destruct HA as [_ HA], HB as [HB _]. rewrite Forall_forall in HA.
    rewrite (HA _ Hin), HB. reflexivity.
Qed.

(** ** [LinearSecularEvolutionOperator] *)

Lemma _rt2_neq_0 : _rt2 <> 0.
Proof.
  unfold _rt2. intros H0.
  assert (Hpos : 0 < sqrt 2) by (apply sqrt_lt_R0; lra). lra.
Qed.

Lemma complex_pairs_cols (ka et : nat) (vecs : list row) :
  LinearSecularEvolutionOperator.complex_pairs (col ka vecs) (col et vecs)
  = Ok (map (fun r => Cscale _rt2_inv
                        (Csub (RtoC (row_get ka r)) (Cmul (mkC 0 1) (RtoC (row_get et r)))))
            vecs).
Proof.
  unfold LinearSecularEvolutionOperator.complex_pairs.
  rewrite np_elementwise_same_length by (unfold col; rewrite !length_map; reflexivity).
  cbn [bind]. f_equal.
  unfold col. induction vecs as [|r vecs IH]; [reflexivity|].
  cbn [map map2]. f_equal. exact IH.
Qed.

Lemma set_col_same_length (k : nat) (vals : list R) (vecs : list row) :
  List.length vals = List.length vecs ->
  set_col k vals vecs = Ok (map2 (fun v r => row_set k v r) vals vecs).
Proof. intros Hlen. unfold set_col. rewrite Hlen, Nat.eqb_refl. reflexivity. Qed.

Lemma rows_with_length (vecs : list row) (xnew ynew : cvec) :
  List.length xnew = List.length vecs -> List.length ynew = List.length vecs ->
  List.length (LinearSecularEvolutionOperator.rows_with vecs xnew ynew) = List.length vecs.
Proof.
  revert xnew ynew; induction vecs as [|r vecs IH]; intros [|a xnew] [|b ynew] Hx Hy;
    simpl in *; try lia.
  f_equal. apply IH; lia.
Qed.

(** The four column assignments of [apply_to_state_vector]. *)
Lemma secular_set_cols (vecs : list row) (xnew ynew : cvec) :
  List.length xnew = List.length vecs -> List.length ynew = List.length vecs ->
  (v1 <- set_col 0 (map (fun z => _rt2 * Re z) xnew) vecs ;;
   v2 <- set_col 1 (map (fun z => -1 * _rt2 * Im z) xnew) v1 ;;
   v3 <- set_col 4 (map (fun z => _rt2 * Re z) ynew) v2 ;;
   v4 <- set_col 5 (map (fun z => -1 * _rt2 * Im z) ynew) v3 ;;
   Ok (flatten_rows v4))
  = Ok (flatten_rows (LinearSecularEvolutionOperator.rows_with vecs xnew ynew)).
Proof.
  intros Hx Hy.
  assert (Hset : forall k (vals : list R) (rows : list row),
             List.length vals = List.length vecs -> List.length rows = List.length vecs ->
             set_col k vals rows = Ok (map2 (fun v r => row_set k v r) vals rows)
             /\ List.length (map2 (fun v r => row_set k v r) vals rows) = List.length vecs).
  { intros k vals rows Hv Hr. split.
    - apply set_col_same_length. lia.
    - rewrite map2_length; lia. }
  destruct (Hset 0%nat (map (fun z => _rt2 * Re z) xnew) vecs) as [-> Hl1];
    [rewrite length_map; lia | reflexivity |]. cbn [bind].
  destruct (Hset 1%nat (map (fun z => -1 * _rt2 * Im z) xnew) _
              ltac:(rewrite length_map; lia) Hl1) as [-> Hl2]. cbn [bind].
  destruct (Hset 4%nat (map (fun z => _rt2 * Re z) ynew) _
              ltac:(rewrite length_map; lia) Hl2) as [-> Hl3]. cbn [bind].
  destruct (Hset 5%nat (map (fun z => -1 * _rt2 * Im z) ynew) _
              ltac:(rewrite length_map; lia) Hl3) as [-> Hl4]. cbn [bind].
  clear Hset Hl1 Hl2 Hl3 Hl4.
  do 2 f_equal.
  clear Hx Hy. revert xnew ynew.
  induction vecs as [|r vecs IH]; intros [|a xnew] [|b ynew]; try reflexivity.
  cbn [map map2]. rewrite IH. reflexivity.
Qed.

Lemma secular_apply_to_state_vector_rows
    (self : LinearSecularEvolutionOperator.t) (vecs : list row) :
  has_shape (List.length vecs) (List.length vecs)
    (LinearSecularEvolutionOperator.ecc_operator_matrix self) ->
  has_shape (List.length vecs) (List.length vecs)
    (LinearSecularEvolutionOperator.inc_operator_matrix self) ->
  LinearSecularEvolutionOperator.apply_to_state_vector self (flatten_rows vecs)
  = Ok (flatten_rows
          (LinearSecularEvolutionOperator.rows_with vecs
             (map (fun Mrow => Cdot Mrow (LinearSecularEvolutionOperator.x_of_rows vecs))
                  (LinearSecularEvolutionOperator.ecc_operator_matrix self))
             (map (fun Mrow => Cdot Mrow (LinearSecularEvolutionOperator.y_of_rows vecs))
                  (LinearSecularEvolutionOperator.inc_operator_matrix self)))).
Proof.
  intros HE HI.
  unfold LinearSecularEvolutionOperator.apply_to_state_vector,
    _state_vector_to_individual_vectors.
  rewrite reshape_6_flatten_rows. cbn [bind].
  rewrite !complex_pairs_cols. cbn [bind row_get].
  fold (LinearSecularEvolutionOperator.x_of_rows vecs).
  fold (LinearSecularEvolutionOperator.y_of_rows vecs).
  rewrite (matvec_shape _ _ _ _ HE)
    by (unfold LinearSecularEvolutionOperator.x_of_rows; apply length_map).
  cbn [bind].
  rewrite (matvec_shape _ _ _ _ HI)
    by (unfold LinearSecularEvolutionOperator.y_of_rows; apply length_map).
  cbn [bind].
  apply secular_set_cols; rewrite length_map; [apply HE | apply HI].
Qed.

(** Reading [x] and [y] in the rows just written gives the vectors
    written. *)
Lemma x_of_rows_with (vecs : list row) (xnew ynew : cvec) :
  List.length xnew = List.length vecs -> List.length ynew = List.length vecs ->
  LinearSecularEvolutionOperator.x_of_rows
    (LinearSecularEvolutionOperator.rows_with vecs xnew ynew) = xnew
  /\ LinearSecularEvolutionOperator.y_of_rows
       (LinearSecularEvolutionOperator.rows_with vecs xnew ynew) = ynew.
Proof.
  pose proof _rt2_neq_0 as Hrt2.
  revert xnew ynew; induction vecs as [|r vecs IH]; intros [|a xnew] [|b ynew] Hx Hy;
    simpl in *; try lia; [split; reflexivity|].
  destruct (IH xnew ynew) as [IHx IHy]; try lia.
  unfold LinearSecularEvolutionOperator.x_of_rows, LinearSecularEvolutionOperator.y_of_rows,
    LinearSecularEvolutionOperator.rows_with in *.
  split; cbn [map map2 combine fst snd r0 r1 r4 r5].
  - rewrite IHx. f_equal. destruct a as [ar ai].
    unfold Cscale, Csub, Cadd, Copp, Cmul, RtoC, _rt2_inv. cbn [Re Im].
    f_equal; field; exact Hrt2.
  - rewrite IHy. f_equal. destruct b as [br bi].
    unfold Cscale, Csub, Cadd, Copp, Cmul, RtoC, _rt2_inv. cbn [Re Im].
    f_equal; field; exact Hrt2.
Qed.

Lemma rows_with_rows_with (vecs : list row) (x1 y1 x2 y2 : cvec) :
  List.length x1 = List.length vecs -> List.length y1 = List.length vecs ->
  LinearSecularEvolutionOperator.rows_with
    (LinearSecularEvolutionOperator.rows_with vecs x1 y1) x2 y2
  = LinearSecularEvolutionOperator.rows_with vecs x2 y2.
Proof.
  revert x1 y1 x2 y2; induction vecs as [|r vecs IH];
    intros [|a1 x1] [|b1 y1] x2 y2 Hx Hy; simpl in *; try lia; [reflexivity|].
  unfold LinearSecularEvolutionOperator.rows_with in *.
  destruct x2 as [|a2 x2]; [reflexivity|]. destruct y2 as [|b2 y2]; [reflexivity|].
  cbn [map2 combine r2 r3]. f_equal. apply IH; lia.
Qed.

Lemma matmul_map_Cdot (n : nat) (A B : cmatrix) (x : cvec) :
  has_shape n n A -> has_shape n n B ->
  map (fun Mrow => Cdot Mrow x) (matmul n A B)
  = map (fun Arow => Cdot Arow (map (fun Brow => Cdot Brow x) B)) A.
Proof.
  intros [_ HA] [HB HBrows]. unfold matmul. rewrite map_map.
  apply map_ext_in. intros Arow Hin.
  apply Cdot_matmul_row; [exact HBrows|].
  rewrite Forall_forall in HA. rewrite (HA _ Hin), HB. reflexivity.
Qed.

Lemma secular_apply_keeps_operator
    (self self' : LinearSecularEvolutionOperator.t)
    (tmp : list PoincareParticle.t * list PoincareParticle.t) :
  LinearSecularEvolutionOperator.apply self = Ok (self', tmp) -> self' = self.
Proof.
  unfold LinearSecularEvolutionOperator.apply.
  destruct (LinearSecularEvolutionOperator._get_x_vector self); cbn [bind]; [|discriminate].
  destruct (LinearSecularEvolutionOperator._get_y_vector self); cbn [bind]; [|discriminate].
  destruct (matvec _ _); cbn [bind]; [|discriminate].
  destruct (matvec _ _); cbn [bind]; [|discriminate].
  destruct (Poincare.PoincareParticles.getslice_from_1 _); cbn [bind]; [|discriminate].
  intros Heq; injection Heq as <- _. reflexivity.
Qed.

(** [apply_to_state_vector] maps the vectors [x = (kappa - 1j*eta)/sqrt(2)]
    and [y = (sigma - 1j*rho)/sqrt(2)] read in the rows through the two
    operator matrices [expm(-1j*dt*M)] and writes the results back.  When
    [expm] satisfies, for the two matrices of the operator and the timesteps
    [dt1] and [dt2], the law of the matrix exponential
    [expm(-1j*(dt1+dt2)*M) = expm(-1j*dt2*M) @ expm(-1j*dt1*M)], a call with
    the timestep [dt1] followed by a call with the timestep [dt2] returns
    the vector that one call with the timestep [dt1 + dt2] returns. *)
Lemma LinearSecular_apply_to_state_vector_composition
    (expm : cmatrix -> cmatrix) (self : LinearSecularEvolutionOperator.t)
    (dt1 dt2 : R) (vecs : list row) :
  let n := List.length vecs in
  let E := fun dt => expm (mscale (LinearSecularEvolutionOperator.minus_1j_times dt)
                             (LinearSecularEvolutionOperator.ecc_matrix self)) in
  let I := fun dt => expm (mscale (LinearSecularEvolutionOperator.minus_1j_times dt)
                             (LinearSecularEvolutionOperator.inc_matrix self)) in
  has_shape n n (E dt1) -> has_shape n n (E dt2) ->
  has_shape n n (I dt1) -> has_shape n n (I dt2) ->
  E (dt1 + dt2) = matmul n (E dt2) (E dt1) ->
  I (dt1 + dt2) = matmul n (I dt2) (I dt1) ->
  LinearSecularEvolutionOperator.apply_to_state_vector
    (LinearSecularEvolutionOperator.set_dt expm dt1 self) (flatten_rows vecs)
  = Ok (flatten_rows
          (LinearSecularEvolutionOperator.rows_with vecs
             (map (fun Mrow => Cdot Mrow (LinearSecularEvolutionOperator.x_of_rows vecs))
                  (E dt1))
             (map (fun Mrow => Cdot Mrow (LinearSecularEvolutionOperator.y_of_rows vecs))
                  (I dt1))))
  /\ (v1 <- LinearSecularEvolutionOperator.apply_to_state_vector
              (LinearSecularEvolutionOperator.set_dt expm dt1 self) (flatten_rows vecs) ;;
      LinearSecularEvolutionOperator.apply_to_state_vector
        (LinearSecularEvolutionOperator.set_dt expm dt2 self) v1)
     = LinearSecularEvolutionOperator.apply_to_state_vector
         (LinearSecularEvolutionOperator.set_dt expm (dt1 + dt2) self) (flatten_rows vecs).
Proof.
  intros n E I HE1 HE2 HI1 HI2 HEadd HIadd. split.
  - exact (secular_apply_to_state_vector_rows
             (LinearSecularEvolutionOperator.set_dt expm dt1 self) vecs HE1 HI1).
  - set (x1 := map (fun Mrow => Cdot Mrow (LinearSecularEvolutionOperator.x_of_rows vecs)) (E dt1)).
    set (y1 := map (fun Mrow => Cdot Mrow (LinearSecularEvolutionOperator.y_of_rows vecs)) (I dt1)).
    assert (Hx1 : List.length x1 = List.length vecs)
      by (unfold x1; rewrite length_map; apply HE1).
    assert (Hy1 : List.length y1 = List.length vecs)
      by (unfold y1; rewrite length_map; apply HI1).
    rewrite (secular_apply_to_state_vector_rows
               (LinearSecularEvolutionOperator.set_dt expm dt1 self) vecs HE1 HI1).
    cbn [bind].
    cbn [LinearSecularEvolutionOperator.set_dt
         LinearSecularEvolutionOperator.ecc_operator_matrix
         LinearSecularEvolutionOperator.inc_operator_matrix].
    fold (E dt1). fold (I dt1). fold x1. fold y1.
    assert (Hlen : List.length (LinearSecularEvolutionOperator.rows_with vecs x1 y1) = n)
      by (apply rows_with_length; assumption).
    rewrite (secular_apply_to_state_vector_rows
               (LinearSecularEvolutionOperator.set_dt expm dt2 self)
               (LinearSecularEvolutionOperator.rows_with vecs x1 y1))
      by (rewrite Hlen; assumption).
    rewrite (secular_apply_to_state_vector_rows
               (LinearSecularEvolutionOperator.set_dt expm (dt1 + dt2) self) vecs).
    2:{ cbn [LinearSecularEvolutionOperator.set_dt
             LinearSecularEvolutionOperator.ecc_operator_matrix].
        fold (E (dt1 + dt2)). rewrite HEadd. apply matmul_shape, HE2. }
    2:{ cbn [LinearSecularEvolutionOperator.set_dt
             LinearSecularEvolutionOperator.inc_operator_matrix].
        fold (I (dt1 + dt2)). rewrite HIadd. apply matmul_shape, HI2. }
    cbn [LinearSecularEvolutionOperator.set_dt
         LinearSecularEvolutionOperator.ecc_operator_matrix
         LinearSecularEvolutionOperator.inc_operator_matrix].
    fold (E dt2). fold (I dt2). fold (E (dt1 + dt2)). fold (I (dt1 + dt2)).
    destruct (x_of_rows_with vecs x1 y1 Hx1 Hy1) as [-> ->].
    rewrite rows_with_rows_with by assumption.
    rewrite HEadd, HIadd.
    rewrite !(matmul_map_Cdot n) by assumption.
    reflexivity.
Qed.

Lemma Cexp_add (z w : C) : Cexp (Cadd z w) = Cmul (Cexp z) (Cexp w).
Proof.
  unfold Cexp, Cadd, Cmul. cbn [Re Im].
  rewrite exp_plus, cos_plus, sin_plus. f_equal; ring.
Qed.

Lemma Cexp_minus_1j_add (a b : R) (m : C) :
  Cexp (Cmul (LinearSecularEvolutionOperator.minus_1j_times (a + b)) m)
  = Cmul (Cexp (Cmul (LinearSecularEvolutionOperator.minus_1j_times b) m))
         (Cexp (Cmul (LinearSecularEvolutionOperator.minus_1j_times a) m)).
Proof.
  rewrite <- Cexp_add. f_equal.
  unfold LinearSecularEvolutionOperator.minus_1j_times, Cadd, Cmul, RtoC. cbn [Re Im].
  f_equal; ring.
Qed.

Lemma LinearSecular_apply_to_state_vector_composition_witness :
  (v1 <- LinearSecularEvolutionOperator.apply_to_state_vector
           (LinearSecularEvolutionOperator.set_dt expm_diagonal 1 diagonal_secular_operator)
           (flatten_rows two_rows) ;;
   LinearSecularEvolutionOperator.apply_to_state_vector
     (LinearSecularEvolutionOperator.set_dt expm_diagonal 2 diagonal_secular_operator) v1)
  = LinearSecularEvolutionOperator.apply_to_state_vector
      (LinearSecularEvolutionOperator.set_dt expm_diagonal (1 + 2) diagonal_secular_operator)
      (flatten_rows two_rows).
Proof.
  refine (proj2 (LinearSecular_apply_to_state_vector_composition expm_diagonal
                   diagonal_secular_operator
                   1 2 two_rows _ _ _ _ _ _)).
  - split; [reflexivity | repeat constructor].
  - split; [reflexivity | repeat constructor].
  - split; [reflexivity | repeat constructor].
  - split; [reflexivity | repeat constructor].
  - cbn -[Cexp Cmul Cadd RtoC LinearSecularEvolutionOperator.minus_1j_times].
    rewrite !Cexp_minus_1j_add.
    repeat (f_equal; try ring).
  - cbn -[Cexp Cmul Cadd RtoC LinearSecularEvolutionOperator.minus_1j_times].
    rewrite !Cexp_minus_1j_add.
    repeat (f_equal; try ring).
Defined.

Ltac trig_values :=
  repeat match goal with
  | |- context [exp ?a] =>
      lazymatch a with
      | 0 => fail
      | _ => replace a with 0 by ring
      end
  | |- context [cos ?a] =>
      lazymatch a with
      | (- PI) => fail
      | (- (2 * PI)) => fail
      | _ => first [replace a with (- PI) by ring | replace a with (- (2 * PI)) by ring]
      end
  | |- context [sin ?a] =>
      lazymatch a with
      | (- PI) => fail
      | (- (2 * PI)) => fail
      | _ => first [replace a with (- PI) by ring | replace a with (- (2 * PI)) by ring]
      end
  end;
  rewrite ?cos_neg, ?sin_neg, ?cos_PI, ?sin_PI, ?cos_2PI, ?sin_2PI, ?exp_0.

(** C3, the path [apply]. [apply] returns the operator it was called on:
    [_set_x_vector] and [_set_y_vector] assign to the particle objects that
    [self.particles[1:]] has just built, and the state of the operator is
    the one before the call, whatever the matrices and the timestep.  For
    the two planets of [two_planets_kappa1] ([kappa1 = 1], [eta1 = 0]), the
    matrices [diag(1, 2)] and [diag(0, 1)] and the timestep [dt = pi],
    [apply] returns normally and the state still reads [kappa1 = 1],
    although [sqrt(2) * Re(exp(-1j*pi*1) * (kappa1 - 1j*eta1)/sqrt(2)) = -1]:
    that value is held by the objects the loop has updated only. *)
Theorem LinearSecular_apply_keeps_state :
  (forall (self self' : LinearSecularEvolutionOperator.t)
          (tmp : list PoincareParticle.t * list PoincareParticle.t),
      LinearSecularEvolutionOperator.apply self = Ok (self', tmp) -> self' = self)
  /\ exists tmp p,
       LinearSecularEvolutionOperator.apply kappa1_secular_operator
         = Ok (kappa1_secular_operator, tmp)
       /\ Poincare.PoincareParticles.getitem
            (LinearSecularEvolutionOperator.state kappa1_secular_operator) 1 = Ok p
       /\ PoincareParticle.kappa p = 1
       /\ PoincareParticle.eta p = 0
       /\ map PoincareParticle.kappa (fst tmp) = [-1; 0]
       /\ _rt2 * Re (Cmul (Cexp (Cmul (LinearSecularEvolutionOperator.minus_1j_times PI)
                                       (RtoC 1)))
                          (Cscale _rt2_inv
                             (Csub (RtoC (PoincareParticle.kappa p))
                                   (Cmul (mkC 0 1) (RtoC (PoincareParticle.eta p))))))
          = -1.
Proof.
  split.
  - intros self self' tmp H. exact (secular_apply_keeps_operator self self' tmp H).
  - eexists. eexists.
    split; [reflexivity|].
    split; [reflexivity|].
    assert (Hk : PoincareParticle.kappa kappa1_particle = 1).
    { unfold PoincareParticle.kappa, kappa1_particle. cbn. rewrite sqrt_1. field. }
    assert (He : PoincareParticle.eta kappa1_particle = 0).
    { unfold PoincareParticle.eta, kappa1_particle. cbn. rewrite sqrt_1. field. }
    split; [exact Hk|]. split; [exact He|].
    pose proof _rt2_neq_0 as Hrt. unfold _rt2 in Hrt.
    split.
    + cbn. unfold PoincareParticle.kappa, PoincareParticle.eta, _rt2, _rt2_inv, _rt2. cbn.
      rewrite !sqrt_1. trig_values.
      repeat f_equal; field; exact Hrt.
    + cbn. unfold PoincareParticle.kappa, PoincareParticle.eta, _rt2, _rt2_inv, _rt2. cbn.
      rewrite !sqrt_1. trig_values.
      field; exact Hrt.
Qed.

(** ** The resonance operators *)

(** The matrix [Lambdas_Mtrx] solves the two linear equations that fix the
    new [Lambda]s. *)
Lemma Lambdas_Mtrx_solves (Lv : vec2) (Mtrx : mat2) (c1 c2 : R) :
  np_linalg_inv2 (Lv, (1, 1)) = Ok Mtrx ->
  dot2 Lv (matvec2 Mtrx (c1, c2)) = c1 /\ sum2 (matvec2 Mtrx (c1, c2)) = c2.
Proof.
  destruct Lv as [a b]. unfold np_linalg_inv2.
  destruct (Req_dec_T _ 0) as [Hdet|Hdet]; [discriminate|].
  intros Heq; injection Heq as <-.
  unfold det2 in Hdet. cbn [fst snd] in Hdet.
  unfold sum2, matvec2, dot2, inverse2, det2; cbn [fst snd]. split; field; lra.
Qed.

Lemma Lambda_set_Lambda (v : R) (p : PoincareParticle.t) :
  PoincareParticle.mu p <> 0 ->
  PoincareParticle.Lambda (PoincareParticle.set_Lambda v p) = v.
Proof.
  intros Hmu. unfold PoincareParticle.Lambda, PoincareParticle.set_Lambda.
  cbn [PoincareParticle.set_sLambda PoincareParticle.mu PoincareParticle.sLambda].
  field. exact Hmu.
Qed.

Lemma ecc_advance_keeps (self : LinearEccentricityResonancOperator.t) :
  let self1 := LinearEccentricityResonancOperator._advance_eccentricity_variables self in
  LinearEccentricityResonancOperator.Lambdas_vec self1
    = LinearEccentricityResonancOperator.Lambdas_vec self
  /\ LinearEccentricityResonancOperator.Lambdas_Mtrx self1
     = LinearEccentricityResonancOperator.Lambdas_Mtrx self
  /\ LinearEccentricityResonancOperator.res_vec self1
     = LinearEccentricityResonancOperator.res_vec self
  /\ PoincareParticle.mu (LinearEccentricityResonancOperator.particleIn self1)
     = PoincareParticle.mu (LinearEccentricityResonancOperator.particleIn self)
  /\ PoincareParticle.mu (LinearEccentricityResonancOperator.particleOut self1)
     = PoincareParticle.mu (LinearEccentricityResonancOperator.particleOut self).
Proof.
  unfold LinearEccentricityResonancOperator._advance_eccentricity_variables. cbv zeta.
  destruct (LinearEccentricityResonancOperator._get_HK_vecs _ _ _) as [H K].
  destruct (LinearEccentricityResonancOperator._HKmap _ _ _ _ _) as [H1 K1].
  destruct (LinearEccentricityResonancOperator._HK_to_etakappa _ _ _ _ _) as [[e1 e2] [k1 k2]].
  repeat split; reflexivity.
Qed.

Lemma inc_advance_keeps (self : LinearInclinationResonancOperator.t) :
  let self1 := LinearInclinationResonancOperator._advance_inclination_variables self in
  LinearInclinationResonancOperator.Lambdas_vec self1
    = LinearInclinationResonancOperator.Lambdas_vec self
  /\ LinearInclinationResonancOperator.Lambdas_Mtrx self1
     = LinearInclinationResonancOperator.Lambdas_Mtrx self
  /\ LinearInclinationResonancOperator.res_vec self1
     = LinearInclinationResonancOperator.res_vec self
  /\ PoincareParticle.mu (LinearInclinationResonancOperator.particleIn self1)
     = PoincareParticle.mu (LinearInclinationResonancOperator.particleIn self)
  /\ PoincareParticle.mu (LinearInclinationResonancOperator.particleOut self1)
     = PoincareParticle.mu (LinearInclinationResonancOperator.particleOut self).
Proof.
  unfold LinearInclinationResonancOperator._advance_inclination_variables. cbv zeta.
  destruct (LinearInclinationResonancOperator._get_RS_vecs _ _ _) as [Rv Sv].
  destruct (LinearInclinationResonancOperator._RSmap _ _ _ _ _) as [R1 S1].
  destruct (LinearInclinationResonancOperator._RS_to_rhosigma _ _ _) as [[r1 r2] [s1 s2]].
  repeat split; reflexivity.
Qed.

(** One call of [apply] of the eccentricity operator keeps the two
    numbers [C1] and [C2] it computes on entry. *)
Lemma ecc_apply_invariants (self : LinearEccentricityResonancOperator.t) :
  LinearEccentricityResonancOperator.constructed self ->
  PoincareParticle.mu (LinearEccentricityResonancOperator.particleIn self) <> 0 ->
  PoincareParticle.mu (LinearEccentricityResonancOperator.particleOut self) <> 0 ->
  LinearEccentricityResonancOperator.C1_of (LinearEccentricityResonancOperator.apply self)
    = LinearEccentricityResonancOperator.C1_of self
  /\ LinearEccentricityResonancOperator.C2_of (LinearEccentricityResonancOperator.apply self)
     = LinearEccentricityResonancOperator.C2_of self.
Proof.
  intros [_ Hinv] HmuIn HmuOut.
  destruct (ecc_advance_keeps self) as (HLv & HM & _ & HmIn & HmOut).
  cbv zeta in HLv, HM, HmIn, HmOut.
  unfold LinearEccentricityResonancOperator.C1_of, LinearEccentricityResonancOperator.C2_of,
    LinearEccentricityResonancOperator.apply. cbv zeta.
  set (self1 := LinearEccentricityResonancOperator._advance_eccentricity_variables self) in *.
  set (c1 := dot2 (LinearEccentricityResonancOperator.Lambdas_vec self)
                  (LinearEccentricityResonancOperator._get_Lambdas self)).
  set (c2 := sum2 (LinearEccentricityResonancOperator._get_Lambdas self)
             - sum2 (LinearEccentricityResonancOperator._get_Gammas self)
             + sum2 (LinearEccentricityResonancOperator._get_Gammas self1)).
  rewrite <- HLv, <- HM in Hinv.
  destruct (Lambdas_Mtrx_solves _ _ c1 c2 Hinv) as [Hdot Hsum].
  set (L1 := matvec2 (LinearEccentricityResonancOperator.Lambdas_Mtrx self1) (c1, c2)) in *.
  assert (HL : LinearEccentricityResonancOperator._get_Lambdas
                 (LinearEccentricityResonancOperator._set_Lambdas L1 self1) = L1).
  { unfold LinearEccentricityResonancOperator._get_Lambdas,
      LinearEccentricityResonancOperator._set_Lambdas.
    cbn [LinearEccentricityResonancOperator.with_particles
         LinearEccentricityResonancOperator.particleIn
         LinearEccentricityResonancOperator.particleOut].
    rewrite !Lambda_set_Lambda by congruence. destruct L1; reflexivity. }
  assert (HG : LinearEccentricityResonancOperator._get_Gammas
                 (LinearEccentricityResonancOperator._set_Lambdas L1 self1)
               = LinearEccentricityResonancOperator._get_Gammas self1) by reflexivity.
  rewrite HL, HG.
  change (LinearEccentricityResonancOperator.Lambdas_vec
            (LinearEccentricityResonancOperator._set_Lambdas L1 self1))
    with (LinearEccentricityResonancOperator.Lambdas_vec self1).
  split.
  - exact Hdot.
  - rewrite Hsum. unfold c2. ring.
Qed.

(** The same for the inclination operator. *)
Lemma inc_apply_invariants (self : LinearInclinationResonancOperator.t) :
  LinearInclinationResonancOperator.constructed self ->
  PoincareParticle.mu (LinearInclinationResonancOperator.particleIn self) <> 0 ->
  PoincareParticle.mu (LinearInclinationResonancOperator.particleOut self) <> 0 ->
  LinearInclinationResonancOperator.C1_of (LinearInclinationResonancOperator.apply self)
    = LinearInclinationResonancOperator.C1_of self
  /\ LinearInclinationResonancOperator.C2_of (LinearInclinationResonancOperator.apply self)
     = LinearInclinationResonancOperator.C2_of self.
Proof.
  intros [_ Hinv] HmuIn HmuOut.
  destruct (inc_advance_keeps self) as (HLv & HM & _ & HmIn & HmOut).
  cbv zeta in HLv, HM, HmIn, HmOut.
  unfold LinearInclinationResonancOperator.C1_of, LinearInclinationResonancOperator.C2_of,
    LinearInclinationResonancOperator.apply. cbv zeta.
  set (self1 := LinearInclinationResonancOperator._advance_inclination_variables self) in *.
  set (c1 := dot2 (LinearInclinationResonancOperator.Lambdas_vec self)
                  (LinearInclinationResonancOperator._get_Lambdas self)).
  set (c2 := sum2 (LinearInclinationResonancOperator._get_Lambdas self)
             - sum2 (LinearInclinationResonancOperator._get_Qs self)
             + sum2 (LinearInclinationResonancOperator._get_Qs self1)).
  rewrite <- HLv, <- HM in Hinv.
  destruct (Lambdas_Mtrx_solves _ _ c1 c2 Hinv) as [Hdot Hsum].
  set (L1 := matvec2 (LinearInclinationResonancOperator.Lambdas_Mtrx self1) (c1, c2)) in *.
  assert (HL : LinearInclinationResonancOperator._get_Lambdas
                 (LinearInclinationResonancOperator._set_Lambdas L1 self1) = L1).
  { unfold LinearInclinationResonancOperator._get_Lambdas,
      LinearInclinationResonancOperator._set_Lambdas.
    cbn [LinearInclinationResonancOperator.with_particles
         LinearInclinationResonancOperator.particleIn
         LinearInclinationResonancOperator.particleOut].
    rewrite !Lambda_set_Lambda by congruence. destruct L1; reflexivity. }
  assert (HG : LinearInclinationResonancOperator._get_Qs
                 (LinearInclinationResonancOperator._set_Lambdas L1 self1)
               = LinearInclinationResonancOperator._get_Qs self1) by reflexivity.
  rewrite HL, HG.
  change (LinearInclinationResonancOperator.Lambdas_vec
            (LinearInclinationResonancOperator._set_Lambdas L1 self1))
    with (LinearInclinationResonancOperator.Lambdas_vec self1).
  split.
  - exact Hdot.
  - rewrite Hsum. unfold c2. ring.
Qed.

Lemma ecc_init_constructed (eigh : mat2 -> vec2 * mat2) (st : Poincare.t)
    (indexIn indexOut : Z) (res_vec : vec2) (A : mat2) (b : vec2) (dt : R)
    (self : LinearEccentricityResonancOperator.t) :
  LinearEccentricityResonancOperator.init eigh st indexIn indexOut res_vec A b dt = Ok self ->
  LinearEccentricityResonancOperator.constructed self
  /\ Poincare.PoincareParticles.getitem st indexIn
     = Ok (LinearEccentricityResonancOperator.particleIn self)
  /\ Poincare.PoincareParticles.getitem st indexOut
     = Ok (LinearEccentricityResonancOperator.particleOut self).
Proof.
  unfold LinearEccentricityResonancOperator.init.
  destruct (np_linalg_inv2 A) as [Ainv|]; cbn [bind]; [|discriminate].
  destruct (eigh A) as [vals T].
  destruct (Poincare.PoincareParticles.getitem st indexIn) as [pIn|]; cbn [bind]; [|discriminate].
  destruct (Poincare.PoincareParticles.getitem st indexOut) as [pOut|]; cbn [bind]; [|discriminate].
  destruct (np_linalg_inv2 _) as [Mtrx|] eqn:HM; cbn [bind]; [|discriminate].
  intros Heq; injection Heq as <-.
  unfold LinearEccentricityResonancOperator.constructed.
  cbn [LinearEccentricityResonancOperator.Lambdas_vec
       LinearEccentricityResonancOperator.res_vec
       LinearEccentricityResonancOperator.Lambdas_Mtrx
       LinearEccentricityResonancOperator.particleIn
       LinearEccentricityResonancOperator.particleOut].
  repeat split; try reflexivity. exact HM.
Qed.

Lemma inc_init_constructed (eigh : mat2 -> vec2 * mat2) (st : Poincare.t)
    (indexIn indexOut : Z) (res_vec : vec2) (A : mat2) (dt : R)
    (self : LinearInclinationResonancOperator.t) :
  LinearInclinationResonancOperator.init eigh st indexIn indexOut res_vec A dt = Ok self ->
  LinearInclinationResonancOperator.constructed self
  /\ Poincare.PoincareParticles.getitem st indexIn
     = Ok (LinearInclinationResonancOperator.particleIn self)
  /\ Poincare.PoincareParticles.getitem st indexOut
     = Ok (LinearInclinationResonancOperator.particleOut self).
Proof.
  unfold LinearInclinationResonancOperator.init.
  destruct (np_linalg_inv2 A) as [Ainv|]; cbn [bind]; [|discriminate].
  destruct (eigh A) as [vals T].
  destruct (Poincare.PoincareParticles.getitem st indexIn) as [pIn|]; cbn [bind]; [|discriminate].
  destruct (Poincare.PoincareParticles.getitem st indexOut) as [pOut|]; cbn [bind]; [|discriminate].
  destruct (np_linalg_inv2 _) as [Mtrx|] eqn:HM; cbn [bind]; [|discriminate].
  intros Heq; injection Heq as <-.
  unfold LinearInclinationResonancOperator.constructed.
  cbn [LinearInclinationResonancOperator.Lambdas_vec
       LinearInclinationResonancOperator.res_vec
       LinearInclinationResonancOperator.Lambdas_Mtrx
       LinearInclinationResonancOperator.particleIn
       LinearInclinationResonancOperator.particleOut].
  repeat split; try reflexivity. exact HM.
Qed.

(** [apply] keeps what the constructor has established. *)
Lemma ecc_apply_constructed (self : LinearEccentricityResonancOperator.t) :
  LinearEccentricityResonancOperator.constructed self ->
  LinearEccentricityResonancOperator.constructed (LinearEccentricityResonancOperator.apply self).
Proof.
  destruct (ecc_advance_keeps self) as (HLv & HM & Hrv & _).
  cbv zeta in HLv, HM, Hrv.
  unfold LinearEccentricityResonancOperator.constructed,
    LinearEccentricityResonancOperator.apply. cbv zeta.
  cbn [LinearEccentricityResonancOperator._set_Lambdas
       LinearEccentricityResonancOperator.with_particles
       LinearEccentricityResonancOperator.Lambdas_vec
       LinearEccentricityResonancOperator.res_vec
       LinearEccentricityResonancOperator.Lambdas_Mtrx].
  rewrite HLv, HM, Hrv. tauto.
Qed.

Lemma inc_apply_constructed (self : LinearInclinationResonancOperator.t) :
  LinearInclinationResonancOperator.constructed self ->
  LinearInclinationResonancOperator.constructed (LinearInclinationResonancOperator.apply self).
Proof.
  destruct (inc_advance_keeps self) as (HLv & HM & Hrv & _).
  cbv zeta in HLv, HM, Hrv.
  unfold LinearInclinationResonancOperator.constructed,
    LinearInclinationResonancOperator.apply. cbv zeta.
  cbn [LinearInclinationResonancOperator._set_Lambdas
       LinearInclinationResonancOperator.with_particles
       LinearInclinationResonancOperator.Lambdas_vec
       LinearInclinationResonancOperator.res_vec
       LinearInclinationResonancOperator.Lambdas_Mtrx].
  rewrite HLv, HM, Hrv. tauto.
Qed.

(** The operators the three subclasses build are operators of the two base
    classes, hence [constructed]. *)
Lemma subclasses_constructed (DFCoeff : list Z -> list Z -> R -> R)
    (eigh : mat2 -> vec2 * mat2) (reference_Lambdas : Poincare.t -> list R -> result (list R))
    (st : Poincare.t) (dt : R) (j indexIn indexOut : Z) (Lambda0 : option (list R)) :
  (forall self,
      FirstOrderEccentricityResonanceOperator_init DFCoeff eigh reference_Lambdas
        st dt j indexIn indexOut Lambda0 = Ok self ->
      LinearEccentricityResonancOperator.constructed self)
  /\ (forall self,
      SecondOrderEccentricityResonanceOperator_init DFCoeff eigh reference_Lambdas
        st dt j indexIn indexOut Lambda0 = Ok self ->
      LinearEccentricityResonancOperator.constructed self)
  /\ (forall self,
      SecondOrderInclinationResonanceOperator_init DFCoeff eigh reference_Lambdas
        st dt j indexIn indexOut Lambda0 = Ok self ->
      LinearInclinationResonancOperator.constructed self).
Proof.
  split; [|split]; intros self;
    unfold FirstOrderEccentricityResonanceOperator_init,
      SecondOrderEccentricityResonanceOperator_init,
      SecondOrderInclinationResonanceOperator_init; cbv zeta;
    destruct (resonance_setup _ _ _ _ _ _) as [[[[[[mIn MIn] mOut] MOut] L0In] L0Out]|];
    cbn [bind]; try discriminate.
  - destruct (get_first_order_eccentricity_resonance_matrix_and_vector _ _ _ _ _ _ _ _ _)
      as [Amtrx bvec].
    intros Hinit. apply (ecc_init_constructed _ _ _ _ _ _ _ _ _ Hinit).
  - intros Hinit. apply (ecc_init_constructed _ _ _ _ _ _ _ _ _ Hinit).
  - intros Hinit. apply (inc_init_constructed _ _ _ _ _ _ _ _ Hinit).
Qed.

Lemma cosh2_minus_sinh2 (x : R) : cosh x * cosh x - sinh x * sinh x = 1.
Proof.
  unfold cosh, sinh.
  replace ((exp x + exp (- x)) / 2 * ((exp x + exp (- x)) / 2)
           - (exp x - exp (- x)) / 2 * ((exp x - exp (- x)) / 2))
    with (exp x * exp (- x)) by field.
  rewrite <- exp_plus, Rplus_opp_r. apply exp_0.
Qed.

Lemma sinh_pos (x : R) : 0 < x -> 0 < sinh x.
Proof. intros Hx. rewrite <- sinh_0. apply sinh_lt, Hx. Qed.

Lemma np_linalg_inv2_regular (A : mat2) :
  det2 A <> 0 -> np_linalg_inv2 A = Ok (inverse2 A).
Proof.
  intros Hdet. unfold np_linalg_inv2.
  destruct (Req_dec_T (det2 A) 0); [contradiction|reflexivity].
Qed.

Lemma kappa1_ecc_operator_init :
  LinearEccentricityResonancOperator.init eigh_diagonal two_planets_kappa1 1 2
    (-1, 2) ((1, 0), (0, 2)) (0, 0) 1 = Ok kappa1_ecc_operator.
Proof.
  unfold LinearEccentricityResonancOperator.init.
  rewrite np_linalg_inv2_regular by (unfold det2; cbn [fst snd]; lra). cbn [bind].
  cbn [eigh_diagonal fst snd].
  replace (Poincare.PoincareParticles.getitem two_planets_kappa1 1)
    with (Ok kappa1_particle) by reflexivity.
  replace (Poincare.PoincareParticles.getitem two_planets_kappa1 2)
    with (Ok rest_particle) by reflexivity.
  cbn [bind].
  rewrite np_linalg_inv2_regular by (unfold det2; cbn [fst snd]; lra). cbn [bind].
  reflexivity.
Qed.

Lemma sigma1_inc_operator_init :
  LinearInclinationResonancOperator.init eigh_diagonal two_planets_sigma1 1 2
    (-1, 2) ((1, 0), (0, 2)) 1 = Ok sigma1_inc_operator.
Proof.
  unfold LinearInclinationResonancOperator.init.
  rewrite np_linalg_inv2_regular by (unfold det2; cbn [fst snd]; lra). cbn [bind].
  cbn [eigh_diagonal fst snd].
  replace (Poincare.PoincareParticles.getitem two_planets_sigma1 1)
    with (Ok sigma1_particle) by reflexivity.
  replace (Poincare.PoincareParticles.getitem two_planets_sigma1 2)
    with (Ok rest_particle) by reflexivity.
  cbn [bind].
  rewrite np_linalg_inv2_regular by (unfold det2; cbn [fst snd]; lra). cbn [bind].
  reflexivity.
Qed.

(** C1, as stated, fails: for the operator
    [LinearEccentricityResonancOperator(state, 1, 2, res_vec=[-1, 2],
    A=diag(1, 2), b=[0, 0], dt=1)] on two planets of unit mass with
    [Lambda = 1], [l = 0] and [kappa1 = 1], the product
    [res_vec . (LambdaIn, LambdaOut)] is [1] before [apply] and
    [(5 * (cosh(1)^2 + sinh(1)^2) - 3) / 2] after it. *)
Lemma resVec_dot_Lambdas_counterexample :
  LinearEccentricityResonancOperator.init eigh_diagonal two_planets_kappa1 1 2
    (-1, 2) ((1, 0), (0, 2)) (0, 0) 1 = Ok kappa1_ecc_operator
  /\ LinearEccentricityResonancOperator.spec_resVec_dot_Lambdas
       (LinearEccentricityResonancOperator.apply kappa1_ecc_operator)
     <> LinearEccentricityResonancOperator.spec_resVec_dot_Lambdas kappa1_ecc_operator.
Proof.
  split; [exact kappa1_ecc_operator_init|].
  cbv -[Rplus Rmult Rminus Ropp Rinv Rdiv sin cos cosh sinh sqrt IZR].
  replace (-1 * 0 + 2 * 0) with 0 by ring.
  rewrite sin_0, cos_0, sqrt_1.
  pose proof (cosh2_minus_sinh2 (1 * 1)) as Hcs.
  pose proof (sinh_pos (1 * 1) ltac:(lra)) as Hsh.
  set (ch := cosh (1 * 1)) in *. set (sh := sinh (1 * 1)) in *.
  set (ch2 := cosh (1 * 2)). set (sh2 := sinh (1 * 2)). set (rt2 := sqrt 2).
  intros Heq. apply Rminus_diag_eq in Heq. field_simplify in Heq.
  nra.
Qed.

(** C1 (amended). For an operator of either class as its constructor leaves
    it, with two particles of non-zero mass [mu], one call of [apply] keeps
    the two numbers it computes on entry:
    [C1 = Lambdas_vec . (LambdaIn, LambdaOut)] with
    [Lambdas_vec = (-res_vec[1], res_vec[0])], and
    [C2 = LambdaIn + LambdaOut - (sum of the actions)], the actions being
    [Gamma] for the eccentricity operator and [Q] for the inclination
    operator. *)
Theorem resonance_apply_keeps_C1_C2
    (ecc : LinearEccentricityResonancOperator.t)
    (inc : LinearInclinationResonancOperator.t) :
  LinearEccentricityResonancOperator.constructed ecc ->
  PoincareParticle.mu (LinearEccentricityResonancOperator.particleIn ecc) <> 0 ->
  PoincareParticle.mu (LinearEccentricityResonancOperator.particleOut ecc) <> 0 ->
  LinearInclinationResonancOperator.constructed inc ->
  PoincareParticle.mu (LinearInclinationResonancOperator.particleIn inc) <> 0 ->
  PoincareParticle.mu (LinearInclinationResonancOperator.particleOut inc) <> 0 ->
  (LinearEccentricityResonancOperator.C1_of (LinearEccentricityResonancOperator.apply ecc)
     = LinearEccentricityResonancOperator.C1_of ecc
   /\ LinearEccentricityResonancOperator.C2_of (LinearEccentricityResonancOperator.apply ecc)
      = LinearEccentricityResonancOperator.C2_of ecc)
  /\ (LinearInclinationResonancOperator.C1_of (LinearInclinationResonancOperator.apply inc)
        = LinearInclinationResonancOperator.C1_of inc
      /\ LinearInclinationResonancOperator.C2_of (LinearInclinationResonancOperator.apply inc)
         = LinearInclinationResonancOperator.C2_of inc).
Proof.
  intros Hecc HeIn HeOut Hinc HiIn HiOut. split.
  - apply ecc_apply_invariants; assumption.
  - apply inc_apply_invariants; assumption.
Qed.

Lemma resonance_apply_keeps_C1_C2_witness :
  (LinearEccentricityResonancOperator.C1_of
     (LinearEccentricityResonancOperator.apply kappa1_ecc_operator)
     = LinearEccentricityResonancOperator.C1_of kappa1_ecc_operator
   /\ LinearEccentricityResonancOperator.C2_of
        (LinearEccentricityResonancOperator.apply kappa1_ecc_operator)
      = LinearEccentricityResonancOperator.C2_of kappa1_ecc_operator)
  /\ (LinearInclinationResonancOperator.C1_of
        (LinearInclinationResonancOperator.apply sigma1_inc_operator)
        = LinearInclinationResonancOperator.C1_of sigma1_inc_operator
      /\ LinearInclinationResonancOperator.C2_of
           (LinearInclinationResonancOperator.apply sigma1_inc_operator)
         = LinearInclinationResonancOperator.C2_of sigma1_inc_operator).
Proof.
  apply (resonance_apply_keeps_C1_C2 kappa1_ecc_operator sigma1_inc_operator).
  - split; [reflexivity|].
    apply np_linalg_inv2_regular. unfold det2. simpl. lra.
  - simpl. lra.
  - simpl. lra.
  - split; [reflexivity|].
    apply np_linalg_inv2_regular. unfold det2. simpl. lra.
  - simpl. lra.
  - simpl. lra.
Defined.

(** ** The six slots of a body in the vectors of the operators *)

Lemma Keplerian_rows_of_particles (dt : R) (GG : list R) (ps : list PoincareParticle.t) :
  map2 (KeplerianEvolutionOperator.spec_advance_row dt) GG (map row_of_particle ps)
  = map row_of_particle
      (KeplerianEvolutionOperator.advance_particles ps
         (map (Rmult dt)
            (map2 Rdiv (map2 Rdiv (map2 Rdiv GG (map PoincareParticle.Lambda ps))
                                  (map PoincareParticle.Lambda ps))
                       (map PoincareParticle.Lambda ps)))).
Proof.
  revert ps; induction GG as [|g GG IH]; intros [|p ps]; try reflexivity.
  cbn [map map2 KeplerianEvolutionOperator.advance_particles].
  unfold KeplerianEvolutionOperator.advance_particles in IH. rewrite IH. f_equal.
  unfold KeplerianEvolutionOperator.spec_advance_row, row_of_particle.
  cbn [r0 r1 r2 r3 r4 r5 pow]. f_equal.
  unfold PoincareParticle.set_l, PoincareParticle.l at 2. f_equal. f_equal.
  unfold Rdiv. rewrite !Rinv_mult, Rinv_1. ring.
Qed.

(** [KeplerianEvolutionOperator.apply_to_state_vector] on the slots
    [(kappa, eta, Lambda, l, sigma, rho)] of the particles does what the loop
    of [apply] does to the particles. *)
Lemma Keplerian_vector_of_particles
    (self : KeplerianEvolutionOperator.t) (ps : list PoincareParticle.t) :
  List.length (KeplerianEvolutionOperator.GGMMmmm self) = List.length ps ->
  KeplerianEvolutionOperator.apply_to_state_vector self
    (flatten_rows (map row_of_particle ps))
  = (lambda_dot <- KeplerianEvolutionOperator.lambda_dot_of self
                     (map PoincareParticle.Lambda ps) ;;
     Ok (flatten_rows
           (map row_of_particle
              (KeplerianEvolutionOperator.advance_particles ps
                 (map (Rmult (KeplerianEvolutionOperator.dt self)) lambda_dot))))).
Proof.
  intros Hlen.
  rewrite Keplerian_apply_to_state_vector_rows by (rewrite length_map; exact Hlen).
  unfold KeplerianEvolutionOperator.lambda_dot_of.
  set (GG := KeplerianEvolutionOperator.GGMMmmm self) in *.
  set (L := map PoincareParticle.Lambda ps).
  assert (HL : List.length L = List.length ps) by apply length_map.
  assert (H1 : List.length (map2 Rdiv GG L) = List.length ps)
    by (rewrite map2_length; lia).
  assert (H2 : List.length (map2 Rdiv (map2 Rdiv GG L) L) = List.length ps)
    by (rewrite map2_length; lia).
  rewrite np_elementwise_same_length by lia. cbn [bind].
  rewrite np_elementwise_same_length by lia. cbn [bind].
  rewrite np_elementwise_same_length by lia. cbn [bind].
  rewrite Keplerian_rows_of_particles. reflexivity.
Qed.

Lemma sqrt_mu_roundtrip (mu v : R) : 0 < mu -> sqrt mu * (v / sqrt mu) = v.
Proof.
  intros Hmu. assert (Hs : 0 < sqrt mu) by (apply sqrt_lt_R0; exact Hmu).
  field. lra.
Qed.

Lemma cols_of_particles (ps : list PoincareParticle.t) :
  col 0 (map row_of_particle ps) = map PoincareParticle.kappa ps
  /\ col 1 (map row_of_particle ps) = map PoincareParticle.eta ps
  /\ col 2 (map row_of_particle ps) = map PoincareParticle.Lambda ps
  /\ col 3 (map row_of_particle ps) = map PoincareParticle.l ps
  /\ col 4 (map row_of_particle ps) = map PoincareParticle.sigma ps
  /\ col 5 (map row_of_particle ps) = map PoincareParticle.rho ps.
Proof. unfold col. repeat split; rewrite map_map; reflexivity. Qed.

(** The rows [apply_to_state_vector] writes are the slots of the particles
    after the loops of [_set_x_vector] and [_set_y_vector]. *)
Lemma secular_rows_of_particles (ps : list PoincareParticle.t) (xnew ynew : cvec) :
  Forall (fun p => 0 < PoincareParticle.mu p) ps ->
  List.length xnew = List.length ps -> List.length ynew = List.length ps ->
  LinearSecularEvolutionOperator.rows_with (map row_of_particle ps) xnew ynew
  = map row_of_particle
      (LinearSecularEvolutionOperator.set_y_of
         (LinearSecularEvolutionOperator.set_x_of ps xnew) ynew).
Proof.
  intros Hmu. revert xnew ynew.
  induction Hmu as [|p ps Hp Hps IH]; intros [|a xnew] [|b ynew] Hx Hy;
    cbn [List.length] in Hx, Hy; try lia; [reflexivity|].
  unfold LinearSecularEvolutionOperator.rows_with,
    LinearSecularEvolutionOperator.set_x_of, LinearSecularEvolutionOperator.set_y_of in *.
  cbn [map map2 combine]. rewrite IH by lia. f_equal.
  unfold row_of_particle.
  unfold PoincareParticle.kappa, PoincareParticle.eta, PoincareParticle.sigma,
    PoincareParticle.rho, PoincareParticle.Lambda,
    PoincareParticle.set_kappa, PoincareParticle.set_eta, PoincareParticle.set_sigma,
    PoincareParticle.set_rho, PoincareParticle.set_skappa, PoincareParticle.set_seta,
    PoincareParticle.set_ssigma, PoincareParticle.set_srho.
  cbn [PoincareParticle.mu PoincareParticle.skappa PoincareParticle.seta
       PoincareParticle.ssigma PoincareParticle.srho PoincareParticle.sLambda
       PoincareParticle.l fst snd r2 r3].
  rewrite !sqrt_mu_roundtrip by exact Hp.
  destruct a as [ar ai], b as [br bi]. unfold Cmul. cbn [Re Im].
  f_equal; ring.
Qed.

(** [LinearSecularEvolutionOperator.apply_to_state_vector] on the slots
    [(kappa, eta, Lambda, l, sigma, rho)] of particles of positive mass does
    what [_get_x_vector], [_get_y_vector], the two products and the loops of
    [_set_x_vector] and [_set_y_vector] do to the particles. *)
Lemma secular_vector_of_particles
    (self : LinearSecularEvolutionOperator.t) (ps : list PoincareParticle.t) :
  Forall (fun p => 0 < PoincareParticle.mu p) ps ->
  has_shape (List.length ps) (List.length ps)
    (LinearSecularEvolutionOperator.ecc_operator_matrix self) ->
  has_shape (List.length ps) (List.length ps)
    (LinearSecularEvolutionOperator.inc_operator_matrix self) ->
  LinearSecularEvolutionOperator.apply_to_state_vector self
    (flatten_rows (map row_of_particle ps))
  = (x <- LinearSecularEvolutionOperator.complex_pairs
            (map PoincareParticle.kappa ps) (map PoincareParticle.eta ps) ;;
     y <- LinearSecularEvolutionOperator.complex_pairs
            (map PoincareParticle.sigma ps) (map PoincareParticle.rho ps) ;;
     xnew <- matvec (LinearSecularEvolutionOperator.ecc_operator_matrix self) x ;;
     ynew <- matvec (LinearSecularEvolutionOperator.inc_operator_matrix self) y ;;
     Ok (flatten_rows
           (map row_of_particle
              (LinearSecularEvolutionOperator.set_y_of
                 (LinearSecularEvolutionOperator.set_x_of ps xnew) ynew)))).
Proof.
  intros Hmu HE HI.
  assert (Hn : List.length (map row_of_particle ps) = List.length ps) by apply length_map.
  rewrite secular_apply_to_state_vector_rows by (rewrite Hn; assumption).
  destruct (cols_of_particles ps) as (H0 & H1 & _ & _ & H4 & H5).
  rewrite <- H0, <- H1, <- H4, <- H5, !complex_pairs_cols. cbn [bind row_get].
  fold (LinearSecularEvolutionOperator.x_of_rows (map row_of_particle ps)).
  fold (LinearSecularEvolutionOperator.y_of_rows (map row_of_particle ps)).
  rewrite (matvec_shape _ _ _ _ HE)
    by (unfold LinearSecularEvolutionOperator.x_of_rows; rewrite !length_map; reflexivity).
  cbn [bind].
  rewrite (matvec_shape _ _ _ _ HI)
    by (unfold LinearSecularEvolutionOperator.y_of_rows; rewrite !length_map; reflexivity).
  cbn [bind].
  rewrite secular_rows_of_particles;
    [reflexivity | exact Hmu | rewrite length_map; apply HE | rewrite length_map; apply HI].
Qed.

(** ** Assignments to the rows of two bodies *)

Lemma list_update_length {A : Type} (n : nat) (f : A -> A) (xs : list A) :
  List.length (list_update n f xs) = List.length xs.
Proof.
  revert n; induction xs as [|x xs IH]; intros [|n]; cbn [list_update List.length];
    try reflexivity.
  rewrite IH. reflexivity.
Qed.

Lemma nth_error_list_update {A : Type} (n m : nat) (f : A -> A) (xs : list A) :
  nth_error (list_update n f xs) m
  = if Nat.eqb n m then option_map f (nth_error xs m) else nth_error xs m.
Proof.
  revert n m; induction xs as [|x xs IH]; intros n m.
  - destruct n, m; cbn [list_update nth_error]; destruct (Nat.eqb _ _); reflexivity.
  - destruct n as [|n], m as [|m]; cbn [list_update nth_error Nat.eqb option_map];
      try reflexivity.
    apply IH.
Qed.

Lemma py_update_nat {A : Type} (xs : list A) (k : nat) (f : A -> A) :
  (k < List.length xs)%nat -> py_update xs (Z.of_nat k) f = Ok (list_update k f xs).
Proof.
  intros Hk. unfold py_update.
  destruct (Z.ltb_spec (Z.of_nat k) 0); [lia|].
  destruct (Z.ltb_spec (Z.of_nat k) 0); [lia|]. cbn [orb].
  destruct (Z.leb_spec (Z.of_nat (List.length xs)) (Z.of_nat k)); [lia|].
  rewrite Nat2Z.id. reflexivity.
Qed.

Lemma rows_get2_nat (vecs : list row) (i j k : nat) (ri rj : row) :
  nth_error vecs i = Some ri -> nth_error vecs j = Some rj ->
  rows_get2 vecs ((Z.of_nat (S i) - 1)%Z, (Z.of_nat (S j) - 1)%Z) k
  = Ok (row_get k ri, row_get k rj).
Proof.
  intros Hi Hj. unfold rows_get2. cbn [fst snd].
  replace (Z.of_nat (S i) - 1)%Z with (Z.of_nat i) by lia.
  replace (Z.of_nat (S j) - 1)%Z with (Z.of_nat j) by lia.
  rewrite (py_index_nat _ _ _ Hi), (py_index_nat _ _ _ Hj). reflexivity.
Qed.

Lemma rows_set2_nat (vecs : list row) (i j k : nat) (vals : vec2) :
  (i < List.length vecs)%nat -> (j < List.length vecs)%nat ->
  rows_set2 vecs ((Z.of_nat (S i) - 1)%Z, (Z.of_nat (S j) - 1)%Z) k vals
  = Ok (list_update j (row_set k (snd vals)) (list_update i (row_set k (fst vals)) vecs)).
Proof.
  intros Hi Hj. unfold rows_set2. cbn [fst snd].
  replace (Z.of_nat (S i) - 1)%Z with (Z.of_nat i) by lia.
  replace (Z.of_nat (S j) - 1)%Z with (Z.of_nat j) by lia.
  rewrite py_update_nat by exact Hi. cbn [bind].
  rewrite py_update_nat by (rewrite list_update_length; exact Hj). reflexivity.
Qed.

(** Three assignments to the rows [i] and [j], [i <> j], amount to one
    replacement of each of the two rows. *)
Lemma three_rows_set2 (vecs : list row) (i j : nat) (ri rj : row)
    (fi1 fi2 fi3 fj1 fj2 fj3 : row -> row) :
  i <> j -> nth_error vecs i = Some ri -> nth_error vecs j = Some rj ->
  list_update j fj3 (list_update i fi3
    (list_update j fj2 (list_update i fi2
      (list_update j fj1 (list_update i fi1 vecs)))))
  = list_update j (fun _ => fj3 (fj2 (fj1 rj)))
      (list_update i (fun _ => fi3 (fi2 (fi1 ri))) vecs).
Proof.
  intros Hij Hi Hj. apply nth_error_ext. intros m.
  rewrite !nth_error_list_update.
  destruct (Nat.eqb_spec j m) as [Hjm|Hjm]; destruct (Nat.eqb_spec i m) as [Him|Him].
  - congruence.
  - subst m. rewrite Hj. reflexivity.
  - subst m. rewrite Hi. reflexivity.
  - reflexivity.
Qed.

Lemma row_of_ecc_updated (L k e : R) (p : PoincareParticle.t) :
  0 < PoincareParticle.mu p ->
  row_of_particle
    (PoincareParticle.set_Lambda L (PoincareParticle.set_kappa k (PoincareParticle.set_eta e p)))
  = mk_row k e L (PoincareParticle.l p) (PoincareParticle.sigma p) (PoincareParticle.rho p).
Proof.
  intros Hmu. unfold row_of_particle.
  unfold PoincareParticle.kappa, PoincareParticle.eta, PoincareParticle.sigma,
    PoincareParticle.rho, PoincareParticle.Lambda, PoincareParticle.set_Lambda,
    PoincareParticle.set_kappa, PoincareParticle.set_eta, PoincareParticle.set_sLambda,
    PoincareParticle.set_skappa, PoincareParticle.set_seta.
  cbn [PoincareParticle.mu PoincareParticle.skappa PoincareParticle.seta
       PoincareParticle.ssigma PoincareParticle.srho PoincareParticle.sLambda
       PoincareParticle.l].
  rewrite !sqrt_mu_roundtrip by exact Hmu.
  f_equal. field. lra.
Qed.

Lemma Gamma_half_squares (p : PoincareParticle.t) :
  0 < PoincareParticle.mu p ->
  PoincareParticle.Gamma p
  = 0.5 * (PoincareParticle.kappa p ^ 2 + PoincareParticle.eta p ^ 2).
Proof. intros Hmu. rewrite kappa2_eta2_Gamma by lra. lra. Qed.

Lemma Gamma_ecc_updated (k e : R) (p : PoincareParticle.t) :
  0 < PoincareParticle.mu p ->
  PoincareParticle.Gamma (PoincareParticle.set_kappa k (PoincareParticle.set_eta e p))
  = 0.5 * (k ^ 2 + e ^ 2).
Proof.
  intros Hmu. rewrite Gamma_half_squares by exact Hmu.
  unfold PoincareParticle.kappa, PoincareParticle.eta,
    PoincareParticle.set_kappa, PoincareParticle.set_eta,
    PoincareParticle.set_skappa, PoincareParticle.set_seta.
  cbn [PoincareParticle.mu PoincareParticle.skappa PoincareParticle.seta].
  rewrite !sqrt_mu_roundtrip by exact Hmu. reflexivity.
Qed.

(** [LinearEccentricityResonancOperator.apply_to_state_vector]: when the
    rows of the two bodies hold the slots [(kappa, eta, Lambda, l, sigma,
    rho)] of [particleIn] and [particleOut], the rows after the call hold the
    slots of the two particles after [apply]; the other rows are kept. *)
Lemma ecc_vector_of_particles
    (self : LinearEccentricityResonancOperator.t) (vecs : list row) (i j : nat) :
  LinearEccentricityResonancOperator.indexIn self = Z.of_nat (S i) ->
  LinearEccentricityResonancOperator.indexOut self = Z.of_nat (S j) ->
  i <> j ->
  nth_error vecs i
    = Some (row_of_particle (LinearEccentricityResonancOperator.particleIn self)) ->
  nth_error vecs j
    = Some (row_of_particle (LinearEccentricityResonancOperator.particleOut self)) ->
  0 < PoincareParticle.mu (LinearEccentricityResonancOperator.particleIn self) ->
  0 < PoincareParticle.mu (LinearEccentricityResonancOperator.particleOut self) ->
  LinearEccentricityResonancOperator.apply_to_state_vector self (flatten_rows vecs)
  = Ok (flatten_rows
          (list_update j
             (fun _ => row_of_particle
                         (LinearEccentricityResonancOperator.particleOut
                            (LinearEccentricityResonancOperator.apply self)))
             (list_update i
                (fun _ => row_of_particle
                            (LinearEccentricityResonancOperator.particleIn
                               (LinearEccentricityResonancOperator.apply self)))
                vecs))).
Proof.
  intros Hin Hout Hij Hi Hj HmuIn HmuOut.
  assert (Hilt : (i < List.length vecs)%nat) by (apply nth_error_Some; congruence).
  assert (Hjlt : (j < List.length vecs)%nat) by (apply nth_error_Some; congruence).
  unfold LinearEccentricityResonancOperator.apply_to_state_vector,
    LinearEccentricityResonancOperator.indices, _state_vector_to_individual_vectors.
  rewrite reshape_6_flatten_rows, Hin, Hout. cbn [bind].
  rewrite !(rows_get2_nat _ _ _ _ _ _ Hi Hj). cbn [bind].
  unfold LinearEccentricityResonancOperator.apply,
    LinearEccentricityResonancOperator._advance_eccentricity_variables,
    LinearEccentricityResonancOperator._get_HK_vecs,
    LinearEccentricityResonancOperator._get_theta,
    LinearEccentricityResonancOperator._get_eta_vec,
    LinearEccentricityResonancOperator._get_kappa_vec.
  cbv beta iota zeta. cbn [row_get row_of_particle r0 r1 r2 r3].
  set (pIn := LinearEccentricityResonancOperator.particleIn self) in *.
  set (pOut := LinearEccentricityResonancOperator.particleOut self) in *.
  set (theta := dot2 (LinearEccentricityResonancOperator.res_vec self)
                     (PoincareParticle.l pIn, PoincareParticle.l pOut)).
  destruct (LinearEccentricityResonancOperator.HK_of self
              (PoincareParticle.eta pIn, PoincareParticle.eta pOut)
              (PoincareParticle.kappa pIn, PoincareParticle.kappa pOut)
              (sin theta) (cos theta)) as [H K].
  destruct (LinearEccentricityResonancOperator._HKmap self H K (sin theta) (cos theta))
    as [H1 K1].
  destruct (LinearEccentricityResonancOperator._HK_to_etakappa self H1 K1
              (sin theta) (cos theta)) as [[e1 e2] [k1 k2]].
  rewrite rows_set2_nat by assumption. cbn [bind].
  rewrite rows_set2_nat by (rewrite !list_update_length; assumption). cbn [bind].
  rewrite rows_set2_nat by (rewrite !list_update_length; assumption). cbn [bind].
  rewrite (three_rows_set2 vecs i j _ _ _ _ _ _ _ _ Hij Hi Hj).
  cbn [fst snd].
  unfold LinearEccentricityResonancOperator._set_Lambdas,
    LinearEccentricityResonancOperator._set_kappa_vec,
    LinearEccentricityResonancOperator._set_eta_vec,
    LinearEccentricityResonancOperator._get_Lambdas,
    LinearEccentricityResonancOperator._get_Gammas.
  cbn [LinearEccentricityResonancOperator.with_particles
       LinearEccentricityResonancOperator.particleIn
       LinearEccentricityResonancOperator.particleOut
       LinearEccentricityResonancOperator.Lambdas_Mtrx
       LinearEccentricityResonancOperator.Lambdas_vec].
  fold pIn. fold pOut.
  rewrite !row_of_ecc_updated by assumption.
  rewrite !Gamma_ecc_updated, !Gamma_half_squares by assumption.
  unfold row_of_particle, row_set, vscale2, vadd2, vmap2, sum2. cbn [fst snd r0 r1 r2 r3 r4 r5].
  reflexivity.
Qed.

Lemma row_of_inc_updated (L sg rh : R) (p : PoincareParticle.t) :
  0 < PoincareParticle.mu p ->
  row_of_particle
    (PoincareParticle.set_Lambda L (PoincareParticle.set_sigma sg (PoincareParticle.set_rho rh p)))
  = mk_row (PoincareParticle.kappa p) (PoincareParticle.eta p) L (PoincareParticle.l p) sg rh.
Proof.
  intros Hmu. unfold row_of_particle.
  unfold PoincareParticle.kappa, PoincareParticle.eta, PoincareParticle.sigma,
    PoincareParticle.rho, PoincareParticle.Lambda, PoincareParticle.set_Lambda,
    PoincareParticle.set_sigma, PoincareParticle.set_rho, PoincareParticle.set_sLambda,
    PoincareParticle.set_ssigma, PoincareParticle.set_srho.
  cbn [PoincareParticle.mu PoincareParticle.skappa PoincareParticle.seta
       PoincareParticle.ssigma PoincareParticle.srho PoincareParticle.sLambda
       PoincareParticle.l].
  rewrite !sqrt_mu_roundtrip by exact Hmu.
  f_equal. field. lra.
Qed.

Lemma Q_half_squares (p : PoincareParticle.t) :
  0 < PoincareParticle.mu p ->
  PoincareParticle.Q p
  = 0.5 * (PoincareParticle.rho p ^ 2 + PoincareParticle.sigma p ^ 2).
Proof. intros Hmu. pose proof (sigma2_rho2_Q p ltac:(lra)). lra. Qed.

Lemma Q_inc_updated (sg rh : R) (p : PoincareParticle.t) :
  0 < PoincareParticle.mu p ->
  PoincareParticle.Q (PoincareParticle.set_sigma sg (PoincareParticle.set_rho rh p))
  = 0.5 * (rh ^ 2 + sg ^ 2).
Proof.
  intros Hmu. rewrite Q_half_squares by exact Hmu.
  unfold PoincareParticle.sigma, PoincareParticle.rho,
    PoincareParticle.set_sigma, PoincareParticle.set_rho,
    PoincareParticle.set_ssigma, PoincareParticle.set_srho.
  cbn [PoincareParticle.mu PoincareParticle.ssigma PoincareParticle.srho].
  rewrite !sqrt_mu_roundtrip by exact Hmu. reflexivity.
Qed.

(** The same for [LinearInclinationResonancOperator.apply_to_state_vector]. *)
Lemma inc_vector_of_particles
    (self : LinearInclinationResonancOperator.t) (vecs : list row) (i j : nat) :
  LinearInclinationResonancOperator.indexIn self = Z.of_nat (S i) ->
  LinearInclinationResonancOperator.indexOut self = Z.of_nat (S j) ->
  i <> j ->
  nth_error vecs i
    = Some (row_of_particle (LinearInclinationResonancOperator.particleIn self)) ->
  nth_error vecs j
    = Some (row_of_particle (LinearInclinationResonancOperator.particleOut self)) ->
  0 < PoincareParticle.mu (LinearInclinationResonancOperator.particleIn self) ->
  0 < PoincareParticle.mu (LinearInclinationResonancOperator.particleOut self) ->
  LinearInclinationResonancOperator.apply_to_state_vector self (flatten_rows vecs)
  = Ok (flatten_rows
          (list_update j
             (fun _ => row_of_particle
                         (LinearInclinationResonancOperator.particleOut
                            (LinearInclinationResonancOperator.apply self)))
             (list_update i
                (fun _ => row_of_particle
                            (LinearInclinationResonancOperator.particleIn
                               (LinearInclinationResonancOperator.apply self)))
                vecs))).
Proof.
  intros Hin Hout Hij Hi Hj HmuIn HmuOut.
  assert (Hilt : (i < List.length vecs)%nat) by (apply nth_error_Some; congruence).
  assert (Hjlt : (j < List.length vecs)%nat) by (apply nth_error_Some; congruence).
  unfold LinearInclinationResonancOperator.apply_to_state_vector,
    LinearInclinationResonancOperator.indices, _state_vector_to_individual_vectors.
  rewrite reshape_6_flatten_rows, Hin, Hout. cbn [bind].
  rewrite !(rows_get2_nat _ _ _ _ _ _ Hi Hj). cbn [bind].
  unfold LinearInclinationResonancOperator.apply,
    LinearInclinationResonancOperator._advance_inclination_variables,
    LinearInclinationResonancOperator._get_RS_vecs,
    LinearInclinationResonancOperator._get_theta,
    LinearInclinationResonancOperator._get_rho_vec,
    LinearInclinationResonancOperator._get_sigma_vec.
  cbv beta iota zeta. cbn [row_get row_of_particle r2 r3 r4 r5].
  set (pIn := LinearInclinationResonancOperator.particleIn self) in *.
  set (pOut := LinearInclinationResonancOperator.particleOut self) in *.
  set (theta := dot2 (LinearInclinationResonancOperator.res_vec self)
                     (PoincareParticle.l pIn, PoincareParticle.l pOut)).
  destruct (LinearInclinationResonancOperator._RSmap self
              (matvec2 (LinearInclinationResonancOperator.Ttr self)
                 (PoincareParticle.rho pIn, PoincareParticle.rho pOut))
              (matvec2 (LinearInclinationResonancOperator.Ttr self)
                 (PoincareParticle.sigma pIn, PoincareParticle.sigma pOut))
              (sin theta) (cos theta)) as [R1 S1].
  destruct (LinearInclinationResonancOperator._RS_to_rhosigma self R1 S1)
    as [[rh1 rh2] [sg1 sg2]].
  rewrite rows_set2_nat by assumption. cbn [bind].
  rewrite rows_set2_nat by (rewrite !list_update_length; assumption). cbn [bind].
  rewrite rows_set2_nat by (rewrite !list_update_length; assumption). cbn [bind].
  rewrite (three_rows_set2 vecs i j _ _ _ _ _ _ _ _ Hij Hi Hj).
  cbn [fst snd].
  unfold LinearInclinationResonancOperator._set_Lambdas,
    LinearInclinationResonancOperator._set_sigma_vec,
    LinearInclinationResonancOperator._set_rho_vec,
    LinearInclinationResonancOperator._get_Lambdas,
    LinearInclinationResonancOperator._get_Qs.
  cbn [LinearInclinationResonancOperator.with_particles
       LinearInclinationResonancOperator.particleIn
       LinearInclinationResonancOperator.particleOut
       LinearInclinationResonancOperator.Lambdas_Mtrx
       LinearInclinationResonancOperator.Lambdas_vec].
  fold pIn. fold pOut.
  rewrite !row_of_inc_updated by assumption.
  rewrite !Q_inc_updated, !Q_half_squares by assumption.
  unfold row_of_particle, row_set, vscale2, vadd2, vmap2, sum2. cbn [fst snd r0 r1 r2 r3 r4 r5].
  reflexivity.
Qed.

(** ** The layout of the flat vector and of the vectors of the operators *)

(** C2, as stated, fails: for two planets the second entry of the flat
    vector is [eta] of the first planet ([2] here), not the mean longitude of
    the second planet ([3] here). *)
Lemma blockwise_values_counterexample :
  exists self,
    Poincare.init 1 [first_planet; second_planet] "democratic heliocentric" 0 = Ok self
    /\ nth_error (Poincare.values self) 1 = Some (PoincareParticle.eta first_planet)
    /\ PoincareParticle.eta first_planet = 2
    /\ nth_error (Poincare.spec_blockwise_values [first_planet; second_planet]) 1 = Some 3
    /\ Poincare.values self
       <> Poincare.spec_blockwise_values [first_planet; second_planet].
Proof.
  eexists. split; [apply Poincare_init_closed_form|].
  assert (Heta : PoincareParticle.eta first_planet = 2).
  { unfold PoincareParticle.eta, first_planet. cbn. rewrite sqrt_1. ring. }
  split; [reflexivity|]. split; [exact Heta|]. split; [reflexivity|].
  cbn [Poincare.values]. intros Heq.
  assert (H1 : nth_error (flat_map Poincare.qvals_of [first_planet; second_planet]
                            ++ flat_map Poincare.pvals_of [first_planet; second_planet]) 1
               = nth_error (Poincare.spec_blockwise_values [first_planet; second_planet]) 1)
    by (rewrite Heq; reflexivity).
  cbn in H1. injection H1 as H1. rewrite Heta in H1. lra.
Qed.

(** C2 (amended). The flat vector of a [Poincare] object is ordered body
    by body, [l, eta, rho] of each body in turn and then [Lambda, kappa,
    sigma] of each body in turn, and [__getitem__] reads the body [i] at
    these places.  The vectors of the operators are read as six contiguous
    slots per body, and on the slots [(kappa, eta, Lambda, l, sigma, rho)] of
    particles each [apply_to_state_vector] computes what the corresponding
    [apply] computes on the particles. *)
Theorem flat_vector_layouts :
  (forall (G : R) (p0 : PoincareParticle.t) (ps : list PoincareParticle.t)
          (coords : string) (t : R),
      exists self,
        Poincare.init G (p0 :: ps) coords t = Ok self
        /\ Poincare.values self
           = flat_map (fun p => [PoincareParticle.l p; PoincareParticle.eta p;
                                 PoincareParticle.rho p]) (p0 :: ps)
             ++ flat_map (fun p => [PoincareParticle.Lambda p; PoincareParticle.kappa p;
                                    PoincareParticle.sigma p]) (p0 :: ps)
        /\ forall (i : nat) (p : PoincareParticle.t),
             nth_error (p0 :: ps) i = Some p ->
             Poincare.PoincareParticles.getitem self (Z.of_nat (S i))
             = PoincareParticle.init
                 (PoincareParticleArgs.of_massive coords G (PoincareParticle.m p)
                    (PoincareParticle.Mstar p0)
                    (PoincareParticle.l p) (PoincareParticle.eta p) (PoincareParticle.rho p)
                    (PoincareParticle.Lambda p) (PoincareParticle.kappa p)
                    (PoincareParticle.sigma p)))
  /\ (forall vecs : list row,
        _state_vector_to_individual_vectors (flat_map row_to_list vecs) = Ok vecs)
  /\ (forall (self : KeplerianEvolutionOperator.t) (ps : list PoincareParticle.t),
        List.length (KeplerianEvolutionOperator.GGMMmmm self) = List.length ps ->
        KeplerianEvolutionOperator.apply_to_state_vector self
          (flatten_rows (map row_of_particle ps))
        = (lambda_dot <- KeplerianEvolutionOperator.lambda_dot_of self
                           (map PoincareParticle.Lambda ps) ;;
           Ok (flatten_rows
                 (map row_of_particle
                    (KeplerianEvolutionOperator.advance_particles ps
                       (map (Rmult (KeplerianEvolutionOperator.dt self)) lambda_dot))))))
  /\ (forall (self : LinearSecularEvolutionOperator.t) (ps : list PoincareParticle.t),
        Forall (fun p => 0 < PoincareParticle.mu p) ps ->
        has_shape (List.length ps) (List.length ps)
          (LinearSecularEvolutionOperator.ecc_operator_matrix self) ->
        has_shape (List.length ps) (List.length ps)
          (LinearSecularEvolutionOperator.inc_operator_matrix self) ->
        LinearSecularEvolutionOperator.apply_to_state_vector self
          (flatten_rows (map row_of_particle ps))
        = (x <- LinearSecularEvolutionOperator.complex_pairs
                  (map PoincareParticle.kappa ps) (map PoincareParticle.eta ps) ;;
           y <- LinearSecularEvolutionOperator.complex_pairs
                  (map PoincareParticle.sigma ps) (map PoincareParticle.rho ps) ;;
           xnew <- matvec (LinearSecularEvolutionOperator.ecc_operator_matrix self) x ;;
           ynew <- matvec (LinearSecularEvolutionOperator.inc_operator_matrix self) y ;;
           Ok (flatten_rows
                 (map row_of_particle
                    (LinearSecularEvolutionOperator.set_y_of
                       (LinearSecularEvolutionOperator.set_x_of ps xnew) ynew)))))
  /\ (forall (self : LinearEccentricityResonancOperator.t) (vecs : list row) (i j : nat),
        LinearEccentricityResonancOperator.indexIn self = Z.of_nat (S i) ->
        LinearEccentricityResonancOperator.indexOut self = Z.of_nat (S j) ->
        i <> j ->
        nth_error vecs i
          = Some (row_of_particle (LinearEccentricityResonancOperator.particleIn self)) ->
        nth_error vecs j
          = Some (row_of_particle (LinearEccentricityResonancOperator.particleOut self)) ->
        0 < PoincareParticle.mu (LinearEccentricityResonancOperator.particleIn self) ->
        0 < PoincareParticle.mu (LinearEccentricityResonancOperator.particleOut self) ->
        LinearEccentricityResonancOperator.apply_to_state_vector self (flatten_rows vecs)
        = Ok (flatten_rows
                (list_update j
                   (fun _ => row_of_particle
                               (LinearEccentricityResonancOperator.particleOut
                                  (LinearEccentricityResonancOperator.apply self)))
                   (list_update i
                      (fun _ => row_of_particle
                                  (LinearEccentricityResonancOperator.particleIn
                                     (LinearEccentricityResonancOperator.apply self)))
                      vecs))))
  /\ (forall (self : LinearInclinationResonancOperator.t) (vecs : list row) (i j : nat),
        LinearInclinationResonancOperator.indexIn self = Z.of_nat (S i) ->
        LinearInclinationResonancOperator.indexOut self = Z.of_nat (S j) ->
        i <> j ->
        nth_error vecs i
          = Some (row_of_particle (LinearInclinationResonancOperator.particleIn self)) ->
        nth_error vecs j
          = Some (row_of_particle (LinearInclinationResonancOperator.particleOut self)) ->
        0 < PoincareParticle.mu (LinearInclinationResonancOperator.particleIn self) ->
        0 < PoincareParticle.mu (LinearInclinationResonancOperator.particleOut self) ->
        LinearInclinationResonancOperator.apply_to_state_vector self (flatten_rows vecs)
        = Ok (flatten_rows
                (list_update j
                   (fun _ => row_of_particle
                               (LinearInclinationResonancOperator.particleOut
                                  (LinearInclinationResonancOperator.apply self)))
                   (list_update i
                      (fun _ => row_of_particle
                                  (LinearInclinationResonancOperator.particleIn
                                     (LinearInclinationResonancOperator.apply self)))
                      vecs)))).
Proof.
  split; [|split; [|split; [|split; [|split]]]].
  - intros G p0 ps coords t. eexists. split; [apply Poincare_init_closed_form|].
    split; [reflexivity|].
    intros i p Hp.
    apply (getitem_reads_init_layout G p0 ps coords t _ i p);
      [apply Poincare_init_closed_form | exact Hp].
  - intros vecs. apply reshape_6_flatten_rows.
  - apply Keplerian_vector_of_particles.
  - apply secular_vector_of_particles.
  - apply ecc_vector_of_particles.
  - apply inc_vector_of_particles.
Qed.

(** ** [PoincareHamiltonian]: the Keplerian terms *)

Lemma eval_add_Hkep_term (env : symbol -> R) (H : expr) (index : Z) :
  eval env (PoincareHamiltonian.add_Hkep_term H index)
  = eval env H + PoincareHamiltonian.Hkep_value env index.
Proof.
  unfold PoincareHamiltonian.add_Hkep_term, PoincareHamiltonian.Hkep_value.
  cbn [eval powerRZ].
  change (Pos.to_nat 2) with 2%nat. change (Pos.to_nat 3) with 3%nat.
  unfold Rdiv. ring.
Qed.

Lemma init_body_fold_H (pvars : Poincare.t) (xs : list nat) :
  forall (d d' : dict) (H H' : expr),
    foldM (PoincareHamiltonian.init_body pvars) xs (d, H) = Ok (d', H') ->
    H' = fold_left PoincareHamiltonian.add_Hkep_term (map Z.of_nat xs) H.
Proof.
  induction xs as [|i xs IH]; intros d d' H H' Hfold.
  - cbn in Hfold. injection Hfold as _ <-. reflexivity.
  - cbn [foldM] in Hfold. cbn [map fold_left].
    destruct (PoincareHamiltonian.init_body pvars (d, H) i) as [[d1 H1]|] eqn:Hbody;
      cbn [bind] in Hfold; [|discriminate].
    assert (HH1 : H1 = PoincareHamiltonian.add_Hkep_term H (Z.of_nat i)).
    { unfold PoincareHamiltonian.init_body in Hbody.
      destruct (Poincare.PoincareParticles.getitem pvars (Z.of_nat i));
        cbn [bind] in Hbody; [|discriminate].
      destruct (passed _); cbn [bind] in Hbody; [|discriminate].
      destruct (foldM _ _ _); cbn [bind] in Hbody; [|discriminate].
      injection Hbody as _ <-. reflexivity. }
    subst H1. apply (IH _ _ _ _ Hfold).
Qed.

(** C5, as stated, fails: with [G = M1 = mu1 = 1] and [Lambda1 = 2] the
    term [add_Hkep_term] adds has the value [-1/8], and the closed form of
    the claim, over the first power of [Lambda1], the value [-1/4]. *)
Lemma Hkep_first_power_counterexample :
  eval env_Lambda_2 (PoincareHamiltonian.add_Hkep_term (Int 0) 1)
    = eval env_Lambda_2 (Int 0) + - 1 / 8
  /\ PoincareHamiltonian.spec_Hkep_value env_Lambda_2 1 = - 1 / 4
  /\ eval env_Lambda_2 (PoincareHamiltonian.add_Hkep_term (Int 0) 1)
     <> eval env_Lambda_2 (Int 0) + PoincareHamiltonian.spec_Hkep_value env_Lambda_2 1.
Proof.
  assert (Hcode : eval env_Lambda_2 (PoincareHamiltonian.add_Hkep_term (Int 0) 1)
                  = eval env_Lambda_2 (Int 0) + - 1 / 8).
  { rewrite eval_add_Hkep_term. unfold PoincareHamiltonian.Hkep_value. cbn. field. }
  assert (Hspec : PoincareHamiltonian.spec_Hkep_value env_Lambda_2 1 = - 1 / 4).
  { unfold PoincareHamiltonian.spec_Hkep_value. cbn. field. }
  split; [exact Hcode|]. split; [exact Hspec|].
  rewrite Hcode, Hspec. cbn. lra.
Qed.

(** C5 (amended). The Keplerian term [add_Hkep_term] adds for the body
    [index] has the value [-G^2 M^2 mu^3 / (2 Lambda^2)], inversely
    proportional to the square of [Lambda]; and the expression [H] of a new
    [PoincareHamiltonian] is [0] plus these terms for the bodies [1] to
    [N - 1] in turn. *)
Theorem Hkep_term_closed_form :
  (forall (env : symbol -> R) (H : expr) (index : Z),
      eval env (PoincareHamiltonian.add_Hkep_term H index)
      = eval env H
        + - (env sym_G ^ 2 * env (sym_M index) ^ 2 * env (sym_mu index) ^ 3)
          / (2 * env (sym_Lambda index) ^ 2))
  /\ (forall (pvars : Poincare.t) (self : PoincareHamiltonian.t),
        PoincareHamiltonian.init pvars = Ok self ->
        PoincareHamiltonian.H self
        = fold_left PoincareHamiltonian.add_Hkep_term
            (map Z.of_nat (seq 1 (Poincare.N pvars - 1))) (Int 0)).
Proof.
  split.
  - intros env H index. apply eval_add_Hkep_term.
  - intros pvars self. unfold PoincareHamiltonian.init. cbv zeta.
    destruct (foldM _ _ _) as [[d H]|] eqn:Hfold; cbn [bind]; [|discriminate].
    intros Heq; injection Heq as <-. cbn [PoincareHamiltonian.H].
    apply (init_body_fold_H _ _ _ _ _ _ Hfold).
Qed.

(** ** [PoincareHamiltonian]: adding a term twice *)

Lemma list_Z_eqb_refl (u : list Z) : list_Z_eqb u u = true.
Proof.
  induction u as [|a u IH]; [reflexivity|].
  cbn [list_Z_eqb]. rewrite Z.eqb_refl, IH. reflexivity.
Qed.

Lemma key_eqb_refl (k : PoincareHamiltonian.key) : PoincareHamiltonian.key_eqb k k = true.
Proof.
  destruct k as [[kIn kOut] [kv nu]]. unfold PoincareHamiltonian.key_eqb.
  rewrite !Z.eqb_refl, !list_Z_eqb_refl. reflexivity.
Qed.

Section AddMonomialTerm.
Variable DFdict : Type.
Variable DFCoeff_C : list Z -> list Z -> DFdict.
Variable _p1_p2_from_k_nu : list Z -> list Z -> Z * Z.
Variable eval_DFCoeff_delta_expansion : DFdict -> Z -> Z -> Z -> R -> list ((Z * Z) * R).
Variable get_DFCoeff_symbol : list Z -> list Z -> Z * Z -> Z -> Z -> symbol.

Let add_monomial_term :=
    PoincareHamiltonian.add_monomial_term DFdict DFCoeff_C _p1_p2_from_k_nu
      eval_DFCoeff_delta_expansion get_DFCoeff_symbol.

(** C7. When the key [(indexIn, indexOut, (kvec, nuvec))] is in
    [resonance_indices], [add_monomial_term] returns with the one warning
    of a duplicate and with the Hamiltonian as it was: [H], [Hparams], the
    list [resonance_indices] and the number of updates are unchanged,
    whatever [lmax] and [update] are. *)
Theorem add_monomial_term_duplicate (self : PoincareHamiltonian.t)
      (kvec nuvec : list Z) (indexIn indexOut lmax : Z) (update : bool) :
    In (indexIn, indexOut, (kvec, nuvec)) (PoincareHamiltonian.resonance_indices self) ->
    add_monomial_term self kvec nuvec indexIn indexOut lmax update
    = Ok (self, [PoincareHamiltonian.msg_duplicate]).
  Proof.
    intros Hin. unfold add_monomial_term, PoincareHamiltonian.add_monomial_term.
    replace (existsb _ (PoincareHamiltonian.resonance_indices self)) with true;
      [reflexivity|].
    symmetry. apply existsb_exists.
    exists (indexIn, indexOut, (kvec, nuvec)). split; [exact Hin | apply key_eqb_refl].
  Qed.

(** A call that returns records its key. *)
Lemma add_monomial_term_records (self self1 : PoincareHamiltonian.t)
      (kvec nuvec : list Z) (indexIn indexOut lmax : Z) (update : bool)
      (warnings : list string) :
    add_monomial_term self kvec nuvec indexIn indexOut lmax update = Ok (self1, warnings) ->
    existsb (PoincareHamiltonian.key_eqb (indexIn, indexOut, (kvec, nuvec)))
            (PoincareHamiltonian.resonance_indices self1) = true.
  Proof.
    unfold add_monomial_term, PoincareHamiltonian.add_monomial_term.
    destruct (existsb _ (PoincareHamiltonian.resonance_indices self)) eqn:Hdup.
    - intros Heq; injection Heq as <- _. exact Hdup.
    - cbv zeta.
      destruct (dict_get _ _); cbn [bind]; [|discriminate].
      destruct kvec as [|k1 [|k2 [|k3 [|k4 [|k5 [|k6 [|]]]]]]]; try discriminate.
      destruct nuvec as [|nu1 [|nu2 [|nu3 [|nu4 [|]]]]]; try discriminate.
      destruct (_p1_p2_from_k_nu _ _) as [p1 p2].
      destruct (fold_left _ _ _) as [Hparams1 Ctot].
      destruct (get_re_im_components _ _ k3) as [xin yin].
      destruct (get_re_im_components _ _ k4) as [xout yout].
      destruct (get_re_im_components _ _ k5) as [uin vin].
      destruct (get_re_im_components _ _ k6) as [uout vout].
      intros Heq; injection Heq as <- _.
      cbn [PoincareHamiltonian.resonance_indices].
      rewrite existsb_app. cbn [existsb]. rewrite key_eqb_refl.
      rewrite orb_true_r. reflexivity.
  Qed.

(** Adding the same term twice: the second call changes nothing and
    warns. *)
Lemma add_monomial_term_twice (self self1 : PoincareHamiltonian.t)
      (kvec nuvec : list Z) (indexIn indexOut lmax lmax' : Z) (update update' : bool)
      (warnings : list string) :
    add_monomial_term self kvec nuvec indexIn indexOut lmax update = Ok (self1, warnings) ->
    add_monomial_term self1 kvec nuvec indexIn indexOut lmax' update'
    = Ok (self1, [PoincareHamiltonian.msg_duplicate]).
  Proof.
    intros Hfirst. apply add_monomial_term_records in Hfirst.
    unfold add_monomial_term, PoincareHamiltonian.add_monomial_term.
    rewrite Hfirst. reflexivity.
  Qed.
End AddMonomialTerm.

Lemma add_monomial_term_duplicate_witness :
  exists self1,
    add_monomial_term_example bare_hamiltonian [2; -1; -1; 0; 0; 0]%Z [0; 0; 0; 0]%Z
      1 2 0 true = Ok (self1, [])
    /\ add_monomial_term_example self1 [2; -1; -1; 0; 0; 0]%Z [0; 0; 0; 0]%Z
         1 2 0 true = Ok (self1, [PoincareHamiltonian.msg_duplicate]).
Proof.
  eexists. split.
  - reflexivity.
  - apply (add_monomial_term_duplicate unit (fun _ _ => tt) (fun _ _ => (0%Z, 0%Z))
             one_coefficient (fun _ _ _ _ _ => sym_other "C")).
    simpl. left. reflexivity.
Defined.

Lemma add_monomial_term_twice_witness :
  exists self1,
    add_monomial_term_example bare_hamiltonian [3; -2; -1; 0; 0; 0]%Z [0; 0; 0; 0]%Z
      1 2 0 true = Ok (self1, [])
    /\ add_monomial_term_example self1 [3; -2; -1; 0; 0; 0]%Z [0; 0; 0; 0]%Z
         1 2 1 false = Ok (self1, [PoincareHamiltonian.msg_duplicate]).
Proof.
  eexists. split; [reflexivity|].
  apply (add_monomial_term_twice unit (fun _ _ => tt) (fun _ _ => (0%Z, 0%Z))
           one_coefficient (fun _ _ _ _ _ => sym_other "C")
           bare_hamiltonian _ _ _ _ _ 0%Z 1%Z true false []).
  reflexivity.
Defined.

(** ** [Poincare.copy] *)

Lemma mapM_all_Ok {A B : Type} (f : A -> result B) (xs : list A) :
  (forall x, In x xs -> exists y, f x = Ok y) -> exists ys, mapM f xs = Ok ys.
Proof.
  induction xs as [|x xs IH]; intros Hall.
  - exists []. reflexivity.
  - destruct (Hall x (or_introl eq_refl)) as [y Hy].
    destruct IH as [ys Hys]; [intros x' Hx'; apply Hall; right; exact Hx'|].
    exists (y :: ys). cbn [mapM]. rewrite Hy. cbn [bind]. rewrite Hys. reflexivity.
Qed.

Lemma m_of_valid_coordinates (p : PoincareParticle.t) :
  valid_coordinates (PoincareParticle.coordinates p) ->
  (exists m, PoincareParticle.m p = Some m) /\ (exists Mstar, PoincareParticle.Mstar p = Some Mstar).
Proof.
  unfold PoincareParticle.m, PoincareParticle.Mstar.
  intros [Hc|Hc]; rewrite Hc; cbn; split; eexists; reflexivity.
Qed.

Lemma init_of_massive_Ok (coords : string) (G m Mstar l eta rho Lambda kappa sigma : R) :
  valid_coordinates coords ->
  exists p,
    PoincareParticle.init
      (PoincareParticleArgs.of_massive coords G (Some m) (Some Mstar)
         l eta rho Lambda kappa sigma) = Ok p.
Proof.
  intros [Hc|Hc]; subst coords; eexists; reflexivity.
Qed.

(** For an object [__init__] has built, with one of the two conventions,
    from particles of one of the two conventions, the slice
    [self.particles[1:self.N]] can be built. *)
Lemma getslice_after_init (G : R) (p0 : PoincareParticle.t)
    (ps : list PoincareParticle.t) (coords : string) (t : R) (self : Poincare.t) :
  valid_coordinates coords ->
  Forall (fun p => valid_coordinates (PoincareParticle.coordinates p)) (p0 :: ps) ->
  Poincare.init G (p0 :: ps) coords t = Ok self ->
  exists particles, Poincare.PoincareParticles.getslice_from_1 self = Ok particles.
Proof.
  intros Hcoords Hall Hinit.
  destruct (Poincare_init_N _ _ _ _ _ _ Hinit) as [_ HN].
  unfold Poincare.PoincareParticles.getslice_from_1. rewrite HN.
  apply mapM_all_Ok. intros x Hx.
  apply in_map_iff in Hx. destruct Hx as [k [<- Hk]].
  apply in_seq in Hk.
  destruct k as [|i]; [lia|].
  destruct (nth_error (p0 :: ps) i) as [p|] eqn:Hp.
  2:{ apply nth_error_None in Hp. cbn [List.length] in *. lia. }
  rewrite (getitem_reads_init_layout _ _ _ _ _ _ _ _ Hinit Hp).
  rewrite Forall_forall in Hall.
  destruct (m_of_valid_coordinates p (Hall p (nth_error_In _ _ Hp))) as [[m ->] _].
  destruct (m_of_valid_coordinates p0 (Hall p0 (or_introl eq_refl))) as [_ [Mstar ->]].
  apply init_of_massive_Ok, Hcoords.
Qed.

(** C10, as stated, fails: for the object
    [Poincare(1, [circular_particle], coordinates='barycentric')] the call
    [copy()] raises the [AttributeError] of [PoincareParticle.__init__],
    while the slice [self.particles[1:self.N]] is built, before the name [t]
    is looked up. *)
Lemma copy_NameError_counterexample :
  exists self,
    Poincare.init 1 [circular_particle] "barycentric" 0 = Ok self
    /\ Poincare.copy self = Raise (AttributeError PoincareParticle.msg_coordinates)
    /\ Poincare.copy self <> Raise (NameError "t").
Proof.
  eexists. split; [reflexivity|].
  split; [reflexivity|]. discriminate.
Qed.

(** C10 (amended). [copy()] never returns: it raises [NameError] for the
    name [t] whenever the slice [self.particles[1:self.N]] can be built,
    and otherwise the exception raised while the slice is built.  The slice
    can be built, so that the exception is the [NameError], for every object
    with positive masses that [__init__] has built with one of the two
    conventions from particles of one of the two conventions. *)
Theorem copy_always_raises :
  (forall self : Poincare.t,
      Poincare.copy self
      = match Poincare.PoincareParticles.getslice_from_1 self with
        | Ok _ => Raise (NameError "t")
        | Raise err => Raise err
        end)
  /\ (forall (self new : Poincare.t), Poincare.copy self <> Ok new)
  /\ (forall (G : R) (p0 : PoincareParticle.t) (ps : list PoincareParticle.t)
             (coords : string) (t : R) (self : Poincare.t),
        valid_coordinates coords ->
        Forall (fun p => valid_coordinates (PoincareParticle.coordinates p)) (p0 :: ps) ->
        Poincare.init G (p0 :: ps) coords t = Ok self ->
        Poincare.positive_masses self ->
        Poincare.copy self = Raise (NameError "t")).
Proof.
  split; [|split].
  - intros self. unfold Poincare.copy. cbv zeta.
    destruct (Poincare.PoincareParticles.getslice_from_1 self); reflexivity.
  - intros self new. unfold Poincare.copy. cbv zeta.
    destruct (Poincare.PoincareParticles.getslice_from_1 self); discriminate.
  - intros G p0 ps coords t self Hcoords Hall Hinit _.
    destruct (getslice_after_init _ _ _ _ _ _ Hcoords Hall Hinit) as [particles Hps].
    unfold Poincare.copy. cbv zeta. rewrite Hps. reflexivity.
Qed.

(** * Further properties of the code *)

(** ** Sequencing *)

Lemma bind_Ok_inv {A B : Type} (m : result A) (f : A -> result B) (y : B) :
  bind m f = Ok y -> exists x, m = Ok x /\ f x = Ok y.
Proof.
  destruct m as [x|err]; cbn [bind]; intros H; [exists x; auto | discriminate].
Qed.

Ltac bind_inv H :=
  let x := fresh "x" in let Hx := fresh "Hx" in
  apply bind_Ok_inv in H; destruct H as [x [Hx H]].

(** ** [PoincareParticle.__init__]: the masses *)

(** The last block of [__init__] keeps the canonical masses, the
    convention and [G] it is given. *)
Lemma init_elements_keeps (kw : PoincareParticleArgs.t) (mu M : R) (p : PoincareParticle.t) :
  PoincareParticle.init_elements kw mu M = Ok p ->
  PoincareParticle.mu p = mu /\ PoincareParticle.M p = M
  /\ PoincareParticle.coordinates p = PoincareParticleArgs.coordinates kw
  /\ PoincareParticle.G p = PoincareParticleArgs.G kw.
Proof.
  unfold PoincareParticle.init_elements. cbv zeta.
  destruct (Nat.eqb _ 0); [discriminate|].
  destruct (Nat.ltb 1 _); [discriminate|].
  intros H. repeat bind_inv H.
  injection H as <-. cbn. auto.
Qed.

(** A particle [__init__] returns has the canonical masses of the first
    block, and the convention and [G] that were passed. *)
Lemma init_keeps_masses (kw : PoincareParticleArgs.t) (p : PoincareParticle.t) :
  PoincareParticle.init kw = Ok p ->
  PoincareParticle.init_masses kw = Ok (PoincareParticle.mu p, PoincareParticle.M p)
  /\ PoincareParticle.coordinates p = PoincareParticleArgs.coordinates kw
  /\ PoincareParticle.G p = PoincareParticleArgs.G kw.
Proof.
  unfold PoincareParticle.init.
  intros H. bind_inv H. destruct x as [mu M]. rewrite Hx.
  destruct (Nat.eqb _ 6).
  - repeat bind_inv H. injection H as <-. cbn. auto.
  - destruct (Nat.eqb _ 6).
    + repeat bind_inv H. injection H as <-. cbn. auto.
    + apply init_elements_keeps in H. destruct H as (-> & -> & Hc & HG). auto.
Qed.

(** [_mu_M_to_m_Mstar] on the canonical masses of two physical masses:
    the square root is [|Mstar - m|]. *)
Lemma mu_M_of_physical (m Mstar : R) :
  0 < m -> m <= Mstar ->
  PoincareParticle._mu_M_to_m_Mstar (m * Mstar / (Mstar + m)) (Mstar + m) = (m, Mstar).
Proof.
  intros Hm Hle. unfold PoincareParticle._mu_M_to_m_Mstar. cbv zeta.
  replace ((Mstar + m) ^ 2 - 4 * (m * Mstar / (Mstar + m)) * (Mstar + m))
    with ((Mstar - m) * (Mstar - m)) by (field; lra).
  rewrite sqrt_square by lra.
  f_equal; field; lra.
Qed.

Lemma mu_M_of_physical_swapped (m Mstar : R) :
  0 < Mstar -> Mstar < m ->
  PoincareParticle._mu_M_to_m_Mstar (m * Mstar / (Mstar + m)) (Mstar + m) = (Mstar, m).
Proof.
  intros HM Hlt. unfold PoincareParticle._mu_M_to_m_Mstar. cbv zeta.
  replace ((Mstar + m) ^ 2 - 4 * (m * Mstar / (Mstar + m)) * (Mstar + m))
    with ((m - Mstar) * (m - Mstar)) by (field; lra).
  rewrite sqrt_square by lra.
  f_equal; field; lra.
Qed.

(** The other way round: the two numbers [_mu_M_to_m_Mstar] returns have
    the reduced mass [mu] and the sum [M]. *)
Lemma physical_of_mu_M (mu M : R) :
  0 < M -> 4 * mu <= M ->
  let mMstar := PoincareParticle._mu_M_to_m_Mstar mu M in
  fst mMstar * snd mMstar / (snd mMstar + fst mMstar) = mu
  /\ snd mMstar + fst mMstar = M.
Proof.
  intros HM Hmu. unfold PoincareParticle._mu_M_to_m_Mstar. cbv zeta. cbn [fst snd].
  set (d := sqrt (M ^ 2 - 4 * mu * M)).
  assert (Hd0 : 0 <= d) by apply sqrt_pos.
  assert (Hd2 : d * d = M ^ 2 - 4 * mu * M).
  { unfold d. apply sqrt_sqrt. nra. }
  assert (Hsum : (M + d) / 2 + mu * M / ((M + d) / 2) = M).
  { field_simplify_eq; [|lra]. nra. }
  split.
  - rewrite Hsum. field_simplify_eq; lra.
  - exact Hsum.
Qed.

(** A particle built from two positive physical masses [m] and [Mstar]
    reads them back through the properties [m] and [Mstar] in democratic
    heliocentric coordinates, and in canonical heliocentric coordinates when
    [m <= Mstar].  In canonical heliocentric coordinates with [Mstar < m]
    the two are read back exchanged: [_mu_M_to_m_Mstar] takes the larger
    root for [Mstar]. *)
Theorem physical_masses_read_back (kw : PoincareParticleArgs.t) (p : PoincareParticle.t)
    (m Mstar : R) :
  PoincareParticleArgs.m kw = Some m ->
  PoincareParticleArgs.Mstar kw = Some Mstar ->
  0 < m -> 0 < Mstar ->
  PoincareParticle.init kw = Ok p ->
  (PoincareParticleArgs.coordinates kw = "democratic heliocentric" \/ m <= Mstar ->
   PoincareParticle.m p = Some m /\ PoincareParticle.Mstar p = Some Mstar)
  /\ (PoincareParticleArgs.coordinates kw = "canonical heliocentric" -> Mstar < m ->
      PoincareParticle.m p = Some Mstar /\ PoincareParticle.Mstar p = Some m).
Proof.
  intros Hm HMstar Hmpos HMpos Hinit.
  destruct (init_keeps_masses kw p Hinit) as (Hmasses & Hcoords & _).
  unfold PoincareParticle.init_masses in Hmasses. rewrite Hm, HMstar in Hmasses.
  destruct (is_not_None (PoincareParticleArgs.mu kw) || is_not_None (PoincareParticleArgs.M kw));
    [discriminate|].
  unfold PoincareParticle.m, PoincareParticle.Mstar. rewrite Hcoords.
  destruct (String.eqb_spec (PoincareParticleArgs.coordinates kw) "democratic heliocentric")
    as [Hdemo|Hdemo].
  - injection Hmasses as <- <-. split; [auto|].
    intros Hcanon. rewrite Hcanon in Hdemo. discriminate.
  - destruct (String.eqb_spec (PoincareParticleArgs.coordinates kw) "canonical heliocentric")
      as [Hcanon|Hcanon]; [|discriminate].
    injection Hmasses as <- <-. split.
    + intros [Hd|Hle]; [contradiction|].
      rewrite mu_M_of_physical by assumption. auto.
    + intros _ Hlt. rewrite mu_M_of_physical_swapped by assumption. auto.
Qed.

Lemma physical_masses_read_back_witness :
  exists p,
    PoincareParticle.init
      (PoincareParticleArgs.of_massive "canonical heliocentric" 1 (Some 1) (Some 2)
         0 0 0 1 0 0) = Ok p
    /\ PoincareParticle.m p = Some 1 /\ PoincareParticle.Mstar p = Some 2.
Proof.
  eexists. split; [reflexivity|].
  refine (proj1 (physical_masses_read_back
            (PoincareParticleArgs.of_massive "canonical heliocentric" 1 (Some 1) (Some 2)
               0 0 0 1 0 0) _ 1 2 eq_refl eq_refl _ _ eq_refl) _).
  - lra.
  - lra.
  - right. lra.
Defined.

(** ** [PoincareParticle]: the setters *)

(** For a particle of positive [mu], assigning one of [kappa], [eta],
    [Lambda], [l], [sigma], [rho] makes that variable read back as the
    value assigned and leaves the five others as they were; the six are
    listed in the order [(kappa, eta, Lambda, l, sigma, rho)] of
    [row_of_particle]. *)
Theorem setters_round_trip (p : PoincareParticle.t) (v : R) :
  0 < PoincareParticle.mu p ->
  row_of_particle (PoincareParticle.set_kappa v p) = row_set 0 v (row_of_particle p)
  /\ row_of_particle (PoincareParticle.set_eta v p) = row_set 1 v (row_of_particle p)
  /\ row_of_particle (PoincareParticle.set_Lambda v p) = row_set 2 v (row_of_particle p)
  /\ row_of_particle (PoincareParticle.set_l v p) = row_set 3 v (row_of_particle p)
  /\ row_of_particle (PoincareParticle.set_sigma v p) = row_set 4 v (row_of_particle p)
  /\ row_of_particle (PoincareParticle.set_rho v p) = row_set 5 v (row_of_particle p).
Proof.
  intros Hmu.
  assert (Hs : sqrt (PoincareParticle.mu p) <> 0).
  { apply Rgt_not_eq. apply sqrt_lt_R0. exact Hmu. }
  destruct p as [G c mu M sL l sk se ss sr].
  unfold row_of_particle, row_set, PoincareParticle.set_kappa, PoincareParticle.set_eta,
    PoincareParticle.set_Lambda, PoincareParticle.set_l, PoincareParticle.set_sigma,
    PoincareParticle.set_rho, PoincareParticle.set_skappa, PoincareParticle.set_seta,
    PoincareParticle.set_sLambda, PoincareParticle.set_ssigma, PoincareParticle.set_srho,
    PoincareParticle.kappa, PoincareParticle.eta, PoincareParticle.Lambda,
    PoincareParticle.sigma, PoincareParticle.rho.
  cbn in *.
  repeat split; f_equal; field; lra.
Qed.

Lemma setters_round_trip_witness :
  row_of_particle (PoincareParticle.set_kappa 3 circular_particle)
  = row_set 0 3 (row_of_particle circular_particle).
Proof.
  refine (proj1 (setters_round_trip circular_particle 3 _)).
  simpl. lra.
Defined.

(** ** [PoincareParticle]: orbital elements *)




(** Kepler's third law for the properties [n] and [a]:
    [n^2 * a^3 = G * M]. *)
Theorem kepler_third_law (p : PoincareParticle.t) :
  PoincareParticle.G p <> 0 -> PoincareParticle.M p <> 0 ->
  PoincareParticle.sLambda p <> 0 ->
  PoincareParticle.n p ^ 2 * PoincareParticle.a p ^ 3
  = PoincareParticle.G p * PoincareParticle.M p.
Proof.
  intros HG HM HL. unfold PoincareParticle.n, PoincareParticle.a. field. auto.
Qed.

Lemma kepler_third_law_witness :
  PoincareParticle.n circular_particle ^ 2 * PoincareParticle.a circular_particle ^ 3
  = PoincareParticle.G circular_particle * PoincareParticle.M circular_particle.
Proof.
  apply kepler_third_law; simpl; lra.
Defined.

(** ** [PoincareParticles.__getitem__]: round trip and bounds *)

(** [__init__] on the six canonical values of a particle of positive
    [mu], with masses that give its [mu] and [M], returns that particle. *)
Lemma init_of_massive_rebuilds (p : PoincareParticle.t) (mu' M' : R) (m Mstar : option R) :
  PoincareParticle.init_masses
    (PoincareParticleArgs.of_massive (PoincareParticle.coordinates p) (PoincareParticle.G p)
       m Mstar (PoincareParticle.l p) (PoincareParticle.eta p) (PoincareParticle.rho p)
       (PoincareParticle.Lambda p) (PoincareParticle.kappa p) (PoincareParticle.sigma p))
  = Ok (mu', M') ->
  mu' = PoincareParticle.mu p -> M' = PoincareParticle.M p ->
  0 < PoincareParticle.mu p ->
  PoincareParticle.init
    (PoincareParticleArgs.of_massive (PoincareParticle.coordinates p) (PoincareParticle.G p)
       m Mstar (PoincareParticle.l p) (PoincareParticle.eta p) (PoincareParticle.rho p)
       (PoincareParticle.Lambda p) (PoincareParticle.kappa p) (PoincareParticle.sigma p))
  = Ok p.
Proof.
  intros Hmasses -> -> Hmu.
  assert (Hs : sqrt (PoincareParticle.mu p) <> 0).
  { apply Rgt_not_eq. apply sqrt_lt_R0. exact Hmu. }
  unfold PoincareParticle.init. rewrite Hmasses. cbn [bind].
  destruct p as [G c mu M sL l sk se ss sr].
  cbv beta iota delta [PoincareParticleArgs.of_massive PoincareParticleArgs.G
    PoincareParticleArgs.coordinates PoincareParticleArgs.l PoincareParticleArgs.sLambda
    PoincareParticleArgs.skappa PoincareParticleArgs.seta PoincareParticleArgs.ssigma
    PoincareParticleArgs.srho PoincareParticleArgs.Lambda PoincareParticleArgs.kappa
    PoincareParticleArgs.eta PoincareParticleArgs.sigma PoincareParticleArgs.rho
    num_passed is_not_None fold_left Nat.eqb passed bind].
  unfold PoincareParticle.kappa, PoincareParticle.eta, PoincareParticle.Lambda,
    PoincareParticle.sigma, PoincareParticle.rho.
  cbn in *.
  do 2 f_equal; field; lra.
Qed.

(** [Poincare(G, particles, coordinates).particles[i + 1]] is the particle
    number [i] of the list, when that particle has the convention and the
    [G] of the system, the central mass of the first particle and a
    positive [mu] (and, in canonical heliocentric coordinates, [M > 0] and
    [4 * mu <= M], as the canonical masses of two physical masses have). *)
Theorem particles_getitem_round_trip (G : R) (p0 : PoincareParticle.t)
    (ps : list PoincareParticle.t) (coords : string) (t : R) (self : Poincare.t)
    (i : nat) (p : PoincareParticle.t) :
  Poincare.init G (p0 :: ps) coords t = Ok self ->
  nth_error (p0 :: ps) i = Some p ->
  PoincareParticle.coordinates p = coords ->
  PoincareParticle.G p = G ->
  PoincareParticle.Mstar p0 = PoincareParticle.Mstar p ->
  0 < PoincareParticle.mu p ->
  coords = "democratic heliocentric"
  \/ (coords = "canonical heliocentric"
      /\ 0 < PoincareParticle.M p /\ 4 * PoincareParticle.mu p <= PoincareParticle.M p) ->
  Poincare.PoincareParticles.getitem self (Z.of_nat (S i)) = Ok p.
Proof.
  intros Hinit Hnth Hc HG HMstar Hmu Hconv.
  rewrite (getitem_reads_init_layout _ _ _ _ _ _ _ _ Hinit Hnth).
  rewrite HMstar. subst coords G.
  destruct Hconv as [Hdemo | (Hcanon & HM & H4)].
  - apply (init_of_massive_rebuilds p (PoincareParticle.mu p) (PoincareParticle.M p));
      [|reflexivity|reflexivity|exact Hmu].
    unfold PoincareParticle.init_masses, PoincareParticle.m, PoincareParticle.Mstar.
    rewrite Hdemo. reflexivity.
  - destruct (physical_of_mu_M _ _ HM H4) as [Hmu' HM'].
    apply (init_of_massive_rebuilds p (PoincareParticle.mu p) (PoincareParticle.M p));
      [|reflexivity|reflexivity|exact Hmu].
    unfold PoincareParticle.init_masses, PoincareParticle.m, PoincareParticle.Mstar.
    rewrite Hcanon.
    cbv beta iota delta [PoincareParticleArgs.of_massive PoincareParticleArgs.m
      PoincareParticleArgs.Mstar PoincareParticleArgs.mu PoincareParticleArgs.M
      PoincareParticleArgs.coordinates is_not_None orb].
    change ("canonical heliocentric" =? "democratic heliocentric")%string with false.
    change ("canonical heliocentric" =? "canonical heliocentric")%string with true.
    cbv iota. cbv zeta in Hmu', HM'. rewrite Hmu', HM'. reflexivity.
Qed.

Lemma particles_getitem_round_trip_witness :
  exists self,
    Poincare.init 1 [circular_particle] "democratic heliocentric" 0 = Ok self
    /\ Poincare.PoincareParticles.getitem self 1 = Ok circular_particle.
Proof.
  eexists. split; [reflexivity|].
  apply (particles_getitem_round_trip 1 circular_particle [] "democratic heliocentric" 0 _
           0%nat circular_particle).
  - reflexivity.
  - reflexivity.
  - reflexivity.
  - reflexivity.
  - reflexivity.
  - simpl. lra.
  - left. reflexivity.
Defined.

(** The index of [__getitem__]: [0] is refused (the central star), an
    index [i >= N] or [i < -N] is refused as out of range, and a negative
    index [-N < i < 0] is the index [i + N]. *)
Theorem getitem_index_edges (self : Poincare.t) :
  Poincare.PoincareParticles.getitem self 0
    = Raise (AttributeError "No Poincare elements for the central star")
  /\ (forall i : Z,
        (Z.of_nat (Poincare.N self) <= i \/ i < - Z.of_nat (Poincare.N self))%Z ->
        Poincare.PoincareParticles.getitem self i
        = Raise (AttributeError "Index {0} used to access particles out of range."))
  /\ (forall i : Z,
        (- Z.of_nat (Poincare.N self) < i < 0)%Z ->
        Poincare.PoincareParticles.getitem self i
        = Poincare.PoincareParticles.getitem self (i + Z.of_nat (Poincare.N self))).
Proof.
  assert (HN : (1 <= Z.of_nat (Poincare.N self))%Z) by (unfold Poincare.N; lia).
  split; [reflexivity|split].
  - intros i Hi. unfold Poincare.PoincareParticles.getitem. cbv zeta.
    destruct (Z.eqb_spec i 0); [lia|].
    destruct (Z.ltb_spec i 0).
    + destruct (Z.ltb_spec (i + Z.of_nat (Poincare.N self)) 0); [reflexivity|lia].
    + destruct (Z.ltb_spec i 0); [lia|]. cbn [orb].
      destruct (Z.leb_spec (Z.of_nat (Poincare.N self)) i); [reflexivity|lia].
  - intros i Hi. unfold Poincare.PoincareParticles.getitem. cbv zeta.
    destruct (Z.eqb_spec i 0); [lia|].
    destruct (Z.eqb_spec (i + Z.of_nat (Poincare.N self)) 0); [lia|].
    destruct (Z.ltb_spec i 0); [|lia].
    destruct (Z.ltb_spec (i + Z.of_nat (Poincare.N self)) 0); [lia|].
    destruct (Z.ltb_spec (i + Z.of_nat (Poincare.N self)) 0); [lia|].
    reflexivity.
Qed.

(** [xs[-k]] for [1 <= k <= len(xs)]. *)
Lemma py_index_from_end {A : Type} (xs : list A) (k : nat) (x : A) :
  (0 < k <= List.length xs)%nat ->
  nth_error xs (List.length xs - k) = Some x ->
  py_index xs (- Z.of_nat k) = Ok x.
Proof.
  intros Hk Hnth. unfold py_index. cbv zeta.
  destruct (Z.ltb_spec (- Z.of_nat k) 0); [|lia].
  destruct (Z.ltb_spec (- Z.of_nat k + Z.of_nat (List.length xs)) 0); [lia|]. cbn [orb].
  destruct (Z.leb_spec (Z.of_nat (List.length xs))
              (- Z.of_nat k + Z.of_nat (List.length xs))); [lia|].
  replace (Z.to_nat (- Z.of_nat k + Z.of_nat (List.length xs)))
    with (List.length xs - k)%nat by lia.
  rewrite Hnth. reflexivity.
Qed.

(** The index [-N] is not refused: the test for the central star is made
    before [N] is added to a negative index.  [__getitem__] then reads
    [val[-3]], [val[-2]], [val[-1]] and [val[Ndof - 3]] to [val[Ndof - 1]]:
    it builds a particle from the values of the last body with its momenta
    [(Lambda, kappa, sigma)] in the place of [(l, eta, rho)] and conversely,
    and with the mass of the star for both masses. *)
Theorem getitem_minus_N_reads_last_body (G : R) (p0 : PoincareParticle.t)
    (ps : list PoincareParticle.t) (coords : string) (t : R) (self : Poincare.t)
    (q : PoincareParticle.t) :
  Poincare.init G (p0 :: ps) coords t = Ok self ->
  nth_error (p0 :: ps) (List.length ps) = Some q ->
  Poincare.PoincareParticles.getitem self (- Z.of_nat (Poincare.N self))
  = PoincareParticle.init
      (PoincareParticleArgs.of_massive coords G
         (PoincareParticle.Mstar p0) (PoincareParticle.Mstar p0)
         (PoincareParticle.Lambda q) (PoincareParticle.kappa q) (PoincareParticle.sigma q)
         (PoincareParticle.l q) (PoincareParticle.eta q) (PoincareParticle.rho q)).
Proof.
  intros Hinit Hq.
  destruct (Poincare_init_N _ _ _ _ _ _ Hinit) as [HNdof HN].
  rewrite Poincare_init_closed_form in Hinit.
  assert (Hv : Poincare.values self
               = flat_map Poincare.qvals_of (p0 :: ps) ++ flat_map Poincare.pvals_of (p0 :: ps))
    by (injection Hinit as <-; reflexivity).
  assert (Hm : Poincare.masses self
               = PoincareParticle.Mstar p0 :: map PoincareParticle.m (p0 :: ps))
    by (injection Hinit as <-; reflexivity).
  assert (Hc : Poincare.coordinates self = coords) by (injection Hinit as <-; reflexivity).
  assert (HG : Poincare.G self = G) by (injection Hinit as <-; reflexivity).
  set (n := List.length (p0 :: ps)) in *.
  assert (Hn : n = S (List.length ps)) by reflexivity.
  assert (Hlen : List.length (Poincare.values self) = (6 * n)%nat).
  { rewrite Hv, length_app, !(flat_map_length_3 _ (p0 :: ps)) by reflexivity. fold n. lia. }
  unfold Poincare.PoincareParticles.getitem. cbv zeta.
  destruct (Z.eqb_spec (- Z.of_nat (Poincare.N self)) 0); [lia|].
  destruct (Z.ltb_spec (- Z.of_nat (Poincare.N self)) 0); [|lia].
  replace (- Z.of_nat (Poincare.N self) + Z.of_nat (Poincare.N self))%Z with 0%Z by lia.
  change (0 <? 0)%Z with false. cbn [orb].
  destruct (Z.leb_spec (Z.of_nat (Poincare.N self)) 0); [lia|].
  cbv zeta. rewrite Hc, HG, HNdof. fold n.
  assert (Hend : forall k, (k < 3)%nat ->
            nth_error (Poincare.values self) (6 * n - 3 + k)
            = nth_error (Poincare.pvals_of q) k).
  { intros k Hk. rewrite Hv, nth_error_app2
      by (rewrite flat_map_length_3 by reflexivity; fold n; lia).
    rewrite flat_map_length_3 by reflexivity. fold n.
    replace (6 * n - 3 + k - 3 * n)%nat with (3 * List.length ps + k)%nat by lia.
    apply nth_error_flat_map_3; [reflexivity|assumption|assumption]. }
  assert (Hmid : forall k, (k < 3)%nat ->
            nth_error (Poincare.values self) (3 * n - 3 + k)
            = nth_error (Poincare.qvals_of q) k).
  { intros k Hk. rewrite Hv, nth_error_app1
      by (rewrite flat_map_length_3 by reflexivity; fold n; lia).
    replace (3 * n - 3 + k)%nat with (3 * List.length ps + k)%nat by lia.
    apply nth_error_flat_map_3; [reflexivity|assumption|assumption]. }
  assert (Hneg : forall (k j : nat) (v : R),
            (0 < k <= 3)%nat -> (j = 3 - k)%nat ->
            nth_error (Poincare.pvals_of q) j = Some v ->
            py_index (Poincare.values self) (- Z.of_nat k) = Ok v).
  { intros k j v Hk Hj Hv'. apply py_index_from_end; [rewrite Hlen; lia|].
    rewrite Hlen. replace (6 * n - k)%nat with (6 * n - 3 + j)%nat by lia.
    rewrite Hend by lia. exact Hv'. }
  change ((0 - 1) * 3)%Z with (- Z.of_nat 3)%Z.
  rewrite (Hneg 3%nat 0%nat (PoincareParticle.Lambda q)) by (try lia; reflexivity).
  cbn [bind].
  change (- Z.of_nat 3 + 1)%Z with (- Z.of_nat 2)%Z.
  rewrite (Hneg 2%nat 1%nat (PoincareParticle.kappa q)) by (try lia; reflexivity).
  cbn [bind].
  change (- Z.of_nat 3 + 2)%Z with (- Z.of_nat 1)%Z.
  rewrite (Hneg 1%nat 2%nat (PoincareParticle.sigma q)) by (try lia; reflexivity).
  cbn [bind].
  replace (Z.of_nat (3 * n) + - Z.of_nat 3)%Z with (Z.of_nat (3 * n - 3 + 0)) by lia.
  rewrite (py_index_nat _ _ _ (Hmid 0%nat ltac:(lia))). cbn [bind].
  replace (Z.of_nat (3 * n - 3 + 0) + 1)%Z with (Z.of_nat (3 * n - 3 + 1)) by lia.
  rewrite (py_index_nat _ _ _ (Hmid 1%nat ltac:(lia))). cbn [bind].
  replace (Z.of_nat (3 * n - 3 + 0) + 2)%Z with (Z.of_nat (3 * n - 3 + 2)) by lia.
  rewrite (py_index_nat _ _ _ (Hmid 2%nat ltac:(lia))). cbn [bind].
  rewrite Hm. cbn [py_index List.length nth_error Z.to_nat bind].
  reflexivity.
Qed.

Lemma getitem_minus_N_reads_last_body_witness :
  exists self,
    Poincare.init 1 [first_planet; second_planet] "democratic heliocentric" 0 = Ok self
    /\ Poincare.PoincareParticles.getitem self (- Z.of_nat (Poincare.N self))
       = PoincareParticle.init
           (PoincareParticleArgs.of_massive "democratic heliocentric" 1
              (PoincareParticle.Mstar first_planet) (PoincareParticle.Mstar first_planet)
              (PoincareParticle.Lambda second_planet) (PoincareParticle.kappa second_planet)
              (PoincareParticle.sigma second_planet)
              (PoincareParticle.l second_planet) (PoincareParticle.eta second_planet)
              (PoincareParticle.rho second_planet)).
Proof.
  eexists. split; [reflexivity|].
  apply (getitem_minus_N_reads_last_body 1 first_planet [second_planet]
           "democratic heliocentric" 0 _ second_planet).
  - reflexivity.
  - reflexivity.
Defined.

(** ** [Poincare.__init__]: sizes *)

(** [Poincare(G)] with no particle (the default argument is the empty
    list) raises [IndexError], from [poincareparticles[0]].  With [n >= 1]
    particles the object has [N = n + 1] bodies, [6 n] values and symbols,
    and [n + 1] masses. *)
Theorem Poincare_init_sizes :
  (forall (G : R) (coords : string) (t : R),
      Poincare.init G [] coords t = Raise IndexError)
  /\ (forall (G : R) (p0 : PoincareParticle.t) (ps : list PoincareParticle.t)
             (coords : string) (t : R),
        exists self,
          Poincare.init G (p0 :: ps) coords t = Ok self
          /\ Poincare.N self = S (List.length (p0 :: ps))
          /\ List.length (Poincare.values self) = (6 * List.length (p0 :: ps))%nat
          /\ List.length (Poincare.qpvars self) = (6 * List.length (p0 :: ps))%nat
          /\ List.length (Poincare.masses self) = S (List.length (p0 :: ps))
          /\ Poincare.G self = G /\ Poincare.coordinates self = coords
          /\ Poincare.time self = t).
Proof.
  split; [reflexivity|].
  intros G p0 ps coords t.
  pose proof (Poincare_init_closed_form G p0 ps coords t) as Hcf.
  eexists. split; [exact Hcf|].
  split; [exact (proj2 (Poincare_init_N _ _ _ _ _ _ Hcf))|].
  cbn [Poincare.values Poincare.qpvars Poincare.masses Poincare.G Poincare.coordinates
       Poincare.time].
  rewrite !length_app, !(flat_map_length_3 _ (p0 :: ps)) by reflexivity.
  rewrite !(flat_map_length_3 _ (seq 0 (S (List.length ps)))) by reflexivity.
  rewrite length_seq. cbn [List.length]. rewrite length_map.
  repeat split; lia.
Qed.

(** ** [get_re_im_components]: conjugation, modulus, products *)

(** The pair [get_re_im_components] returns, as a complex power. *)
Lemma get_re_im_components_Cpow (x y : R) (k : Z) :
  mkC (fst (get_re_im_components x y k)) (snd (get_re_im_components x y k))
  = Cpow (mkC x (IZR (Z.sgn k) * y)) (Z.abs_nat k).
Proof.
  unfold get_re_im_components.
  destruct (Z.eqb_spec k 0) as [->|Hk].
  - reflexivity.
  - cbv zeta. rewrite Nat.add_1_r.
    change (@of_Z R PyNum_R 0) with 0.
    rewrite (re_im_fold_Csum x y (Z.abs_nat k) (Z.sgn k) (Z.abs_nat k) 0 0).
    rewrite <- Cpow_add_binomial.
    replace (Cadd (RtoC x) (mkC 0 (IZR (Z.sgn k) * y)))
      with (mkC x (IZR (Z.sgn k) * y))
      by (unfold Cadd, RtoC; simpl; f_equal; ring).
    change (mkC 0 0) with (RtoC 0). ring.
Qed.

Lemma C_eta (z : C) : mkC (Re z) (Im z) = z.
Proof. destruct z; reflexivity. Qed.

Lemma Cpow_conj (x y : R) (n : nat) :
  Cpow (mkC x (- y)) n = mkC (Re (Cpow (mkC x y) n)) (- Im (Cpow (mkC x y) n)).
Proof.
  induction n as [|n IH].
  - cbn [Cpow]. unfold RtoC. cbn [Re Im]. f_equal; lra.
  - cbn [Cpow]. rewrite IH. unfold Cmul. cbn [Re Im]. f_equal; ring.
Qed.

Lemma Cpow_modulus (x y : R) (n : nat) :
  Re (Cpow (mkC x y) n) ^ 2 + Im (Cpow (mkC x y) n) ^ 2 = (x ^ 2 + y ^ 2) ^ n.
Proof.
  induction n as [|n IH].
  - cbn [Cpow pow]. unfold RtoC. cbn [Re Im]. ring.
  - cbn [Cpow]. unfold Cmul. cbn [Re Im].
    change ((x ^ 2 + y ^ 2) ^ S n) with ((x ^ 2 + y ^ 2) * (x ^ 2 + y ^ 2) ^ n).
    rewrite <- IH. ring.
Qed.

Lemma Cpow_plus (z : C) (n m : nat) : Cpow z (n + m) = Cmul (Cpow z n) (Cpow z m).
Proof.
  induction n as [|n IH]; cbn [Cpow Nat.add].
  - ring.
  - rewrite IH. ring.
Qed.

Lemma pair_of_C {a b c d : R} : mkC a b = mkC c d -> (a, b) = (c, d).
Proof. intros H. injection H as -> ->. reflexivity. Qed.

(** Changing the sign of [k], or of [y], conjugates the result: the real
    part is kept and the imaginary part changes sign.  The squared modulus
    of the result is [(x^2 + y^2)^|k|]. *)
Theorem get_re_im_components_conjugate_modulus (x y : R) (k : Z) :
  get_re_im_components x y (- k)
    = (fst (get_re_im_components x y k), - snd (get_re_im_components x y k))
  /\ get_re_im_components x (- y) k = get_re_im_components x y (- k)
  /\ fst (get_re_im_components x y k) ^ 2 + snd (get_re_im_components x y k) ^ 2
     = (x ^ 2 + y ^ 2) ^ Z.abs_nat k.
Proof.
  pose proof (get_re_im_components_Cpow x y k) as Hk.
  pose proof (get_re_im_components_Cpow x y (- k)) as Hmk.
  pose proof (get_re_im_components_Cpow x (- y) k) as Hky.
  replace (Z.abs_nat (- k)) with (Z.abs_nat k) in Hmk by lia.
  rewrite Z.sgn_opp, opp_IZR in Hmk.
  replace (- IZR (Z.sgn k) * y) with (- (IZR (Z.sgn k) * y)) in Hmk by ring.
  replace (IZR (Z.sgn k) * - y) with (- (IZR (Z.sgn k) * y)) in Hky by ring.
  rewrite Cpow_conj, <- Hk in Hmk. cbn [Re Im] in Hmk.
  split; [|split].
  - rewrite (surjective_pairing (get_re_im_components x y (- k))).
    apply pair_of_C. exact Hmk.
  - rewrite (surjective_pairing (get_re_im_components x (- y) k)).
    rewrite (surjective_pairing (get_re_im_components x y (- k))).
    apply pair_of_C. rewrite Hky, Cpow_conj, <- Hk. cbn [Re Im]. symmetry. exact Hmk.
  - assert (Hre : fst (get_re_im_components x y k)
                  = Re (Cpow (mkC x (IZR (Z.sgn k) * y)) (Z.abs_nat k)))
      by (rewrite <- Hk; reflexivity).
    assert (Him : snd (get_re_im_components x y k)
                  = Im (Cpow (mkC x (IZR (Z.sgn k) * y)) (Z.abs_nat k)))
      by (rewrite <- Hk; reflexivity).
    rewrite Hre, Him, Cpow_modulus.
    destruct (Z.eqb_spec k 0) as [->|Hk0]; [reflexivity|].
    f_equal. f_equal.
    rewrite Rpow_mult_distr.
    assert (Hs : IZR (Z.sgn k) ^ 2 = 1).
    { destruct k; try lia; cbn; ring. }
    rewrite Hs. ring.
Qed.

(** For two exponents of the same sign (or one of them zero) the result
    for [k1 + k2] is the complex product of the results for [k1] and
    [k2]. *)
Theorem get_re_im_components_product (x y : R) (k1 k2 : Z) :
  (0 <= k1 * k2)%Z ->
  let r1 := get_re_im_components x y k1 in
  let r2 := get_re_im_components x y k2 in
  get_re_im_components x y (k1 + k2)
  = (fst r1 * fst r2 - snd r1 * snd r2, fst r1 * snd r2 + snd r1 * fst r2).
Proof.
  intros Hsign r1 r2. subst r1 r2.
  pose proof (get_re_im_components_Cpow x y k1) as H1.
  pose proof (get_re_im_components_Cpow x y k2) as H2.
  pose proof (get_re_im_components_Cpow x y (k1 + k2)) as H12.
  destruct (get_re_im_components x y k1) as [a b].
  destruct (get_re_im_components x y k2) as [c d].
  cbn [fst snd] in H1, H2 |- *.
  rewrite (surjective_pairing (get_re_im_components x y (k1 + k2))).
  apply pair_of_C. rewrite H12.
  destruct (Z.eq_dec k1 0) as [->|Hk1].
  { cbn in H1. injection H1 as -> ->. rewrite Z.add_0_l, <- H2. f_equal; ring. }
  destruct (Z.eq_dec k2 0) as [->|Hk2].
  { cbn in H2. injection H2 as -> ->. rewrite Z.add_0_r, <- H1. f_equal; ring. }
  assert (Hsgn : Z.sgn (k1 + k2) = Z.sgn k1 /\ Z.sgn k2 = Z.sgn k1
                 /\ Z.abs_nat (k1 + k2) = (Z.abs_nat k1 + Z.abs_nat k2)%nat).
  { destruct k1, k2; try lia; cbn in Hsign; try lia; repeat split; cbn; try lia. }
  destruct Hsgn as (Hs12 & Hs2 & Habs).
  rewrite Hs12, Habs, Cpow_plus. rewrite Hs2 in H2. rewrite <- H1, <- H2.
  unfold Cmul. cbn [Re Im]. reflexivity.
Qed.

Lemma get_re_im_components_product_witness :
  let r1 := get_re_im_components 1 2 1 in
  let r2 := get_re_im_components 1 2 2 in
  get_re_im_components 1 2 (1 + 2)
  = (fst r1 * fst r2 - snd r1 * snd r2, fst r1 * snd r2 + snd r1 * fst r2).
Proof.
  apply (get_re_im_components_product 1 2 1 2). lia.
Defined.

(** ** [_state_vector_to_individual_vectors] *)

Lemma reshape_6_by_length (k : nat) :
  forall (r : nat) (v : list R),
    (r < 6)%nat -> List.length v = (6 * k + r)%nat ->
    (r = 0%nat -> exists vecs, reshape_6 v = Ok vecs /\ flatten_rows vecs = v
                               /\ List.length vecs = k)
    /\ (r <> 0%nat -> reshape_6 v = Raise ValueError).
Proof.
  induction k as [|k IH]; intros r v Hr Hlen.
  - destruct v as [|v0 [|v1 [|v2 [|v3 [|v4 [|v5 rest]]]]]]; cbn [List.length] in Hlen;
      try lia; (split; [intros ->; try lia | intros Hnz; try lia; try reflexivity]).
    exists []. repeat split.
  - destruct v as [|v0 [|v1 [|v2 [|v3 [|v4 [|v5 rest]]]]]]; cbn [List.length] in Hlen; try lia.
    destruct (IH r rest Hr ltac:(lia)) as [Hok Hbad].
    split.
    + intros Hr0. destruct (Hok Hr0) as (vecs & Hvecs & Hflat & Hl).
      exists (mk_row v0 v1 v2 v3 v4 v5 :: vecs).
      cbn [reshape_6]. rewrite Hvecs. cbn [bind].
      split; [reflexivity|]. split.
      * unfold flatten_rows in *. cbn [flat_map row_to_list r0 r1 r2 r3 r4 r5 app].
        rewrite Hflat. reflexivity.
      * cbn [List.length]. lia.
    + intros Hnz. cbn [reshape_6]. rewrite (Hbad Hnz). reflexivity.
Qed.

Lemma reshape_wrong_length (state_vec : list R) :
  (List.length state_vec mod 6 <> 0)%nat ->
  _state_vector_to_individual_vectors state_vec = Raise ValueError.
Proof.
  pose proof (Nat.div_mod_eq (List.length state_vec) 6) as Hdm.
  pose proof (Nat.mod_upper_bound (List.length state_vec) 6 ltac:(lia)) as Hlt.
  exact (proj2 (reshape_6_by_length (List.length state_vec / 6)
                  (List.length state_vec mod 6) state_vec Hlt Hdm)).
Qed.

(** A state vector whose length is a multiple of six is cut into rows of
    six slots, which [reshape(-1)] puts back into the vector; any other
    length raises [ValueError]. *)
Theorem state_vector_reshape (state_vec : list R) :
  ((List.length state_vec mod 6 = 0)%nat ->
   exists vecs,
     _state_vector_to_individual_vectors state_vec = Ok vecs
     /\ flatten_rows vecs = state_vec
     /\ List.length vecs = (List.length state_vec / 6)%nat)
  /\ ((List.length state_vec mod 6 <> 0)%nat ->
      _state_vector_to_individual_vectors state_vec = Raise ValueError)
  /\ (forall vecs : list row,
        _state_vector_to_individual_vectors (flatten_rows vecs) = Ok vecs).
Proof.
  pose proof (Nat.div_mod_eq (List.length state_vec) 6) as Hdm.
  pose proof (Nat.mod_upper_bound (List.length state_vec) 6 ltac:(lia)) as Hlt.
  destruct (reshape_6_by_length (List.length state_vec / 6)
              (List.length state_vec mod 6) state_vec Hlt Hdm) as [Hok Hbad].
  split; [exact Hok|]. split; [exact Hbad|].
  exact reshape_6_flatten_rows.
Qed.

(** ** [KeplerianEvolutionOperator.apply_to_state_vector]: composition and
    shapes *)

Lemma Keplerian_rows_compose (dt1 dt2 : R) (GG : list R) (vecs : list row) :
  List.length GG = List.length vecs ->
  map2 (KeplerianEvolutionOperator.spec_advance_row dt2) GG
    (map2 (KeplerianEvolutionOperator.spec_advance_row dt1) GG vecs)
  = map2 (KeplerianEvolutionOperator.spec_advance_row (dt1 + dt2)) GG vecs.
Proof.
  revert vecs. induction GG as [|g GG IH]; intros [|r vecs] Hlen;
    cbn [List.length] in Hlen; try lia; [reflexivity|].
  cbn [map2]. rewrite IH by lia. f_equal.
  destruct r as [v0 v1 v2 v3 v4 v5].
  unfold KeplerianEvolutionOperator.spec_advance_row. cbn [r0 r1 r2 r3 r4 r5].
  f_equal. ring.
Qed.

(** On a vector with one row per body of the operator,
    [apply_to_state_vector] with the timestep [dt1] followed by
    [apply_to_state_vector] with the timestep [dt2] returns what one call
    with the timestep [dt1 + dt2] returns. *)
Theorem Keplerian_apply_to_state_vector_composes
    (self : KeplerianEvolutionOperator.t) (dt1 dt2 : R) (vecs : list row) :
  List.length (KeplerianEvolutionOperator.GGMMmmm self) = List.length vecs ->
  (v1 <- KeplerianEvolutionOperator.apply_to_state_vector
           (KeplerianEvolutionOperator.set_dt dt1 self) (flatten_rows vecs) ;;
   KeplerianEvolutionOperator.apply_to_state_vector
     (KeplerianEvolutionOperator.set_dt dt2 self) v1)
  = KeplerianEvolutionOperator.apply_to_state_vector
      (KeplerianEvolutionOperator.set_dt (dt1 + dt2) self) (flatten_rows vecs).
Proof.
  intros Hlen.
  rewrite !Keplerian_apply_to_state_vector_rows by exact Hlen.
  cbn [bind].
  rewrite Keplerian_apply_to_state_vector_rows
    by (cbn [KeplerianEvolutionOperator.set_dt KeplerianEvolutionOperator.GGMMmmm];
        rewrite map2_length; assumption).
  cbn [KeplerianEvolutionOperator.set_dt KeplerianEvolutionOperator.GGMMmmm
       KeplerianEvolutionOperator.dt KeplerianEvolutionOperator._dt].
  rewrite Keplerian_rows_compose by exact Hlen. reflexivity.
Qed.

Lemma Keplerian_apply_to_state_vector_composes_witness :
  exists op,
    KeplerianEvolutionOperator.init two_circular_planets 1 = Ok op
    /\ (v1 <- KeplerianEvolutionOperator.apply_to_state_vector
                (KeplerianEvolutionOperator.set_dt 1 op) (flatten_rows two_rows) ;;
        KeplerianEvolutionOperator.apply_to_state_vector
          (KeplerianEvolutionOperator.set_dt 2 op) v1)
       = KeplerianEvolutionOperator.apply_to_state_vector
           (KeplerianEvolutionOperator.set_dt (1 + 2) op) (flatten_rows two_rows).
Proof.
  eexists. split; [reflexivity|].
  apply Keplerian_apply_to_state_vector_composes. reflexivity.
Defined.

Lemma np_elementwise_mismatch {A : Type} (f : A -> A -> A) (xs ys : list A) :
  List.length xs <> List.length ys ->
  List.length xs <> 1%nat -> List.length ys <> 1%nat ->
  np_elementwise f xs ys = Raise ValueError.
Proof.
  intros Hne Hx Hy. unfold np_elementwise.
  destruct (Nat.eqb_spec (List.length xs) (List.length ys)); [contradiction|].
  destruct xs as [|x [|x' xs]]; destruct ys as [|y [|y' ys]]; cbn [List.length] in *;
    try lia; reflexivity.
Qed.

Lemma np_elementwise_broadcast_r {A : Type} (f : A -> A -> A) (xs : list A) (y : A) :
  np_elementwise f xs [y] = Ok (map (fun x => f x y) xs).
Proof.
  unfold np_elementwise.
  destruct (Nat.eqb_spec (List.length xs) (List.length [y])) as [Heq|Hne].
  - destruct xs as [|x [|x' xs]]; cbn [List.length] in Heq; try lia. reflexivity.
  - destruct xs as [|x [|x' xs]]; cbn [List.length] in Hne; try lia; reflexivity.
Qed.

Lemma np_elementwise_broadcast_l {A : Type} (f : A -> A -> A) (x : A) (ys : list A) :
  np_elementwise f [x] ys = Ok (map (f x) ys).
Proof.
  unfold np_elementwise.
  destruct (Nat.eqb_spec (List.length [x]) (List.length ys)) as [Heq|Hne].
  - destruct ys as [|y [|y' ys]]; cbn [List.length] in Heq; try lia. reflexivity.
  - reflexivity.
Qed.

Lemma Keplerian_rows_broadcast (dt g : R) (vecs : list row) :
  map2 (fun v r => row_set 3 (row_get 3 r + v) r)
    (map (Rmult dt)
       (map2 Rdiv (map2 Rdiv (map (Rdiv g) (map (row_get 2) vecs)) (map (row_get 2) vecs))
          (map (row_get 2) vecs)))
    vecs
  = map (KeplerianEvolutionOperator.spec_advance_row dt g) vecs.
Proof.
  induction vecs as [|r vecs IH]; [reflexivity|].
  cbn [map map2]. rewrite IH. f_equal.
  destruct r as [v0 v1 v2 v3 v4 v5].
  unfold KeplerianEvolutionOperator.spec_advance_row, row_set, row_get.
  cbn [r0 r1 r2 r3 r4 r5]. f_equal. cbn [pow]. unfold Rdiv.
  rewrite !Rinv_mult, Rinv_1. ring.
Qed.

(** [apply_to_state_vector] raises [ValueError] on a vector whose length
    is not a multiple of six, and on a vector whose number of rows differs
    from the number of bodies of the operator, unless the operator has one
    body: numpy then broadcasts its single rate [GGMMmmm[0]] to every row of
    the vector. *)
Theorem Keplerian_apply_to_state_vector_shapes (self : KeplerianEvolutionOperator.t) :
  (forall state_vector : list R,
      (List.length state_vector mod 6 <> 0)%nat ->
      KeplerianEvolutionOperator.apply_to_state_vector self state_vector = Raise ValueError)
  /\ (forall vecs : list row,
        List.length (KeplerianEvolutionOperator.GGMMmmm self) <> List.length vecs ->
        List.length (KeplerianEvolutionOperator.GGMMmmm self) <> 1%nat ->
        KeplerianEvolutionOperator.apply_to_state_vector self (flatten_rows vecs)
        = Raise ValueError)
  /\ (forall (g : R) (vecs : list row),
        KeplerianEvolutionOperator.GGMMmmm self = [g] ->
        KeplerianEvolutionOperator.apply_to_state_vector self (flatten_rows vecs)
        = Ok (flatten_rows
                (map (KeplerianEvolutionOperator.spec_advance_row
                        (KeplerianEvolutionOperator.dt self) g) vecs))).
Proof.
  split; [|split].
  - intros v Hv. unfold KeplerianEvolutionOperator.apply_to_state_vector.
    rewrite (reshape_wrong_length v Hv). reflexivity.
  - intros vecs Hne H1. unfold KeplerianEvolutionOperator.apply_to_state_vector.
    unfold _state_vector_to_individual_vectors. rewrite reshape_6_flatten_rows. cbn [bind].
    unfold KeplerianEvolutionOperator.lambda_dot_of.
    destruct vecs as [|r [|r' vecs]].
    + rewrite np_elementwise_mismatch; [reflexivity|exact Hne|exact H1|cbn; lia].
    + cbn [col map]. rewrite np_elementwise_broadcast_r. cbn [bind].
      rewrite np_elementwise_broadcast_r. cbn [bind].
      rewrite np_elementwise_broadcast_r. cbn [bind].
      unfold iadd_col. rewrite !length_map.
      destruct (Nat.eqb_spec (List.length (KeplerianEvolutionOperator.GGMMmmm self))
                  (List.length [r])); [contradiction|].
      destruct (KeplerianEvolutionOperator.GGMMmmm self) as [|g [|g' GG]];
        cbn [List.length] in *; try lia; reflexivity.
    + rewrite np_elementwise_mismatch;
        [reflexivity|unfold col; rewrite length_map; exact Hne|exact H1
        |unfold col; rewrite length_map; cbn; lia].
  - intros g vecs Hg. unfold KeplerianEvolutionOperator.apply_to_state_vector.
    unfold _state_vector_to_individual_vectors. rewrite reshape_6_flatten_rows. cbn [bind].
    unfold KeplerianEvolutionOperator.lambda_dot_of. rewrite Hg.
    rewrite np_elementwise_broadcast_l. cbn [bind].
    rewrite np_elementwise_same_length by (unfold col; rewrite !length_map; reflexivity).
    cbn [bind].
    rewrite np_elementwise_same_length
      by (unfold col; rewrite map2_length; rewrite !length_map; reflexivity).
    cbn [bind].
    unfold iadd_col.
    rewrite length_map, map2_length
      by (unfold col; rewrite map2_length; rewrite !length_map; reflexivity).
    unfold col at 1. rewrite length_map, Nat.eqb_refl. cbn [bind].
    unfold col. rewrite Keplerian_rows_broadcast. reflexivity.
Qed.

(** ** [PoincareHamiltonian]: the terms of the disturbing function *)

Lemma list_Z_eqb_eq (u v : list Z) : list_Z_eqb u v = true <-> u = v.
Proof.
  revert v. induction u as [|a u IH]; intros [|b v]; cbn [list_Z_eqb];
    try (split; [discriminate|discriminate]); [tauto|].
  rewrite andb_true_iff, Z.eqb_eq, IH. split.
  - intros [-> ->]. reflexivity.
  - intros Heq. injection Heq as -> ->. auto.
Qed.

Lemma key_eqb_eq (a b : PoincareHamiltonian.key) :
  PoincareHamiltonian.key_eqb a b = true <-> a = b.
Proof.
  destruct a as [[aIn aOut] [ak anu]], b as [[bIn bOut] [bk bnu]].
  unfold PoincareHamiltonian.key_eqb.
  rewrite !andb_true_iff, !Z.eqb_eq, !list_Z_eqb_eq. split.
  - intros [[[-> ->] ->] ->]. reflexivity.
  - intros Heq. injection Heq as -> -> -> ->. auto.
Qed.

Lemma In_py_range (lo hi z : Z) : In z (py_range lo hi) <-> (lo <= z < hi)%Z.
Proof.
  unfold py_range. rewrite in_map_iff. split.
  - intros [i [<- Hi]]. apply in_seq in Hi. lia.
  - intros Hz. exists (Z.to_nat (z - lo)). split; [lia|]. apply in_seq. lia.
Qed.

Lemma obind_Done_inv {A B : Type} (m : outcome A) (f : A -> outcome B) (y : B) :
  obind m f = Done y -> exists x, m = Done x /\ f x = Done y.
Proof.
  destruct m as [x|err]; cbn [obind]; intros H; [exists x; auto | discriminate].
Qed.

Lemma lift_Done_inv {A : Type} (r : result A) (a : A) : lift r = Done a -> r = Ok a.
Proof. destruct r; cbn [lift]; intros H; [injection H as ->; reflexivity | discriminate]. Qed.

Lemma exact_quotients (p q tot : Z) :
  q <> 0%Z -> ((- p * tot) mod q = 0)%Z ->
  let k1 := (- p * tot / q)%Z in
  let k2 := ((p - q) * tot / q)%Z in
  (k1 + k2 + tot = 0 /\ (p - q) * k1 + p * k2 = 0)%Z.
Proof.
  intros Hq Hmod k1 k2.
  apply Z.mod_divide in Hmod; [|exact Hq]. destruct Hmod as [c Hc].
  assert (Hk1 : k1 = c).
  { unfold k1. rewrite Hc. apply Z.div_mul. exact Hq. }
  assert (Hk2 : k2 = (- c - tot)%Z).
  { unfold k2. replace ((p - q) * tot)%Z with ((- c - tot) * q)%Z by lia.
    apply Z.div_mul. exact Hq. }
  rewrite Hk1, Hk2. split; [lia|]. nia.
Qed.

Lemma py_mod_Done_inv (a b r : Z) : py_mod a b = Done r -> b <> 0%Z /\ r = (a mod b)%Z.
Proof.
  unfold py_mod. destruct (Z.eqb_spec b 0); intros H; [discriminate|].
  injection H as <-. auto.
Qed.

Lemma py_floordiv_Done_inv (a b r : Z) :
  py_floordiv a b = Done r -> b <> 0%Z /\ r = (a / b)%Z.
Proof.
  unfold py_floordiv. destruct (Z.eqb_spec b 0); intros H; [discriminate|].
  injection H as <-. auto.
Qed.

Section MMRTerms.
Variable DFdict : Type.
Variable DFCoeff_C : list Z -> list Z -> DFdict.
Variable _p1_p2_from_k_nu : list Z -> list Z -> Z * Z.
Variable eval_DFCoeff_delta_expansion : DFdict -> Z -> Z -> Z -> R -> list ((Z * Z) * R).
Variable get_DFCoeff_symbol : list Z -> list Z -> Z * Z -> Z -> Z -> symbol.

Let add_monomial_term :=
    PoincareHamiltonian.add_monomial_term DFdict DFCoeff_C _p1_p2_from_k_nu
      eval_DFCoeff_delta_expansion get_DFCoeff_symbol.
Let add_term :=
    PoincareHamiltonian.add_term DFdict DFCoeff_C _p1_p2_from_k_nu
      eval_DFCoeff_delta_expansion get_DFCoeff_symbol.
Let add_cos_term_to_max_order :=
    PoincareHamiltonian.add_cos_term_to_max_order DFdict DFCoeff_C _p1_p2_from_k_nu
      eval_DFCoeff_delta_expansion get_DFCoeff_symbol.
Let add_cos_term :=
    PoincareHamiltonian.add_cos_term DFdict DFCoeff_C _p1_p2_from_k_nu
      eval_DFCoeff_delta_expansion get_DFCoeff_symbol.
Let add_eccentricity_MMR_terms :=
    PoincareHamiltonian.add_eccentricity_MMR_terms DFdict DFCoeff_C _p1_p2_from_k_nu
      eval_DFCoeff_delta_expansion get_DFCoeff_symbol.
Let add_all_MMR_and_secular_terms :=
    PoincareHamiltonian.add_all_MMR_and_secular_terms DFdict DFCoeff_C _p1_p2_from_k_nu
      eval_DFCoeff_delta_expansion get_DFCoeff_symbol.

(** A call of [add_monomial_term] that returns leaves the recorded terms
    as they were, or with its own key added. *)
Lemma add_monomial_term_indices (self self' : PoincareHamiltonian.t)
    (kvec nuvec : list Z) (indexIn indexOut lmax : Z) (update : bool) (w : list string) :
  add_monomial_term self kvec nuvec indexIn indexOut lmax update = Ok (self', w) ->
  forall key,
    In key (PoincareHamiltonian.resonance_indices self')
    <-> In key (PoincareHamiltonian.resonance_indices self)
        \/ key = (indexIn, indexOut, (kvec, nuvec)).
Proof.
  unfold add_monomial_term, PoincareHamiltonian.add_monomial_term.
  destruct (existsb _ (PoincareHamiltonian.resonance_indices self)) eqn:Hdup.
  - intros Heq; injection Heq as <- _. intros key. split; [auto|].
    intros [Hin| ->]; [exact Hin|].
    apply existsb_exists in Hdup. destruct Hdup as [k' [Hk' Heqb]].
    apply key_eqb_eq in Heqb. subst k'. exact Hk'.
  - cbv zeta.
    destruct (dict_get _ _) as [alpha_val|err]; cbn [bind]; [|discriminate].
    destruct kvec as [|k1 [|k2 [|k3 [|k4 [|k5 [|k6 [|k7 kvec]]]]]]]; try discriminate.
    destruct nuvec as [|nu1 [|nu2 [|nu3 [|nu4 [|nu5 nuvec]]]]]; try discriminate.
    destruct (_p1_p2_from_k_nu _ _) as [p1 p2].
    destruct (fold_left _ _ _) as [Hparams1 Ctot].
    destruct (get_re_im_components _ _ k3) as [xin yin].
    destruct (get_re_im_components _ _ k4) as [xout yout].
    destruct (get_re_im_components _ _ k5) as [uin vin].
    destruct (get_re_im_components _ _ k6) as [uout vout].
    intros Heq; injection Heq as <- _.
    cbn [PoincareHamiltonian.resonance_indices].
    intros key. rewrite in_app_iff. cbn [In]. intuition congruence.
Qed.

Lemma add_term_indices (jvec zvec : list Z) (indexIn indexOut lmax : Z)
    (acc acc' : PoincareHamiltonian.t * list string) :
  add_term jvec zvec indexIn indexOut lmax acc = Ok acc' ->
  forall key,
    In key (PoincareHamiltonian.indices_of acc')
    <-> In key (PoincareHamiltonian.indices_of acc) \/ key = (indexIn, indexOut, (jvec, zvec)).
Proof.
  unfold add_term, PoincareHamiltonian.add_term. fold add_monomial_term.
  destruct acc as [self ws].
  destruct (add_monomial_term self jvec zvec indexIn indexOut lmax false)
    as [[self' w]|err] eqn:Hcall; cbn [bind]; [|discriminate].
  intros Heq; injection Heq as <-.
  exact (add_monomial_term_indices _ _ _ _ _ _ _ _ _ Hcall).
Qed.

Lemma foldM_indices {B : Type}
    (step : PoincareHamiltonian.t * list string -> B
            -> result (PoincareHamiltonian.t * list string))
    (P : B -> PoincareHamiltonian.key -> Prop) (xs : list B) :
  (forall acc x acc', step acc x = Ok acc' ->
     forall key, In key (PoincareHamiltonian.indices_of acc') <-> In key (PoincareHamiltonian.indices_of acc) \/ P x key) ->
  forall acc acc', foldM step xs acc = Ok acc' ->
    forall key, In key (PoincareHamiltonian.indices_of acc')
                <-> In key (PoincareHamiltonian.indices_of acc) \/ exists x, In x xs /\ P x key.
Proof.
  intros Hstep. induction xs as [|x xs IH]; intros acc acc' Hfold key.
  - cbn [foldM] in Hfold. injection Hfold as <-. split; [auto|].
    intros [H|[x [[] _]]]. exact H.
  - cbn [foldM] in Hfold.
    destruct (step acc x) as [acc1|err] eqn:Hx; cbn [bind] in Hfold; [|discriminate].
    rewrite (IH _ _ Hfold key), (Hstep _ _ _ Hx key). cbn [In]. split.
    + intros [[H|H]|[x' [Hin HP]]]; [left; exact H | right; exists x; auto
                                      | right; exists x'; auto].
    + intros [H|[x' [[<-|Hin] HP]]]; [left; left; exact H | left; right; exact HP
                                       | right; exists x'; auto].
Qed.

Lemma add_cos_term_to_max_order_keys (self self' : PoincareHamiltonian.t)
    (j1 j2 j3 j4 j5 j6 max_order indexIn indexOut lmax : Z) (update : bool)
    (ws : list string) :
  add_cos_term_to_max_order self [j1; j2; j3; j4; j5; j6] max_order indexIn indexOut
    lmax update = Ok (self', ws) ->
  forall key,
    In key (PoincareHamiltonian.resonance_indices self')
    <-> In key (PoincareHamiltonian.resonance_indices self)
        \/ exists z1 z2 z3 z4 : Z,
             key = (indexIn, indexOut, ([j1; j2; j3; j4; j5; j6], [z1; z2; z3; z4]))
             /\ (0 <= z1 /\ 0 <= z2 /\ 0 <= z3 /\ 0 <= z4
                 /\ Z.abs j3 + Z.abs j4 + Z.abs j5 + Z.abs j6
                    + 2 * (z1 + z2 + z3 + z4) <= max_order)%Z.
Proof.
  unfold add_cos_term_to_max_order, PoincareHamiltonian.add_cos_term_to_max_order.
  fold add_term. cbv zeta.
  set (N := ((max_order - Z.abs j3 - Z.abs j4 - Z.abs j5 - Z.abs j6) / 2 + 1)%Z).
  destruct (foldM _ (py_range 0 N) (self, [])) as [[self1 ws1]|err] eqn:Hfold;
    cbn [bind]; [|discriminate].
  intros Heq key.
  assert (Hri : PoincareHamiltonian.resonance_indices self'
                = PoincareHamiltonian.resonance_indices self1).
  { injection Heq as <- _. destruct update; reflexivity. }
  rewrite Hri.
  lazymatch type of Hfold with
  | foldM ?step _ _ = _ =>
      assert (H1 := foldM_indices step
        (fun z1 key => exists z2, In z2 (py_range 0 (N - z1)) /\
           exists z3, In z3 (py_range 0 (N - z1 - z2)) /\
             exists z4, In z4 (py_range 0 (N - z1 - z2 - z3)) /\
               key = (indexIn, indexOut, ([j1; j2; j3; j4; j5; j6], [z1; z2; z3; z4])))
        (py_range 0 N))
  end.
  cbv beta in H1.
  assert (Hstep1 : forall acc z1 acc',
            foldM (fun acc0 z2 =>
              foldM (fun acc1 z3 =>
                foldM (fun acc2 z4 =>
                         add_term [j1; j2; j3; j4; j5; j6] [z1; z2; z3; z4]
                           indexIn indexOut lmax acc2)
                      (py_range 0 (N - z1 - z2 - z3)) acc1)
                    (py_range 0 (N - z1 - z2)) acc0)
                  (py_range 0 (N - z1)) acc = Ok acc' ->
            forall key, In key (PoincareHamiltonian.indices_of acc') <-> In key (PoincareHamiltonian.indices_of acc) \/
              exists z2, In z2 (py_range 0 (N - z1)) /\
                exists z3, In z3 (py_range 0 (N - z1 - z2)) /\
                  exists z4, In z4 (py_range 0 (N - z1 - z2 - z3)) /\
                    key = (indexIn, indexOut,
                           ([j1; j2; j3; j4; j5; j6], [z1; z2; z3; z4]))).
  { intros acc z1 acc' Hs1.
    lazymatch type of Hs1 with
    | foldM ?step _ _ = _ =>
        apply (foldM_indices step
          (fun z2 key => exists z3, In z3 (py_range 0 (N - z1 - z2)) /\
             exists z4, In z4 (py_range 0 (N - z1 - z2 - z3)) /\
               key = (indexIn, indexOut, ([j1; j2; j3; j4; j5; j6], [z1; z2; z3; z4])))
          (py_range 0 (N - z1))); [|exact Hs1]
    end.
    intros acc2 z2 acc2' Hs2.
    lazymatch type of Hs2 with
    | foldM ?step _ _ = _ =>
        apply (foldM_indices step
          (fun z3 key => exists z4, In z4 (py_range 0 (N - z1 - z2 - z3)) /\
               key = (indexIn, indexOut, ([j1; j2; j3; j4; j5; j6], [z1; z2; z3; z4])))
          (py_range 0 (N - z1 - z2))); [|exact Hs2]
    end.
    intros acc3 z3 acc3' Hs3.
    lazymatch type of Hs3 with
    | foldM ?step _ _ = _ =>
        apply (foldM_indices step
          (fun z4 key =>
               key = (indexIn, indexOut, ([j1; j2; j3; j4; j5; j6], [z1; z2; z3; z4])))
          (py_range 0 (N - z1 - z2 - z3))); [|exact Hs3]
    end.
    intros acc4 z4 acc4' Hs4.
    exact (add_term_indices _ _ _ _ _ _ _ Hs4). }
  specialize (H1 Hstep1).
  specialize (H1 _ _ Hfold key). unfold PoincareHamiltonian.indices_of in H1. cbn [fst] in H1.
  rewrite H1. clear H1 Hstep1 Hfold Heq Hri.
  split; (intros [Hin|Hnew]; [left; exact Hin|right]).
  - destruct Hnew as (z1 & Hz1 & z2 & Hz2 & z3 & Hz3 & z4 & Hz4 & ->).
    apply In_py_range in Hz1, Hz2, Hz3, Hz4.
    exists z1, z2, z3, z4. split; [reflexivity|].
    unfold N in *. Z.div_mod_to_equations. lia.
  - destruct Hnew as (z1 & z2 & z3 & z4 & -> & Hz).
    exists z1. split; [apply In_py_range; unfold N; Z.div_mod_to_equations; lia|].
    exists z2. split; [apply In_py_range; unfold N; Z.div_mod_to_equations; lia|].
    exists z3. split; [apply In_py_range; unfold N; Z.div_mod_to_equations; lia|].
    exists z4. split; [apply In_py_range; unfold N; Z.div_mod_to_equations; lia|].
    reflexivity.
Qed.

(** The terms [add_cos_term_to_max_order] records for the cosine argument
    [jvec = [j1, ..., j6]]: next to those recorded before, exactly the keys
    [(indexIn, indexOut, (jvec, [z1, z2, z3, z4]))] with non-negative
    [z1, ..., z4] whose total order
    [|j3| + |j4| + |j5| + |j6| + 2 (z1 + z2 + z3 + z4)] is at most
    [max_order]. *)
Theorem add_cos_term_to_max_order_terms (self self' : PoincareHamiltonian.t)
    (j1 j2 j3 j4 j5 j6 max_order indexIn indexOut lmax : Z) (update : bool)
    (ws : list string) :
  add_cos_term_to_max_order self [j1; j2; j3; j4; j5; j6] max_order indexIn indexOut
    lmax update = Ok (self', ws) ->
  forall key,
    In key (PoincareHamiltonian.resonance_indices self')
    <-> In key (PoincareHamiltonian.resonance_indices self)
        \/ exists z1 z2 z3 z4 : Z,
             key = (indexIn, indexOut, ([j1; j2; j3; j4; j5; j6], [z1; z2; z3; z4]))
             /\ (0 <= z1 /\ 0 <= z2 /\ 0 <= z3 /\ 0 <= z4
                 /\ Z.abs j3 + Z.abs j4 + Z.abs j5 + Z.abs j6
                    + 2 * (z1 + z2 + z3 + z4) <= max_order)%Z.
Proof.
  exact (add_cos_term_to_max_order_keys self self' j1 j2 j3 j4 j5 j6 max_order
           indexIn indexOut lmax update ws).
Qed.

Lemma ofoldM_indices {B : Type}
    (step : PoincareHamiltonian.t * list string -> B
            -> outcome (PoincareHamiltonian.t * list string))
    (P : B -> PoincareHamiltonian.key -> Prop) (xs : list B) :
  (forall acc x acc', step acc x = Done acc' ->
     forall key, In key (PoincareHamiltonian.indices_of acc') <-> In key (PoincareHamiltonian.indices_of acc) \/ P x key) ->
  forall acc acc', ofoldM step xs acc = Done acc' ->
    forall key, In key (PoincareHamiltonian.indices_of acc')
                <-> In key (PoincareHamiltonian.indices_of acc) \/ exists x, In x xs /\ P x key.
Proof.
  intros Hstep. induction xs as [|x xs IH]; intros acc acc' Hfold key.
  - cbn [ofoldM] in Hfold. injection Hfold as <-. split; [auto|].
    intros [H|[x [[] _]]]. exact H.
  - cbn [ofoldM] in Hfold.
    destruct (step acc x) as [acc1|err] eqn:Hx; cbn [obind] in Hfold; [|discriminate].
    rewrite (IH _ _ Hfold key), (Hstep _ _ _ Hx key). cbn [In]. split.
    + intros [[H|H]|[x' [Hin HP]]]; [left; exact H | right; exists x; auto
                                      | right; exists x'; auto].
    + intros [H|[x' [[<-|Hin] HP]]]; [left; left; exact H | left; right; exact HP
                                       | right; exists x'; auto].
Qed.

Lemma add_cos_term_indices (j1 j2 j3 j4 j5 j6 max_order indexIn indexOut lmax : Z)
    (acc acc' : PoincareHamiltonian.t * list string) :
  add_cos_term [j1; j2; j3; j4; j5; j6] max_order indexIn indexOut lmax acc = Done acc' ->
  forall key,
    In key (PoincareHamiltonian.indices_of acc')
    <-> In key (PoincareHamiltonian.indices_of acc)
        \/ exists z1 z2 z3 z4 : Z,
             key = (indexIn, indexOut, ([j1; j2; j3; j4; j5; j6], [z1; z2; z3; z4]))
             /\ (0 <= z1 /\ 0 <= z2 /\ 0 <= z3 /\ 0 <= z4
                 /\ Z.abs j3 + Z.abs j4 + Z.abs j5 + Z.abs j6
                    + 2 * (z1 + z2 + z3 + z4) <= max_order)%Z.
Proof.
  unfold add_cos_term, PoincareHamiltonian.add_cos_term. fold add_cos_term_to_max_order.
  destruct acc as [self ws].
  intros H. apply obind_Done_inv in H. destruct H as [[self' w] [Hcall H]].
  apply lift_Done_inv in Hcall. injection H as <-.
  exact (add_cos_term_to_max_order_keys _ _ _ _ _ _ _ _ _ _ _ _ _ _ Hcall).
Qed.

Lemma mmr_warnings_Done_inv (msg : string) (p q max_order : Z) (ws : list string) :
  PoincareHamiltonian.mmr_warnings msg p q max_order = Done ws -> q <> 0%Z.
Proof.
  unfold PoincareHamiltonian.mmr_warnings. cbv zeta. intros H.
  apply obind_Done_inv in H. destruct H as [r [Hr _]].
  apply py_mod_Done_inv in Hr. tauto.
Qed.

(** The terms [add_eccentricity_MMR_terms] records when it returns: next to
    those recorded before, exactly the keys with the cosine argument
    [[n p, n (q - p), -l, l - n q, 0, 0]] for [q > 0], [n >= 1] and
    [0 <= l <= n q], and non-negative [z1, ..., z4] with
    [n q + 2 (z1 + z2 + z3 + z4) <= max_order].  The six integers of such an
    argument add up to zero. *)
Theorem add_eccentricity_MMR_terms_terms (self self' : PoincareHamiltonian.t)
    (p q max_order indexIn indexOut lmax : Z) (update : bool) (ws : list string) :
  add_eccentricity_MMR_terms self p q max_order indexIn indexOut lmax update
    = Done (self', ws) ->
  forall key,
    In key (PoincareHamiltonian.resonance_indices self')
    <-> In key (PoincareHamiltonian.resonance_indices self)
        \/ exists n l z1 z2 z3 z4 : Z,
             key = (indexIn, indexOut,
                    ([n * p; n * (q - p); - l; l - n * q; 0; 0], [z1; z2; z3; z4]))%Z
             /\ (0 < q /\ 1 <= n /\ 0 <= l <= n * q
                 /\ 0 <= z1 /\ 0 <= z2 /\ 0 <= z3 /\ 0 <= z4
                 /\ n * q + 2 * (z1 + z2 + z3 + z4) <= max_order)%Z.
Proof.
  unfold add_eccentricity_MMR_terms, PoincareHamiltonian.add_eccentricity_MMR_terms.
  fold add_cos_term.
  destruct (Z.ltb_spec max_order 0) as [|Hmax]; [discriminate|].
  intros H.
  apply obind_Done_inv in H. destruct H as [ws0 [Hws H]].
  apply mmr_warnings_Done_inv in Hws.
  apply obind_Done_inv in H. destruct H as [d [Hd H]].
  apply py_floordiv_Done_inv in Hd. destruct Hd as [_ ->].
  apply obind_Done_inv in H. destruct H as [[self1 ws1] [Hfold H]].
  assert (Hri : PoincareHamiltonian.resonance_indices self'
                = PoincareHamiltonian.resonance_indices self1).
  { injection H as <- _. destruct update; reflexivity. }
  intros key. rewrite Hri. clear H Hri.
  lazymatch type of Hfold with
  | ofoldM ?step _ _ = _ =>
      assert (H1 := ofoldM_indices step
        (fun n key => exists l, In l (py_range 0 (n * q + 1)) /\
           exists z1 z2 z3 z4 : Z,
             key = (indexIn, indexOut,
                    ([n * p; n * (q - p); - l; l - n * q; 0; 0], [z1; z2; z3; z4]))%Z
             /\ (0 <= z1 /\ 0 <= z2 /\ 0 <= z3 /\ 0 <= z4
                 /\ Z.abs (- l) + Z.abs (l - n * q) + Z.abs 0 + Z.abs 0
                    + 2 * (z1 + z2 + z3 + z4) <= max_order)%Z)
        (py_range 1 (max_order / q + 1)))
  end.
  cbv beta in H1.
  assert (Hstep : forall acc n acc',
            ofoldM (fun acc0 l =>
                      add_cos_term [n * p; n * (q - p); - l; l - n * q; 0; 0]%Z
                        max_order indexIn indexOut lmax acc0)
                   (py_range 0 (n * q + 1)) acc = Done acc' ->
            forall key, In key (PoincareHamiltonian.indices_of acc') <-> In key (PoincareHamiltonian.indices_of acc) \/
              exists l, In l (py_range 0 (n * q + 1)) /\
                exists z1 z2 z3 z4 : Z,
                  key = (indexIn, indexOut,
                         ([n * p; n * (q - p); - l; l - n * q; 0; 0], [z1; z2; z3; z4]))%Z
                  /\ (0 <= z1 /\ 0 <= z2 /\ 0 <= z3 /\ 0 <= z4
                      /\ Z.abs (- l) + Z.abs (l - n * q) + Z.abs 0 + Z.abs 0
                         + 2 * (z1 + z2 + z3 + z4) <= max_order)%Z).
  { intros acc n acc' Hs.
    lazymatch type of Hs with
    | ofoldM ?step _ _ = _ =>
        apply (ofoldM_indices step
          (fun l key => exists z1 z2 z3 z4 : Z,
             key = (indexIn, indexOut,
                    ([n * p; n * (q - p); - l; l - n * q; 0; 0], [z1; z2; z3; z4]))%Z
             /\ (0 <= z1 /\ 0 <= z2 /\ 0 <= z3 /\ 0 <= z4
                 /\ Z.abs (- l) + Z.abs (l - n * q) + Z.abs 0 + Z.abs 0
                    + 2 * (z1 + z2 + z3 + z4) <= max_order)%Z)
          (py_range 0 (n * q + 1))); [|exact Hs]
    end.
    intros acc2 l acc2' Hs2. exact (add_cos_term_indices _ _ _ _ _ _ _ _ _ _ _ _ Hs2). }
  specialize (H1 Hstep _ _ Hfold key). unfold PoincareHamiltonian.indices_of in H1. cbn [fst] in H1.
  rewrite H1. clear H1 Hstep Hfold.
  split; (intros [Hin|Hnew]; [left; exact Hin|right]).
  - destruct Hnew as (n & Hn & l & Hl & z1 & z2 & z3 & z4 & -> & Hz).
    apply In_py_range in Hn, Hl.
    assert (Hq : (0 < q)%Z).
    { destruct (Z.lt_trichotomy q 0) as [Hneg|[H0|Hpos]]; [|contradiction|exact Hpos].
      exfalso. assert (max_order / q <= 0)%Z; [|lia].
      Z.div_mod_to_equations. nia. }
    exists n, l, z1, z2, z3, z4. split; [reflexivity|].
    repeat split; try lia.
  - destruct Hnew as (n & l & z1 & z2 & z3 & z4 & -> & Hz).
    exists n. split.
    { apply In_py_range. split; [lia|].
      assert (n <= max_order / q)%Z; [|lia].
      apply Z.div_le_lower_bound; nia. }
    exists l. split; [apply In_py_range; lia|].
    exists z1, z2, z3, z4. split; [reflexivity|].
    repeat split; try lia.
Qed.

Lemma ofoldM_new_keys {B : Type}
    (step : PoincareHamiltonian.t * list string -> B
            -> outcome (PoincareHamiltonian.t * list string))
    (P : PoincareHamiltonian.key -> Prop) (xs : list B) :
  (forall acc x acc', step acc x = Done acc' ->
     forall key, In key (PoincareHamiltonian.indices_of acc') -> In key (PoincareHamiltonian.indices_of acc) \/ P key) ->
  forall acc acc', ofoldM step xs acc = Done acc' ->
    forall key, In key (PoincareHamiltonian.indices_of acc') -> In key (PoincareHamiltonian.indices_of acc) \/ P key.
Proof.
  intros Hstep. induction xs as [|x xs IH]; intros acc acc' Hfold key Hin.
  - cbn [ofoldM] in Hfold. injection Hfold as <-. left. exact Hin.
  - cbn [ofoldM] in Hfold.
    destruct (step acc x) as [acc1|err] eqn:Hx; cbn [obind] in Hfold; [|discriminate].
    destruct (IH _ _ Hfold key Hin) as [H1|HP]; [|right; exact HP].
    exact (Hstep _ _ _ Hx key H1).
Qed.

(** Every term [add_all_MMR_and_secular_terms] records has a cosine
    argument [[k1, ..., k6]] whose integers add up to zero, with [k1 >= 0],
    with [(p - q) k1 + p k2 = 0] (a multiple of the resonant combination or
    a secular argument), with [k5 + k6] even, and of total order
    [|k3| + |k4| + |k5| + |k6| + 2 (z1 + z2 + z3 + z4)] at most
    [max_order]. *)
Theorem add_all_MMR_and_secular_terms_terms (self self' : PoincareHamiltonian.t)
    (p q max_order indexIn indexOut lmax : Z) (ws : list string) :
  add_all_MMR_and_secular_terms self p q max_order indexIn indexOut lmax
    = Done (self', ws) ->
  forall key,
    In key (PoincareHamiltonian.resonance_indices self') ->
    In key (PoincareHamiltonian.resonance_indices self)
    \/ exists k1 k2 k3 k4 k5 k6 z1 z2 z3 z4 : Z,
         key = (indexIn, indexOut, ([k1; k2; k3; k4; k5; k6], [z1; z2; z3; z4]))
         /\ (k1 + k2 + k3 + k4 + k5 + k6 = 0
             /\ 0 <= k1
             /\ (p - q) * k1 + p * k2 = 0
             /\ (k5 + k6) mod 2 = 0
             /\ 0 <= z1 /\ 0 <= z2 /\ 0 <= z3 /\ 0 <= z4
             /\ Z.abs k3 + Z.abs k4 + Z.abs k5 + Z.abs k6
                + 2 * (z1 + z2 + z3 + z4) <= max_order)%Z.
Proof.
  unfold add_all_MMR_and_secular_terms, PoincareHamiltonian.add_all_MMR_and_secular_terms.
  fold add_cos_term.
  destruct (Z.ltb_spec max_order 0) as [|Hmax]; [discriminate|].
  intros H.
  apply obind_Done_inv in H. destruct H as [ws0 [Hws H]].
  apply mmr_warnings_Done_inv in Hws. cbv zeta in H.
  apply obind_Done_inv in H. destruct H as [[self1 ws1] [Hfold H]].
  assert (Hri : PoincareHamiltonian.resonance_indices self'
                = PoincareHamiltonian.resonance_indices self1).
  { injection H as <- _. reflexivity. }
  intros key. rewrite Hri. clear H Hri.
  set (P := fun key : PoincareHamiltonian.key =>
    exists k1 k2 k3 k4 k5 k6 z1 z2 z3 z4 : Z,
      key = (indexIn, indexOut, ([k1; k2; k3; k4; k5; k6], [z1; z2; z3; z4]))
      /\ (k1 + k2 + k3 + k4 + k5 + k6 = 0
          /\ 0 <= k1
          /\ (p - q) * k1 + p * k2 = 0
          /\ (k5 + k6) mod 2 = 0
          /\ 0 <= z1 /\ 0 <= z2 /\ 0 <= z3 /\ 0 <= z4
          /\ Z.abs k3 + Z.abs k4 + Z.abs k5 + Z.abs k6
             + 2 * (z1 + z2 + z3 + z4) <= max_order)%Z).
  change (In key (PoincareHamiltonian.indices_of (self1, ws1)) -> In key (PoincareHamiltonian.indices_of (self, ws0)) \/ P key).
  revert key.
  refine (ofoldM_new_keys _ _ _ _ _ _ Hfold). clear Hfold.
  intros acc h acc' Hh. refine (ofoldM_new_keys _ _ _ _ _ _ Hh). clear Hh.
  intros acc1 k acc1' Hk. refine (ofoldM_new_keys _ _ _ _ _ _ Hk). clear Hk.
  intros acc2 s acc2' Hs. refine (ofoldM_new_keys _ _ _ _ _ _ Hs). clear Hs.
  intros acc3 s1 acc3' Hs1 key Hin. unfold P.
  apply obind_Done_inv in Hs1. destruct Hs1 as [r [Hr Hs1]].
  apply py_mod_Done_inv in Hr. destruct Hr as [_ ->].
  destruct (Z.eqb_spec ((- p * (- s + - s1 + (- h - k) + (k - h))) mod q) 0) as [Hmod|_].
  2:{ injection Hs1 as <-. left. exact Hin. }
  apply obind_Done_inv in Hs1. destruct Hs1 as [k1 [Hk1 Hs1]].
  apply py_floordiv_Done_inv in Hk1. destruct Hk1 as [_ Hk1].
  apply obind_Done_inv in Hs1. destruct Hs1 as [k2 [Hk2 Hs1]].
  apply py_floordiv_Done_inv in Hk2. destruct Hk2 as [_ Hk2].
  destruct (exact_quotients p q _ Hws Hmod) as [Hsum Hres].
  rewrite <- Hk1, <- Hk2 in Hsum, Hres.
  destruct (Z.ltb_spec k1 0) as [Hneg|Hpos]; cbn [map] in Hs1;
    destruct (proj1 (add_cos_term_indices _ _ _ _ _ _ _ _ _ _ _ _ Hs1 key) Hin)
      as [Hold|Hnew];
    try (left; exact Hold); right;
    destruct Hnew as (z1 & z2 & z3 & z4 & -> & Hz);
    do 6 eexists; exists z1, z2, z3, z4; (split; [reflexivity|]).
  - repeat split; try lia.
    replace (- h - k + (k - h))%Z with (-2 * h)%Z in * by lia. 
    replace ((- h - k) * -1 + (k - h) * -1)%Z with (h * 2)%Z by lia.
    apply Z.mod_mul. lia.
  - repeat split; try lia.
    replace (- h - k + (k - h))%Z with ((- h) * 2)%Z by lia.
    apply Z.mod_mul. lia.
Qed.

(** The two methods on unusual arguments: a negative [max_order] fails the
    [assert]; with [q = 0] the test [abs(p) % q] raises
    [ZeroDivisionError]; with [q < 0] the loop of
    [add_eccentricity_MMR_terms] is empty, and the method returns with its
    warnings and the Hamiltonian as it was. *)
Theorem MMR_terms_edges (self : PoincareHamiltonian.t)
    (p q max_order indexIn indexOut lmax : Z) (update : bool) :
  ((max_order < 0)%Z ->
   add_eccentricity_MMR_terms self p q max_order indexIn indexOut lmax update
     = Fail (Builtin AssertionError)
   /\ add_all_MMR_and_secular_terms self p q max_order indexIn indexOut lmax
     = Fail (Builtin AssertionError))
  /\ ((0 <= max_order)%Z -> q = 0%Z ->
      add_eccentricity_MMR_terms self p q max_order indexIn indexOut lmax update
        = Fail ZeroDivisionError
      /\ add_all_MMR_and_secular_terms self p q max_order indexIn indexOut lmax
        = Fail ZeroDivisionError)
  /\ ((0 <= max_order)%Z -> (q < 0)%Z ->
      add_eccentricity_MMR_terms self p q max_order indexIn indexOut lmax update
        = Done (if update then PoincareHamiltonian._update self else self,
                PoincareHamiltonian.msg_unsupported_jk
                  :: (if ((Z.abs p mod q =? 0)%Z && negb (q =? 1)%Z)%bool
                      then [PoincareHamiltonian.msg_common_divisor] else []))).
Proof.
  split; [|split].
  - intros Hneg. unfold add_eccentricity_MMR_terms, PoincareHamiltonian.add_eccentricity_MMR_terms,
      add_all_MMR_and_secular_terms, PoincareHamiltonian.add_all_MMR_and_secular_terms.
    destruct (Z.ltb_spec max_order 0); [auto|lia].
  - intros Hmax ->. unfold add_eccentricity_MMR_terms, PoincareHamiltonian.add_eccentricity_MMR_terms,
      add_all_MMR_and_secular_terms, PoincareHamiltonian.add_all_MMR_and_secular_terms.
    destruct (Z.ltb_spec max_order 0); [lia|].
    unfold PoincareHamiltonian.mmr_warnings, py_mod. cbn. auto.
  - intros Hmax Hq. unfold add_eccentricity_MMR_terms, PoincareHamiltonian.add_eccentricity_MMR_terms.
    destruct (Z.ltb_spec max_order 0); [lia|].
    unfold PoincareHamiltonian.mmr_warnings, py_mod, py_floordiv.
    destruct (Z.eqb_spec q 0); [lia|]. cbv zeta. cbn [obind].
    destruct (Z.ltb_spec q 0); [|lia]. rewrite orb_true_r.
    destruct (Z.ltb_spec max_order q); [lia|]. cbn [app].
    assert (Hd : (max_order / q <= 0)%Z) by (Z.div_mod_to_equations; nia).
    assert (Hr : py_range 1 (max_order / q + 1) = []).
    { unfold py_range. replace (Z.to_nat (max_order / q + 1 - 1)) with 0%nat by lia.
      reflexivity. }
    rewrite Hr. cbn [ofoldM obind]. reflexivity.
Qed.

(** [add_cos_term_to_max_order] on unusual arguments: a [jvec] that has
    not six entries raises [ValueError]; when
    [max_order < |j3| + |j4| + |j5| + |j6|] the loops are empty and the
    method returns without a warning, with the Hamiltonian as it was. *)
Theorem add_cos_term_to_max_order_edges (self : PoincareHamiltonian.t)
      (max_order indexIn indexOut lmax : Z) (update : bool) :
    (forall jvec : list Z,
        List.length jvec <> 6%nat ->
        add_cos_term_to_max_order self jvec max_order indexIn indexOut lmax update
        = Raise ValueError)
    /\ (forall j1 j2 j3 j4 j5 j6 : Z,
          (max_order < Z.abs j3 + Z.abs j4 + Z.abs j5 + Z.abs j6)%Z ->
          add_cos_term_to_max_order self [j1; j2; j3; j4; j5; j6] max_order
            indexIn indexOut lmax update
          = Ok (if update then PoincareHamiltonian._update self else self, [])).
Proof.
    split.
    - intros jvec Hlen.
      unfold add_cos_term_to_max_order, PoincareHamiltonian.add_cos_term_to_max_order.
      destruct jvec as [|a1 [|a2 [|a3 [|a4 [|a5 [|a6 [|a7 jvec]]]]]]];
        cbn [List.length] in Hlen; try lia; reflexivity.
    - intros j1 j2 j3 j4 j5 j6 Hlow.
      unfold add_cos_term_to_max_order, PoincareHamiltonian.add_cos_term_to_max_order.
      cbv zeta.
      assert (Hr : py_range 0
                ((max_order - Z.abs j3 - Z.abs j4 - Z.abs j5 - Z.abs j6) / 2 + 1) = []).
      { unfold py_range.
        replace (Z.to_nat ((max_order - Z.abs j3 - Z.abs j4 - Z.abs j5 - Z.abs j6) / 2
                           + 1 - 0)) with 0%nat
          by (Z.div_mod_to_equations; lia).
        reflexivity. }
      rewrite Hr. reflexivity.
Qed.

End MMRTerms.

Lemma add_cos_term_to_max_order_terms_witness :
  exists self',
    PoincareHamiltonian.add_cos_term_to_max_order unit (fun _ _ => tt)
      (fun _ _ => (0%Z, 0%Z)) one_coefficient (fun _ _ _ _ _ => sym_other "C")
      bare_hamiltonian [2; -1; -1; 0; 0; 0]%Z 3 1 2 0 true = Ok (self', [])
    /\ forall key,
         In key (PoincareHamiltonian.resonance_indices self')
         <-> In key (PoincareHamiltonian.resonance_indices bare_hamiltonian)
             \/ exists z1 z2 z3 z4 : Z,
                  key = (1, 2, ([2; -1; -1; 0; 0; 0], [z1; z2; z3; z4]))%Z
                  /\ (0 <= z1 /\ 0 <= z2 /\ 0 <= z3 /\ 0 <= z4
                      /\ Z.abs (-1) + Z.abs 0 + Z.abs 0 + Z.abs 0
                         + 2 * (z1 + z2 + z3 + z4) <= 3)%Z.
Proof.
  eexists. split; [reflexivity|].
  apply (add_cos_term_to_max_order_terms unit (fun _ _ => tt) (fun _ _ => (0%Z, 0%Z))
           one_coefficient (fun _ _ _ _ _ => sym_other "C")
           bare_hamiltonian _ 2 (-1) (-1) 0 0 0 3 1 2 0 true [])%Z.
  reflexivity.
Defined.

Lemma add_eccentricity_MMR_terms_terms_witness :
  exists self',
    PoincareHamiltonian.add_eccentricity_MMR_terms unit (fun _ _ => tt)
      (fun _ _ => (0%Z, 0%Z)) one_coefficient (fun _ _ _ _ _ => sym_other "C")
      bare_hamiltonian 2 1 1 1 2 0 true = Done (self', [])
    /\ forall key,
         In key (PoincareHamiltonian.resonance_indices self')
         <-> In key (PoincareHamiltonian.resonance_indices bare_hamiltonian)
             \/ exists n l z1 z2 z3 z4 : Z,
                  key = (1, 2,
                         ([n * 2; n * (1 - 2); - l; l - n * 1; 0; 0], [z1; z2; z3; z4]))%Z
                  /\ (0 < 1 /\ 1 <= n /\ 0 <= l <= n * 1
                      /\ 0 <= z1 /\ 0 <= z2 /\ 0 <= z3 /\ 0 <= z4
                      /\ n * 1 + 2 * (z1 + z2 + z3 + z4) <= 1)%Z.
Proof.
  eexists. split; [reflexivity|].
  apply (add_eccentricity_MMR_terms_terms unit (fun _ _ => tt) (fun _ _ => (0%Z, 0%Z))
           one_coefficient (fun _ _ _ _ _ => sym_other "C")
           bare_hamiltonian _ 2 1 1 1 2 0 true [])%Z.
  reflexivity.
Defined.

Lemma add_all_MMR_and_secular_terms_terms_witness :
  exists self',
    PoincareHamiltonian.add_all_MMR_and_secular_terms unit (fun _ _ => tt)
      (fun _ _ => (0%Z, 0%Z)) one_coefficient (fun _ _ _ _ _ => sym_other "C")
      bare_hamiltonian 2 1 1 1 2 0 = Done (self', [])
    /\ forall key,
         In key (PoincareHamiltonian.resonance_indices self') ->
         In key (PoincareHamiltonian.resonance_indices bare_hamiltonian)
         \/ exists k1 k2 k3 k4 k5 k6 z1 z2 z3 z4 : Z,
              key = (1, 2, ([k1; k2; k3; k4; k5; k6], [z1; z2; z3; z4]))%Z
              /\ (k1 + k2 + k3 + k4 + k5 + k6 = 0
                  /\ 0 <= k1
                  /\ (2 - 1) * k1 + 2 * k2 = 0
                  /\ (k5 + k6) mod 2 = 0
                  /\ 0 <= z1 /\ 0 <= z2 /\ 0 <= z3 /\ 0 <= z4
                  /\ Z.abs k3 + Z.abs k4 + Z.abs k5 + Z.abs k6
                     + 2 * (z1 + z2 + z3 + z4) <= 1)%Z.
Proof.
  eexists. split; [reflexivity|].
  apply (add_all_MMR_and_secular_terms_terms unit (fun _ _ => tt) (fun _ _ => (0%Z, 0%Z))
           one_coefficient (fun _ _ _ _ _ => sym_other "C")
           bare_hamiltonian _ 2 1 1 1 2 0 [])%Z.
  reflexivity.
Defined.

(** ** [get_res_chain_reference_Lambdas_and_semimajor_axes] *)

Lemma mapM_length {A B : Type} (f : A -> result B) (xs : list A) (ys : list B) :
  mapM f xs = Ok ys -> List.length ys = List.length xs.
Proof.
  revert ys. induction xs as [|x xs IH]; intros ys H; cbn [mapM] in H.
  - injection H as <-. reflexivity.
  - destruct (f x) as [y|]; cbn [bind] in H; [|discriminate].
    destruct (mapM f xs) as [ys'|]; cbn [bind] in H; [|discriminate].
    injection H as <-. cbn [List.length]. rewrite (IH ys' eq_refl). reflexivity.
Qed.

Lemma getslice_length (pvars : Poincare.t) (ps : list PoincareParticle.t) :
  Poincare.PoincareParticles.getslice_from_1 pvars = Ok ps ->
  List.length ps = (Poincare.N pvars - 1)%nat.
Proof.
  unfold Poincare.PoincareParticles.getslice_from_1. intros H.
  apply mapM_length in H. rewrite H, length_map, length_seq. reflexivity.
Qed.

Lemma py_index_out_of_range {A : Type} (xs : list A) (i : Z) :
  (Z.of_nat (List.length xs) <= i)%Z -> py_index xs i = Raise IndexError.
Proof.
  intros Hi. unfold py_index. cbv zeta.
  destruct (Z.ltb_spec i 0); [lia|].
  destruct (Z.ltb_spec i 0); [lia|]. cbn [orb].
  destruct (Z.leb_spec (Z.of_nat (List.length xs)) i); [reflexivity|lia].
Qed.

Lemma ofoldM_last {A B : Type} (f : A -> B -> outcome A) (xs : list B) (x : B)
    (acc r : A) :
  ofoldM f (xs ++ [x]) acc = Done r -> exists acc', f acc' x = Done r.
Proof.
  revert acc. induction xs as [|y xs IH]; intros acc H; cbn [app ofoldM] in H.
  - apply obind_Done_inv in H. destruct H as [acc1 [H1 H]].
    injection H as <-. exists acc. exact H1.
  - apply obind_Done_inv in H. destruct H as [acc1 [_ H]]. exact (IH _ H).
Qed.

Ltac obind_inv H :=
  let x := fresh "x" in let Hx := fresh "Hx" in
  apply obind_Done_inv in H; destruct H as [x [Hx H]].

Lemma get_res_chain_no_result (alpha_inv_next : R -> R -> outcome R)
    (pvars : Poincare.t) (slist : list R) (r : list R * list R) :
  get_res_chain_reference_Lambdas_and_semimajor_axes alpha_inv_next pvars slist <> Done r.
Proof.
  unfold get_res_chain_reference_Lambdas_and_semimajor_axes. cbv zeta. intros H.
  obind_inv H. obind_inv H. obind_inv H.
  apply obind_Done_inv in H. destruct H as [ps [Hps H]].
  apply lift_Done_inv, getslice_length in Hps.
  obind_inv H. obind_inv H.
  apply obind_Done_inv in H. destruct H as [m1 [Hm1 H]].
  apply lift_Done_inv in Hm1.
  obind_inv H. obind_inv H.
  apply obind_Done_inv in H. destruct H as [[[coeffs alpha_inv] tot] [Hfold _]].
  assert (HN : (1 <= Poincare.N pvars)%nat) by (unfold Poincare.N; lia).
  destruct (Nat.le_gt_cases (Poincare.N pvars) 2) as [Hsmall|Hbig].
  - rewrite py_index_out_of_range in Hm1; [discriminate|].
    rewrite length_map, Hps. lia.
  - replace (seq 2 (Poincare.N pvars - 2))
      with (seq 2 (Poincare.N pvars - 3) ++ [(Poincare.N pvars - 1)%nat]) in Hfold.
    2:{ replace (Poincare.N pvars - 2)%nat with (Poincare.N pvars - 3 + 1)%nat by lia.
        rewrite seq_app. cbn [seq]. do 2 f_equal. lia. }
    apply ofoldM_last in Hfold. destruct Hfold as [[[c a] t] Hstep].
    unfold res_chain_step in Hstep. cbv zeta in Hstep.
    do 7 obind_inv Hstep.
    apply obind_Done_inv in Hstep. destruct Hstep as [mi [Hmi _]].
    apply lift_Done_inv in Hmi.
    rewrite py_index_out_of_range in Hmi; [discriminate|].
    rewrite length_map, Hps. lia.
Qed.

(** [get_res_chain_reference_Lambdas_and_semimajor_axes] never returns: it reads [m[i]] for every [i] from [1]
    to [N - 1], and the array [m], built by iterating over
    [pvars.particles], has the [N - 1] entries [m[0]] to [m[N - 2]]; on the
    way to [m[N - 1]] it raises [IndexError], or another exception
    earlier. *)
Theorem get_res_chain_never_returns (alpha_inv_next : R -> R -> outcome R)
    (pvars : Poincare.t) (slist : list R) (r : list R * list R) :
  get_res_chain_reference_Lambdas_and_semimajor_axes alpha_inv_next pvars slist <> Done r.
Proof. exact (get_res_chain_no_result alpha_inv_next pvars slist r). Qed.

(** The constructors of the three subclasses call that function when no
    [Lambda0] is passed: whatever it may return is what they use.  Without
    [Lambda0], then, none of the three constructors returns an operator. *)
Theorem resonance_operators_need_Lambda0
    (alpha_inv_next : R -> R -> outcome R)
    (DFCoeff : list Z -> list Z -> R -> R) (eigh : mat2 -> vec2 * mat2)
    (reference_Lambdas : Poincare.t -> list R -> result (list R)) :
  (forall pvars slist L0,
      reference_Lambdas pvars slist = Ok L0 ->
      exists a0,
        get_res_chain_reference_Lambdas_and_semimajor_axes alpha_inv_next pvars slist
        = Done (a0, L0)) ->
  forall (initial_state : Poincare.t) (dt : R) (j indexIn indexOut : Z),
    (forall self,
        FirstOrderEccentricityResonanceOperator_init DFCoeff eigh reference_Lambdas
          initial_state dt j indexIn indexOut None <> Ok self)
    /\ (forall self,
        SecondOrderEccentricityResonanceOperator_init DFCoeff eigh reference_Lambdas
          initial_state dt j indexIn indexOut None <> Ok self)
    /\ (forall self,
        SecondOrderInclinationResonanceOperator_init DFCoeff eigh reference_Lambdas
          initial_state dt j indexIn indexOut None <> Ok self).
Proof.
  intros Href initial_state dt j indexIn indexOut.
  assert (Hsetup : forall slist r,
            resonance_setup reference_Lambdas initial_state slist indexIn indexOut None
            <> Ok r).
  { intros slist r H. unfold resonance_setup in H.
    do 5 bind_inv H.
    match goal with
    | Hn : bind (Poincare.init _ _ _ _) _ = Ok _ |- _ => bind_inv Hn; bind_inv Hn
    end.
    match goal with
    | Hx : reference_Lambdas _ _ = Ok _ |- _ =>
        destruct (Href _ _ _ Hx) as [a0 Ha0];
        exact (get_res_chain_no_result alpha_inv_next _ _ _ Ha0)
    end. }
  repeat split; intros self H.
  - unfold FirstOrderEccentricityResonanceOperator_init in H. cbv zeta in H.
    bind_inv H. exact (Hsetup _ _ Hx).
  - unfold SecondOrderEccentricityResonanceOperator_init in H. cbv zeta in H.
    bind_inv H. exact (Hsetup _ _ Hx).
  - unfold SecondOrderInclinationResonanceOperator_init in H. cbv zeta in H.
    bind_inv H. exact (Hsetup _ _ Hx).
Qed.

Lemma resonance_operators_need_Lambda0_witness :
  (forall self,
      FirstOrderEccentricityResonanceOperator_init (fun _ _ _ => 1) eigh_diagonal
        (fun _ _ => Raise IndexError) two_circular_planets 1 2 1 2 None <> Ok self)
  /\ (forall self,
      SecondOrderEccentricityResonanceOperator_init (fun _ _ _ => 1) eigh_diagonal
        (fun _ _ => Raise IndexError) two_circular_planets 1 2 1 2 None <> Ok self)
  /\ (forall self,
      SecondOrderInclinationResonanceOperator_init (fun _ _ _ => 1) eigh_diagonal
        (fun _ _ => Raise IndexError) two_circular_planets 1 2 1 2 None <> Ok self).
Proof.
  apply (resonance_operators_need_Lambda0 (fun _ _ => Fail ZeroDivisionError)).
  intros pvars slist L0 H. discriminate H.
Defined.

(** ** Rates of the Keplerian operator *)

Lemma getitem_keeps_G_coordinates (st : Poincare.t) (i : Z) (p : PoincareParticle.t) :
  Poincare.PoincareParticles.getitem st i = Ok p ->
  PoincareParticle.G p = Poincare.G st
  /\ PoincareParticle.coordinates p = Poincare.coordinates st.
Proof.
  unfold Poincare.PoincareParticles.getitem.
  destruct (i =? 0)%Z; [discriminate|]. cbv zeta.
  destruct (_ || _)%bool; [discriminate|].
  intros H. do 8 bind_inv H.
  apply init_keeps_masses in H. destruct H as (_ & Hc & HG). auto.
Qed.

Lemma mapM_Forall {A B : Type} (f : A -> result B) (P : B -> Prop) (xs : list A) (ys : list B) :
  (forall x y, f x = Ok y -> P y) -> mapM f xs = Ok ys -> Forall P ys.
Proof.
  intros Hf. revert ys. induction xs as [|x xs IH]; intros ys H; cbn [mapM] in H.
  - injection H as <-. constructor.
  - destruct (f x) as [y|] eqn:Hy; cbn [bind] in H; [|discriminate].
    destruct (mapM f xs) as [ys'|]; cbn [bind] in H; [|discriminate].
    injection H as <-. constructor; [exact (Hf _ _ Hy) | exact (IH _ eq_refl)].
Qed.

Lemma Keplerian_rates_pointwise (G : R) (ps : list PoincareParticle.t) (ms : list R) :
  List.length ms = List.length ps ->
  Forall (fun p => PoincareParticle.G p = G /\ PoincareParticle.mu p <> 0
                   /\ PoincareParticle.sLambda p <> 0) ps ->
  map2 Rdiv
    (map2 Rdiv
       (map2 Rdiv
          (map2 Rmult (map (fun M => (G * M) ^ 2) (map PoincareParticle.M ps))
                      (map (fun m => m ^ 3) ms))
          (map PoincareParticle.Lambda ps))
       (map PoincareParticle.Lambda ps))
    (map PoincareParticle.Lambda ps)
  = map2 (fun p m => PoincareParticle.n p * (m / PoincareParticle.mu p) ^ 3) ps ms.
Proof.
  revert ms. induction ps as [|p ps IH]; intros [|m ms] Hlen Hall;
    cbn [List.length] in Hlen; try lia; [reflexivity|].
  apply Forall_cons_iff in Hall. destruct Hall as [(HG & Hmu & HsL) Hall'].
  cbn [map map2]. rewrite IH by (try lia; assumption). f_equal.
  unfold PoincareParticle.n, PoincareParticle.Lambda. rewrite HG. field. auto.
Qed.

Lemma democratic_masses (ps : list PoincareParticle.t) (ms : list R) :
  Forall (fun p => PoincareParticle.coordinates p = "democratic heliocentric") ps ->
  mapM (fun p => passed (PoincareParticle.m p)) ps = Ok ms ->
  ms = map PoincareParticle.mu ps.
Proof.
  revert ms. induction ps as [|p ps IH]; intros ms Hall Hms; cbn [mapM] in Hms.
  - injection Hms as <-. reflexivity.
  - apply Forall_cons_iff in Hall. destruct Hall as [Hc Hall'].
    destruct (passed (PoincareParticle.m p)) as [m'|] eqn:Hm; cbn [bind] in Hms; [|discriminate].
    destruct (mapM (fun p => passed (PoincareParticle.m p)) ps) as [ms'|] eqn:Hms';
      cbn [bind] in Hms; [|discriminate].
    injection Hms as <-. cbn [map]. f_equal; [|exact (IH _ Hall' eq_refl)].
    unfold PoincareParticle.m in Hm. rewrite Hc in Hm. cbn in Hm.
    injection Hm as <-. reflexivity.
Qed.

(** The rates [GGMMmmm/L/L/L] that [KeplerianEvolutionOperator] advances
    the mean longitudes with are, body by body, [n * (m/mu)^3]: the mean
    motion [n] of the particle times the cube of the ratio of its physical
    mass to its Poincare mass. In democratic heliocentric coordinates, where
    [m] is [mu], they are the mean motions themselves. *)
Theorem Keplerian_rates_and_mean_motions (st : Poincare.t) (dt : R)
    (op : KeplerianEvolutionOperator.t) (ps : list PoincareParticle.t) :
  KeplerianEvolutionOperator.init st dt = Ok op ->
  Poincare.PoincareParticles.getslice_from_1 st = Ok ps ->
  Forall (fun p => PoincareParticle.mu p <> 0 /\ PoincareParticle.sLambda p <> 0) ps ->
  exists ms,
    mapM (fun p => passed (PoincareParticle.m p)) ps = Ok ms
    /\ KeplerianEvolutionOperator.get_lambda_dot op
       = Ok (map2 (fun p m => PoincareParticle.n p * (m / PoincareParticle.mu p) ^ 3) ps ms)
    /\ (Poincare.coordinates st = "democratic heliocentric" ->
        KeplerianEvolutionOperator.get_lambda_dot op = Ok (map PoincareParticle.n ps)).
Proof.
  intros Hinit Hps Hall.
  unfold KeplerianEvolutionOperator.init in Hinit. cbv zeta in Hinit.
  rewrite Hps in Hinit. cbn [bind] in Hinit.
  destruct (mapM (fun p => passed (PoincareParticle.m p)) ps) as [ms|] eqn:Hms;
    cbn [bind] in Hinit; [|discriminate].
  assert (Hlen : List.length ms = List.length ps) by (apply (mapM_length _ _ _ Hms)).
  rewrite np_elementwise_same_length in Hinit by (rewrite !length_map; lia).
  cbn [bind] in Hinit. injection Hinit as <-.
  assert (HG : Forall (fun p => PoincareParticle.G p = Poincare.G st
                                /\ PoincareParticle.coordinates p = Poincare.coordinates st) ps).
  { unfold Poincare.PoincareParticles.getslice_from_1 in Hps.
    apply (mapM_Forall _ _ _ _ (getitem_keeps_G_coordinates st) Hps). }
  assert (Hrates : KeplerianEvolutionOperator.get_lambda_dot
            (KeplerianEvolutionOperator.mk dt st (Poincare.G st) ms
               (map PoincareParticle.M ps)
               (map2 Rmult (map (fun M => (Poincare.G st * M) ^ 2) (map PoincareParticle.M ps))
                     (map (fun m => m ^ 3) ms)))
          = Ok (map2 (fun p m => PoincareParticle.n p * (m / PoincareParticle.mu p) ^ 3)
                     ps ms)).
  { unfold KeplerianEvolutionOperator.get_lambda_dot, KeplerianEvolutionOperator.particles.
    cbn [KeplerianEvolutionOperator.state]. rewrite Hps. cbn [bind].
    unfold KeplerianEvolutionOperator.lambda_dot_of.
    cbn [KeplerianEvolutionOperator.GGMMmmm].
    rewrite np_elementwise_same_length
      by (rewrite map2_length; rewrite !length_map; lia).
    cbn [bind].
    rewrite np_elementwise_same_length
      by (rewrite map2_length; [rewrite !length_map; lia|];
          rewrite map2_length; rewrite !length_map; lia).
    cbn [bind].
    rewrite np_elementwise_same_length
      by (rewrite map2_length; [rewrite !length_map; lia|];
          rewrite map2_length; [rewrite !length_map; lia|];
          rewrite map2_length; rewrite !length_map; lia).
    f_equal. apply Keplerian_rates_pointwise; [exact Hlen|].
    rewrite Forall_forall in *. intros p Hp.
    destruct (HG p Hp) as [HGp _]. destruct (Hall p Hp) as [Hmu HsL]. auto. }
  exists ms. split; [reflexivity|]. split; [exact Hrates|].
  intros Hdemo. etransitivity; [exact Hrates|]. f_equal.
  assert (Hmasses : ms = map PoincareParticle.mu ps).
  { apply democratic_masses; [|exact Hms].
    rewrite Forall_forall in *. intros p Hp.
    destruct (HG p Hp) as [_ Hc]. rewrite Hc. exact Hdemo. }
  rewrite Hmasses. clear - Hall.
  induction ps as [|p ps IH]; [reflexivity|].
  apply Forall_cons_iff in Hall. destruct Hall as [(Hmu & _) Hall'].
  cbn [map map2]. rewrite (IH Hall'). f_equal. field. exact Hmu.
Qed.

Lemma Keplerian_rates_and_mean_motions_witness :
  exists op,
    KeplerianEvolutionOperator.init two_circular_planets 1 = Ok op
    /\ KeplerianEvolutionOperator.get_lambda_dot op
       = Ok (map PoincareParticle.n [rest_particle; rest_particle]).
Proof.
  eexists. split; [reflexivity|].
  destruct (Keplerian_rates_and_mean_motions two_circular_planets 1 _
              [rest_particle; rest_particle] eq_refl eq_refl) as (ms & _ & _ & H).
  - repeat constructor; cbn; lra.
  - apply H. reflexivity.
Defined.

(** ** The secular operator on state vectors *)

Lemma rows_with_keeps (vecs : list row) (xnew ynew : cvec) :
  List.length xnew = List.length vecs -> List.length ynew = List.length vecs ->
  List.length (LinearSecularEvolutionOperator.rows_with vecs xnew ynew) = List.length vecs
  /\ col 2 (LinearSecularEvolutionOperator.rows_with vecs xnew ynew) = col 2 vecs
  /\ col 3 (LinearSecularEvolutionOperator.rows_with vecs xnew ynew) = col 3 vecs.
Proof.
  unfold LinearSecularEvolutionOperator.rows_with, col.
  revert xnew ynew. induction vecs as [|r vecs IH]; intros [|x xnew] [|y ynew] Hx Hy;
    cbn [List.length] in *; try lia; [repeat split|].
  cbn [combine map2 map List.length].
  destruct (IH xnew ynew ltac:(lia) ltac:(lia)) as (Hl & H2 & H3).
  rewrite Hl, H2, H3. repeat split.
Qed.

(** On a vector with one row per body, and with operator matrices of that
    size, [LinearSecularEvolutionOperator.apply_to_state_vector] returns a
    vector of the same number of rows in which the slots [Lambda] and [l]
    of every body (the columns 2 and 3) are the ones it was given: the
    secular step moves the eccentricity and inclination variables only. *)
Theorem LinearSecular_apply_to_state_vector_keeps_Lambda_l
    (self : LinearSecularEvolutionOperator.t) (vecs : list row) :
  has_shape (List.length vecs) (List.length vecs)
    (LinearSecularEvolutionOperator.ecc_operator_matrix self) ->
  has_shape (List.length vecs) (List.length vecs)
    (LinearSecularEvolutionOperator.inc_operator_matrix self) ->
  exists vecs',
    LinearSecularEvolutionOperator.apply_to_state_vector self (flatten_rows vecs)
    = Ok (flatten_rows vecs')
    /\ List.length vecs' = List.length vecs
    /\ col 2 vecs' = col 2 vecs
    /\ col 3 vecs' = col 3 vecs.
Proof.
  intros He Hi.
  rewrite (secular_apply_to_state_vector_rows self vecs He Hi).
  eexists. split; [reflexivity|].
  apply rows_with_keeps; rewrite length_map; [apply He | apply Hi].
Qed.

Lemma Cdot_zeros (xs : cvec) : Cdot (repeat (RtoC 0) (List.length xs)) xs = RtoC 0.
Proof.
  induction xs as [|x xs IH]; [reflexivity|].
  cbn [List.length repeat]. rewrite Cdot_cons, IH. unfold RtoC, Cmul, Cadd. cbn [Re Im].
  f_equal; ring.
Qed.

Lemma np_eye_matvec (x : cvec) :
  map (fun Mrow => Cdot Mrow x) (np_eye (List.length x)) = x.
Proof.
  induction x as [|x0 xs IH]; [reflexivity|].
  cbn [List.length np_eye map]. rewrite Cdot_cons, Cdot_zeros. f_equal.
  - destruct x0 as [a b]. unfold RtoC, Cmul, Cadd. cbn [Re Im]. f_equal; ring.
  - rewrite map_map. rewrite <- IH at 2. apply map_ext. intros Mrow.
    rewrite Cdot_cons. destruct (Cdot Mrow xs) as [a b], x0 as [c d].
    unfold RtoC, Cmul, Cadd. cbn [Re Im]. f_equal; ring.
Qed.

Lemma np_eye_shape (n : nat) : has_shape n n (np_eye n).
Proof.
  induction n as [|n [Hl Hr]]; [split; [reflexivity|constructor]|].
  split.
  - cbn [np_eye List.length]. rewrite length_map, Hl. reflexivity.
  - cbn [np_eye]. constructor.
    + cbn [List.length]. rewrite repeat_length. reflexivity.
    + rewrite Forall_map. eapply Forall_impl; [|exact Hr].
      intros a Ha. cbn [List.length]. rewrite Ha. reflexivity.
Qed.

Lemma rows_with_own (vecs : list row) :
  LinearSecularEvolutionOperator.rows_with vecs
    (LinearSecularEvolutionOperator.x_of_rows vecs)
    (LinearSecularEvolutionOperator.y_of_rows vecs) = vecs.
Proof.
  unfold LinearSecularEvolutionOperator.rows_with, LinearSecularEvolutionOperator.x_of_rows,
    LinearSecularEvolutionOperator.y_of_rows.
  induction vecs as [|r vecs IH]; [reflexivity|].
  cbn [map combine map2]. rewrite IH. f_equal.
  destruct r as [v0 v1 v2 v3 v4 v5]. cbn [r0 r1 r2 r3 r4 r5 fst snd].
  pose proof _rt2_neq_0 as Hrt.
  unfold Cscale, Csub, Cadd, Copp, Cmul, RtoC, _rt2_inv. cbn [Re Im].
  f_equal; field; exact Hrt.
Qed.

(** When both operator matrices are the identity,
    [LinearSecularEvolutionOperator.apply_to_state_vector] returns the
    vector it was given: packing [(kappa - 1j*eta)/sqrt(2)] and unpacking
    with [sqrt(2)*Re(x)], [sqrt(2)*Re(1j*x)] are inverse to each other. *)
Theorem LinearSecular_identity_matrices_round_trip
    (self : LinearSecularEvolutionOperator.t) (vecs : list row) :
  LinearSecularEvolutionOperator.ecc_operator_matrix self = np_eye (List.length vecs) ->
  LinearSecularEvolutionOperator.inc_operator_matrix self = np_eye (List.length vecs) ->
  LinearSecularEvolutionOperator.apply_to_state_vector self (flatten_rows vecs)
  = Ok (flatten_rows vecs).
Proof.
  intros He Hi.
  rewrite (secular_apply_to_state_vector_rows self vecs)
    by (rewrite ?He, ?Hi; apply np_eye_shape).
  rewrite He, Hi.
  replace (List.length vecs)
    with (List.length (LinearSecularEvolutionOperator.x_of_rows vecs)) at 1
    by (unfold LinearSecularEvolutionOperator.x_of_rows; apply length_map).
  rewrite np_eye_matvec.
  replace (List.length vecs)
    with (List.length (LinearSecularEvolutionOperator.y_of_rows vecs)) at 1
    by (unfold LinearSecularEvolutionOperator.y_of_rows; apply length_map).
  rewrite np_eye_matvec, rows_with_own. reflexivity.
Qed.

Lemma LinearSecular_apply_to_state_vector_keeps_Lambda_l_witness :
  exists vecs',
    LinearSecularEvolutionOperator.apply_to_state_vector diagonal_secular_operator
      (flatten_rows two_rows) = Ok (flatten_rows vecs')
    /\ List.length vecs' = List.length two_rows
    /\ col 2 vecs' = col 2 two_rows
    /\ col 3 vecs' = col 3 two_rows.
Proof.
  apply (LinearSecular_apply_to_state_vector_keeps_Lambda_l
           diagonal_secular_operator two_rows);
    (split; [reflexivity | repeat constructor]).
Defined.

Lemma LinearSecular_identity_matrices_round_trip_witness :
  LinearSecularEvolutionOperator.apply_to_state_vector
    (LinearSecularEvolutionOperator.mk 0 two_circular_planets
       [[RtoC 1; RtoC 2]; [RtoC 2; RtoC 1]] [[RtoC 0; RtoC 1]; [RtoC 1; RtoC 0]]
       (np_eye 2) (np_eye 2))
    (flatten_rows two_rows)
  = Ok (flatten_rows two_rows).
Proof.
  apply LinearSecular_identity_matrices_round_trip; reflexivity.
Defined.

(** ** The resonance operators on state vectors *)

Lemma ecc_vector_conserves
    (self : LinearEccentricityResonancOperator.t) (vecs : list row) (i j : nat)
    (ri rj : row) :
  LinearEccentricityResonancOperator.constructed self ->
  LinearEccentricityResonancOperator.indexIn self = Z.of_nat (S i) ->
  LinearEccentricityResonancOperator.indexOut self = Z.of_nat (S j) ->
  i <> j ->
  nth_error vecs i = Some ri -> nth_error vecs j = Some rj ->
  exists ri' rj',
    LinearEccentricityResonancOperator.apply_to_state_vector self (flatten_rows vecs)
    = Ok (flatten_rows (list_update j (fun _ => rj') (list_update i (fun _ => ri') vecs)))
    /\ (r3 ri', r4 ri', r5 ri') = (r3 ri, r4 ri, r5 ri)
    /\ (r3 rj', r4 rj', r5 rj') = (r3 rj, r4 rj, r5 rj)
    /\ dot2 (LinearEccentricityResonancOperator.Lambdas_vec self) (r2 ri', r2 rj')
       = dot2 (LinearEccentricityResonancOperator.Lambdas_vec self) (r2 ri, r2 rj)
    /\ r2 ri' + r2 rj' - 0.5 * (r0 ri' ^ 2 + r1 ri' ^ 2) - 0.5 * (r0 rj' ^ 2 + r1 rj' ^ 2)
       = r2 ri + r2 rj - 0.5 * (r0 ri ^ 2 + r1 ri ^ 2) - 0.5 * (r0 rj ^ 2 + r1 rj ^ 2).
Proof.
  intros [_ Hinv] Hin Hout Hij Hi Hj.
  assert (Hilt : (i < List.length vecs)%nat) by (apply nth_error_Some; congruence).
  assert (Hjlt : (j < List.length vecs)%nat) by (apply nth_error_Some; congruence).
  unfold LinearEccentricityResonancOperator.apply_to_state_vector,
    LinearEccentricityResonancOperator.indices, _state_vector_to_individual_vectors.
  rewrite reshape_6_flatten_rows, Hin, Hout. cbn [bind].
  rewrite !(rows_get2_nat _ _ _ _ _ _ Hi Hj). cbn [bind].
  cbv beta iota zeta. cbn [row_get].
  set (theta := dot2 (LinearEccentricityResonancOperator.res_vec self) (r3 ri, r3 rj)).
  destruct (LinearEccentricityResonancOperator.HK_of self (r1 ri, r1 rj) (r0 ri, r0 rj)
              (sin theta) (cos theta)) as [H K].
  destruct (LinearEccentricityResonancOperator._HKmap self H K (sin theta) (cos theta))
    as [H1 K1].
  destruct (LinearEccentricityResonancOperator._HK_to_etakappa self H1 K1
              (sin theta) (cos theta)) as [[e1 e2] [k1 k2]].
  rewrite rows_set2_nat by assumption. cbn [bind].
  rewrite rows_set2_nat by (rewrite !list_update_length; assumption). cbn [bind].
  rewrite rows_set2_nat by (rewrite !list_update_length; assumption). cbn [bind].
  rewrite (three_rows_set2 vecs i j _ _ _ _ _ _ _ _ Hij Hi Hj).
  cbn [fst snd].
  match goal with
  | |- context [matvec2 _ (?c1, ?c2)] =>
      destruct (Lambdas_Mtrx_solves _ _ c1 c2 Hinv) as [Hdot Hsum];
      destruct (matvec2 (LinearEccentricityResonancOperator.Lambdas_Mtrx self) (c1, c2))
        as [L1 L2] eqn:HL
  end.
  do 2 eexists. split; [reflexivity|].
  cbn [row_set r0 r1 r2 r3 r4 r5 fst snd].
  split; [reflexivity|]. split; [reflexivity|].
  split.
  - rewrite Hdot. reflexivity.
  - unfold sum2 in Hsum. cbn [fst snd] in Hsum.
    unfold vscale2, vadd2, vmap2, sum2 in Hsum. cbn [fst snd] in Hsum. lra.
Qed.

Lemma inc_vector_conserves
    (self : LinearInclinationResonancOperator.t) (vecs : list row) (i j : nat)
    (ri rj : row) :
  LinearInclinationResonancOperator.constructed self ->
  LinearInclinationResonancOperator.indexIn self = Z.of_nat (S i) ->
  LinearInclinationResonancOperator.indexOut self = Z.of_nat (S j) ->
  i <> j ->
  nth_error vecs i = Some ri -> nth_error vecs j = Some rj ->
  exists ri' rj',
    LinearInclinationResonancOperator.apply_to_state_vector self (flatten_rows vecs)
    = Ok (flatten_rows (list_update j (fun _ => rj') (list_update i (fun _ => ri') vecs)))
    /\ (r0 ri', r1 ri', r3 ri') = (r0 ri, r1 ri, r3 ri)
    /\ (r0 rj', r1 rj', r3 rj') = (r0 rj, r1 rj, r3 rj)
    /\ dot2 (LinearInclinationResonancOperator.Lambdas_vec self) (r2 ri', r2 rj')
       = dot2 (LinearInclinationResonancOperator.Lambdas_vec self) (r2 ri, r2 rj)
    /\ r2 ri' + r2 rj' - 0.5 * (r5 ri' ^ 2 + r4 ri' ^ 2) - 0.5 * (r5 rj' ^ 2 + r4 rj' ^ 2)
       = r2 ri + r2 rj - 0.5 * (r5 ri ^ 2 + r4 ri ^ 2) - 0.5 * (r5 rj ^ 2 + r4 rj ^ 2).
Proof.
  intros [_ Hinv] Hin Hout Hij Hi Hj.
  assert (Hilt : (i < List.length vecs)%nat) by (apply nth_error_Some; congruence).
  assert (Hjlt : (j < List.length vecs)%nat) by (apply nth_error_Some; congruence).
  unfold LinearInclinationResonancOperator.apply_to_state_vector,
    LinearInclinationResonancOperator.indices, _state_vector_to_individual_vectors.
  rewrite reshape_6_flatten_rows, Hin, Hout. cbn [bind].
  rewrite !(rows_get2_nat _ _ _ _ _ _ Hi Hj). cbn [bind].
  cbv beta iota zeta. cbn [row_get].
  set (theta := dot2 (LinearInclinationResonancOperator.res_vec self) (r3 ri, r3 rj)).
  destruct (LinearInclinationResonancOperator._RSmap self _ _ (sin theta) (cos theta))
    as [R1 S1].
  destruct (LinearInclinationResonancOperator._RS_to_rhosigma self R1 S1)
    as [[rh1 rh2] [sg1 sg2]].
  rewrite rows_set2_nat by assumption. cbn [bind].
  rewrite rows_set2_nat by (rewrite !list_update_length; assumption). cbn [bind].
  rewrite rows_set2_nat by (rewrite !list_update_length; assumption). cbn [bind].
  rewrite (three_rows_set2 vecs i j _ _ _ _ _ _ _ _ Hij Hi Hj).
  cbn [fst snd].
  match goal with
  | |- context [matvec2 _ (?c1, ?c2)] =>
      destruct (Lambdas_Mtrx_solves _ _ c1 c2 Hinv) as [Hdot Hsum];
      destruct (matvec2 (LinearInclinationResonancOperator.Lambdas_Mtrx self) (c1, c2))
        as [L1 L2] eqn:HL
  end.
  do 2 eexists. split; [reflexivity|].
  cbn [row_set r0 r1 r2 r3 r4 r5 fst snd].
  split; [reflexivity|]. split; [reflexivity|].
  split.
  - rewrite Hdot. reflexivity.
  - unfold sum2 in Hsum. cbn [fst snd] in Hsum.
    unfold vscale2, vadd2, vmap2, sum2 in Hsum. cbn [fst snd] in Hsum. lra.
Qed.

(** [apply_to_state_vector] of the two linear resonance operators, on a
    vector in which the two bodies are two different rows: the call
    returns, only the rows of the two bodies change, and in them the slots
    the operator does not advance are kept ([l], [sigma], [rho] for the
    eccentricity operator; [kappa], [eta], [l] for the inclination
    operator).  The quantity [Lambdas_vec . (LambdaIn, LambdaOut)] and the
    quantity [LambdaIn + LambdaOut] minus the sum over the two bodies of
    [(kappa^2 + eta^2)/2] (respectively [(rho^2 + sigma^2)/2]), read in the
    vector, are the same after the call as before. *)
Theorem resonance_apply_to_state_vector_conserves (vecs : list row) (i j : nat) (ri rj : row) :
  i <> j -> nth_error vecs i = Some ri -> nth_error vecs j = Some rj ->
  (forall self : LinearEccentricityResonancOperator.t,
      LinearEccentricityResonancOperator.constructed self ->
      LinearEccentricityResonancOperator.indexIn self = Z.of_nat (S i) ->
      LinearEccentricityResonancOperator.indexOut self = Z.of_nat (S j) ->
      exists ri' rj',
        LinearEccentricityResonancOperator.apply_to_state_vector self (flatten_rows vecs)
        = Ok (flatten_rows (list_update j (fun _ => rj') (list_update i (fun _ => ri') vecs)))
        /\ (r3 ri', r4 ri', r5 ri') = (r3 ri, r4 ri, r5 ri)
        /\ (r3 rj', r4 rj', r5 rj') = (r3 rj, r4 rj, r5 rj)
        /\ dot2 (LinearEccentricityResonancOperator.Lambdas_vec self) (r2 ri', r2 rj')
           = dot2 (LinearEccentricityResonancOperator.Lambdas_vec self) (r2 ri, r2 rj)
        /\ r2 ri' + r2 rj' - 0.5 * (r0 ri' ^ 2 + r1 ri' ^ 2) - 0.5 * (r0 rj' ^ 2 + r1 rj' ^ 2)
           = r2 ri + r2 rj - 0.5 * (r0 ri ^ 2 + r1 ri ^ 2) - 0.5 * (r0 rj ^ 2 + r1 rj ^ 2))
  /\ (forall self : LinearInclinationResonancOperator.t,
        LinearInclinationResonancOperator.constructed self ->
        LinearInclinationResonancOperator.indexIn self = Z.of_nat (S i) ->
        LinearInclinationResonancOperator.indexOut self = Z.of_nat (S j) ->
        exists ri' rj',
          LinearInclinationResonancOperator.apply_to_state_vector self (flatten_rows vecs)
          = Ok (flatten_rows (list_update j (fun _ => rj') (list_update i (fun _ => ri') vecs)))
          /\ (r0 ri', r1 ri', r3 ri') = (r0 ri, r1 ri, r3 ri)
          /\ (r0 rj', r1 rj', r3 rj') = (r0 rj, r1 rj, r3 rj)
          /\ dot2 (LinearInclinationResonancOperator.Lambdas_vec self) (r2 ri', r2 rj')
             = dot2 (LinearInclinationResonancOperator.Lambdas_vec self) (r2 ri, r2 rj)
          /\ r2 ri' + r2 rj' - 0.5 * (r5 ri' ^ 2 + r4 ri' ^ 2) - 0.5 * (r5 rj' ^ 2 + r4 rj' ^ 2)
             = r2 ri + r2 rj - 0.5 * (r5 ri ^ 2 + r4 ri ^ 2) - 0.5 * (r5 rj ^ 2 + r4 rj ^ 2)).
Proof.
  intros Hij Hi Hj. split.
  - intros self Hc Hin Hout.
    exact (ecc_vector_conserves self vecs i j ri rj Hc Hin Hout Hij Hi Hj).
  - intros self Hc Hin Hout.
    exact (inc_vector_conserves self vecs i j ri rj Hc Hin Hout Hij Hi Hj).
Qed.

Lemma resonance_apply_to_state_vector_conserves_witness :
  (exists ri' rj',
     LinearEccentricityResonancOperator.apply_to_state_vector kappa1_ecc_operator
       (flatten_rows two_rows)
     = Ok (flatten_rows [ri'; rj'])
     /\ dot2 (LinearEccentricityResonancOperator.Lambdas_vec kappa1_ecc_operator)
             (r2 ri', r2 rj') = -2 * 1 + -1 * 2
     /\ r2 ri' + r2 rj' - 0.5 * (r0 ri' ^ 2 + r1 ri' ^ 2) - 0.5 * (r0 rj' ^ 2 + r1 rj' ^ 2)
        = 2)
  /\ (exists ri' rj',
        LinearInclinationResonancOperator.apply_to_state_vector sigma1_inc_operator
          (flatten_rows two_rows)
        = Ok (flatten_rows [ri'; rj'])
        /\ dot2 (LinearInclinationResonancOperator.Lambdas_vec sigma1_inc_operator)
                (r2 ri', r2 rj') = -2 * 1 + -1 * 2
        /\ r2 ri' + r2 rj' - 0.5 * (r5 ri' ^ 2 + r4 ri' ^ 2) - 0.5 * (r5 rj' ^ 2 + r4 rj' ^ 2)
           = 2).
Proof.
  destruct (resonance_apply_to_state_vector_conserves two_rows 0 1
              (mk_row 1 0 1 0 1 0) (mk_row 0 1 2 0 0 1))
    as [Hecc Hinc].
  - discriminate.
  - reflexivity.
  - reflexivity.
  - split.
    + destruct (Hecc kappa1_ecc_operator)
        as (ri' & rj' & Happly & _ & _ & HC1 & HC2).
      * split; [reflexivity|].
        apply np_linalg_inv2_regular. unfold det2. simpl. lra.
      * reflexivity.
      * reflexivity.
      * exists ri', rj'. split; [exact Happly|]. split.
        -- rewrite HC1. unfold dot2. simpl. lra.
        -- rewrite HC2. simpl. lra.
    + destruct (Hinc sigma1_inc_operator)
        as (ri' & rj' & Happly & _ & _ & HC1 & HC2).
      * split; [reflexivity|].
        apply np_linalg_inv2_regular. unfold det2. simpl. lra.
      * reflexivity.
      * reflexivity.
      * exists ri', rj'. split; [exact Happly|]. split.
        -- rewrite HC1. unfold dot2. simpl. lra.
        -- rewrite HC2. simpl. lra.
Defined.

Lemma cosh_plus (a b : R) : cosh (a + b) = cosh a * cosh b + sinh a * sinh b.
Proof.
  unfold cosh, sinh. rewrite Ropp_plus_distr, !exp_plus. field.
Qed.

Lemma sinh_plus (a b : R) : sinh (a + b) = sinh a * cosh b + cosh a * sinh b.
Proof.
  unfold cosh, sinh. rewrite Ropp_plus_distr, !exp_plus. field.
Qed.

Lemma matvec2_left_inverse (A B : mat2) (v : vec2) :
  matmul2 A B = ((1, 0), (0, 1)) -> matvec2 A (matvec2 B v) = v.
Proof.
  destruct A as [[a11 a12] [a21 a22]], B as [[b11 b12] [b21 b22]], v as [x y].
  unfold matmul2, matvec2, transpose2, dot2. cbn [fst snd].
  intros Heq. injection Heq as H11 H12 H21 H22.
  f_equal.
  - replace (a11 * (b11 * x + b12 * y) + a12 * (b21 * x + b22 * y))
      with ((a11 * b11 + a12 * b21) * x + (a11 * b12 + a12 * b22) * y) by ring.
    rewrite H11, H12. ring.
  - replace (a21 * (b11 * x + b12 * y) + a22 * (b21 * x + b22 * y))
      with ((a21 * b11 + a22 * b21) * x + (a21 * b12 + a22 * b22) * y) by ring.
    rewrite H21, H22. ring.
Qed.

Lemma ecc_HK_of_etakappa (self : LinearEccentricityResonancOperator.t)
    (H K : vec2) (s c : R) :
  matmul2 (LinearEccentricityResonancOperator.Ttr self)
          (LinearEccentricityResonancOperator.T self) = ((1, 0), (0, 1)) ->
  LinearEccentricityResonancOperator.HK_of self
    (fst (LinearEccentricityResonancOperator._HK_to_etakappa self H K s c))
    (snd (LinearEccentricityResonancOperator._HK_to_etakappa self H K s c)) s c
  = (H, K).
Proof.
  intros Horth.
  unfold LinearEccentricityResonancOperator.HK_of,
    LinearEccentricityResonancOperator._HK_to_etakappa. cbn [fst snd].
  set (off := vscale2 (0.5 * _rt2) (LinearEccentricityResonancOperator.Ainv_dot_b self)).
  replace (vsub2 (vadd2 (matvec2 (LinearEccentricityResonancOperator.T self) H)
                        (vscale2_r off s)) (vscale2_r off s))
    with (matvec2 (LinearEccentricityResonancOperator.T self) H)
    by (unfold vsub2, vadd2; cbn [fst snd];
        destruct (matvec2 _ H); cbn [fst snd]; f_equal; ring).
  replace (vadd2 (vsub2 (matvec2 (LinearEccentricityResonancOperator.T self) K)
                        (vscale2_r off c)) (vscale2_r off c))
    with (matvec2 (LinearEccentricityResonancOperator.T self) K)
    by (unfold vsub2, vadd2; cbn [fst snd];
        destruct (matvec2 _ K); cbn [fst snd]; f_equal; ring).
  rewrite !(matvec2_left_inverse _ _ _ Horth). reflexivity.
Qed.

Lemma flow_step_compose (ch1 sh1 ch2 sh2 s c h k : R) :
  s * s + c * c = 1 ->
  let s2 := 2 * s * c in
  let c2 := c * c - s * s in
  let k1 := ch1 * k + sh1 * (s2 * k + c2 * h) in
  let h1 := ch1 * h + sh1 * (c2 * k - s2 * h) in
  ch2 * h1 + sh2 * (c2 * k1 - s2 * h1)
  = (ch1 * ch2 + sh1 * sh2) * h + (sh1 * ch2 + ch1 * sh2) * (c2 * k - s2 * h)
  /\ ch2 * k1 + sh2 * (s2 * k1 + c2 * h1)
     = (ch1 * ch2 + sh1 * sh2) * k + (sh1 * ch2 + ch1 * sh2) * (s2 * k + c2 * h).
Proof.
  intros Hsc s2 c2 k1 h1.
  assert (H1 : s2 * s2 + c2 * c2 = 1).
  { unfold s2, c2.
    replace (2 * s * c * (2 * s * c) + (c * c - s * s) * (c * c - s * s))
      with ((s * s + c * c) * (s * s + c * c)) by ring.
    rewrite Hsc. ring. }
  unfold k1, h1. split.
  - replace (ch2 * (ch1 * h + sh1 * (c2 * k - s2 * h))
             + sh2 * (c2 * (ch1 * k + sh1 * (s2 * k + c2 * h))
                      - s2 * (ch1 * h + sh1 * (c2 * k - s2 * h))))
      with (ch1 * ch2 * h + (sh1 * ch2 + ch1 * sh2) * (c2 * k - s2 * h)
            + sh1 * sh2 * (s2 * s2 + c2 * c2) * h) by ring.
    rewrite H1. ring.
  - replace (ch2 * (ch1 * k + sh1 * (s2 * k + c2 * h))
             + sh2 * (s2 * (ch1 * k + sh1 * (s2 * k + c2 * h))
                      + c2 * (ch1 * h + sh1 * (c2 * k - s2 * h))))
      with (ch1 * ch2 * k + (sh1 * ch2 + ch1 * sh2) * (s2 * k + c2 * h)
            + sh1 * sh2 * (s2 * s2 + c2 * c2) * k) by ring.
    rewrite H1. ring.
Qed.

Lemma ecc_HKmap_compose (self : LinearEccentricityResonancOperator.t)
    (dt1 dt2 : R) (H K : vec2) (s c : R) :
  s * s + c * c = 1 ->
  LinearEccentricityResonancOperator._HKmap
    (LinearEccentricityResonancOperator.set_dt dt2 self)
    (fst (LinearEccentricityResonancOperator._HKmap
            (LinearEccentricityResonancOperator.set_dt dt1 self) H K s c))
    (snd (LinearEccentricityResonancOperator._HKmap
            (LinearEccentricityResonancOperator.set_dt dt1 self) H K s c)) s c
  = LinearEccentricityResonancOperator._HKmap
      (LinearEccentricityResonancOperator.set_dt (dt1 + dt2) self) H K s c.
Proof.
  intros Hsc.
  unfold LinearEccentricityResonancOperator._HKmap,
    LinearEccentricityResonancOperator.set_dt.
  cbn [LinearEccentricityResonancOperator.cosh_lmbda_dt
       LinearEccentricityResonancOperator.sinh_lmbda_dt fst snd].
  destruct (LinearEccentricityResonancOperator.eigs self) as [l1 l2].
  destruct H as [h1 h2], K as [k1 k2].
  unfold vadd2, vsub2, vmul2, vscale2, vmap2. cbn [fst snd].
  rewrite !Rmult_plus_distr_r, !cosh_plus, !sinh_plus.
  destruct (flow_step_compose (cosh (dt1 * l1)) (sinh (dt1 * l1))
              (cosh (dt2 * l1)) (sinh (dt2 * l1)) s c h1 k1 Hsc) as [Ha Hb].
  destruct (flow_step_compose (cosh (dt1 * l2)) (sinh (dt1 * l2))
              (cosh (dt2 * l2)) (sinh (dt2 * l2)) s c h2 k2 Hsc) as [Hc Hd].
  cbv zeta in Ha, Hb, Hc, Hd.
  rewrite Ha, Hb, Hc, Hd. reflexivity.
Qed.

Lemma ecc_apply_to_state_vector_rows
    (self : LinearEccentricityResonancOperator.t) (vecs : list row) (i j : nat)
    (ri rj : row) :
  LinearEccentricityResonancOperator.indexIn self = Z.of_nat (S i) ->
  LinearEccentricityResonancOperator.indexOut self = Z.of_nat (S j) ->
  i <> j ->
  nth_error vecs i = Some ri -> nth_error vecs j = Some rj ->
  LinearEccentricityResonancOperator.apply_to_state_vector self (flatten_rows vecs)
  = Ok (flatten_rows
          (list_update j (fun _ => snd (ecc_step_rows self ri rj))
             (list_update i (fun _ => fst (ecc_step_rows self ri rj)) vecs))).
Proof.
  intros Hin Hout Hij Hi Hj.
  assert (Hilt : (i < List.length vecs)%nat) by (apply nth_error_Some; congruence).
  assert (Hjlt : (j < List.length vecs)%nat) by (apply nth_error_Some; congruence).
  unfold LinearEccentricityResonancOperator.apply_to_state_vector,
    LinearEccentricityResonancOperator.indices, _state_vector_to_individual_vectors.
  rewrite reshape_6_flatten_rows, Hin, Hout. cbn [bind].
  rewrite !(rows_get2_nat _ _ _ _ _ _ Hi Hj). cbn [bind].
  unfold ecc_step_rows.
  cbv beta iota zeta. cbn [row_get].
  set (theta := dot2 (LinearEccentricityResonancOperator.res_vec self) (r3 ri, r3 rj)).
  destruct (LinearEccentricityResonancOperator.HK_of self (r1 ri, r1 rj) (r0 ri, r0 rj)
              (sin theta) (cos theta)) as [H K].
  cbn [fst snd].
  destruct (LinearEccentricityResonancOperator._HKmap self H K (sin theta) (cos theta))
    as [H1 K1].
  cbn [fst snd].
  destruct (LinearEccentricityResonancOperator._HK_to_etakappa self H1 K1
              (sin theta) (cos theta)) as [[e1 e2] [k1 k2]].
  rewrite rows_set2_nat by assumption. cbn [bind].
  rewrite rows_set2_nat by (rewrite !list_update_length; assumption). cbn [bind].
  rewrite rows_set2_nat by (rewrite !list_update_length; assumption). cbn [bind].
  rewrite (three_rows_set2 vecs i j _ _ _ _ _ _ _ _ Hij Hi Hj).
  cbn [fst snd row_set r0 r1 r2 r3 r4 r5]. reflexivity.
Qed.

Lemma list_update_twice {A : Type} (i j : nat) (a b a' b' : A) (xs : list A) :
  list_update j (fun _ => b') (list_update i (fun _ => a')
    (list_update j (fun _ => b) (list_update i (fun _ => a) xs)))
  = list_update j (fun _ => b') (list_update i (fun _ => a') xs).
Proof.
  apply nth_error_ext. intros m. rewrite !nth_error_list_update.
  destruct (Nat.eqb j m), (Nat.eqb i m), (nth_error xs m); reflexivity.
Qed.

Lemma nth_error_two_updates {A : Type} (i j : nat) (a b : A) (xs : list A) :
  i <> j -> (i < List.length xs)%nat -> (j < List.length xs)%nat ->
  nth_error (list_update j (fun _ => b) (list_update i (fun _ => a) xs)) i = Some a
  /\ nth_error (list_update j (fun _ => b) (list_update i (fun _ => a) xs)) j = Some b.
Proof.
  intros Hij Hi Hj. rewrite !nth_error_list_update.
  rewrite Nat.eqb_refl.
  destruct (Nat.eqb_spec j i) as [?|_]; [congruence|].
  destruct (Nat.eqb_spec i j) as [?|_]; [congruence|].
  rewrite Nat.eqb_refl.
  destruct (nth_error xs i) eqn:Ei; [|apply nth_error_None in Ei; lia].
  destruct (nth_error xs j) eqn:Ej; [|apply nth_error_None in Ej; lia].
  split; reflexivity.
Qed.

Lemma ecc_step_rows_compose (self : LinearEccentricityResonancOperator.t)
    (dt1 dt2 : R) (ri rj : row) :
  LinearEccentricityResonancOperator.constructed self ->
  matmul2 (LinearEccentricityResonancOperator.Ttr self)
          (LinearEccentricityResonancOperator.T self) = ((1, 0), (0, 1)) ->
  ecc_step_rows (LinearEccentricityResonancOperator.set_dt dt2 self)
    (fst (ecc_step_rows (LinearEccentricityResonancOperator.set_dt dt1 self) ri rj))
    (snd (ecc_step_rows (LinearEccentricityResonancOperator.set_dt dt1 self) ri rj))
  = ecc_step_rows (LinearEccentricityResonancOperator.set_dt (dt1 + dt2) self) ri rj.
Proof.
  intros [_ Hinv] Horth.
  unfold ecc_step_rows. cbv zeta. cbn [fst snd r0 r1 r2 r3 r4 r5].
  change (LinearEccentricityResonancOperator.res_vec
            (LinearEccentricityResonancOperator.set_dt _ self))
    with (LinearEccentricityResonancOperator.res_vec self).
  set (theta := dot2 (LinearEccentricityResonancOperator.res_vec self) (r3 ri, r3 rj)).
  set (s := sin theta). set (c := cos theta).
  assert (Hsc : s * s + c * c = 1).
  { unfold s, c. pose proof (sin2_cos2 theta) as Hsc. unfold Rsqr in Hsc. exact Hsc. }
  change (LinearEccentricityResonancOperator.Lambdas_vec
            (LinearEccentricityResonancOperator.set_dt _ self))
    with (LinearEccentricityResonancOperator.Lambdas_vec self).
  change (LinearEccentricityResonancOperator.Lambdas_Mtrx
            (LinearEccentricityResonancOperator.set_dt _ self))
    with (LinearEccentricityResonancOperator.Lambdas_Mtrx self).
  change (LinearEccentricityResonancOperator.HK_of
            (LinearEccentricityResonancOperator.set_dt dt1 self))
    with (LinearEccentricityResonancOperator.HK_of self).
  change (LinearEccentricityResonancOperator.HK_of
            (LinearEccentricityResonancOperator.set_dt dt2 self))
    with (LinearEccentricityResonancOperator.HK_of self).
  change (LinearEccentricityResonancOperator.HK_of
            (LinearEccentricityResonancOperator.set_dt (dt1 + dt2) self))
    with (LinearEccentricityResonancOperator.HK_of self).
  change (LinearEccentricityResonancOperator._HK_to_etakappa
            (LinearEccentricityResonancOperator.set_dt dt1 self))
    with (LinearEccentricityResonancOperator._HK_to_etakappa self).
  change (LinearEccentricityResonancOperator._HK_to_etakappa
            (LinearEccentricityResonancOperator.set_dt dt2 self))
    with (LinearEccentricityResonancOperator._HK_to_etakappa self).
  change (LinearEccentricityResonancOperator._HK_to_etakappa
            (LinearEccentricityResonancOperator.set_dt (dt1 + dt2) self))
    with (LinearEccentricityResonancOperator._HK_to_etakappa self).
  set (HK := LinearEccentricityResonancOperator.HK_of self (r1 ri, r1 rj) (r0 ri, r0 rj) s c).
  set (HK1 := LinearEccentricityResonancOperator._HKmap
                (LinearEccentricityResonancOperator.set_dt dt1 self) (fst HK) (snd HK) s c).
  set (ek1 := LinearEccentricityResonancOperator._HK_to_etakappa self (fst HK1) (snd HK1) s c).
  replace (fst (fst ek1), snd (fst ek1)) with (fst ek1) by (destruct ek1 as [[? ?] ?]; reflexivity).
  replace (fst (snd ek1), snd (snd ek1)) with (snd ek1) by (destruct ek1 as [? [? ?]]; reflexivity).
  assert (Hback : LinearEccentricityResonancOperator.HK_of self (fst ek1) (snd ek1) s c
                  = (fst HK1, snd HK1))
    by (unfold ek1; apply ecc_HK_of_etakappa, Horth).
  rewrite Hback. cbn [fst snd].
  assert (Hflow : LinearEccentricityResonancOperator._HKmap
                    (LinearEccentricityResonancOperator.set_dt dt2 self)
                    (fst HK1) (snd HK1) s c
                  = LinearEccentricityResonancOperator._HKmap
                      (LinearEccentricityResonancOperator.set_dt (dt1 + dt2) self)
                      (fst HK) (snd HK) s c)
    by (unfold HK1; apply ecc_HKmap_compose, Hsc).
  rewrite Hflow.
  set (HK2 := LinearEccentricityResonancOperator._HKmap
                (LinearEccentricityResonancOperator.set_dt (dt1 + dt2) self)
                (fst HK) (snd HK) s c).
  set (ek2 := LinearEccentricityResonancOperator._HK_to_etakappa self (fst HK2) (snd HK2) s c).
  match goal with
  | |- context [matvec2 (LinearEccentricityResonancOperator.Lambdas_Mtrx self)
                        (?c1, ?c2 + sum2 (vscale2 0.5 (vadd2 (vmap2 _ (snd ek1)) _)))] =>
      destruct (Lambdas_Mtrx_solves _ _ c1
                  (c2 + sum2 (vscale2 0.5 (vadd2 (vmap2 (fun v => v ^ 2) (snd ek1))
                                                 (vmap2 (fun v => v ^ 2) (fst ek1)))))
                  Hinv) as [Hdot Hsum];
      set (L1 := matvec2 (LinearEccentricityResonancOperator.Lambdas_Mtrx self)
                   (c1, c2 + sum2 (vscale2 0.5 (vadd2 (vmap2 (fun v => v ^ 2) (snd ek1))
                                                      (vmap2 (fun v => v ^ 2) (fst ek1)))))) in *
  end.
  replace (fst L1, snd L1) with L1 by (destruct L1; reflexivity).
  rewrite Hdot, Hsum.
  set (G1 := sum2 (vscale2 0.5 (vadd2 (vmap2 (fun v => v ^ 2) (snd ek1))
                                      (vmap2 (fun v => v ^ 2) (fst ek1))))).
  match goal with
  | |- context [?x + G1 - G1] => replace (x + G1 - G1) with x by lra
  end.
  reflexivity.
Qed.

(** Two calls of [LinearEccentricityResonancOperator.apply_to_state_vector],
    with the timesteps [dt1] and [dt2], return what one call with the
    timestep [dt1 + dt2] returns, when the eigenvectors are orthonormal
    ([Ttr @ T] is the identity) and the two bodies are two different rows of
    the vector. *)
Theorem ecc_apply_to_state_vector_composes
    (self : LinearEccentricityResonancOperator.t) (dt1 dt2 : R)
    (vecs : list row) (i j : nat) :
  LinearEccentricityResonancOperator.constructed self ->
  matmul2 (LinearEccentricityResonancOperator.Ttr self)
          (LinearEccentricityResonancOperator.T self) = ((1, 0), (0, 1)) ->
  LinearEccentricityResonancOperator.indexIn self = Z.of_nat (S i) ->
  LinearEccentricityResonancOperator.indexOut self = Z.of_nat (S j) ->
  i <> j -> (i < List.length vecs)%nat -> (j < List.length vecs)%nat ->
  (v1 <- LinearEccentricityResonancOperator.apply_to_state_vector
           (LinearEccentricityResonancOperator.set_dt dt1 self) (flatten_rows vecs) ;;
   LinearEccentricityResonancOperator.apply_to_state_vector
     (LinearEccentricityResonancOperator.set_dt dt2 self) v1)
  = LinearEccentricityResonancOperator.apply_to_state_vector
      (LinearEccentricityResonancOperator.set_dt (dt1 + dt2) self) (flatten_rows vecs).
Proof.
  intros Hc Horth Hin Hout Hij Hi Hj.
  destruct (nth_error vecs i) as [ri|] eqn:Eri; [|apply nth_error_None in Eri; lia].
  destruct (nth_error vecs j) as [rj|] eqn:Erj; [|apply nth_error_None in Erj; lia].
  rewrite (ecc_apply_to_state_vector_rows
             (LinearEccentricityResonancOperator.set_dt dt1 self) vecs i j ri rj
             Hin Hout Hij Eri Erj).
  cbn [bind].
  set (s1 := ecc_step_rows (LinearEccentricityResonancOperator.set_dt dt1 self) ri rj).
  destruct (nth_error_two_updates i j (fst s1) (snd s1) vecs Hij Hi Hj) as [E1 E2].
  rewrite (ecc_apply_to_state_vector_rows
             (LinearEccentricityResonancOperator.set_dt dt2 self) _ i j _ _
             Hin Hout Hij E1 E2).
  rewrite list_update_twice.
  unfold s1. rewrite (ecc_step_rows_compose self dt1 dt2 ri rj Hc Horth).
  symmetry.
  apply (ecc_apply_to_state_vector_rows
           (LinearEccentricityResonancOperator.set_dt (dt1 + dt2) self) vecs i j ri rj
           Hin Hout Hij Eri Erj).
Qed.

Lemma ecc_apply_to_state_vector_composes_witness :
  (v1 <- LinearEccentricityResonancOperator.apply_to_state_vector
           (LinearEccentricityResonancOperator.set_dt 1 kappa1_ecc_operator)
           (flatten_rows two_rows) ;;
   LinearEccentricityResonancOperator.apply_to_state_vector
     (LinearEccentricityResonancOperator.set_dt 2 kappa1_ecc_operator) v1)
  = LinearEccentricityResonancOperator.apply_to_state_vector
      (LinearEccentricityResonancOperator.set_dt (1 + 2) kappa1_ecc_operator)
      (flatten_rows two_rows).
Proof.
  apply (ecc_apply_to_state_vector_composes kappa1_ecc_operator 1 2 two_rows 0 1).
  - split; [reflexivity|].
    apply np_linalg_inv2_regular. unfold det2. simpl. lra.
  - unfold matmul2, transpose2, dot2. simpl. repeat f_equal; lra.
  - reflexivity.
  - reflexivity.
  - discriminate.
  - simpl. lia.
  - simpl. lia.
Defined.

Lemma Lambdas_Mtrx_left_inverse (Lv : vec2) (Mtrx : mat2) (L : vec2) :
  np_linalg_inv2 (Lv, (1, 1)) = Ok Mtrx ->
  matvec2 Mtrx (dot2 Lv L, sum2 L) = L.
Proof.
  destruct Lv as [a b], L as [x y]. unfold np_linalg_inv2.
  destruct (Req_dec_T _ 0) as [Hdet|Hdet]; [discriminate|].
  intros Heq; injection Heq as <-.
  unfold det2 in Hdet. cbn [fst snd] in Hdet.
  unfold sum2, matvec2, dot2, inverse2, det2; cbn [fst snd]. f_equal; field; lra.
Qed.

Lemma ecc_step_rows_zero (self : LinearEccentricityResonancOperator.t) (ri rj : row) :
  LinearEccentricityResonancOperator.constructed self ->
  matmul2 (LinearEccentricityResonancOperator.T self)
          (LinearEccentricityResonancOperator.Ttr self) = ((1, 0), (0, 1)) ->
  ecc_step_rows (LinearEccentricityResonancOperator.set_dt 0 self) ri rj = (ri, rj).
Proof.
  intros [_ Hinv] Horth.
  unfold ecc_step_rows. cbv zeta.
  change (LinearEccentricityResonancOperator.res_vec
            (LinearEccentricityResonancOperator.set_dt _ self))
    with (LinearEccentricityResonancOperator.res_vec self).
  change (LinearEccentricityResonancOperator.Lambdas_vec
            (LinearEccentricityResonancOperator.set_dt _ self))
    with (LinearEccentricityResonancOperator.Lambdas_vec self).
  change (LinearEccentricityResonancOperator.Lambdas_Mtrx
            (LinearEccentricityResonancOperator.set_dt _ self))
    with (LinearEccentricityResonancOperator.Lambdas_Mtrx self).
  set (theta := dot2 (LinearEccentricityResonancOperator.res_vec self) (r3 ri, r3 rj)).
  set (s := sin theta). set (c := cos theta).
  set (HK := LinearEccentricityResonancOperator.HK_of _ (r1 ri, r1 rj) (r0 ri, r0 rj) s c).
  assert (Hmap : LinearEccentricityResonancOperator._HKmap
                   (LinearEccentricityResonancOperator.set_dt 0 self) (fst HK) (snd HK) s c
                 = HK).
  { unfold LinearEccentricityResonancOperator._HKmap,
      LinearEccentricityResonancOperator.set_dt.
    cbn [LinearEccentricityResonancOperator.cosh_lmbda_dt
         LinearEccentricityResonancOperator.sinh_lmbda_dt].
    destruct HK as [[h1 h2] [k1 k2]].
    unfold vadd2, vsub2, vmul2, vscale2, vmap2. cbn [fst snd].
    rewrite !Rmult_0_l, cosh_0, sinh_0. repeat f_equal; ring. }
  rewrite Hmap.
  assert (Hek : LinearEccentricityResonancOperator._HK_to_etakappa
                  (LinearEccentricityResonancOperator.set_dt 0 self) (fst HK) (snd HK) s c
                = ((r1 ri, r1 rj), (r0 ri, r0 rj))).
  { unfold HK, LinearEccentricityResonancOperator._HK_to_etakappa,
      LinearEccentricityResonancOperator.HK_of,
      LinearEccentricityResonancOperator.set_dt.
    cbn [fst snd LinearEccentricityResonancOperator.T LinearEccentricityResonancOperator.Ttr
         LinearEccentricityResonancOperator.Ainv_dot_b].
    rewrite !(matvec2_left_inverse _ _ _ Horth).
    unfold vadd2, vsub2, vscale2_r, vscale2. cbn [fst snd]. repeat f_equal; ring. }
  rewrite Hek. cbn [fst snd].
  match goal with
  | |- context [matvec2 _ (?c1, ?x - ?g + ?g)] =>
      replace (x - g + g) with x by lra
  end.
  rewrite (Lambdas_Mtrx_left_inverse _ _ (r2 ri, r2 rj) Hinv). cbn [fst snd].
  destruct ri, rj. reflexivity.
Qed.

Lemma list_update_same {A : Type} (i j : nat) (a b : A) (xs : list A) :
  nth_error xs i = Some a -> nth_error xs j = Some b ->
  list_update j (fun _ => b) (list_update i (fun _ => a) xs) = xs.
Proof.
  intros Hi Hj. apply nth_error_ext. intros m. rewrite !nth_error_list_update.
  destruct (Nat.eqb_spec j m) as [Ej|_]; destruct (Nat.eqb_spec i m) as [Ei|_];
    subst; try reflexivity.
  - rewrite Hi in *. cbn [option_map]. congruence.
  - rewrite Hj. reflexivity.
  - rewrite Hi. reflexivity.
Qed.

(** A step of [LinearEccentricityResonancOperator.apply_to_state_vector]
    with the timestep [dt] followed by a step with [-dt] returns the
    vector it started from, when the matrix of eigenvectors is orthogonal
    and the two bodies are two different rows of the vector. *)
Theorem ecc_apply_to_state_vector_back
    (self : LinearEccentricityResonancOperator.t) (dt : R)
    (vecs : list row) (i j : nat) :
  LinearEccentricityResonancOperator.constructed self ->
  matmul2 (LinearEccentricityResonancOperator.Ttr self)
          (LinearEccentricityResonancOperator.T self) = ((1, 0), (0, 1)) ->
  matmul2 (LinearEccentricityResonancOperator.T self)
          (LinearEccentricityResonancOperator.Ttr self) = ((1, 0), (0, 1)) ->
  LinearEccentricityResonancOperator.indexIn self = Z.of_nat (S i) ->
  LinearEccentricityResonancOperator.indexOut self = Z.of_nat (S j) ->
  i <> j -> (i < List.length vecs)%nat -> (j < List.length vecs)%nat ->
  (v1 <- LinearEccentricityResonancOperator.apply_to_state_vector
           (LinearEccentricityResonancOperator.set_dt dt self) (flatten_rows vecs) ;;
   LinearEccentricityResonancOperator.apply_to_state_vector
     (LinearEccentricityResonancOperator.set_dt (- dt) self) v1)
  = Ok (flatten_rows vecs).
Proof.
  intros Hc Horth Horth' Hin Hout Hij Hi Hj.
  destruct (nth_error vecs i) as [ri|] eqn:Eri; [|apply nth_error_None in Eri; lia].
  destruct (nth_error vecs j) as [rj|] eqn:Erj; [|apply nth_error_None in Erj; lia].
  rewrite (ecc_apply_to_state_vector_rows
             (LinearEccentricityResonancOperator.set_dt dt self) vecs i j ri rj
             Hin Hout Hij Eri Erj).
  cbn [bind].
  set (s1 := ecc_step_rows (LinearEccentricityResonancOperator.set_dt dt self) ri rj).
  destruct (nth_error_two_updates i j (fst s1) (snd s1) vecs Hij Hi Hj) as [E1 E2].
  rewrite (ecc_apply_to_state_vector_rows
             (LinearEccentricityResonancOperator.set_dt (- dt) self) _ i j _ _
             Hin Hout Hij E1 E2).
  rewrite list_update_twice.
  unfold s1. rewrite (ecc_step_rows_compose self dt (- dt) ri rj Hc Horth).
  rewrite Rplus_opp_r, (ecc_step_rows_zero self ri rj Hc Horth'). cbn [fst snd].
  rewrite (list_update_same i j ri rj vecs Eri Erj). reflexivity.
Qed.

Lemma ecc_apply_to_state_vector_back_witness :
  (v1 <- LinearEccentricityResonancOperator.apply_to_state_vector
           (LinearEccentricityResonancOperator.set_dt 1 kappa1_ecc_operator)
           (flatten_rows two_rows) ;;
   LinearEccentricityResonancOperator.apply_to_state_vector
     (LinearEccentricityResonancOperator.set_dt (- 1) kappa1_ecc_operator) v1)
  = Ok (flatten_rows two_rows).
Proof.
  apply (ecc_apply_to_state_vector_back kappa1_ecc_operator 1 two_rows 0 1).
  - split; [reflexivity|].
    apply np_linalg_inv2_regular. unfold det2. simpl. lra.
  - unfold matmul2, transpose2, dot2. simpl. repeat f_equal; lra.
  - unfold matmul2, transpose2, dot2. simpl. repeat f_equal; lra.
  - reflexivity.
  - reflexivity.
  - discriminate.
  - simpl. lia.
  - simpl. lia.
Defined.

(** ** The parameters of [PoincareHamiltonian.__init__] *)

Lemma dict_get_set (d : dict) (k k' : symbol) (v : R) :
  dict_get (dict_set d k v) k' = if symbol_eq_dec k' k then Ok v else dict_get d k'.
Proof.
  induction d as [|[k0 v0] d IH]; cbn [dict_set dict_get].
  - destruct (symbol_eq_dec k' k); reflexivity.
  - destruct (symbol_eq_dec k k0) as [->|Hk]; cbn [dict_get].
    + destruct (symbol_eq_dec k' k0); reflexivity.
    + destruct (symbol_eq_dec k' k0) as [->|Hk'].
      * destruct (symbol_eq_dec k0 k); [congruence|reflexivity].
      * exact IH.
Qed.

Section AlphaTable.
Variable pvars : Poincare.t.
Variables a b : Z.

(** The entry of [alpha_{a,b}] holds the ratio of the semi-major axes of
    the particles [a] and [b]. *)
Let holds_ratio (Hparams : dict) : Prop :=
  exists pa pb,
    Poincare.PoincareParticles.getitem pvars a = Ok pa
    /\ Poincare.PoincareParticles.getitem pvars b = Ok pb
    /\ dict_get Hparams (sym_alpha a b) = Ok (PoincareParticle.a pa / PoincareParticle.a pb).

Lemma init_alpha_step (i j : nat) (Hp Hp' : dict) :
  PoincareHamiltonian.init_alpha pvars i Hp j = Ok Hp' ->
  (holds_ratio Hp -> holds_ratio Hp')
  /\ (a = Z.of_nat i -> b = Z.of_nat j -> holds_ratio Hp')
  /\ (~ (a = Z.of_nat i /\ b = Z.of_nat j) ->
      dict_get Hp' (sym_alpha a b) = dict_get Hp (sym_alpha a b)).
Proof.
  unfold PoincareHamiltonian.init_alpha. intros H.
  bind_inv H. bind_inv H. injection H as <-.
  rewrite dict_get_set.
  destruct (symbol_eq_dec (sym_alpha a b) (sym_alpha (Z.of_nat i) (Z.of_nat j)))
    as [Heq|Hne].
  - injection Heq as -> ->. split; [|split].
    + intros _. exists x, x0. rewrite dict_get_set.
      destruct (symbol_eq_dec _ _); [auto|congruence].
    + intros _ _. exists x, x0. rewrite dict_get_set.
      destruct (symbol_eq_dec _ _); [auto|congruence].
    + intros Hn. exfalso. apply Hn. auto.
  - split; [|split].
    + intros (pa & pb & Ha & Hb & Hget). exists pa, pb. rewrite dict_get_set.
      destruct (symbol_eq_dec _ _); [congruence|auto].
    + intros -> ->. congruence.
    + reflexivity.
Qed.

Lemma init_alpha_fold (i : nat) (js : list nat) (Hp Hp' : dict) :
  foldM (PoincareHamiltonian.init_alpha pvars i) js Hp = Ok Hp' ->
  (holds_ratio Hp -> holds_ratio Hp')
  /\ (a = Z.of_nat i -> (exists j, In j js /\ b = Z.of_nat j) -> holds_ratio Hp')
  /\ (~ (a = Z.of_nat i /\ exists j, In j js /\ b = Z.of_nat j) ->
      dict_get Hp' (sym_alpha a b) = dict_get Hp (sym_alpha a b)).
Proof.
  revert Hp. induction js as [|j js IH]; intros Hp H; cbn [foldM] in H.
  - injection H as <-. split; [|split]; auto.
    intros _ (j & [] & _).
  - bind_inv H.
    destruct (init_alpha_step i j Hp x Hx) as (S1 & S2 & S3).
    destruct (IH x H) as (I1 & I2 & I3).
    split; [|split].
    + auto.
    + intros Ha (j' & [<-|Hin] & Hb); [apply I1, S2; assumption|].
      apply I2; [assumption | exists j'; auto].
    + intros Hn. rewrite I3, S3; [reflexivity| |].
      * intros [Ha Hb]. apply Hn. split; [assumption | exists j; cbn [In]; auto].
      * intros [Ha (j' & Hin & Hb)]. apply Hn. split; [assumption | exists j'; cbn [In]; auto].
Qed.

Lemma init_body_step (i : nat) (acc acc' : dict * expr) :
  PoincareHamiltonian.init_body pvars acc i = Ok acc' ->
  (holds_ratio (fst acc) -> holds_ratio (fst acc'))
  /\ (a = Z.of_nat i ->
      (exists j, In j (seq (i + 1) (Poincare.N pvars - (i + 1))) /\ b = Z.of_nat j) ->
      holds_ratio (fst acc'))
  /\ (~ (a = Z.of_nat i /\
         exists j, In j (seq (i + 1) (Poincare.N pvars - (i + 1))) /\ b = Z.of_nat j) ->
      dict_get (fst acc') (sym_alpha a b) = dict_get (fst acc) (sym_alpha a b)).
Proof.
  destruct acc as [Hp H0]. unfold PoincareHamiltonian.init_body. intros H.
  bind_inv H. bind_inv H. bind_inv H. injection H as <-. cbn [fst].
  destruct (init_alpha_fold i _ _ _ Hx1) as (I1 & I2 & I3).
  assert (Hsame : dict_get
            (dict_set (dict_set (dict_set (dict_set (dict_set Hp
               (sym_mu (Z.of_nat i)) (PoincareParticle.mu x))
               (sym_m (Z.of_nat i)) x0)
               (sym_M (Z.of_nat i)) (PoincareParticle.M x))
               (_get_Lambda0_symbol (Z.of_nat i)) (PoincareParticle.Lambda x))
               (_get_a0_symbol (Z.of_nat i)) (PoincareParticle.a x))
            (sym_alpha a b) = dict_get Hp (sym_alpha a b)).
  { rewrite !dict_get_set. unfold _get_a0_symbol, _get_Lambda0_symbol.
    repeat (destruct (symbol_eq_dec _ _) as [?|_]; [discriminate|]). reflexivity. }
  split; [|split].
  - intros (pa & pb & Ha & Hb & Hget). apply I1. exists pa, pb.
    rewrite Hsame. auto.
  - exact I2.
  - intros Hn. rewrite (I3 Hn). exact Hsame.
Qed.

Lemma init_body_fold (idx : list nat) (acc acc' : dict * expr) :
  foldM (PoincareHamiltonian.init_body pvars) idx acc = Ok acc' ->
  (holds_ratio (fst acc) -> holds_ratio (fst acc'))
  /\ ((exists i, In i idx /\ a = Z.of_nat i /\
       exists j, In j (seq (i + 1) (Poincare.N pvars - (i + 1))) /\ b = Z.of_nat j) ->
      holds_ratio (fst acc'))
  /\ (~ (exists i, In i idx /\ a = Z.of_nat i /\
         exists j, In j (seq (i + 1) (Poincare.N pvars - (i + 1))) /\ b = Z.of_nat j) ->
      dict_get (fst acc') (sym_alpha a b) = dict_get (fst acc) (sym_alpha a b)).
Proof.
  revert acc. induction idx as [|i idx IH]; intros acc H; cbn [foldM] in H.
  - injection H as <-. split; [|split]; auto.
    intros (i & [] & _).
  - bind_inv H.
    destruct (init_body_step i acc x Hx) as (S1 & S2 & S3).
    destruct (IH x H) as (I1 & I2 & I3).
    split; [|split].
    + auto.
    + intros (i' & [<-|Hin] & Ha & Hb); [apply I1, S2; assumption|].
      apply I2. exists i'. auto.
    + intros Hn. rewrite I3, S3; [reflexivity| |].
      * intros [Ha Hb]. apply Hn. exists i. cbn [In]. auto.
      * intros (i' & Hin & Hab). apply Hn. exists i'. cbn [In]. auto.
Qed.

Lemma alpha_pair_in_loops :
  (exists i, In i (seq 1 (Poincare.N pvars - 1)) /\ a = Z.of_nat i /\
     exists j, In j (seq (i + 1) (Poincare.N pvars - (i + 1))) /\ b = Z.of_nat j)
  <-> (1 <= a < b)%Z /\ (b < Z.of_nat (Poincare.N pvars))%Z.
Proof.
  split.
  - intros (i & Hi & -> & j & Hj & ->). apply in_seq in Hi, Hj. lia.
  - intros [Hab Hb]. exists (Z.to_nat a). split; [apply in_seq; lia|].
    split; [lia|]. exists (Z.to_nat b). split; [apply in_seq; lia | lia].
Qed.

Lemma Hparams_alpha (self : PoincareHamiltonian.t) :
  PoincareHamiltonian.init pvars = Ok self ->
  ((1 <= a < b)%Z /\ (b < Z.of_nat (Poincare.N pvars))%Z ->
   holds_ratio (PoincareHamiltonian.Hparams self))
  /\ (~ ((1 <= a < b)%Z /\ (b < Z.of_nat (Poincare.N pvars))%Z) ->
      dict_get (PoincareHamiltonian.Hparams self) (sym_alpha a b) = Raise KeyError).
Proof.
  unfold PoincareHamiltonian.init. intros H. cbv zeta in H.
  bind_inv H. destruct x as [Hp H0]. injection H as <-.
  cbn [PoincareHamiltonian.Hparams].
  destruct (init_body_fold _ _ _ Hx) as (_ & I2 & I3). cbn [fst] in I2, I3.
  split.
  - intros Hab. apply I2, alpha_pair_in_loops, Hab.
  - intros Hn. rewrite I3.
    + cbn [dict_get]. destruct (symbol_eq_dec _ _); [discriminate|reflexivity].
    + intros Hex. apply Hn, alpha_pair_in_loops, Hex.
Qed.
End AlphaTable.

(** The table [Hparams] that [PoincareHamiltonian.__init__] builds holds a
    ratio [alpha_{a,b}] exactly for the pairs [1 <= a < b < N]: there its
    value is [particles[a].a / particles[b].a]; the lookup of any other pair
    raises [KeyError]. *)
Theorem PoincareHamiltonian_init_alpha_table
    (pvars : Poincare.t) (self : PoincareHamiltonian.t) (a b : Z) :
  PoincareHamiltonian.init pvars = Ok self ->
  ((1 <= a < b)%Z /\ (b < Z.of_nat (Poincare.N pvars))%Z ->
   exists pa pb,
     Poincare.PoincareParticles.getitem pvars a = Ok pa
     /\ Poincare.PoincareParticles.getitem pvars b = Ok pb
     /\ dict_get (PoincareHamiltonian.Hparams self) (sym_alpha a b)
        = Ok (PoincareParticle.a pa / PoincareParticle.a pb))
  /\ (~ ((1 <= a < b)%Z /\ (b < Z.of_nat (Poincare.N pvars))%Z) ->
      dict_get (PoincareHamiltonian.Hparams self) (sym_alpha a b) = Raise KeyError).
Proof. intros Hinit. exact (Hparams_alpha pvars a b self Hinit). Qed.

Lemma PoincareHamiltonian_init_alpha_table_witness :
  exists self,
    PoincareHamiltonian.init two_circular_planets = Ok self
    /\ (exists pa pb,
          Poincare.PoincareParticles.getitem two_circular_planets 1 = Ok pa
          /\ Poincare.PoincareParticles.getitem two_circular_planets 2 = Ok pb
          /\ dict_get (PoincareHamiltonian.Hparams self) (sym_alpha 1 2)
             = Ok (PoincareParticle.a pa / PoincareParticle.a pb))
    /\ dict_get (PoincareHamiltonian.Hparams self) (sym_alpha 2 1) = Raise KeyError.
Proof.
  eexists. split; [reflexivity|]. split.
  - apply (PoincareHamiltonian_init_alpha_table two_circular_planets _ 1 2 eq_refl).
    split; [lia | vm_compute; reflexivity].
  - apply (PoincareHamiltonian_init_alpha_table two_circular_planets _ 2 1 eq_refl).
    intros [Hlt _]. lia.
Defined.

(** On the Hamiltonian [PoincareHamiltonian.__init__] has built,
    [add_monomial_term] raises [KeyError] for every pair of indices that is
    not [1 <= indexIn < indexOut < N], whatever the other arguments: the
    inner body comes first, and the star is no body of a term. *)
Theorem add_monomial_term_needs_inner_outer
    (DFdict : Type) (DFCoeff_C : list Z -> list Z -> DFdict)
    (_p1_p2_from_k_nu : list Z -> list Z -> Z * Z)
    (eval_DFCoeff_delta_expansion : DFdict -> Z -> Z -> Z -> R -> list ((Z * Z) * R))
    (get_DFCoeff_symbol : list Z -> list Z -> Z * Z -> Z -> Z -> symbol)
    (pvars : Poincare.t) (self : PoincareHamiltonian.t)
    (kvec nuvec : list Z) (indexIn indexOut lmax : Z) (update : bool) :
  PoincareHamiltonian.init pvars = Ok self ->
  ~ ((1 <= indexIn < indexOut)%Z /\ (indexOut < Z.of_nat (Poincare.N pvars))%Z) ->
  PoincareHamiltonian.add_monomial_term DFdict DFCoeff_C _p1_p2_from_k_nu
    eval_DFCoeff_delta_expansion get_DFCoeff_symbol
    self kvec nuvec indexIn indexOut lmax update
  = Raise KeyError.
Proof.
  intros Hinit Hn.
  destruct (Hparams_alpha pvars indexIn indexOut self Hinit) as [_ Hkey].
  assert (Hnone : PoincareHamiltonian.resonance_indices self = []).
  { unfold PoincareHamiltonian.init in Hinit. cbv zeta in Hinit.
    bind_inv Hinit. destruct x. injection Hinit as <-. reflexivity. }
  unfold PoincareHamiltonian.add_monomial_term.
  rewrite Hnone. cbn [existsb]. cbv zeta.
  rewrite (Hkey Hn). reflexivity.
Qed.

Lemma add_monomial_term_needs_inner_outer_witness :
  exists self,
    PoincareHamiltonian.init two_circular_planets = Ok self
    /\ add_monomial_term_example self [3; -2; -1; 0; 0; 0]%Z [0; 0; 0; 0]%Z 2 1 0 true
       = Raise KeyError.
Proof.
  eexists. split; [reflexivity|].
  apply (add_monomial_term_needs_inner_outer unit (fun _ _ => tt) (fun _ _ => (0%Z, 0%Z))
           one_coefficient (fun _ _ _ _ _ => sym_other "C") two_circular_planets).
  - reflexivity.
  - intros [Hlt _]. lia.
Defined.
